(* ===== verification/_CoqProject ===== *)
-Q . S2P
Prelude.v
Deal.v
Fsm.v
PayTypes.v
DataTransfer.v
ClientFsm.v
Retrieval.v
Transport.v
ProviderFsm.v
Revalidator.v
Cbor.v
DataRef.v
Index.v
IndexLfu.v
IndexSpec.v
PayInfo.v
PayCodec.v
PayStore.v
PayChain.v
PayChannel.v
PayManager.v
Locks.v
Session.v
PeerMgr.v
Greet.v
Replication.v
DealCodec.v
Provider.v
Routing.v
Dag.v
Tx.v
Pull.v
Fil.v
FilCodec.v
TipSet.v
Wallet.v
Node.v
Message.v
LazySeek.v
Server.v
Clients.v
Storage.v
Http.v
Archive.v
