(* ===== verification/Prelude.v ===== *)
(** * pop: verification of the retrieval and payment core

    A pop node caches content and sells it.  A client finds providers by gossip,
    executes one of their offers by proposing a retrieval deal, data flows over
    graphsync, and the client pays with vouchers on a payment channel each time
    the transfer reaches an interval boundary.  What a node holds is listed in a
    content index, and content is replicated to the peers of its regions.  This
    library models the exchange (routing, offers, transactions, index,
    replication), the two retrieval state machines, the provider's validators
    and the payment system, and proves what the parties rely on.

    ** Files and the code they model

    - [Prelude]: Go's integers, errors and effects; automation; generic lemmas.
    - [Deal] (retrieval/deal/types.go, status.go, params.go, utils.go): statuses,
      deal records, prices and payment intervals.
    - [Fsm]: the interface of the go-statemachine package: a machine is data, and
      the class [FsmRuntime] states how the package interprets it.
    - [PayTypes]: vouchers, the answers of the payment system, the interface
      [Manager] and the class [VoucherContract] its clients rely on.
    - [DataTransfer]: the part of go-data-transfer's interface the code reads.
    - [ClientFsm] (retrieval/client/fsm.go, events.go, dtsubscriber.go, the
      initial state of retrieval/manager.go): [client_chart] and [client_action]
      are [FSMEvents], [StateEntryFuncs] maps each status to its handler.
    - [Retrieval] (retrieval/manager.go, counter.go): the deals of a client in a group of
      machines, the class [ClientGroup]; [client_runs] is what a client goes through.
    - [Transport] (retrieval/gsconfig.go): the store a transfer uses.
    - [ProviderFsm] (retrieval/provider/fsm.go, events.go, dtsubscriber.go).
    - [Revalidator] (retrieval/validators.go, environments.go, askstore.go): the
      request validator, the meter of the data sent and the ask store.
    - [Cbor]: the patterns the generated codecs repeat, over the primitives of
      cbor-gen; [codec w r a] says that what [w] writes [r] reads back as [a].
    - [DataRef] (exchange/index.go, index_cbor_gen.go): content references.
    - [Index] (exchange/index.go): the index over a heap of shared references,
      with its two linked lists; [IndexLfu] has its representation invariant and
      [IndexSpec] what it promises.
    - [PayInfo] (payments/store.go, records): channel, voucher and message
      records; the interface [Store] with its classes of laws [StoreLaws] and
      [StoreComplete].
    - [PayCodec] (payments/store_cbor_gen.go): writers and readers of the records.
    - [PayStore] (payments/store.go, operations): the store over a key-value
      datastore; it implements [StoreLaws].
    - [PayChain] (payments/message.go, filecoin/types.go, mpoolPush and
      increaseGas of payments/channel.go): messages to the chain.
    - [PayChannel] (payments/channel.go): the funds queue, the messages in
      flight, vouchers and their accounting.
    - [PayManager] (payments/manager.go, SettlePaymentChannels of
      retrieval/manager.go): accessors, inbound channels, redeeming, settling and
      collecting; it implements [VoucherContract].
    - [Locks] (payments/manager.go, payments/channel.go): every operation and goroutine of
      the payment system as the locks it takes, the shared data it accesses and its waits,
      run by threads that step in any order.
    - [Session] (exchange/tx.go, sessionWorker): one function per message the
      worker selects on; [worker_run] takes them in every order.
    - [PeerMgr] (exchange/regions.go, peermgr.go, peermgr_cbor_gen.go); [Greet] has the
      streams on which two nodes greet each other.
    - [Replication] (exchange/replication.go, replication_cbor_gen.go): dispatching
      and index fetching as step relations, requests and vouchers over the index.
    - [DealCodec] (retrieval/deal/types_cbor_gen.go): the codecs of the deal records;
      [yields] of [Cbor] says what a reader answers whatever its input.
    - [Provider] (retrieval/environments.go, provider side): the revalidator over the
      class [ProviderGroup] of state machines and the payment system.
    - [Routing] (exchange/routing.go): streams, the tracer, queries and offers;
      [spread] is how a query travels and [relay] how an offer comes back.
    - [Dag] (internal/utils/stat.go, the entry maps of exchange/tx.go): the classes
      [Blockstore] and [Ipld] with their laws, moving blocks, reading entry maps.
    - [Tx] (exchange/tx.go, exchange.go, node/offermgr.go): transactions, the query
      handler, the retrieval made for the replication, the node's offers.
    - [Pull] (retrieval/environments.go, client side): the environment of the client's
      machine, and the negotiation of a deal from query to acceptance.
    - [Fil] (filecoin/types.go, amounts): printing and parsing FIL over decimal
      strings.
    - [FilCodec] (filecoin/types.go, types_cbor_gen.go): chain records, their codecs
      and identifiers; [with_codecs] gives them to the services of [PayChain].
    - [TipSet] (filecoin/types.go): tipsets, their order and their keys.
    - [Wallet] (wallet/wallet.go, secp.go): keys, signatures and transfers over the
      classes [KeystoreLaws] and [WalletLaws]; [wallet_reach] is what a wallet goes
      through, restarts included.
    - [Node] (node/popn.go): the commands of a node on its transaction, the lock
      over it, and the loading of content.
    - [Message] (node/message.go, serveConn of node/server.go): frames and the loop
      that serves a connection.
    - [LazySeek] (node/lazyseek.go): the seeker files are served through.
    - [Server] (node/message.go, node/wallet.go, Ping and Off of node/popn.go):
      dispatch of commands; [daemon_step] interleaves commands, the tasks that run
      on their own and the commits in flight.
    - [Clients] (node/message.go, connections of node/server.go, receive of
      cmd/pop/cli/cli.go): the client side of the command protocol and notifications.
    - [Storage] (filecoin/storage/storer.go, adapter.go): finding miners, quotes,
      proposals, funding and publication of storage deals.
    - [Http] (node/server.go): the handlers of GET and POST requests, on the node.
    - [Archive] (node/archive.go, archive_cbor_gen.go): archives of a DAG.

    A query goes from [Tx.TxQuery] to [Routing.Query], reaches [Tx.handleQuery] of a
    provider through [Routing.pump_message], and comes back by [Routing.handleOffer]
    to the worker of [Session], which calls [Tx.Execute]; its proposal is checked by
    [Revalidator.CheckDealParams] against the ask [handleQuery] recorded.  [Pull] puts
    these together with the codec of the proposal, and [Provider] the payments that follow
    with the codec of [Payment], the meter and the payment system.

    The commands of the clients ([Clients.client_command]) reach [Server.GotMsg] through
    [Message.serveConn], and notifications go back by [Clients.cs_send];
    they stage and commit with [Tx.Put] and [Tx.Commit], publish with [Index.SetRef],
    and load with [Tx.TxQuery] and the two halves of [Tx.Execute].

    The retrieval client is verified against [VoucherContract], payment channels
    against [StoreLaws], and the revalidator against [RevalidatorLaws]; [PayManager],
    [PayStore] and [Provider] discharge the three classes.

    ** How Go is modelled

    - A computation is a [go S E A]: a function from a state to the new state
      and an [outcome]: [Ok], [Err], [Panic] (a nil dereference or an explicit
      panic) or [Hang] (a wait or loop that never ends).  State changes made
      before an error or a panic are kept, as in Go.
    - A [uint64] is a [Z] whose arithmetic goes through [u64]; [i64] is the
      conversion to [int64].  Token amounts are big integers, that is [Z].
    - A pointer to an object with one owner is the value it points to; a pointer
      that may be nil is an [option].
    - Errors are compared the way the code compares them, by identity of the
      sentinel, and carry the text the code builds from them.
    - A section of an operation under a lock is atomic; for the payment system
      [Locks] shows which data its locks keep for one section at a time, and which
      they do not: the record of a channel is written by [Settle] and [collectForEpoch]
      without a lock, and under two locks for an inbound channel ([record_race]).  A
      goroutine is a task appended to [w_tasks] and run later by [run_task], one locked section at a time; a value sent
      on a channel is appended to [w_replies].  [pay_step] interleaves requests,
      cancellations, completions and tasks in every order.
    - Code outside the repository is a parameter: the runtime of the state
      machines ([FsmRuntime]), the datastore ([Datastore], [DatastoreLaws]), the
      CBOR primitives ([CborLib], [CborLaws], [ScanLaws]), chain, wallet and
      serialisation ([Env]), block stores and IPLD nodes ([Blockstore], [Ipld]),
      the HAMT and block store of the index ([IndexEnv]), data transfer and
      multistore ([ReplEnv], [TxServices]), dag-cbor encoding of selectors, files and
      formatting ([NodeEnv], [DaemonEnv], [Writer], [ReadSeeker]), the storage market
      ([MarketAPI], [MarketNet], [MarketLib]), parsed requests ([HttpEnv]),
      the groups of machines ([ClientGroupLaws], [ProviderGroupLaws]), dag-cbor
      ([DagCbor]), JSON ([JsonLaws]).  Each
      class of laws has an instance the witnesses use: [documented_runtime],
      [map_ds], the bit codec of [Cbor], [sample_env], [table_store], [memstore],
      [mem_keystore], [wire], [poem_seeker], [toy_market], [mem_group],
      [map_provider_group], [string_selectors], [toy_json_lib].  Hashes are idealised as
      free of collisions ([HashLaws]).
    - Go walks maps and sets in any order: the walk is a function with the law
      that it lists the map, or an argument of the operation.

    ** Fuel and bounds

    The interval loops of [Deal] do not recurse on data.  They run with
    [interval_steps] iterations, a bound that depends on the parameters and the position; [NextInterval_correct] shows that it is enough
    whenever the boundaries fit in 64 bits, and
    [NextInterval_zero_params_diverges] that with zero parameters no number of
    iterations is, which is why running out of it is [Hang].
    [open_loop] of [Routing] has one unit per attempt and [OpenStream_six_tries]
    shows that it never runs out.  [wait_transfer] of [Replication] polls a
    transfer for as long as its fuel lasts, and the theorems about it hold for
    every fuel.  [relay] takes one unit per hop, and [offers_reach_publisher] shows
    that as many as there are peers with the query are enough.  [decode_loop] of
    [TipSet] takes one unit per identifier and is given one per byte.  [serve_loop] of
    [Message] takes one unit per message and is given one per byte and one more;
    [serveConn_ends] shows that it never runs out.  [actually_seek] of [LazySeek] is
    given two rounds, of which [lazy_seeker_view] shows that one is used at most.
    [load_pages] of [Storage] takes one unit per page; [LoadMiners_ends] shows when as
    many as the list has are enough, and [LoadMiners_hangs] when none are.
    [receive] of [Clients] takes one unit per notification and one more, which
    [notifications_heard] shows to be enough.
    Every other function is structural on the data it walks.

    ** What the theorems show

    - Credit: the provider lets data through unpaid only below the current
      boundary, with everything up to two boundaries below covered
      ([provider_bounded_credit]); what a payment must cover ([paymentOwed_spec]);
      which requests are accepted ([ValidatePull_accepts]); with the payment system in
      place ([provider_discharges]) every token a deal is credited with is backed by a
      voucher its channel can pay ([payment_backed]).
    - Negotiation: from query to accepted deal ([negotiation_accepted]); whatever bytes a
      peer sends, what is read is in the range of its types ([deal_messages_typed]).
    - Client: funds spent are the price of the bytes paid for
      ([client_accounting]), each voucher pays for what was received
      ([SendFunds_pays_for_received]), handlers trigger events the chart accepts
      ([client_handlers_accepted]) and cancelling ends the deal; all deals of a client
      are accounted for ([client_deals_invariant]), and those that lack funds restart
      ([restart_rechecks]).
    - Provider: funds recorded are the payments accepted, intervals advance along
      boundaries, handlers end the deal.
    - Intervals: [NextInterval] is the first boundary beyond the position and
      [IntervalLowerBound] stays below it, at 64-bit width.
    - Vouchers: accepted only when the channel can pay for all of them
      ([addVoucher_solvent]), created with a fresh nonce and the requested amount
      ([createVoucher_spec]), lanes allocated without repetition, the best one of
      each lane redeemed.
    - Funds queue: each request is answered at most once, a task serves all
      queued requests, nothing is sent while a message is pending, and the ledger
      of a channel follows its messages.
    - Locks: queues, requests and the cache of accessors are never accessed at once by two
      threads, one of them writing ([accesses_exclude]), and the locks never deadlock but
      for the one the collection loop keeps ([locks_finish]).  The array behind a queue is
      not protected ([cancel_race]).
    - Persistence: records and deal states are read back as written, but for the
      settlement epoch; the store implements its contract.
    - Index: its representation invariant is kept by every operation
      ([index_invariant]); reads promote, additions evict from the least read
      bucket only, listings are complete.
    - Offers: the worker loses and repeats none ([worker_conserves_offers]),
      an offer finds its way back to the publisher of the query
      ([offers_reach_publisher]), a direct query yields the provider's terms
      ([QueryProvider_terms]), and the proposal an offer leads to is accepted
      ([queried_offer_accepted]) unless a dearer query came between
      ([later_query_rejects]).
    - Transactions: what is staged is what the root loads as ([Put_staged]), and
      closing moves the blocks of committed transactions only
      ([TxClose_moves_blocks]).
    - Wallet: the keys of cache and keystore agree ([wallet_invariant]), what is
      signed verifies ([Sign_verifies]), a transfer pays the amount typed
      ([Transfer_pays]), listing is complete.
    - Chain records: an identifier determines its message
      ([SignedMessage_Cid_identifies]), headers are read back, a tipset does not
      depend on the order of its blocks ([NewTipSet_canonical]), and amounts are
      read back as printed ([ParseFIL_String]).
    - Node: what a put stages and reports ([node_Put_reports]), what a commit
      publishes ([Commit_publishes_or_blocks]), when a load says it is complete
      ([Load_completed]); at most one commit is in flight ([commits_exclusive]).
    - Daemon: messages are handled in order ([serveConn_handles]), commands are performed
      as given, strings that are not UTF-8 apart ([commands_performed]), every client hears every notification
      ([notifications_heard]) and a connection
      ends with its input ([serveConn_ends]); keys move between daemons
      ([exported_key_imports]); the lazy seeker reads like a view that is always in
      place ([lazy_seeker_view]).
    - HTTP: what a GET serves ([get_serves]), what an upload publishes
      ([upload_publishes]) and that it never succeeds without a staged transaction
      ([upload_panics]).
    - Storage: the deals proposed are as long as asked for and funded before data is
      pushed ([Store_funds]), a search ends with miners that fit or panics at an ask without a
      signature ([LoadMiners_ends]), unless the list does not fill its pages ([LoadMiners_hangs]), a published deal
      is found in the message of its miner ([ValidatePublishedDeal_id]).
    - Peers: greetings are mutual between nodes with a region code in common, which all
      custom regions share ([greetings_mutual]); a retrieval uses its own store
      ([retrieval_store_used]), and so does whoever sends its number
      ([foreign_proposal_store]).
    - Replication: which pulls are accepted, how far a dispatch goes, and that
      requests keep the index consistent.
    - Errors: theorems whose name ends in _hangs, _panics, _dropped, _lost,
      _ignored, _differ, _or_hang, _starves, _fails, _rejects, _other_deal,
      _blocks, _forever, _crashes, _race or _collide, [ceiling_is_floor] and
      [foreign_proposal_store], state where the code does not do what it means to.

    ** Not modelled

    Construction of the services (New of the node, the exchange, the retrieval and the
    payment system, and their options), which only registers parts with each other; event
    publication; the flags and the output of the command line, sockets and the file system
    layout; the bindings to Lotus, the list of miners and BLS, which forward to services;
    selectors, which a library builds; JSON forms of records and printing of sizes in
    floating point; test networks and plans.  Contexts that end are modelled where the code
    looks at them in a loop ([serve_loop], [receive]) or cancels a request ([cancel_req]);
    timers are events that may come at any time.  The results of a load carry no times.  A
    call of [Revalidate] is one step although the revalidator reads its table under a shared
    lock, so that two payments of one deal processed at the same time are not
    modelled; in [Locks] the calls to chain, wallet and datastore in a section return, and so
    does handing a request its answer. *)
From stdpp Require Export base list gmap strings sorting pretty.
From Stdlib Require Export ZArith Lia.

#[global] Open Scope Z_scope.

(** ** Fixed-width integers

    A Go [uint64] is a [Z] in [0, 2^64); every arithmetic step of the source
    that can leave the interval goes through [u64]. *)

Definition two64 : Z := 18446744073709551616.

Definition two63 : Z := 9223372036854775808.

Definition u64 (z : Z) : Z := z mod two64.

(** The conversion [int64(x)] of a 64-bit pattern. *)
Definition i64 (z : Z) : Z :=
  let w := u64 z in if w <? two63 then w else w - two64.

Definition is_u64 (z : Z) : Prop := 0 <= z < two64.

Definition is_i64 (z : Z) : Prop := - two63 <= z < two63.

(** ** Arbitrary-precision integers

    [big.Int] of go-state-types wraps [math/big]; its [Div] is Euclidean
    division and its [Uint64] returns the low 64 bits of the absolute value. *)

Definition big_div (a b : Z) : Z :=
  if 0 <? b then a / b else - (a / - b).

Definition big_uint64 (a : Z) : Z := u64 (Z.abs a).

(** ** Outcomes of Go code

    [Err] is a returned error, [Panic] a run-time panic (a nil dereference or
    an index out of range), [Hang] a call that never returns. *)

Inductive outcome (E A : Type) : Type :=
| Ok (a : A)
| Err (e : E)
| Panic
| Hang.
Arguments Ok {E A} _.
Arguments Err {E A} _.
Arguments Panic {E A}.
Arguments Hang {E A}.

Definition outcome_bind {E A B} (m : outcome E A) (k : A → outcome E B) : outcome E B :=
  match m with
  | Ok a => k a
  | Err e => Err e
  | Panic => Panic
  | Hang => Hang
  end.

#[export] Instance outcome_mret E : MRet (outcome E) := λ A a, Ok a.
#[export] Instance outcome_mbind E : MBind (outcome E) := λ A B k m, outcome_bind m k.

(** A computation over a shared state: the changes made before an error or a
    panic are kept, as in the source. *)
Definition go (S E A : Type) : Type := S → S * outcome E A.

Definition go_ret {S E A} (a : A) : go S E A := λ s, (s, Ok a).

Definition go_bind {S E A B} (m : go S E A) (k : A → go S E B) : go S E B := λ s,
  match m s with
  | (s', Ok a) => k a s'
  | (s', Err e) => (s', Err e)
  | (s', Panic) => (s', Panic)
  | (s', Hang) => (s', Hang)
  end.

(** A call whose error the caller inspects instead of returning it. *)
Definition go_try {S E A} (m : go S E A) : go S E (E + A) := λ s,
  match m s with
  | (s', Ok a) => (s', Ok (inr a))
  | (s', Err e) => (s', Ok (inl e))
  | (s', Panic) => (s', Panic)
  | (s', Hang) => (s', Hang)
  end.

Definition go_err {S E A} (e : E) : go S E A := λ s, (s, Err e).
Definition go_panic {S E A} : go S E A := λ s, (s, Panic).
Definition go_hang {S E A} : go S E A := λ s, (s, Hang).
Definition go_get {S E} : go S E S := λ s, (s, Ok s).
Definition go_put {S E} (s : S) : go S E unit := λ _, (s, Ok tt).
Definition go_modify {S E} (f : S → S) : go S E unit := λ s, (f s, Ok tt).

(** A call that does not touch the state. *)
Definition go_lift {S E A} (o : outcome E A) : go S E A := λ s, (s, o).

(** An external call answering with an error or a value. *)
Definition go_sum {S E A} (r : E + A) : go S E A := λ s,
  match r with inl e => (s, Err e) | inr a => (s, Ok a) end.

Declare Scope go_scope.
Delimit Scope go_scope with go.
Notation "'let*' x ':=' m 'in' k" := (go_bind m (λ x, k))
  (at level 10, x name, m at level 100, k at level 200) : go_scope.
Notation "'do*' m 'then' k" := (go_bind m (λ _, k))
  (at level 10, m at level 100, k at level 200) : go_scope.
#[global] Open Scope go_scope.

(** ** Error values

    Errors built with [fmt.Errorf] or [errors.New] carry their message;
    [ErrWrap] is an error that quotes another one. *)

Inductive error : Type :=
| ErrMsg (s : string)
| ErrWrap (s : string) (e : error)
| ErrNotFound                      (* datastore.ErrNotFound *)
| ErrChannelNotTracked             (* payments.ErrChannelNotTracked *)
| ErrInsufficientFunds (shortfall : Z)
| ErrPause                         (* datatransfer.ErrPause *)
| ErrResume                        (* datatransfer.ErrResume *)
| ErrTerminated                    (* statemachine.ErrTerminated *)
| ErrExternal (msg : string).      (* any error of a service or library *)

#[export] Instance error_eq_dec : EqDecision error.
Proof. solve_decision. Defined.

(** The text returned by the method [Error]. *)
Fixpoint Error (e : error) : string :=
  match e with
  | ErrMsg s => s
  | ErrWrap s e' => s +:+ ": " +:+ Error e'
  | ErrNotFound => "datastore: key not found"
  | ErrChannelNotTracked => "channel not tracked"
  | ErrInsufficientFunds shortfall =>
      "not enough funds in channel to cover voucher - shortfall: " +:+ pretty shortfall
  | ErrPause => "pause channel"
  | ErrResume => "resume channel"
  | ErrTerminated => "normal shutdown of state machine"
  | ErrExternal msg => msg
  end.

(** ** Tactics and hint databases *)

Create HintDb pop discriminated.
Create Rewrite HintDb pop_rw.

(** Split the goal on every [match] and [if] whose scrutinee is a variable or
    a closed test, keeping the equations. *)
Ltac case_step :=
  match goal with
  | |- context [match ?x with _ => _ end] => destruct x eqn:?
  end.

(** Turn boolean comparisons of the context into arithmetic facts. *)
Ltac to_prop :=
  repeat match goal with
  | H : (_ <? _) = true |- _ => apply Z.ltb_lt in H
  | H : (_ <? _) = false |- _ => apply Z.ltb_ge in H
  | H : (_ <=? _) = true |- _ => apply Z.leb_le in H
  | H : (_ <=? _) = false |- _ => apply Z.leb_gt in H
  | H : (_ =? _) = true |- _ => apply Z.eqb_eq in H
  | H : (_ =? _) = false |- _ => apply Z.eqb_neq in H
  | H : negb _ = true |- _ => apply negb_true_iff in H
  | H : negb _ = false |- _ => apply negb_false_iff in H
  | H : (_ && _)%bool = true |- _ => apply andb_true_iff in H as [? ?]
  | H : (_ || _)%bool = false |- _ => apply orb_false_iff in H as [? ?]
  end.

(** Prove an equation between closed terms by evaluating both sides. *)
Ltac vm_eq := match goal with |- _ = ?b => vm_cast_no_check (eq_refl b) end.

(** Run a [go] computation in a hypothesis one call at a time. *)
Ltac go_inv H :=
  unfold go_bind, go_try, go_ret, go_err, go_sum, go_lift, go_get, go_put,
    go_modify, go_panic, go_hang in H; simpl in H;
  repeat (case_match; simpl in H; simplify_eq).

(** ** Running computations *)

(** A run whose final state is named by the run itself: only the answer is
    evaluated. *)
Lemma run_of {S E A} (m : go S E A) (s : S) (r : outcome E A) : (m s).2 = r → m s = ((m s).1, r).
Proof. intros <-. by destruct (m s). Qed.

Ltac run_eq := match goal with |- ?m ?s = (_, ?r) => refine (run_of m s r _); vm_eq end.

(** A computation that succeeds: its first call and the rest. *)
Lemma go_bind_ok {S E A B} (m : go S E A) (k : A → go S E B) s s' b :
  go_bind m k s = (s', Ok b) → ∃ s1 a, m s = (s1, Ok a) ∧ k a s1 = (s', Ok b).
Proof. unfold go_bind. destruct (m s) as [s1 [a| | |]]; naive_solver. Qed.

Lemma go_bind_err {S E A B} (m : go S E A) (k : A → go S E B) s s' e :
  go_bind m k s = (s', Err e) →
  m s = (s', Err e) ∨ ∃ s1 a, m s = (s1, Ok a) ∧ k a s1 = (s', Err e).
Proof. unfold go_bind. destruct (m s) as [s1 [a| | |]]; naive_solver. Qed.

Lemma go_try_err {S E A} (m : go S E A) s s' e : go_try m s ≠ (s', Err e).
Proof. unfold go_try. by destruct (m s) as [s1 [a| | |]]. Qed.

Lemma go_try_ok {S E A} (m : go S E A) s s' r :
  go_try m s = (s', Ok r) →
  match r with inr a => m s = (s', Ok a) | inl e => m s = (s', Err e) end.
Proof. unfold go_try. destruct (m s) as [s1 [a| | |]]; by intros [= <- <-]. Qed.

Lemma go_ret_ok {S E A} (a b : A) (s s' : S) : go_ret (E:=E) a s = (s', Ok b) → s' = s ∧ b = a.
Proof. by intros [= <- <-]. Qed.

Lemma go_lift_ok {S E A} (o : outcome E A) (s s' : S) b :
  go_lift o s = (s', Ok b) → s' = s ∧ o = Ok b.
Proof. by intros [= <- ->]. Qed.

Lemma go_sum_ok {S E A} (r : E + A) (s s' : S) b :
  go_sum r s = (s', Ok b) → s' = s ∧ r = inr b.
Proof. unfold go_sum. destruct r; by intros [= <- <-]. Qed.

(** A property of the state that a computation keeps whatever it answers. *)
Definition keeps {S E A} (P : S → S → Prop) (m : go S E A) : Prop := ∀ s, P s (m s).1.

Lemma keeps_run {S E A} (P : S → S → Prop) (m : go S E A) s s' r :
  keeps P m → m s = (s', r) → P s s'.
Proof. intros Hm H. specialize (Hm s). by rewrite H in Hm. Qed.

Section keeps.
Context {S E : Type} (P : S → S → Prop) `{!PreOrder P}.

Lemma keeps_ret {A} (a : A) : keeps (E:=E) P (go_ret a).
Proof. intros s. reflexivity. Qed.
Lemma keeps_err {A} (e : E) : keeps (A:=A) P (go_err e).
Proof. intros s. reflexivity. Qed.
Lemma keeps_panic {A} : keeps (E:=E) (A:=A) P go_panic.
Proof. intros s. reflexivity. Qed.
Lemma keeps_hang {A} : keeps (E:=E) (A:=A) P go_hang.
Proof. intros s. reflexivity. Qed.
Lemma keeps_lift {A} (o : outcome E A) : keeps P (go_lift o).
Proof. intros s. reflexivity. Qed.
Lemma keeps_sum {A} (r : E + A) : keeps P (go_sum r).
Proof. intros s. unfold go_sum. destruct r; reflexivity. Qed.

Lemma keeps_bind {A B} (m : go S E A) (k : A → go S E B) :
  keeps P m → (∀ a, keeps P (k a)) → keeps P (go_bind m k).
Proof.
  intros Hm Hk s. unfold go_bind. specialize (Hm s). destruct (m s) as [s1 [a| | |]]; simpl in *;
    [|done..]. etrans; [exact Hm|apply Hk].
Qed.

Lemma keeps_try {A} (m : go S E A) : keeps P m → keeps P (go_try m).
Proof. intros Hm s. specialize (Hm s). unfold go_try. by destruct (m s) as [s1 [a| | |]]. Qed.

End keeps.

#[export] Hint Resolve keeps_ret keeps_err keeps_panic keeps_hang keeps_lift keeps_sum
  keeps_bind keeps_try : pop.

(** Prove [keeps] by following the structure of a computation. *)
Ltac keeps_tac :=
  repeat first
    [ progress intros
    | solve [auto with pop typeclass_instances]
    | apply keeps_bind; [typeclasses eauto|..]
    | apply keeps_try
    | case_match ].

(** A computation that returned, with a result or an error. *)
Definition returns {S E A} (m : go S E A) (s s' : S) : Prop := ∃ res, go_try m s = (s', Ok res).

Lemma returns_cases {S E A} (m : go S E A) s s' :
  returns m s s' → (∃ a, m s = (s', Ok a)) ∨ (∃ e, m s = (s', Err e)).
Proof.
  intros [res H]. unfold go_try in H. destruct (m s) as [s1 [a|e| |]]; simplify_eq; eauto.
Qed.

Lemma returns_ok {S E A} (m : go S E A) s s' a : m s = (s', Ok a) → returns m s s'.
Proof. intros H. exists (inr a). unfold go_try. by rewrite H. Qed.

Lemma returned {S E A} (m : go S E A) s (a : A) : (m s).2 = Ok a → returns m s (m s).1.
Proof. intros H. by apply (returns_ok _ _ _ a), run_of. Qed.

Lemma returns_bind {S E A B} (m : go S E A) (k : A → go S E B) s s' :
  returns (go_bind m k) s s' →
  (∃ s1 a, m s = (s1, Ok a) ∧ returns (k a) s1 s') ∨ (∃ e, m s = (s', Err e)).
Proof.
  intros [res H]. unfold go_try, go_bind in H. destruct (m s) as [s1 [a|e| |]] eqn:Em; try done.
  - left. exists s1, a. split; [done|]. exists res. exact H.
  - right. exists e. congruence.
Qed.

(** When the first step returns a known result. *)
Lemma returns_step {S E A B} (m : go S E A) (k : A → go S E B) s s' s1 a :
  m s = (s1, Ok a) → returns (go_bind m k) s s' → returns (k a) s1 s'.
Proof.
  intros Hm [res H]. exists res. unfold go_try, go_bind in *. by rewrite Hm in H.
Qed.

Lemma returns_keeps {S E A} (P : S → S → Prop) (m : go S E A) s s' :
  keeps P m → returns m s s' → P s s'.
Proof.
  intros Hk [res H]. specialize (Hk s). unfold go_try in H.
  destruct (m s) as [s1 [a|e| |]]; simplify_eq; exact Hk.
Qed.

(** What holds before holds after, when the computation returns. *)
Definition preserves {S E A} (P : S → Prop) (m : go S E A) : Prop :=
  ∀ s s', P s → returns m s s' → P s'.

Lemma preserves_bind {S E A B} (P : S → Prop) (m : go S E A) (k : A → go S E B) :
  preserves P m → (∀ a, preserves P (k a)) → preserves P (go_bind m k).
Proof.
  intros Hm Hk s s' Hs [(s1 & a & H & Hret)|[e H]]%returns_bind.
  - eapply Hk; [|exact Hret]. eapply Hm; [exact Hs|]. by eapply returns_ok.
  - eapply Hm; [exact Hs|]. exists (inl e). unfold go_try. by rewrite H.
Qed.

Lemma preserves_try {S E A} (P : S → Prop) (m : go S E A) : preserves P m → preserves P (go_try m).
Proof.
  intros Hm s s' Hs [res H]. eapply Hm; [exact Hs|]. unfold go_try in H.
  destruct (m s) as [s1 [a|e| |]] eqn:Em; simplify_eq; [exists (inr a)|exists (inl e)];
    unfold go_try; by rewrite Em.
Qed.

Lemma preserves_keeps {S E A} (P : S → Prop) (Q : S → S → Prop) (m : go S E A) :
  (∀ s s', Q s s' → P s → P s') → keeps Q m → preserves P m.
Proof. intros HQ Hm s s' Hs Hret. eapply HQ; [|exact Hs]. by eapply returns_keeps. Qed.

Lemma preserves_pure {S E A} (P : S → Prop) (m : go S E A) :
  (∀ s, (m s).1 = s) → preserves P m.
Proof.
  intros Hm s s' Hs [res H]. specialize (Hm s). unfold go_try in H.
  destruct (m s) as [s1 [a|e| |]]; simpl in *; by simplify_eq.
Qed.

(** A computation that answers no error. *)
Definition no_error {S E A} (m : go S E A) : Prop := ∀ s s' e, m s ≠ (s', Err e).

Lemma no_error_bind {S E A B} (m : go S E A) (k : A → go S E B) :
  no_error m → (∀ a, no_error (k a)) → no_error (go_bind m k).
Proof.
  intros Hm Hk s s' e. unfold go_bind. specialize (Hm s). destruct (m s) as [s1 [a| | |]]; try done.
  - apply Hk.
  - intros [= -> ->]. by apply (Hm s' e).
Qed.

Lemma no_error_try {S E A} (m : go S E A) : no_error (go_try m).
Proof. intros s s' e. apply go_try_err. Qed.

Lemma no_error_if {S E A} (b : bool) (m1 m2 : go S E A) :
  no_error m1 → no_error m2 → no_error (if b then m1 else m2).
Proof. by destruct b. Qed.

(** Advance [returns] over a first step whose result is computed. *)
Ltac step_ret H := eapply returns_step in H; [|first [reflexivity|eassumption]]; cbn beta in H.

(** ** Lemmas on fixed-width integers *)

Lemma u64_small z : is_u64 z → u64 z = z.
Proof. apply Z.mod_small. Qed.

Lemma u64_range z : is_u64 (u64 z).
Proof. apply Z.mod_pos_bound. reflexivity. Qed.

Lemma u64_idemp z : u64 (u64 z) = u64 z.
Proof. apply u64_small, u64_range. Qed.

Lemma u64_add_l a b : u64 (u64 a + b) = u64 (a + b).
Proof. unfold u64. apply Zplus_mod_idemp_l. Qed.

Lemma u64_sub_l a b : u64 (u64 a - b) = u64 (a - b).
Proof. unfold u64. apply Zminus_mod_idemp_l. Qed.

Lemma i64_small z : 0 <= z < two63 → i64 z = z.
Proof.
  intros H. unfold i64. rewrite u64_small by (unfold is_u64, two64, two63 in *; lia).
  destruct (Z.ltb_spec z two63); lia.
Qed.

(** Adding to a wrapped number. *)
Lemma i64_add_l a b : i64 (i64 a + b) = i64 (a + b).
Proof.
  assert (u64 (i64 a + b) = u64 (a + b)) as Hu.
  { unfold i64, u64, two63, two64.
    destruct (Z.ltb_spec (a mod 18446744073709551616) 9223372036854775808);
      Z.div_mod_to_equations; lia. }
  unfold i64 at 1. rewrite Hu. done.
Qed.

(** Reading the 64-bit pattern of a difference back as a signed number gives
    the difference, when it fits. *)
Lemma i64_u64 z : is_i64 z → i64 (u64 z) = z.
Proof.
  intros H. unfold i64. rewrite u64_idemp. unfold is_i64, u64, two63, two64 in *.
  destruct (Z.ltb_spec (z mod 18446744073709551616) 9223372036854775808);
    destruct (Z.lt_ge_cases z 0);
    Z.div_mod_to_equations; lia.
Qed.

#[export] Hint Resolve u64_range u64_small : pop.
#[export] Hint Rewrite u64_idemp u64_add_l u64_sub_l : pop_rw.

Lemma big_uint64_small z : is_u64 z → big_uint64 z = z.
Proof. intros H. unfold big_uint64. rewrite Z.abs_eq by apply H. by apply u64_small. Qed.

Lemma big_div_pos a b : 0 < b → big_div a b = a / b.
Proof. intros H. unfold big_div. by destruct (Z.ltb_spec 0 b); [|lia]. Qed.

(** ** Strings *)

Lemma string_app_assoc (a b c : string) : a +:+ b +:+ c = (a +:+ b) +:+ c.
Proof. induction a as [|x a IH]; [done|]. exact (f_equal (String x) IH). Qed.

Lemma string_app_empty_r (a : string) : a +:+ EmptyString = a.
Proof. induction a as [|x a IH]; [done|]. exact (f_equal (String x) IH). Qed.

Lemma string_app_inv_l (a b c : string) : a +:+ b = a +:+ c → b = c.
Proof. induction a as [|x a IH]; [done|]. simpl. intros [= H]. by apply IH. Qed.

Lemma string_length_app (a b : string) :
  String.length (a +:+ b) = (String.length a + String.length b)%nat.
Proof. induction a as [|x a IH]; [done|]. exact (f_equal S IH). Qed.

Lemma substring_length n m s : (String.length (String.substring n m s) <= m)%nat.
Proof.
  revert n m. induction s as [|c s IH]; intros [|n] [|m]; simpl; try lia.
  - specialize (IH O m). lia.
  - specialize (IH n O). lia.
  - specialize (IH n (S m)). lia.
Qed.

(** ** Sums over lists *)

Definition sumZ {A} (f : A → Z) (l : list A) : Z := foldr (λ x acc, f x + acc) 0 l.

Lemma sumZ_nil {A} (f : A → Z) : sumZ f [] = 0.
Proof. reflexivity. Qed.

Lemma sumZ_cons {A} (f : A → Z) x l : sumZ f (x :: l) = f x + sumZ f l.
Proof. reflexivity. Qed.

Lemma sumZ_app {A} (f : A → Z) l1 l2 : sumZ f (l1 ++ l2) = sumZ f l1 + sumZ f l2.
Proof. induction l1 as [|x l1 IH]; simpl; [done|]. rewrite IH. lia. Qed.

#[export] Instance sumZ_Permutation {A} (f : A → Z) : Proper ((≡ₚ) ==> (=)) (sumZ f).
Proof. intros l1 l2 H. induction H; simpl; lia. Qed.

Lemma sumZ_nonneg {A} (f : A → Z) l : Forall (λ x, 0 <= f x) l → 0 <= sumZ f l.
Proof. induction 1; simpl; lia. Qed.

#[export] Hint Rewrite @sumZ_nil @sumZ_cons @sumZ_app : pop_rw.

(** A left fold that adds is the sum. *)
Lemma foldl_sumZ {A} (f : A → Z) l a : foldl (λ acc x, acc + f x) a l = a + sumZ f l.
Proof. revert a. induction l as [|x l IH]; intros a; simpl; [lia|]. rewrite IH. lia. Qed.
