(* ===== verification/Deal.v ===== *)
(** * Retrieval deal data (retrieval/deal)

    Statuses, deal parameters, proposals, responses and the deal state kept by
    the retrieval client and by the provider, with the payment interval
    arithmetic both sides use.  Amounts ([abi.TokenAmount]) are [Z]; counters
    and intervals are [uint64]. *)
From S2P Require Import Prelude.

(** Content identifiers, addresses, peer identifiers and byte strings are
    opaque strings; the undefined identifier and address are empty. *)
Abbreviation cid := string (only parsing).
Abbreviation address := string (only parsing).
Abbreviation peer_id := string (only parsing).
Abbreviation bytes := string (only parsing).

Definition Undef : string := EmptyString.

(** ** Deal statuses (status.go) *)

Inductive Status : Type :=
| StatusNew
| StatusUnsealing
| StatusUnsealed
| StatusWaitForAcceptance
| StatusPaymentChannelCreating
| StatusPaymentChannelAddingFunds
| StatusAccepted
| StatusFundsNeededUnseal
| StatusFailing
| StatusRejected
| StatusFundsNeeded
| StatusSendFunds
| StatusSendFundsLastPayment
| StatusOngoing
| StatusFundsNeededLastPayment
| StatusCompleted
| StatusDealNotFound
| StatusErrored
| StatusBlocksComplete
| StatusFinalizing
| StatusCompleting
| StatusCheckComplete
| StatusCheckFunds
| StatusInsufficientFunds
| StatusPaymentChannelAllocatingLane
| StatusCancelling
| StatusCancelled
| StatusClientWaitingForLastBlocks
| StatusPaymentChannelAddingInitialFunds
| StatusOther (n : N).  (* the integers beyond the constants *)

#[export] Instance Status_eq_dec : EqDecision Status.
Proof. solve_decision. Defined.

(** The [uint64] value of a status ([iota] order of the constants). *)
Definition Status_code (s : Status) : Z :=
  match s with
  | StatusNew => 0
  | StatusUnsealing => 1
  | StatusUnsealed => 2
  | StatusWaitForAcceptance => 3
  | StatusPaymentChannelCreating => 4
  | StatusPaymentChannelAddingFunds => 5
  | StatusAccepted => 6
  | StatusFundsNeededUnseal => 7
  | StatusFailing => 8
  | StatusRejected => 9
  | StatusFundsNeeded => 10
  | StatusSendFunds => 11
  | StatusSendFundsLastPayment => 12
  | StatusOngoing => 13
  | StatusFundsNeededLastPayment => 14
  | StatusCompleted => 15
  | StatusDealNotFound => 16
  | StatusErrored => 17
  | StatusBlocksComplete => 18
  | StatusFinalizing => 19
  | StatusCompleting => 20
  | StatusCheckComplete => 21
  | StatusCheckFunds => 22
  | StatusInsufficientFunds => 23
  | StatusPaymentChannelAllocatingLane => 24
  | StatusCancelling => 25
  | StatusCancelled => 26
  | StatusClientWaitingForLastBlocks => 27
  | StatusPaymentChannelAddingInitialFunds => 28
  | StatusOther n => 29 + Z.of_N n
  end.

(** The human readable table [Statuses]. *)
Definition Statuses (s : Status) : string :=
  match s with
  | StatusNew => "DealStatusNew"
  | StatusUnsealing => "DealStatusUnsealing"
  | StatusUnsealed => "DealStatusUnsealed"
  | StatusWaitForAcceptance => "DealStatusWaitForAcceptance"
  | StatusPaymentChannelCreating => "DealStatusPaymentChannelCreating"
  | StatusPaymentChannelAddingFunds => "DealStatusPaymentChannelAddingFunds"
  | StatusAccepted => "DealStatusAccepted"
  | StatusFundsNeededUnseal => "DealStatusFundsNeededUnseal"
  | StatusFailing => "DealStatusFailing"
  | StatusRejected => "DealStatusRejected"
  | StatusFundsNeeded => "DealStatusFundsNeeded"
  | StatusSendFunds => "DealStatusSendFunds"
  | StatusSendFundsLastPayment => "DealStatusSendFundsLastPayment"
  | StatusOngoing => "DealStatusOngoing"
  | StatusFundsNeededLastPayment => "DealStatusFundsNeededLastPayment"
  | StatusCompleted => "DealStatusCompleted"
  | StatusDealNotFound => "DealStatusDealNotFound"
  | StatusErrored => "DealStatusErrored"
  | StatusBlocksComplete => "DealStatusBlocksComplete"
  | StatusFinalizing => "DealStatusFinalizing"
  | StatusCompleting => "DealStatusCompleting"
  | StatusCheckComplete => "DealStatusCheckComplete"
  | StatusCheckFunds => "DealStatusCheckFunds"
  | StatusInsufficientFunds => "DealStatusInsufficientFunds"
  | StatusPaymentChannelAllocatingLane => "DealStatusPaymentChannelAllocatingLane"
  | StatusCancelling => "DealStatusCancelling"
  | StatusCancelled => "DealStatusCancelled"
  | StatusClientWaitingForLastBlocks => "DealStatusWaitingForLastBlocks"
  | StatusPaymentChannelAddingInitialFunds => "DealStatusPaymentChannelAddingInitialFunds"
  | StatusOther _ => EmptyString
  end.

(** The constants, in the order of their values. *)
Definition all_statuses : list Status :=
  [StatusNew; StatusUnsealing; StatusUnsealed; StatusWaitForAcceptance;
   StatusPaymentChannelCreating; StatusPaymentChannelAddingFunds; StatusAccepted;
   StatusFundsNeededUnseal; StatusFailing; StatusRejected; StatusFundsNeeded;
   StatusSendFunds; StatusSendFundsLastPayment; StatusOngoing;
   StatusFundsNeededLastPayment; StatusCompleted; StatusDealNotFound; StatusErrored;
   StatusBlocksComplete; StatusFinalizing; StatusCompleting; StatusCheckComplete;
   StatusCheckFunds; StatusInsufficientFunds; StatusPaymentChannelAllocatingLane;
   StatusCancelling; StatusCancelled; StatusClientWaitingForLastBlocks;
   StatusPaymentChannelAddingInitialFunds].

(** ** Parameters, proposals and responses (types.go) *)

(** Parameters requested for a deal; [Selector] is the raw CBOR, [None] for a nil pointer. *)
Record Params : Type := MkParams {
  Selector : option bytes;
  PieceCID : option cid;
  PricePerByte : Z;
  PaymentInterval : Z;
  PaymentIntervalIncrease : Z;
  UnsealPrice : Z
}.


Record Proposal : Type := MkProposal {
  PayloadCID : cid;
  ID : Z;
  p_Params : Params
}.


Record Response : Type := MkResponse {
  r_Status : Status;
  r_ID : Z;
  r_PaymentOwed : Z;
  r_Message : string
}.


(** [cbg.CborNull]: the one-byte CBOR encoding of null. *)
Definition CborNull : bytes := String (Ascii.ascii_of_nat 246) EmptyString.

Definition SelectorSpecified (p : Params) : bool :=
  match Selector p with
  | None => false
  | Some raw => negb (String.eqb raw CborNull)
  end.

(** Building parameters encodes the selector node with dag-cbor, a library
    call: [encode] stands for it.  A nil node is [None]. *)
Definition NewParams {Node} (encode : Node → error + bytes) (pricePerByte paymentInterval
    paymentIntervalIncrease : Z) (sel : option Node) (pieceCid : option cid)
    (unsealPrice : Z) : outcome error Params :=
  match sel with
  | None => Err (ErrMsg "selector required")
  | Some nd =>
    match encode nd with
    | inl e => Err (ErrWrap "error encoding selector" e)
    | inr raw =>
      Ok (MkParams (Some raw) pieceCid pricePerByte paymentInterval
            paymentIntervalIncrease unsealPrice)
    end
  end.

(** ** Payment intervals

    Both loops walk the interval boundaries: the k-th step adds
    [PaymentInterval + k * PaymentIntervalIncrease] with 64-bit wrap-around.
    The fuel bounds the number of iterations; [None] means that the loop is
    still running when it is spent. *)

Fixpoint NextInterval_loop (fuel : nat) (inc cur next size : Z) : option Z :=
  match fuel with
  | O => None
  | S fuel' =>
    if next <=? cur
    then NextInterval_loop fuel' inc cur (u64 (next + size)) (u64 (size + inc))
    else Some next
  end.

Fixpoint IntervalLowerBound_loop (fuel : nat) (inc cur lower target size : Z) : option Z :=
  match fuel with
  | O => None
  | S fuel' =>
    if target <? cur
    then IntervalLowerBound_loop fuel' inc cur target (u64 (target + size)) (u64 (size + inc))
    else Some lower
  end.

(** Iterations that are enough to pass [cur] when the parameters are not both
    zero and no addition wraps around. *)
Definition interval_steps (p : Params) (cur : Z) : nat :=
  Z.to_nat (cur / Z.max (PaymentInterval p) (PaymentIntervalIncrease p) + 2).

Definition NextInterval_fuel (fuel : nat) (p : Params) (cur : Z) : option Z :=
  NextInterval_loop fuel (PaymentIntervalIncrease p) cur 0 (PaymentInterval p).

Definition IntervalLowerBound_fuel (fuel : nat) (p : Params) (cur : Z) : option Z :=
  IntervalLowerBound_loop fuel (PaymentIntervalIncrease p) cur 0 0 (PaymentInterval p).

(** The methods as called by the state machines.  [interval_steps] iterations are
    enough whenever the boundaries involved fit in 64 bits; a call that needs
    more is reported as [Hang], which for two zero parameters is what happens
    for every number of iterations. *)
Definition NextInterval (p : Params) (cur : Z) : outcome error Z :=
  match NextInterval_fuel (S (interval_steps p cur)) p cur with
  | Some v => Ok v
  | None => Hang
  end.

Definition IntervalLowerBound (p : Params) (cur : Z) : outcome error Z :=
  match IntervalLowerBound_fuel (S (interval_steps p cur)) p cur with
  | Some v => Ok v
  | None => Hang
  end.

(** ** Queries, offers and query responses *)

Record QueryParams : Type := MkQueryParams {
  qp_PieceCID : option cid;
  qp_Selector : option bytes
}.

Record Query : Type := MkQuery {
  q_PayloadCID : cid;
  q_QueryParams : QueryParams
}.

(** [encode] is the dag-cbor encoder, as in [NewParams]. *)
Definition NewQueryParams {Node} (encode : Node → error + bytes) (sel : option Node)
    : outcome error QueryParams :=
  match sel with
  | None => Err (ErrMsg "selector required")
  | Some nd =>
    match encode nd with
    | inl e => Err (ErrWrap "error encoding selector" e)
    | inr raw => Ok (MkQueryParams None (Some raw))
    end
  end.

Inductive QueryResponseStatus : Type :=
| QueryResponseAvailable
| QueryResponseUnavailable
| QueryResponseError
| QueryResponseOther (n : N).

Inductive QueryItemStatus : Type :=
| QueryItemAvailable
| QueryItemUnavailable
| QueryItemUnknown
| QueryItemOther (n : N).

Record QueryResponse : Type := MkQueryResponse {
  qr_Status : QueryResponseStatus;
  qr_PieceCIDFound : QueryItemStatus;
  qr_Size : Z;
  qr_PaymentAddress : address;
  qr_MinPricePerByte : Z;
  qr_MaxPaymentInterval : Z;
  qr_MaxPaymentIntervalIncrease : Z;
  qr_Message : string;
  qr_UnsealPrice : Z
}.


Record Offer : Type := MkOffer {
  o_ID : string;
  o_PeerAddr : bytes;
  o_PayloadCID : cid;
  o_Size : Z;
  o_PaymentAddress : address;
  o_MinPricePerByte : Z;
  o_MaxPaymentInterval : Z;
  o_MaxPaymentIntervalIncrease : Z;
  o_UnsealPrice : Z
}.


#[export] Instance Offer_eq_dec : EqDecision Offer.
Proof. solve_decision. Defined.

Definition PieceRetrievalPrice (qr : QueryResponse) : Z :=
  qr_MinPricePerByte qr * i64 (qr_Size qr) + qr_UnsealPrice qr.

Definition RetrievalPrice (o : Offer) : Z :=
  o_MinPricePerByte o * i64 (o_Size o).

Definition AsQueryResponse (o : Offer) : QueryResponse :=
  MkQueryResponse QueryResponseAvailable QueryItemAvailable (o_Size o) (o_PaymentAddress o)
    (o_MinPricePerByte o) (o_MaxPaymentInterval o) (o_MaxPaymentIntervalIncrease o)
    EmptyString (o_UnsealPrice o).

(** ** Deal state of the client and of the provider *)

(** A data transfer channel. *)
Record ChannelID : Type := MkChannelID {
  ch_Initiator : peer_id;
  ch_Responder : peer_id;
  ch_ID : Z
}.


#[export] Instance ChannelID_eq_dec : EqDecision ChannelID.
Proof. solve_decision. Defined.

#[export] Instance ChannelID_countable : Countable ChannelID.
Proof.
  refine (inj_countable' (λ c, (ch_Initiator c, ch_Responder c, ch_ID c))
            (λ t, MkChannelID t.1.1 t.1.2 t.2) _).
  by intros [].
Defined.

Record PaymentInfo : Type := MkPaymentInfo {
  PayCh : address;
  Lane : Z
}.

Definition set_Lane (v : Z) (s : PaymentInfo) : PaymentInfo :=
  MkPaymentInfo (PayCh s) v.

Record ClientState : Type := MkClientState {
  cs_Proposal : Proposal;
  cs_StoreID : option Z;
  cs_ChannelID : ChannelID;
  cs_LastPaymentRequested : bool;
  cs_AllBlocksReceived : bool;
  cs_TotalFunds : Z;
  cs_ClientWallet : address;
  cs_MinerWallet : address;
  cs_PaymentInfo : option PaymentInfo;
  cs_Status : Status;
  cs_Sender : peer_id;
  cs_TotalReceived : Z;
  cs_Message : string;
  cs_BytesPaidFor : Z;
  cs_CurrentInterval : Z;
  cs_PaymentRequested : Z;
  cs_FundsSpent : Z;
  cs_UnsealFundsPaid : Z;
  cs_WaitMsgCID : option cid;
  cs_VoucherShortfall : Z
}.

Definition set_cs_ChannelID (v : ChannelID) (s : ClientState) : ClientState :=
  MkClientState (cs_Proposal s) (cs_StoreID s) v (cs_LastPaymentRequested s)
    (cs_AllBlocksReceived s) (cs_TotalFunds s) (cs_ClientWallet s) (cs_MinerWallet s)
    (cs_PaymentInfo s) (cs_Status s) (cs_Sender s) (cs_TotalReceived s) (cs_Message s)
    (cs_BytesPaidFor s) (cs_CurrentInterval s) (cs_PaymentRequested s) (cs_FundsSpent s)
    (cs_UnsealFundsPaid s) (cs_WaitMsgCID s) (cs_VoucherShortfall s).
Definition set_cs_LastPaymentRequested (v : bool) (s : ClientState) : ClientState :=
  MkClientState (cs_Proposal s) (cs_StoreID s) (cs_ChannelID s) v
    (cs_AllBlocksReceived s) (cs_TotalFunds s) (cs_ClientWallet s) (cs_MinerWallet s)
    (cs_PaymentInfo s) (cs_Status s) (cs_Sender s) (cs_TotalReceived s) (cs_Message s)
    (cs_BytesPaidFor s) (cs_CurrentInterval s) (cs_PaymentRequested s) (cs_FundsSpent s)
    (cs_UnsealFundsPaid s) (cs_WaitMsgCID s) (cs_VoucherShortfall s).
Definition set_cs_AllBlocksReceived (v : bool) (s : ClientState) : ClientState :=
  MkClientState (cs_Proposal s) (cs_StoreID s) (cs_ChannelID s)
    (cs_LastPaymentRequested s) v (cs_TotalFunds s) (cs_ClientWallet s)
    (cs_MinerWallet s) (cs_PaymentInfo s) (cs_Status s) (cs_Sender s)
    (cs_TotalReceived s) (cs_Message s) (cs_BytesPaidFor s) (cs_CurrentInterval s)
    (cs_PaymentRequested s) (cs_FundsSpent s) (cs_UnsealFundsPaid s) (cs_WaitMsgCID s)
    (cs_VoucherShortfall s).
Definition set_cs_PaymentInfo (v : option PaymentInfo) (s : ClientState) : ClientState :=
  MkClientState (cs_Proposal s) (cs_StoreID s) (cs_ChannelID s)
    (cs_LastPaymentRequested s) (cs_AllBlocksReceived s) (cs_TotalFunds s)
    (cs_ClientWallet s) (cs_MinerWallet s) v (cs_Status s) (cs_Sender s)
    (cs_TotalReceived s) (cs_Message s) (cs_BytesPaidFor s) (cs_CurrentInterval s)
    (cs_PaymentRequested s) (cs_FundsSpent s) (cs_UnsealFundsPaid s) (cs_WaitMsgCID s)
    (cs_VoucherShortfall s).
Definition set_cs_Status (v : Status) (s : ClientState) : ClientState :=
  MkClientState (cs_Proposal s) (cs_StoreID s) (cs_ChannelID s)
    (cs_LastPaymentRequested s) (cs_AllBlocksReceived s) (cs_TotalFunds s)
    (cs_ClientWallet s) (cs_MinerWallet s) (cs_PaymentInfo s) v (cs_Sender s)
    (cs_TotalReceived s) (cs_Message s) (cs_BytesPaidFor s) (cs_CurrentInterval s)
    (cs_PaymentRequested s) (cs_FundsSpent s) (cs_UnsealFundsPaid s) (cs_WaitMsgCID s)
    (cs_VoucherShortfall s).
Definition set_cs_TotalReceived (v : Z) (s : ClientState) : ClientState :=
  MkClientState (cs_Proposal s) (cs_StoreID s) (cs_ChannelID s)
    (cs_LastPaymentRequested s) (cs_AllBlocksReceived s) (cs_TotalFunds s)
    (cs_ClientWallet s) (cs_MinerWallet s) (cs_PaymentInfo s) (cs_Status s)
    (cs_Sender s) v (cs_Message s) (cs_BytesPaidFor s) (cs_CurrentInterval s)
    (cs_PaymentRequested s) (cs_FundsSpent s) (cs_UnsealFundsPaid s) (cs_WaitMsgCID s)
    (cs_VoucherShortfall s).
Definition set_cs_Message (v : string) (s : ClientState) : ClientState :=
  MkClientState (cs_Proposal s) (cs_StoreID s) (cs_ChannelID s)
    (cs_LastPaymentRequested s) (cs_AllBlocksReceived s) (cs_TotalFunds s)
    (cs_ClientWallet s) (cs_MinerWallet s) (cs_PaymentInfo s) (cs_Status s)
    (cs_Sender s) (cs_TotalReceived s) v (cs_BytesPaidFor s) (cs_CurrentInterval s)
    (cs_PaymentRequested s) (cs_FundsSpent s) (cs_UnsealFundsPaid s) (cs_WaitMsgCID s)
    (cs_VoucherShortfall s).
Definition set_cs_BytesPaidFor (v : Z) (s : ClientState) : ClientState :=
  MkClientState (cs_Proposal s) (cs_StoreID s) (cs_ChannelID s)
    (cs_LastPaymentRequested s) (cs_AllBlocksReceived s) (cs_TotalFunds s)
    (cs_ClientWallet s) (cs_MinerWallet s) (cs_PaymentInfo s) (cs_Status s)
    (cs_Sender s) (cs_TotalReceived s) (cs_Message s) v (cs_CurrentInterval s)
    (cs_PaymentRequested s) (cs_FundsSpent s) (cs_UnsealFundsPaid s) (cs_WaitMsgCID s)
    (cs_VoucherShortfall s).
Definition set_cs_CurrentInterval (v : Z) (s : ClientState) : ClientState :=
  MkClientState (cs_Proposal s) (cs_StoreID s) (cs_ChannelID s)
    (cs_LastPaymentRequested s) (cs_AllBlocksReceived s) (cs_TotalFunds s)
    (cs_ClientWallet s) (cs_MinerWallet s) (cs_PaymentInfo s) (cs_Status s)
    (cs_Sender s) (cs_TotalReceived s) (cs_Message s) (cs_BytesPaidFor s) v
    (cs_PaymentRequested s) (cs_FundsSpent s) (cs_UnsealFundsPaid s) (cs_WaitMsgCID s)
    (cs_VoucherShortfall s).
Definition set_cs_PaymentRequested (v : Z) (s : ClientState) : ClientState :=
  MkClientState (cs_Proposal s) (cs_StoreID s) (cs_ChannelID s)
    (cs_LastPaymentRequested s) (cs_AllBlocksReceived s) (cs_TotalFunds s)
    (cs_ClientWallet s) (cs_MinerWallet s) (cs_PaymentInfo s) (cs_Status s)
    (cs_Sender s) (cs_TotalReceived s) (cs_Message s) (cs_BytesPaidFor s)
    (cs_CurrentInterval s) v (cs_FundsSpent s) (cs_UnsealFundsPaid s) (cs_WaitMsgCID s)
    (cs_VoucherShortfall s).
Definition set_cs_FundsSpent (v : Z) (s : ClientState) : ClientState :=
  MkClientState (cs_Proposal s) (cs_StoreID s) (cs_ChannelID s)
    (cs_LastPaymentRequested s) (cs_AllBlocksReceived s) (cs_TotalFunds s)
    (cs_ClientWallet s) (cs_MinerWallet s) (cs_PaymentInfo s) (cs_Status s)
    (cs_Sender s) (cs_TotalReceived s) (cs_Message s) (cs_BytesPaidFor s)
    (cs_CurrentInterval s) (cs_PaymentRequested s) v (cs_UnsealFundsPaid s)
    (cs_WaitMsgCID s) (cs_VoucherShortfall s).
Definition set_cs_UnsealFundsPaid (v : Z) (s : ClientState) : ClientState :=
  MkClientState (cs_Proposal s) (cs_StoreID s) (cs_ChannelID s)
    (cs_LastPaymentRequested s) (cs_AllBlocksReceived s) (cs_TotalFunds s)
    (cs_ClientWallet s) (cs_MinerWallet s) (cs_PaymentInfo s) (cs_Status s)
    (cs_Sender s) (cs_TotalReceived s) (cs_Message s) (cs_BytesPaidFor s)
    (cs_CurrentInterval s) (cs_PaymentRequested s) (cs_FundsSpent s) v (cs_WaitMsgCID s)
    (cs_VoucherShortfall s).
Definition set_cs_WaitMsgCID (v : option cid) (s : ClientState) : ClientState :=
  MkClientState (cs_Proposal s) (cs_StoreID s) (cs_ChannelID s)
    (cs_LastPaymentRequested s) (cs_AllBlocksReceived s) (cs_TotalFunds s)
    (cs_ClientWallet s) (cs_MinerWallet s) (cs_PaymentInfo s) (cs_Status s)
    (cs_Sender s) (cs_TotalReceived s) (cs_Message s) (cs_BytesPaidFor s)
    (cs_CurrentInterval s) (cs_PaymentRequested s) (cs_FundsSpent s)
    (cs_UnsealFundsPaid s) v (cs_VoucherShortfall s).
Definition set_cs_VoucherShortfall (v : Z) (s : ClientState) : ClientState :=
  MkClientState (cs_Proposal s) (cs_StoreID s) (cs_ChannelID s)
    (cs_LastPaymentRequested s) (cs_AllBlocksReceived s) (cs_TotalFunds s)
    (cs_ClientWallet s) (cs_MinerWallet s) (cs_PaymentInfo s) (cs_Status s)
    (cs_Sender s) (cs_TotalReceived s) (cs_Message s) (cs_BytesPaidFor s)
    (cs_CurrentInterval s) (cs_PaymentRequested s) (cs_FundsSpent s)
    (cs_UnsealFundsPaid s) (cs_WaitMsgCID s) v.

Definition cs_Params (cs : ClientState) : Params := p_Params (cs_Proposal cs).

(** [ClientState.NextInterval] *)
Definition Client_NextInterval (cs : ClientState) : outcome error Z :=
  NextInterval (cs_Params cs) (cs_CurrentInterval cs).

(** [PieceInfo] is left out: no code of the repository reads or writes it. *)
Record ProviderState : Type := MkProviderState {
  ps_Proposal : Proposal;
  ps_StoreID : Z;
  ps_ChannelID : ChannelID;
  ps_Status : Status;
  ps_Receiver : peer_id;
  ps_TotalSent : Z;
  ps_FundsReceived : Z;
  ps_Message : string;
  ps_CurrentInterval : Z;
  ps_PayCh : option address
}.

Definition set_ps_StoreID (v : Z) (s : ProviderState) : ProviderState :=
  MkProviderState (ps_Proposal s) v (ps_ChannelID s) (ps_Status s) (ps_Receiver s)
    (ps_TotalSent s) (ps_FundsReceived s) (ps_Message s) (ps_CurrentInterval s)
    (ps_PayCh s).
Definition set_ps_Status (v : Status) (s : ProviderState) : ProviderState :=
  MkProviderState (ps_Proposal s) (ps_StoreID s) (ps_ChannelID s) v (ps_Receiver s)
    (ps_TotalSent s) (ps_FundsReceived s) (ps_Message s) (ps_CurrentInterval s)
    (ps_PayCh s).
Definition set_ps_TotalSent (v : Z) (s : ProviderState) : ProviderState :=
  MkProviderState (ps_Proposal s) (ps_StoreID s) (ps_ChannelID s) (ps_Status s)
    (ps_Receiver s) v (ps_FundsReceived s) (ps_Message s) (ps_CurrentInterval s)
    (ps_PayCh s).
Definition set_ps_FundsReceived (v : Z) (s : ProviderState) : ProviderState :=
  MkProviderState (ps_Proposal s) (ps_StoreID s) (ps_ChannelID s) (ps_Status s)
    (ps_Receiver s) (ps_TotalSent s) v (ps_Message s) (ps_CurrentInterval s)
    (ps_PayCh s).
Definition set_ps_Message (v : string) (s : ProviderState) : ProviderState :=
  MkProviderState (ps_Proposal s) (ps_StoreID s) (ps_ChannelID s) (ps_Status s)
    (ps_Receiver s) (ps_TotalSent s) (ps_FundsReceived s) v (ps_CurrentInterval s)
    (ps_PayCh s).
Definition set_ps_CurrentInterval (v : Z) (s : ProviderState) : ProviderState :=
  MkProviderState (ps_Proposal s) (ps_StoreID s) (ps_ChannelID s) (ps_Status s)
    (ps_Receiver s) (ps_TotalSent s) (ps_FundsReceived s) (ps_Message s) v (ps_PayCh s).
Definition set_ps_PayCh (v : option address) (s : ProviderState) : ProviderState :=
  MkProviderState (ps_Proposal s) (ps_StoreID s) (ps_ChannelID s) (ps_Status s)
    (ps_Receiver s) (ps_TotalSent s) (ps_FundsReceived s) (ps_Message s)
    (ps_CurrentInterval s) v.

Definition ps_Params (ps : ProviderState) : Params := p_Params (ps_Proposal ps).

(** [ProviderState.NextInterval] and [ProviderState.IntervalLowerBound] *)
Definition Provider_NextInterval (ps : ProviderState) : outcome error Z :=
  NextInterval (ps_Params ps) (ps_CurrentInterval ps).

Definition Provider_IntervalLowerBound (ps : ProviderState) : outcome error Z :=
  IntervalLowerBound (ps_Params ps) (ps_CurrentInterval ps).

Record ProviderDealIdentifier : Type := MkDealIdentifier {
  di_Receiver : peer_id;
  di_DealID : Z
}.


#[export] Instance ProviderDealIdentifier_eq_dec : EqDecision ProviderDealIdentifier.
Proof. solve_decision. Defined.

#[export] Instance ProviderDealIdentifier_countable : Countable ProviderDealIdentifier.
Proof.
  refine (inj_countable' (λ c, (di_Receiver c, di_DealID c))
            (λ t, MkDealIdentifier t.1 t.2) _).
  by intros [].
Defined.

Definition Identifier (ps : ProviderState) : ProviderDealIdentifier :=
  MkDealIdentifier (ps_Receiver ps) (ID (ps_Proposal ps)).

(** Defaults (params.go). *)
Definition DefaultPricePerByte : Z := 2.
Definition DefaultPaymentInterval : Z := 1048576.
Definition DefaultPaymentIntervalIncrease : Z := 1048576.

(** ** Statuses: the codes and the names identify the status *)

(** The status with a given value, the identity of Go. *)
Definition Status_of (c : Z) : Status :=
  default (StatusOther (Z.to_N (c - 29))) (all_statuses !! Z.to_nat c).

Lemma Status_code_nonneg s : 0 <= Status_code s.
Proof. destruct s; simpl; lia. Qed.

Lemma Status_of_code s : Status_of (Status_code s) = s.
Proof.
  destruct s as [| | | | | | | | | | | | | | | | | | | | | | | | | | | | |n]; try reflexivity.
  unfold Status_of. simpl Status_code. rewrite lookup_ge_None_2.
  - simpl. f_equal. lia.
  - change (length all_statuses) with 29%nat. lia.
Qed.

Lemma Status_code_of c : 0 <= c → Status_code (Status_of c) = c.
Proof.
  intros Hc. unfold Status_of. destruct (Z.le_gt_cases 29 c) as [Hl|Hl].
  - rewrite lookup_ge_None_2 by (change (length all_statuses) with 29%nat; lia). simpl. lia.
  - assert (c ∈ seqZ 0 29) as Hin by (apply elem_of_seqZ; lia). clear Hc Hl. revert c Hin.
    apply Forall_forall. repeat (constructor; [reflexivity|]). constructor.
Qed.

(** ** Interval boundaries *)

Section boundaries.
Context (p : Params).
Implicit Types k n : nat.

(** The k-th boundary walked by the loops. *)
Fixpoint boundary (k : nat) : Z :=
  match k with
  | O => 0
  | S k' => boundary k' + (PaymentInterval p + Z.of_nat k' * PaymentIntervalIncrease p)
  end.

(** No addition up to the n-th boundary wraps around. *)
Definition fits (n : nat) : Prop :=
  boundary n < two64 ∧ PaymentInterval p + Z.of_nat n * PaymentIntervalIncrease p < two64.

(** The parameters are [uint64] values that are not both zero. *)
Definition params_ok : Prop :=
  is_u64 (PaymentInterval p) ∧ is_u64 (PaymentIntervalIncrease p) ∧
  0 < Z.max (PaymentInterval p) (PaymentIntervalIncrease p).

Lemma boundary_closed_form k :
  2 * boundary k
  = 2 * Z.of_nat k * PaymentInterval p
    + PaymentIntervalIncrease p * (Z.of_nat k * (Z.of_nat k - 1)).
Proof. induction k as [|k IH]; [simpl; lia|]. cbn [boundary]. rewrite Nat2Z.inj_succ. nia. Qed.

Context (Hok : params_ok).

Lemma boundary_step_le k : boundary k <= boundary (S k).
Proof. cbn [boundary]. destruct Hok as ([? ?] & [? ?] & _). nia. Qed.

Lemma boundary_mono k n : (k ≤ n)%nat → boundary k <= boundary n.
Proof. induction 1 as [|n ? IH]; [lia|]. pose proof (boundary_step_le n). lia. Qed.

Lemma boundary_nonneg k : 0 <= boundary k.
Proof. apply (boundary_mono 0). lia. Qed.

Lemma fits_le k n : (k ≤ n)%nat → fits n → fits k.
Proof.
  intros Hk [Hb Hs]. pose proof (boundary_mono _ _ Hk). split; [lia|].
  destruct Hok as ([? ?] & [? ?] & _). nia.
Qed.

Lemma boundary_fits_u64 k : fits k → u64 (boundary k) = boundary k.
Proof. intros [H _]. apply u64_small. split; [apply boundary_nonneg|done]. Qed.

Lemma size_fits_u64 k :
  fits k → u64 (PaymentInterval p + Z.of_nat k * PaymentIntervalIncrease p)
           = PaymentInterval p + Z.of_nat k * PaymentIntervalIncrease p.
Proof. intros [_ H]. apply u64_small. destruct Hok as ([? ?] & [? ?] & _). split; nia. Qed.

(** Enough steps pass any position. *)
Lemma boundary_steps cur : 0 <= cur → cur < boundary (interval_steps p cur).
Proof.
  intros Hc. unfold interval_steps. destruct Hok as ([? ?] & [? ?] & Hm).
  pose proof (Z.mul_succ_div_gt cur _ Hm) as Hq.
  assert (0 <= cur / Z.max (PaymentInterval p) (PaymentIntervalIncrease p)) by (apply Z.div_pos; lia).
  generalize dependent (cur / Z.max (PaymentInterval p) (PaymentIntervalIncrease p)).
  intros q Hq ?. pose proof (boundary_closed_form (Z.to_nat (q + 2))) as Hb.
  rewrite Z2Nat.id in Hb by lia.
  destruct (Z.max_spec (PaymentInterval p) (PaymentIntervalIncrease p)) as [[? E]|[? E]];
    rewrite E in *; nia.
Qed.

(** The first boundary where a downward-closed test fails. *)
Lemma boundary_search (f : Z → bool) n :
  (∀ a b, a <= b → f b = true → f a = true) →
  f (boundary 0) = true → f (boundary n) = false →
  ∃ k, (S k ≤ n)%nat ∧ (∀ j, (j ≤ k)%nat → f (boundary j) = true) ∧ f (boundary (S k)) = false.
Proof.
  intros Hdown H0. induction n as [|n IH]; [congruence|]. intros Hn.
  destruct (f (boundary n)) eqn:E.
  - exists n. split_and!; [lia| |done]. intros j Hj.
    eapply Hdown; [|exact E]. by apply boundary_mono.
  - destruct (IH eq_refl) as (k & ? & ? & ?). exists k. auto with lia.
Qed.

Lemma NextInterval_loop_run fuel cur m k :
  (∀ j, (j < m)%nat → boundary (k + j) <= cur) → cur < boundary (k + m) →
  fits (k + m) → (m < fuel)%nat →
  NextInterval_loop fuel (PaymentIntervalIncrease p) cur (boundary k)
    (PaymentInterval p + Z.of_nat k * PaymentIntervalIncrease p)
  = Some (boundary (k + m)).
Proof.
  revert fuel k. induction m as [|m IH]; intros fuel k Hle Hlt Hf Hfuel;
    (destruct fuel as [|fuel]; [lia|]); cbn [NextInterval_loop].
  - rewrite Nat.add_0_r in *. destruct (Z.leb_spec (boundary k) cur); [lia|done].
  - assert (boundary k <= cur) by (rewrite <- (Nat.add_0_r k); apply Hle; lia).
    destruct (Z.leb_spec (boundary k) cur); [|lia].
    assert (fits (S k)) as HfS by (eapply fits_le; [|exact Hf]; lia).
    pose proof (boundary_fits_u64 _ HfS) as Hb. pose proof (size_fits_u64 _ HfS) as Hs.
    cbn [boundary] in Hb. rewrite Hb.
    replace (PaymentInterval p + Z.of_nat k * PaymentIntervalIncrease p
             + PaymentIntervalIncrease p)
      with (PaymentInterval p + Z.of_nat (S k) * PaymentIntervalIncrease p) by lia.
    rewrite Hs. rewrite <- Nat.add_succ_comm in *. apply (IH fuel (S k)); try done; [|lia].
    intros j Hj. rewrite Nat.add_succ_comm. apply Hle. lia.
Qed.

Lemma IntervalLowerBound_loop_run fuel cur m k low :
  (∀ j, (j < m)%nat → boundary (k + j) < cur) → cur <= boundary (k + m) →
  fits (k + m) → (m < fuel)%nat →
  IntervalLowerBound_loop fuel (PaymentIntervalIncrease p) cur low (boundary k)
    (PaymentInterval p + Z.of_nat k * PaymentIntervalIncrease p)
  = Some (match m with O => low | S m' => boundary (k + m') end).
Proof.
  revert fuel k low. induction m as [|m IH]; intros fuel k low Hle Hlt Hf Hfuel;
    (destruct fuel as [|fuel]; [lia|]); cbn [IntervalLowerBound_loop].
  - rewrite Nat.add_0_r in *. destruct (Z.ltb_spec (boundary k) cur); [lia|done].
  - assert (boundary k < cur) by (rewrite <- (Nat.add_0_r k); apply Hle; lia).
    destruct (Z.ltb_spec (boundary k) cur); [|lia].
    assert (fits (S k)) as HfS by (eapply fits_le; [|exact Hf]; lia).
    pose proof (boundary_fits_u64 _ HfS) as Hb. pose proof (size_fits_u64 _ HfS) as Hs.
    cbn [boundary] in Hb. rewrite Hb.
    replace (PaymentInterval p + Z.of_nat k * PaymentIntervalIncrease p
             + PaymentIntervalIncrease p)
      with (PaymentInterval p + Z.of_nat (S k) * PaymentIntervalIncrease p) by lia.
    rewrite Hs. rewrite <- Nat.add_succ_comm in Hf, Hlt.
    etrans; [apply (IH fuel (S k)); try done; [intros|lia]|].
    + rewrite Nat.add_succ_comm. apply Hle. lia.
    + destruct m; [by rewrite Nat.add_0_r|]. by rewrite <- Nat.add_succ_comm.
Qed.

Lemma NextInterval_boundary cur :
  0 <= cur → fits (interval_steps p cur) →
  ∃ k, NextInterval p cur = Ok (boundary (S k)) ∧ boundary k <= cur < boundary (S k).
Proof.
  intros Hc Hf.
  destruct (boundary_search (λ b, b <=? cur) (interval_steps p cur)) as (k & Hk & Hall & Hk').
  { intros a b ? ?. to_prop. apply Z.leb_le. lia. }
  { by apply Z.leb_le. }
  { apply Z.leb_gt. by apply boundary_steps. }
  exists k. pose proof (Hall k ltac:(lia)). to_prop. split; [|done].
  unfold NextInterval, NextInterval_fuel.
  pose proof (NextInterval_loop_run (S (interval_steps p cur)) cur (S k) 0) as Hrun.
  cbn [boundary] in Hrun. rewrite Z.mul_0_l, Z.add_0_r in Hrun. rewrite Hrun; try done; [|..|lia].
  - intros j Hj. apply Z.leb_le, Hall. lia.
  - by eapply fits_le.
Qed.

Lemma IntervalLowerBound_boundary cur :
  0 < cur → fits (interval_steps p cur) →
  ∃ k, IntervalLowerBound p cur = Ok (boundary k) ∧ boundary k < cur <= boundary (S k).
Proof.
  intros Hc Hf.
  destruct (boundary_search (λ b, b <? cur) (interval_steps p cur)) as (k & Hk & Hall & Hk').
  { intros a b ? ?. to_prop. apply Z.ltb_lt. lia. }
  { by apply Z.ltb_lt. }
  { apply Z.ltb_ge. pose proof (boundary_steps cur). lia. }
  exists k. pose proof (Hall k ltac:(lia)). to_prop. split; [|done].
  unfold IntervalLowerBound, IntervalLowerBound_fuel.
  pose proof (IntervalLowerBound_loop_run (S (interval_steps p cur)) cur (S k) 0 0) as Hrun.
  cbn [boundary] in Hrun. rewrite Z.mul_0_l, Z.add_0_r in Hrun. rewrite Hrun; try done; [|..|lia].
  - intros j Hj. apply Z.ltb_lt, Hall. lia.
  - by eapply fits_le.
Qed.

(** With a positive interval the boundaries are strictly increasing, and the two
    loops move by exactly one boundary. *)
Context (Hpos : 0 < PaymentInterval p).

Lemma boundary_lt k n : (k < n)%nat → boundary k < boundary n.
Proof.
  intros Hkn. enough (boundary k < boundary (S k)) by (pose proof (boundary_mono (S k) n); lia).
  cbn [boundary]. destruct Hok as ([? ?] & [? ?] & _). nia.
Qed.

Lemma NextInterval_at k :
  fits (interval_steps p (boundary k)) → NextInterval p (boundary k) = Ok (boundary (S k)).
Proof.
  intros Hf. destruct (NextInterval_boundary (boundary k)) as (j & -> & Hj);
    [apply boundary_nonneg|done|].
  destruct (Nat.lt_trichotomy j k) as [Hlt|[->|Hgt]]; [|done|].
  - pose proof (boundary_mono (S j) k). lia.
  - pose proof (boundary_lt k j). lia.
Qed.

Lemma IntervalLowerBound_at k :
  fits (interval_steps p (boundary (S k))) →
  IntervalLowerBound p (boundary (S k)) = Ok (boundary k).
Proof.
  intros Hf. pose proof (boundary_lt 0 (S k)) as H0. cbn [boundary] in H0.
  destruct (IntervalLowerBound_boundary (boundary (S k))) as (j & -> & Hj); [cbn [boundary]; lia|done|].
  destruct (Nat.lt_trichotomy j k) as [Hlt|[->|Hgt]]; [|done|].
  - pose proof (boundary_lt (S j) (S k)). lia.
  - pose proof (boundary_mono (S k) j). lia.
Qed.

End boundaries.

(** Default deal parameters, used by the witnesses. *)
Definition default_params : Params :=
  MkParams None None DefaultPricePerByte DefaultPaymentInterval
    DefaultPaymentIntervalIncrease 0.

(** C14: when the interval parameters are not both zero and the boundaries up to
    the position fit in 64 bits, [NextInterval] returns: its result is the first
    interval boundary strictly beyond the current position, and the boundary
    just below it is not beyond the position. *)
Theorem NextInterval_correct (p : Params) (cur : Z) :
  params_ok p → 0 <= cur → fits p (interval_steps p cur) →
  ∃ k, NextInterval p cur = Ok (boundary p (S k)) ∧ boundary p k <= cur < boundary p (S k).
Proof. intros. by apply NextInterval_boundary. Qed.

Lemma NextInterval_correct_witness :
  (params_ok default_params ∧ fits default_params (interval_steps default_params 1048576)) ∧
  ∃ k, NextInterval default_params 1048576 = Ok (boundary default_params (S k)) ∧
       boundary default_params k <= 1048576 < boundary default_params (S k).
Proof.
  assert (params_ok default_params) as Hp by (vm_compute; intuition congruence).
  assert (fits default_params (interval_steps default_params 1048576)) as Hf
    by (vm_compute; intuition congruence).
  split; [done|]. apply (NextInterval_correct default_params 1048576); [exact Hp|lia|exact Hf].
Defined.

(** The lower bound a provider enforces is consistent with the interval it
    advances to: for a position [cur], the lower bound of the next interval is at
    most [cur], and [cur] is below the next interval. *)
Theorem IntervalLowerBound_NextInterval (p : Params) (cur next low : Z) :
  params_ok p → 0 <= cur → fits p (interval_steps p cur) →
  NextInterval p cur = Ok next → fits p (interval_steps p next) →
  IntervalLowerBound p next = Ok low →
  low <= cur < next.
Proof.
  intros Hp Hc Hf Hn Hf' Hl.
  destruct (NextInterval_boundary p Hp cur Hc Hf) as (k & Hk & Hk1 & Hk2).
  assert (next = boundary p (S k)) as -> by congruence.
  destruct (IntervalLowerBound_boundary p Hp (boundary p (S k))) as (j & Hj & Hj1 & Hj2);
    [lia|done|].
  assert (low = boundary p j) as -> by congruence. split; [|lia].
  destruct (decide (j ≤ k)%nat) as [Hle|Hgt]; [pose proof (boundary_mono p Hp j k Hle); lia|].
  pose proof (boundary_mono p Hp (S k) j). lia.
Qed.

Lemma IntervalLowerBound_NextInterval_witness : 1048576 <= 1048576 < 3145728.
Proof.
  apply (IntervalLowerBound_NextInterval default_params 1048576 3145728 1048576);
    vm_compute; intuition congruence.
Defined.

(** With two zero parameters no number of iterations passes the position. *)
Lemma NextInterval_zero_loop (p : Params) (cur : Z) (fuel : nat) :
  PaymentInterval p = 0 → PaymentIntervalIncrease p = 0 → 0 <= cur →
  NextInterval_fuel fuel p cur = None.
Proof.
  intros H1 H2 Hc. unfold NextInterval_fuel. rewrite H1, H2.
  induction fuel as [|fuel IH]; [done|]. cbn [NextInterval_loop].
  destruct (Z.leb_spec 0 cur); [|lia]. exact IH.
Qed.

(** With both interval parameters zero the loop of [NextInterval] makes no
    progress: it does not return after any number of iterations.  A proposal
    carrying two zeros is not refused by the provider's parameter check, which
    bounds the parameters from above only. *)
Theorem NextInterval_zero_params_diverges (p : Params) (cur : Z) (fuel : nat) :
  PaymentInterval p = 0 → PaymentIntervalIncrease p = 0 → 0 <= cur →
  NextInterval_fuel fuel p cur = None.
Proof. apply NextInterval_zero_loop. Qed.

Lemma NextInterval_zero_params_diverges_witness :
  NextInterval_fuel 1000 (MkParams None None 2 0 0 0) 0 = None.
Proof. apply (NextInterval_zero_params_diverges (MkParams None None 2 0 0 0) 0 1000); done. Defined.
