(* ===== verification/Fsm.v ===== *)
(** * State charts (the fsm package of go-statemachine)

    The retrieval client and provider declare their state machines as data: a
    list of events, each with its source and destination states and an action.
    The package that interprets those declarations is not part of the
    repository; [FsmRuntime] is its documented contract, and every theorem
    about a running machine is proved from that contract alone. *)
From S2P Require Import Prelude Deal.

Inductive Source : Type :=
| From (s : Status)
| FromAny.

Inductive Dest : Type :=
| To (s : Status)
| ToNoChange        (* same state, the state's entry function runs again *)
| ToJustRecord.     (* same state, the entry function does not run *)

#[export] Instance Source_eq_dec : EqDecision Source.
Proof. solve_decision. Defined.

#[export] Instance Dest_eq_dec : EqDecision Dest.
Proof. solve_decision. Defined.

Definition FromMany (l : list Status) (d : Dest) : list (Source * Dest) :=
  map (λ s, (From s, d)) l.

(** A declared machine: the chart of each event, its action, the field that
    holds the status, and the finality states. *)
Record Machine (St Ev : Type) : Type := MkMachine {
  m_chart : Ev → list (Source * Dest);
  m_action : Ev → St → outcome error St;
  m_status : St → Status;
  m_set_status : Status → St → St;
  m_final : list Status
}.
Arguments MkMachine {St Ev}.
Arguments m_chart {St Ev}.
Arguments m_action {St Ev}.
Arguments m_status {St Ev}.
Arguments m_set_status {St Ev}.
Arguments m_final {St Ev}.

(** The destination a chart gives for a state: the entry of that state if there
    is one, otherwise the fallback entry for any state. *)
Definition chart_lookup (t : list (Source * Dest)) (s : Status) : option Dest :=
  match list_find (λ e : Source * Dest, e.1 = From s) t with
  | Some (_, e) => Some e.2
  | None =>
    match list_find (λ e : Source * Dest, e.1 = FromAny) t with
    | Some (_, e) => Some e.2
    | None => None
    end
  end.

Definition land {St Ev} (m : Machine St Ev) (d : Dest) (st : St) : St * bool :=
  match d with
  | To s => (m_set_status m s st, true)
  | ToNoChange => (st, true)
  | ToJustRecord => (st, false)
  end.

Definition invalid_transition : error := ErrMsg "Invalid transition in queue".

(** The documented behaviour of the package.  [fsm_apply] processes one event:
    it answers the new state and whether the entry function of that state runs;
    an error leaves the state as it was and is only logged. *)
Class FsmRuntime : Type := {
  fsm_apply : ∀ {St Ev : Type}, Machine St Ev → Ev → St → outcome error (St * bool);
  fsm_apply_final : ∀ {St Ev} (m : Machine St Ev) ev st,
    m_status m st ∈ m_final m → fsm_apply m ev st = Err ErrTerminated;
  fsm_apply_invalid : ∀ {St Ev} (m : Machine St Ev) ev st,
    m_status m st ∉ m_final m → chart_lookup (m_chart m ev) (m_status m st) = None →
    fsm_apply m ev st = Err invalid_transition;
  fsm_apply_valid : ∀ {St Ev} (m : Machine St Ev) ev st d,
    m_status m st ∉ m_final m → chart_lookup (m_chart m ev) (m_status m st) = Some d →
    fsm_apply m ev st = outcome_bind (m_action m ev st) (λ st', Ok (land m d st'))
}.

(** A function with that behaviour. *)
Definition apply_documented {St Ev} (m : Machine St Ev) (ev : Ev) (st : St)
    : outcome error (St * bool) :=
  if bool_decide (m_status m st ∈ m_final m) then Err ErrTerminated
  else match chart_lookup (m_chart m ev) (m_status m st) with
       | None => Err invalid_transition
       | Some d => outcome_bind (m_action m ev st) (λ st', Ok (land m d st'))
       end.

#[refine] Definition documented_runtime : FsmRuntime :=
  {| fsm_apply := @apply_documented |}.
Proof.
  all: intros; unfold apply_documented; case_bool_decide; try done.
  - by rewrite H0.
  - by rewrite H0.
Defined.

(** Any runtime with the documented behaviour computes [apply_documented]. *)
Lemma fsm_apply_eq {R : FsmRuntime} {St Ev} (m : Machine St Ev) ev st :
  fsm_apply m ev st = apply_documented m ev st.
Proof.
  unfold apply_documented. case_bool_decide as Hf; [by apply fsm_apply_final|].
  destruct (chart_lookup _ _) eqn:E; [by apply fsm_apply_valid|by apply fsm_apply_invalid].
Qed.

(** The status an event leads to, [None] when the event is refused. *)
Definition next_status {St Ev} (m : Machine St Ev) (ev : Ev) (s : Status) : option Status :=
  if bool_decide (s ∈ m_final m) then None
  else match chart_lookup (m_chart m ev) s with
       | None => None
       | Some (To s') => Some s'
       | Some _ => Some s
       end.

(** A machine whose actions keep the status field and whose setter sets it. *)
Class MachineLaws {St Ev} (m : Machine St Ev) : Prop := {
  action_keeps_status : ∀ ev st st', m_action m ev st = Ok st' → m_status m st' = m_status m st;
  status_set_status : ∀ s st, m_status m (m_set_status m s st) = s
}.

Section laws.
Context {R : FsmRuntime} {St Ev : Type} (m : Machine St Ev) {L : MachineLaws m}.

Lemma fsm_apply_status ev st st' b :
  fsm_apply m ev st = Ok (st', b) → next_status m ev (m_status m st) = Some (m_status m st').
Proof.
  rewrite fsm_apply_eq. unfold apply_documented, next_status. case_bool_decide; [done|].
  destruct (chart_lookup _ _) as [d|]; [|done].
  destruct (m_action m ev st) as [st1| | |] eqn:Ha; simpl; try done.
  intros [= E]. pose proof (action_keeps_status _ _ _ Ha) as Hs.
  destruct d; simpl in E; simplify_eq; rewrite ?status_set_status; congruence.
Qed.

Lemma fsm_apply_refused ev st :
  next_status m ev (m_status m st) = None → ∃ e, fsm_apply m ev st = Err e.
Proof.
  rewrite fsm_apply_eq. unfold apply_documented, next_status. case_bool_decide; [eauto|].
  destruct (chart_lookup _ _) as [[]|]; eauto; done.
Qed.

End laws.
