(* ===== verification/PayTypes.v ===== *)
(** * Types shared by the payment system and its clients

    The signed voucher of specs-actors, the answers of the payment manager and
    the interface [Manager] through which the retrieval client and provider use
    payments (payments/manager.go, payments/channel.go). *)
From S2P Require Import Prelude Deal.

(** The fields of [paych.SignedVoucher] the code reads or writes; [sv_other]
    stands for the remaining ones (time locks, secret preimage, extra data). *)
Record SignedVoucher : Type := MkVoucher {
  sv_ChannelAddr : address;
  sv_Lane : Z;
  sv_Nonce : Z;
  sv_Amount : Z;
  sv_Merges : list (Z * Z);
  sv_Signature : option (Z * bytes);
  sv_other : bytes
}.

#[export] Instance SignedVoucher_eq_dec : EqDecision SignedVoucher.
Proof. solve_decision. Defined.

(** A response to [GetChannel]. *)
Record ChannelResponse : Type := MkChannelResponse {
  cr_Channel : address;
  cr_WaitSentinel : cid
}.

Record AvailableFunds : Type := MkAvailableFunds {
  af_Channel : option address;
  af_From : address;
  af_To : address;
  af_ConfirmedAmt : Z;
  af_PendingAmt : Z;
  af_PendingWaitSentinel : option cid;
  af_QueuedAmt : Z;
  af_VoucherRedeemedAmt : Z
}.

(** [Voucher] is nil when the channel cannot cover the amount. *)
Record VoucherCreateResult : Type := MkVoucherCreateResult {
  vcr_Voucher : option SignedVoucher;
  vcr_Shortfall : Z
}.

(** The methods of the [Manager] interface used by retrievals, over a state [M]
    of the payment system. *)
Record Manager (M : Type) : Type := MkManager {
  mgr_GetChannel : address → address → Z → go M error ChannelResponse;
  mgr_WaitForChannel : cid → go M error address;
  mgr_AllocateLane : address → go M error Z;
  mgr_CreateVoucher : address → Z → Z → go M error VoucherCreateResult;
  mgr_ChannelAvailableFunds : address → go M error AvailableFunds;
  mgr_AddVoucherInbound : address → option SignedVoucher → bytes → Z → go M error Z
}.
Arguments MkManager {M}.
Arguments mgr_GetChannel {M}.
Arguments mgr_WaitForChannel {M}.
Arguments mgr_AllocateLane {M}.
Arguments mgr_CreateVoucher {M}.
Arguments mgr_ChannelAvailableFunds {M}.
Arguments mgr_AddVoucherInbound {M}.

(** What the retrieval client relies on when it asks for a voucher: either the
    voucher is for the requested channel, lane and amount and there is no
    shortfall, or there is no voucher and the shortfall is positive. *)
Class VoucherContract {M} (mgr : Manager M) : Prop := {
  create_voucher_contract : ∀ ch amt lane m m' res,
    mgr_CreateVoucher mgr ch amt lane m = (m', Ok res) →
    (∃ sv, vcr_Voucher res = Some sv ∧ vcr_Shortfall res = 0 ∧
           sv_ChannelAddr sv = ch ∧ sv_Amount sv = amt ∧ sv_Lane sv = lane) ∨
    (vcr_Voucher res = None ∧ 0 < vcr_Shortfall res)
}.
