(* ===== verification/DataTransfer.v ===== *)
(** * Data transfer events

    The part of go-data-transfer's interface the repository reads: event codes,
    channel states, vouchers and voucher results.  A type assertion on a
    voucher is a match on its constructor. *)
From S2P Require Import Prelude Deal PayTypes.

Inductive DtCode : Type :=
| DtAccept
| DtDataReceivedProgress
| DtFinishTransfer
| DtCancel
| DtNewVoucherResult
| DtDisconnected
| DtError
| DtOther.

Record DtEvent : Type := MkDtEvent {
  dt_Code : DtCode;
  dt_Message : string
}.

Inductive DtStatus : Type :=
| DtCompleted
| DtFailed
| DtCancelled
| DtOngoing.

#[export] Instance DtStatus_eq_dec : EqDecision DtStatus.
Proof. solve_decision. Defined.

(** [deal.Payment]: a payment voucher for an in-progress deal. *)
Record Payment : Type := MkPayment {
  pay_ID : Z;
  pay_PaymentChannel : address;
  pay_PaymentVoucher : option SignedVoucher
}.

Inductive Voucher : Type :=
| VProposal (p : Proposal)
| VPayment (p : Payment)
| VOther.

Inductive VoucherResult : Type :=
| VRResponse (r : Response)
| VROther.

Record DtChannelState : Type := MkDtChannelState {
  dts_Sender : peer_id;
  dts_Recipient : peer_id;
  dts_Status : DtStatus;
  dts_Voucher : Voucher;
  dts_LastVoucherResult : VoucherResult;
  dts_Received : Z;
  dts_Message : string
}.

(** deal/utils.go *)
Definition ProposalFromVoucher (v : Voucher) : option Proposal :=
  match v with VProposal p => Some p | _ => None end.

Definition ResponseFromVoucherResult (v : VoucherResult) : option Response :=
  match v with VRResponse r => Some r | VROther => None end.
