(* ===== verification/ClientFsm.v ===== *)
(** * The retrieval client state machine (retrieval/client)

    The event table [FSMEvents] with its actions, the entry functions of the
    states, and the translation of data transfer events into client events. *)
From S2P Require Import Prelude Deal Fsm PayTypes DataTransfer.

(** ** Events (events.go)

    Each event carries the arguments of its action. *)
Inductive Event : Type :=
| EventOpen
| EventWriteDealProposalErrored (err : error)
| EventDealProposed (channelID : ChannelID)
| EventDealRejected (message : string)
| EventDealNotFound (message : string)
| EventDealAccepted
| EventProviderCancelled
| EventUnknownResponseReceived (status : Status)
| EventPaymentChannelErrored (err : error)
| EventAllocateLaneErrored (err : error)
| EventPaymentChannelCreateInitiated (msgCID : cid)
| EventPaymentChannelReady (payCh : address)
| EventPaymentChannelSkip
| EventPaymentChannelAddingFunds (msgCID : cid) (payCh : address)
| EventPaymentChannelAddFundsErrored
| EventLastPaymentRequested (paymentOwed : Z)
| EventAllBlocksReceived
| EventPaymentRequested (paymentOwed : Z)
| EventPaymentNotSent
| EventUnsealPaymentRequested (paymentOwed : Z)
| EventBlocksReceived (totalReceived : Z)
| EventSendFunds
| EventFundsExpended (shortfall : Z)
| EventBadPaymentRequested (message : string)
| EventCreateVoucherFailed (err : error)
| EventWriteDealPaymentErrored (err : error)
| EventPaymentSent (voucherAmt : Z)
| EventComplete
| EventDataTransferError (err : error)
| EventCancelComplete
| EventEarlyTermination
| EventCompleteVerified
| EventLaneAllocated (lane : Z)
| EventVoucherShortfall (shortfall : Z)
| EventRecheckFunds
| EventCancel
| EventWaitForLastBlocks
| EventProviderErrored (msg : string).

(** ** The state chart (FSMEvents) *)

Definition paymentChannelCreationStates : list Status :=
  [StatusWaitForAcceptance; StatusAccepted; StatusPaymentChannelCreating;
   StatusPaymentChannelAllocatingLane; StatusPaymentChannelAddingInitialFunds].

Definition client_chart (ev : Event) : list (Source * Dest) :=
  match ev with
  | EventOpen => [(From StatusNew, ToNoChange)]
  | EventWriteDealProposalErrored _ => [(FromAny, To StatusErrored)]
  | EventDealProposed _ => [(From StatusNew, To StatusWaitForAcceptance)]
  | EventDealRejected _ => [(From StatusWaitForAcceptance, To StatusRejected)]
  | EventDealNotFound _ => [(From StatusWaitForAcceptance, To StatusDealNotFound)]
  | EventDealAccepted => [(From StatusWaitForAcceptance, To StatusAccepted)]
  | EventUnknownResponseReceived _ => [(FromAny, To StatusFailing)]
  | EventPaymentChannelSkip => [(From StatusAccepted, To StatusOngoing)]
  | EventPaymentChannelErrored _ =>
      FromMany [StatusAccepted; StatusPaymentChannelCreating; StatusPaymentChannelAddingFunds]
        (To StatusFailing)
  | EventPaymentChannelCreateInitiated _ =>
      [(From StatusAccepted, To StatusPaymentChannelCreating)]
  | EventPaymentChannelAddingFunds _ _ =>
      [(From StatusAccepted, To StatusPaymentChannelAddingInitialFunds);
       (From StatusCheckFunds, To StatusPaymentChannelAddingFunds)]
  | EventPaymentChannelReady _ =>
      FromMany [StatusPaymentChannelCreating; StatusPaymentChannelAddingInitialFunds;
                StatusAccepted] (To StatusPaymentChannelAllocatingLane)
      ++ [(From StatusPaymentChannelAddingFunds, To StatusOngoing);
          (From StatusCheckFunds, To StatusOngoing)]
  | EventAllocateLaneErrored _ =>
      FromMany [StatusPaymentChannelAllocatingLane] (To StatusFailing)
  | EventLaneAllocated _ => [(From StatusPaymentChannelAllocatingLane, To StatusOngoing)]
  | EventProviderErrored _ => [(FromAny, To StatusErrored)]
  | EventDataTransferError _ => [(FromAny, To StatusErrored)]
  | EventLastPaymentRequested _ =>
      FromMany [StatusOngoing; StatusFundsNeededLastPayment; StatusFundsNeeded]
        (To StatusFundsNeededLastPayment)
      ++ [(From StatusSendFunds, To StatusOngoing);
          (From StatusCheckComplete, ToNoChange);
          (From StatusBlocksComplete, To StatusSendFundsLastPayment)]
      ++ FromMany paymentChannelCreationStates ToJustRecord
  | EventPaymentRequested _ =>
      FromMany [StatusOngoing; StatusBlocksComplete; StatusFundsNeededLastPayment;
                StatusFundsNeeded] (To StatusFundsNeeded)
      ++ [(From StatusSendFunds, To StatusOngoing); (From StatusCheckComplete, ToNoChange)]
      ++ FromMany paymentChannelCreationStates ToJustRecord
  | EventUnsealPaymentRequested _ => [(From StatusWaitForAcceptance, To StatusAccepted)]
  | EventAllBlocksReceived =>
      FromMany [StatusOngoing; StatusBlocksComplete] (To StatusBlocksComplete)
      ++ FromMany paymentChannelCreationStates ToJustRecord
      ++ FromMany [StatusSendFunds; StatusSendFundsLastPayment] (To StatusOngoing)
      ++ [(From StatusFundsNeeded, ToNoChange);
          (From StatusFundsNeededLastPayment, To StatusSendFundsLastPayment)]
      ++ FromMany [StatusClientWaitingForLastBlocks; StatusCheckComplete] (To StatusCompleted)
  | EventBlocksReceived _ =>
      FromMany [StatusOngoing; StatusFundsNeeded; StatusFundsNeededLastPayment;
                StatusCheckComplete; StatusClientWaitingForLastBlocks] ToNoChange
      ++ FromMany [StatusSendFunds; StatusSendFundsLastPayment] (To StatusOngoing)
      ++ FromMany paymentChannelCreationStates ToJustRecord
  | EventSendFunds =>
      FromMany [StatusSendFunds; StatusSendFundsLastPayment] (To StatusOngoing)
      ++ [(From StatusFundsNeeded, To StatusSendFunds);
          (From StatusFundsNeededLastPayment, To StatusSendFundsLastPayment)]
  | EventFundsExpended _ => [(From StatusCheckFunds, To StatusInsufficientFunds)]
  | EventBadPaymentRequested _ =>
      FromMany [StatusSendFunds; StatusSendFundsLastPayment] (To StatusFailing)
  | EventCreateVoucherFailed _ =>
      FromMany [StatusSendFunds; StatusSendFundsLastPayment] (To StatusFailing)
  | EventVoucherShortfall _ =>
      FromMany [StatusSendFunds; StatusSendFundsLastPayment] (To StatusCheckFunds)
  | EventWriteDealPaymentErrored _ => [(FromAny, To StatusErrored)]
  | EventPaymentNotSent =>
      [(From StatusOngoing, ToJustRecord); (From StatusSendFunds, To StatusOngoing);
       (From StatusSendFundsLastPayment, To StatusFinalizing)]
  | EventPaymentSent _ =>
      [(From StatusOngoing, ToJustRecord); (From StatusBlocksComplete, To StatusCheckComplete);
       (From StatusCheckComplete, ToNoChange)]
      ++ FromMany [StatusFundsNeeded; StatusFundsNeededLastPayment; StatusSendFunds]
           (To StatusOngoing)
      ++ [(From StatusSendFundsLastPayment, To StatusFinalizing)]
  | EventComplete =>
      FromMany [StatusSendFunds; StatusSendFundsLastPayment; StatusFundsNeeded;
                StatusFundsNeededLastPayment; StatusBlocksComplete; StatusOngoing]
        (To StatusCheckComplete)
      ++ [(From StatusFinalizing, To StatusCompleted)]
  | EventCompleteVerified => [(From StatusCheckComplete, To StatusCompleted)]
  | EventEarlyTermination => [(From StatusCheckComplete, To StatusErrored)]
  | EventWaitForLastBlocks =>
      [(From StatusCheckComplete, To StatusClientWaitingForLastBlocks);
       (From StatusCompleted, ToJustRecord)]
  | EventCancelComplete =>
      [(From StatusFailing, To StatusErrored); (From StatusCancelling, To StatusCancelled)]
  | EventProviderCancelled =>
      [(From StatusFailing, ToJustRecord); (From StatusCancelling, ToJustRecord);
       (FromAny, To StatusCancelling)]
  | EventCancel => [(FromAny, To StatusCancelling)]
  | EventRecheckFunds => [(From StatusInsufficientFunds, To StatusCheckFunds)]
  | EventPaymentChannelAddFundsErrored => []
  end.

(** ** Actions *)

Definition recordReceived (totalReceived : Z) (ds : ClientState) : outcome error ClientState :=
  Ok (set_cs_TotalReceived totalReceived ds).

(** Payment information is created on first use. *)
Definition ensure_payment_info (payCh : address) (ds : ClientState) : ClientState :=
  match cs_PaymentInfo ds with
  | None => set_cs_PaymentInfo (Some (MkPaymentInfo payCh 0)) ds
  | Some _ => ds
  end.

(** The action of [EventPaymentSent]: reduce the payment requested, update the
    funds spent, and recompute the bytes paid for and the current interval. *)
Definition payment_sent (voucherAmt : Z) (ds : ClientState) : outcome error ClientState :=
  let p := cs_Params ds in
  let sentAmt := voucherAmt - cs_FundsSpent ds in
  let ds := set_cs_PaymentRequested (cs_PaymentRequested ds - sentAmt) ds in
  let ds := set_cs_FundsSpent voucherAmt ds in
  if cs_FundsSpent ds <=? UnsealPrice p
  then Ok (set_cs_UnsealFundsPaid (cs_FundsSpent ds) ds)
  else
    let ds := set_cs_UnsealFundsPaid (UnsealPrice p) ds in
    if PricePerByte p =? 0 then Ok ds
    else
      let paidSoFarForTransfer := cs_FundsSpent ds - cs_UnsealFundsPaid ds in
      let ds := set_cs_BytesPaidFor
                  (big_uint64 (big_div paidSoFarForTransfer (PricePerByte p))) ds in
      if cs_CurrentInterval ds <=? cs_BytesPaidFor ds
      then outcome_bind (Client_NextInterval ds)
             (λ next, Ok (set_cs_CurrentInterval next ds))
      else Ok ds.

Definition client_action (ev : Event) (ds : ClientState) : outcome error ClientState :=
  match ev with
  | EventWriteDealProposalErrored err =>
      Ok (set_cs_Message (Error (ErrWrap "proposing deal" err)) ds)
  | EventDealProposed channelID => Ok (set_cs_Message EmptyString (set_cs_ChannelID channelID ds))
  | EventDealRejected message => Ok (set_cs_Message ("deal rejected: " +:+ message) ds)
  | EventDealNotFound message => Ok (set_cs_Message ("deal not found: " +:+ message) ds)
  | EventUnknownResponseReceived status =>
      Ok (set_cs_Message ("Unexpected deal response status: " +:+ Statuses status) ds)
  | EventPaymentChannelErrored err =>
      Ok (set_cs_Message (Error (ErrWrap "error from payment channel" err)) ds)
  | EventPaymentChannelCreateInitiated msgCID => Ok (set_cs_WaitMsgCID (Some msgCID) ds)
  | EventPaymentChannelAddingFunds msgCID payCh =>
      Ok (ensure_payment_info payCh (set_cs_WaitMsgCID (Some msgCID) ds))
  | EventPaymentChannelReady payCh =>
      Ok (set_cs_Message EmptyString (set_cs_WaitMsgCID None (ensure_payment_info payCh ds)))
  | EventAllocateLaneErrored err =>
      Ok (set_cs_Message (Error (ErrWrap "allocating payment lane" err)) ds)
  | EventLaneAllocated lane =>
      match cs_PaymentInfo ds with
      | None => Panic
      | Some pi => Ok (set_cs_PaymentInfo (Some (set_Lane lane pi)) ds)
      end
  | EventProviderErrored msg => Ok (set_cs_Message msg ds)
  | EventDataTransferError err =>
      Ok (set_cs_Message ("error generated by data transfer: " +:+ Error err) ds)
  | EventLastPaymentRequested paymentOwed =>
      Ok (set_cs_LastPaymentRequested true
            (set_cs_PaymentRequested (cs_PaymentRequested ds + paymentOwed) ds))
  | EventPaymentRequested paymentOwed =>
      Ok (set_cs_PaymentRequested (cs_PaymentRequested ds + paymentOwed) ds)
  | EventUnsealPaymentRequested paymentOwed =>
      Ok (set_cs_PaymentRequested (cs_PaymentRequested ds + paymentOwed) ds)
  | EventAllBlocksReceived => Ok (set_cs_AllBlocksReceived true ds)
  | EventBlocksReceived totalReceived => recordReceived totalReceived ds
  | EventFundsExpended shortfall =>
      Ok (set_cs_VoucherShortfall shortfall
            (set_cs_Message
               ("not enough current or pending funds in payment channel, shortfall of "
                +:+ pretty shortfall) ds))
  | EventBadPaymentRequested message => Ok (set_cs_Message message ds)
  | EventCreateVoucherFailed err =>
      Ok (set_cs_Message (Error (ErrWrap "creating payment voucher" err)) ds)
  | EventWriteDealPaymentErrored err =>
      Ok (set_cs_Message (Error (ErrWrap "writing deal payment" err)) ds)
  | EventPaymentSent voucherAmt => payment_sent voucherAmt ds
  | EventEarlyTermination =>
      Ok (set_cs_Message "Provider sent complete status without sending all data" ds)
  | EventProviderCancelled =>
      if bool_decide (cs_Status ds ≠ StatusFailing ∧ cs_Status ds ≠ StatusCancelling)
      then Ok (set_cs_Message "Provider cancelled retrieval" ds)
      else Ok ds
  | EventCancel => Ok (set_cs_Message "Client cancelled retrieval" ds)
  | _ => Ok ds
  end.

Definition FinalityStates : list Status :=
  [StatusErrored; StatusCompleted; StatusCancelled; StatusRejected; StatusDealNotFound].

Definition client_machine : Machine ClientState Event :=
  MkMachine client_chart client_action cs_Status set_cs_Status FinalityStates.

(** ** Entry functions

    A handler reads the deal state and calls its environment; it triggers at
    most one event.  The payment manager is the interface [Manager] over a
    state [M]; the data transfer calls are external. *)

Record DealEnvironment (M : Type) : Type := MkDealEnvironment {
  env_Payments : Manager M;
  env_OpenDataTransfer : peer_id → Proposal → error + ChannelID;
  env_SendDataTransferVoucher : ChannelID → Z → address → SignedVoucher → option error;
  env_CloseDataTransfer : ChannelID → option error
}.
Arguments env_Payments {M}.
Arguments env_OpenDataTransfer {M}.
Arguments env_SendDataTransferVoucher {M}.
Arguments env_CloseDataTransfer {M}.

Section handlers.
Context {M : Type} (env : DealEnvironment M).

Abbreviation handler := (ClientState → go M error (option Event)) (only parsing).

Definition trigger (ev : Event) : go M error (option Event) := go_ret (Some ev).

Definition ProposeDeal : handler := λ ds,
  match env_OpenDataTransfer env (cs_Sender ds) (cs_Proposal ds) with
  | inl err => trigger (EventWriteDealProposalErrored err)
  | inr channelID => trigger (EventDealProposed channelID)
  end.

Definition SetupPaymentChannelStart : handler := λ ds,
  if cs_TotalFunds ds =? 0 then trigger EventPaymentChannelSkip
  else
    let* r := go_try (mgr_GetChannel (env_Payments env) (cs_ClientWallet ds) (cs_MinerWallet ds)
                        (cs_TotalFunds ds)) in
    match r with
    | inl err => trigger (EventPaymentChannelErrored err)
    | inr res =>
      if String.eqb (cr_Channel res) Undef
      then trigger (EventPaymentChannelCreateInitiated (cr_WaitSentinel res))
      else if String.eqb (cr_WaitSentinel res) Undef
      then trigger (EventPaymentChannelReady (cr_Channel res))
      else trigger (EventPaymentChannelAddingFunds (cr_WaitSentinel res) (cr_Channel res))
    end.

Definition WaitPaymentChannelReady : handler := λ ds,
  match cs_WaitMsgCID ds with
  | None => go_panic
  | Some mcid =>
    let* r := go_try (mgr_WaitForChannel (env_Payments env) mcid) in
    match r with
    | inl err => trigger (EventPaymentChannelErrored err)
    | inr paych => trigger (EventPaymentChannelReady paych)
    end
  end.

Definition AllocateLane : handler := λ ds,
  match cs_PaymentInfo ds with
  | None => go_panic
  | Some pi =>
    let* r := go_try (mgr_AllocateLane (env_Payments env) (PayCh pi)) in
    match r with
    | inl err => trigger (EventAllocateLaneErrored err)
    | inr lane => trigger (EventLaneAllocated lane)
    end
  end.

Definition Ongoing : handler := λ ds,
  if 0 <? cs_PaymentRequested ds
  then if cs_LastPaymentRequested ds
       then trigger (EventLastPaymentRequested 0)
       else trigger (EventPaymentRequested 0)
  else go_ret None.

Definition ProcessPaymentRequested : handler := λ ds,
  if cs_UnsealFundsPaid ds <? UnsealPrice (cs_Params ds) then trigger EventSendFunds
  else if cs_TotalReceived ds <=? cs_BytesPaidFor ds then go_ret None
  else if cs_AllBlocksReceived ds then trigger EventSendFunds
  else if cs_CurrentInterval ds <=? cs_TotalReceived ds then trigger EventSendFunds
  else go_ret None.

Definition calcAmountToSend (ds : ClientState) : Z :=
  let p := cs_Params ds in
  if ((UnsealPrice p <=? cs_UnsealFundsPaid ds) && negb (cs_AllBlocksReceived ds))%bool
  then if cs_TotalReceived ds <? cs_CurrentInterval ds then 0
       else i64 (cs_CurrentInterval ds) * PricePerByte p + UnsealPrice p
  else i64 (cs_TotalReceived ds) * PricePerByte p + UnsealPrice p.

Definition SendFunds : handler := λ ds,
  let totalPrice := calcAmountToSend ds in
  if totalPrice <=? cs_FundsSpent ds then trigger EventPaymentNotSent
  else
    match cs_PaymentInfo ds with
    | None => go_panic
    | Some pi =>
      let* r := go_try (mgr_CreateVoucher (env_Payments env) (PayCh pi) totalPrice (Lane pi)) in
      match r with
      | inl err => trigger (EventCreateVoucherFailed err)
      | inr voucher =>
        if 0 <? vcr_Shortfall voucher
        then trigger (EventVoucherShortfall (vcr_Shortfall voucher))
        else
          match vcr_Voucher voucher with
          | None => go_panic
          | Some sv =>
            match env_SendDataTransferVoucher env (cs_ChannelID ds) (ID (cs_Proposal ds))
                    (PayCh pi) sv with
            | Some err => trigger (EventWriteDealPaymentErrored err)
            | None => trigger (EventPaymentSent totalPrice)
            end
          end
      end
    end.

Definition CheckFunds : handler := λ ds,
  match cs_WaitMsgCID ds, cs_PaymentInfo ds with
  | Some mcid, Some pi => trigger (EventPaymentChannelAddingFunds mcid (PayCh pi))
  | _, None => go_panic
  | None, Some pi =>
    let* r := go_try (mgr_ChannelAvailableFunds (env_Payments env) (PayCh pi)) in
    match r with
    | inl err => trigger (EventPaymentChannelErrored err)
    | inr af =>
      let total := calcAmountToSend ds in
      let unredeemedFunds := af_ConfirmedAmt af - af_VoucherRedeemedAmt af in
      let shortfall := total - unredeemedFunds in
      if shortfall <=? 0 then trigger (EventPaymentChannelReady (PayCh pi))
      else
        let totalInFlight := af_PendingAmt af + af_QueuedAmt af in
        match af_PendingWaitSentinel af with
        | Some sentinel =>
          if totalInFlight <? shortfall
          then trigger (EventFundsExpended (shortfall - totalInFlight))
          else trigger (EventPaymentChannelAddingFunds sentinel (PayCh pi))
        | None => trigger (EventFundsExpended (shortfall - totalInFlight))
        end
    end
  end.

Definition CancelDeal : handler := λ ds,
  match env_CloseDataTransfer env (cs_ChannelID ds) with
  | Some err => trigger (EventDataTransferError err)
  | None => trigger EventCancelComplete
  end.

Definition CheckComplete : handler := λ ds,
  if cs_AllBlocksReceived ds then trigger EventCompleteVerified
  else if PricePerByte (cs_Params ds) =? 0 then trigger EventWaitForLastBlocks
  else trigger EventEarlyTermination.

Definition StateEntryFuncs (s : Status) : option handler :=
  match s with
  | StatusNew => Some ProposeDeal
  | StatusAccepted => Some SetupPaymentChannelStart
  | StatusPaymentChannelCreating => Some WaitPaymentChannelReady
  | StatusPaymentChannelAddingInitialFunds => Some WaitPaymentChannelReady
  | StatusPaymentChannelAllocatingLane => Some AllocateLane
  | StatusOngoing => Some Ongoing
  | StatusFundsNeeded => Some ProcessPaymentRequested
  | StatusFundsNeededLastPayment => Some ProcessPaymentRequested
  | StatusSendFunds => Some SendFunds
  | StatusSendFundsLastPayment => Some SendFunds
  | StatusCheckFunds => Some CheckFunds
  | StatusPaymentChannelAddingFunds => Some WaitPaymentChannelReady
  | StatusFailing => Some CancelDeal
  | StatusCancelling => Some CancelDeal
  | StatusCheckComplete => Some CheckComplete
  | _ => None
  end.

End handlers.

(** ** Data transfer events (dtsubscriber.go)

    The subscriber sends an event name with an argument list; [Generate] types
    the arguments against the parameters of the event's action, and answers
    [None] when they do not match. *)

Inductive EventName : Type :=
| NameDealRejected | NameProviderErrored | NameDealNotFound | NameDealAccepted
| NameUnsealPaymentRequested | NameLastPaymentRequested | NameComplete
| NamePaymentRequested | NameUnknownResponseReceived | NameBlocksReceived
| NameAllBlocksReceived | NameProviderCancelled | NameDataTransferError | NameNoEvent.

#[export] Instance EventName_eq_dec : EqDecision EventName.
Proof. solve_decision. Defined.

Inductive Arg : Type :=
| ArgString (s : string)
| ArgError (e : error)
| ArgAmount (z : Z)
| ArgUint (z : Z)
| ArgStatus (s : Status).

Definition Generate (n : EventName) (args : list Arg) : option Event :=
  match n, args with
  | NameDealRejected, [ArgString m] => Some (EventDealRejected m)
  | NameProviderErrored, [ArgString m] => Some (EventProviderErrored m)
  | NameDealNotFound, [ArgString m] => Some (EventDealNotFound m)
  | NameDealAccepted, [] => Some EventDealAccepted
  | NameUnsealPaymentRequested, [ArgAmount a] => Some (EventUnsealPaymentRequested a)
  | NameLastPaymentRequested, [ArgAmount a] => Some (EventLastPaymentRequested a)
  | NameComplete, [] => Some EventComplete
  | NamePaymentRequested, [ArgAmount a] => Some (EventPaymentRequested a)
  | NameUnknownResponseReceived, [ArgStatus s] => Some (EventUnknownResponseReceived s)
  | NameBlocksReceived, [ArgUint t] => Some (EventBlocksReceived t)
  | NameAllBlocksReceived, [] => Some EventAllBlocksReceived
  | NameProviderCancelled, [] => Some EventProviderCancelled
  | NameDataTransferError, [ArgError e] => Some (EventDataTransferError e)
  | _, _ => None
  end.

Definition eventFromDealStatus (response : Response) : EventName * list Arg :=
  match r_Status response with
  | StatusRejected => (NameDealRejected, [ArgString (r_Message response)])
  | StatusErrored => (NameProviderErrored, [ArgString (r_Message response)])
  | StatusDealNotFound => (NameDealNotFound, [ArgString (r_Message response)])
  | StatusAccepted => (NameDealAccepted, [])
  | StatusFundsNeededUnseal =>
      (NameUnsealPaymentRequested, [ArgAmount (r_PaymentOwed response)])
  | StatusFundsNeededLastPayment =>
      (NameLastPaymentRequested, [ArgAmount (r_PaymentOwed response)])
  | StatusCompleted => (NameComplete, [])
  | StatusFundsNeeded | StatusOngoing =>
      (NamePaymentRequested, [ArgAmount (r_PaymentOwed response)])
  | _ => (NameUnknownResponseReceived, [])
  end.

Section data_transfer.
(** The text of [datatransfer.ErrRejected]. *)
Context (ErrRejected_text : string).

Definition eventFromDataTransfer (event : DtEvent) (channelState : DtChannelState)
    : EventName * list Arg :=
  match dt_Code event with
  | DtDataReceivedProgress => (NameBlocksReceived, [ArgUint (dts_Received channelState)])
  | DtFinishTransfer => (NameAllBlocksReceived, [])
  | DtCancel => (NameProviderCancelled, [])
  | DtNewVoucherResult =>
      match ResponseFromVoucherResult (dts_LastVoucherResult channelState) with
      | None => (NameNoEvent, [])
      | Some response => eventFromDealStatus response
      end
  | DtDisconnected =>
      (NameDataTransferError, [ArgError (ErrMsg "deal data transfer stalled (peer hungup)")])
  | DtError =>
      if String.eqb (dts_Message channelState) ErrRejected_text
      then (NameDealRejected, [ArgString "rejected for unknown reasons"])
      else (NameDataTransferError,
            [ArgError (ErrMsg ("deal data transfer failed: " +:+ dt_Message event))])
  | _ => (NameNoEvent, [])
  end.

(** The event sent to the state machines, with the deal it is addressed to. *)
Definition DataTransferSubscriber (host : peer_id) (event : DtEvent)
    (channelState : DtChannelState) : option (Z * (EventName * list Arg)) :=
  match ProposalFromVoucher (dts_Voucher channelState) with
  | None => None
  | Some dealProposal =>
    if negb (String.eqb (dts_Recipient channelState) host) then None
    else
      let '(retrievalEvent, params) := eventFromDataTransfer event channelState in
      if bool_decide (retrievalEvent = NameNoEvent) then None
      else Some (ID dealProposal, (retrievalEvent, params))
  end.

End data_transfer.

(** ** A new retrieval (Client.Retrieve of retrieval/manager.go) *)

(** [counter.next] *)
Definition counter_next (val : Z) : Z := u64 (val + 1).

(** The deal state [Retrieve] hands to the state machine group. *)
Definition Retrieve_state (next : Z) (root : cid) (params : Params) (totalFunds : Z)
    (sender : peer_id) (clientAddr providerAddr : address) (storeID : option Z) : ClientState :=
  MkClientState (MkProposal root next params) storeID (MkChannelID EmptyString EmptyString 0) false false
    totalFunds clientAddr providerAddr None StatusNew sender 0 EmptyString 0 (PaymentInterval params)
    0 0 0 None 0.

(** ** Properties *)

#[export] Instance client_machine_laws : MachineLaws client_machine.
Proof.
  split; [|by intros s []].
  intros ev ds ds'. destruct ev; simpl; unfold payment_sent, ensure_payment_info, outcome_bind;
    repeat case_match; simpl; try done; intros [= <-]; by destruct ds.
Qed.

(** *** Every event an entry function triggers is expected by the chart, with
    two exceptions *)

Section handler_events.
Context {M : Type} (env : DealEnvironment M).
Implicit Types (ds : ClientState) (m : M) (ev : Event).

(** Run a handler and keep only the event it triggers. *)
Ltac run_handler :=
  repeat match goal with
  | H : context [match ?x with _ => _ end] |- _ => destruct x eqn:?; simplify_eq/=
  end.

Lemma handler_event_refused s h ds m m' ev :
  StateEntryFuncs env s = Some h → h ds m = (m', Ok (Some ev)) →
  next_status client_machine ev s = None →
  (s = StatusPaymentChannelAddingInitialFunds ∨ s = StatusCheckFunds) ∧
  ∃ err, ev = EventPaymentChannelErrored err.
Proof.
  intros Hh Hrun Href. destruct s; simplify_eq/=;
    unfold ProposeDeal, SetupPaymentChannelStart, WaitPaymentChannelReady, AllocateLane,
      Ongoing, ProcessPaymentRequested, SendFunds, CheckFunds, CancelDeal, CheckComplete,
      trigger, go_bind, go_try, go_ret, go_panic in Hrun; run_handler;
    try (vm_compute in Href; discriminate); eauto.
Qed.

End handler_events.

(** *** Accounting of the funds spent

    The unseal payment never exceeds its price, and the bytes counted as paid
    for are covered by what was spent beyond it. *)
Definition accounting (ds : ClientState) : Prop :=
  let p := cs_Params ds in
  0 <= cs_UnsealFundsPaid ds <= UnsealPrice p ∧
  0 <= cs_BytesPaidFor ds ∧
  cs_UnsealFundsPaid ds + cs_BytesPaidFor ds * PricePerByte p <= cs_FundsSpent ds ∧
  (cs_BytesPaidFor ds * PricePerByte p = 0 ∨ UnsealPrice p < cs_FundsSpent ds).

(** A voucher never goes below what was already spent. *)
Definition payload_ok (ev : Event) (ds : ClientState) : Prop :=
  match ev with EventPaymentSent v => cs_FundsSpent ds <= v | _ => True end.

Definition prices_ok (p : Params) : Prop := 0 <= PricePerByte p ∧ 0 <= UnsealPrice p.

Lemma payment_sent_accounting v ds ds' :
  prices_ok (cs_Params ds) → accounting ds → cs_FundsSpent ds <= v →
  payment_sent v ds = Ok ds' → accounting ds'.
Proof.
  destruct ds as [prop ? ? ? ? ? ? ? ? ? ? ? ? bytes ci pr spent unseal ? ?].
  unfold prices_ok, accounting, cs_Params, payment_sent, Client_NextInterval, cs_Params; simpl.
  destruct prop as [? ? p]; simpl. intros [Hp Hu] (Hun & Hb & Hs & Hz) Hv.
  destruct (Z.leb_spec v (UnsealPrice p)).
  { intros [= <-]; simpl. repeat split; lia. }
  destruct (Z.eqb_spec (PricePerByte p) 0) as [Hp0|Hp0].
  { intros [= <-]; simpl. rewrite Hp0. repeat split; lia. }
  set (q := big_div _ _). assert (0 <= q ∧ q * PricePerByte p <= v - UnsealPrice p) as [Hq1 Hq2].
  { unfold q. rewrite big_div_pos by lia. split; [apply Z.div_pos; lia|].
    rewrite Z.mul_comm. apply Z.mul_div_le. lia. }
  assert (0 <= big_uint64 q <= q) as Hq3.
  { unfold big_uint64, u64, two64. rewrite Z.abs_eq by done.
    Z.div_mod_to_equations. lia. }
  destruct (ci <=? big_uint64 q); simpl.
  - destruct (NextInterval p ci); simpl; try done. intros [= <-]; simpl. repeat split; nia.
  - intros [= <-]; simpl. repeat split; nia.
Qed.

(** Every other action leaves the accounted fields and the parameters alone. *)
Definition accounted (ds : ClientState) : Proposal * Z * Z * Z * Z :=
  (cs_Proposal ds, cs_UnsealFundsPaid ds, cs_BytesPaidFor ds, cs_FundsSpent ds,
   cs_CurrentInterval ds).

Definition sent_amount (ev : Event) : option Z :=
  match ev with EventPaymentSent v => Some v | _ => None end.

Lemma action_keeps_accounted ev ds ds' :
  sent_amount ev = None → client_action ev ds = Ok ds' → accounted ds' = accounted ds.
Proof.
  destruct ev; simpl; try done; intros _; unfold ensure_payment_info;
    repeat case_match; try done; by intros [= <-]; destruct ds.
Qed.

Lemma accounting_accounted ds ds' :
  accounted ds' = accounted ds → accounting ds → accounting ds'.
Proof.
  unfold accounted, accounting, cs_Params. intros [= -> -> -> -> _]. done.
Qed.

Lemma payment_sent_params v ds ds' :
  payment_sent v ds = Ok ds' → cs_Proposal ds' = cs_Proposal ds.
Proof.
  unfold payment_sent, outcome_bind. repeat case_match; try done;
    intros [= <-]; by destruct ds.
Qed.

Lemma set_status_accounted s ds : accounted (set_cs_Status s ds) = accounted ds.
Proof. by destruct ds. Qed.

(** Deal states reachable from [Retrieve] by events whose payloads are sound. *)
Section reach.
Context {R : FsmRuntime}.

Inductive client_reach (st0 : ClientState) : ClientState → Prop :=
| client_reach_init : client_reach st0 st0
| client_reach_step ds ev ds' b :
    client_reach st0 ds → payload_ok ev ds →
    fsm_apply client_machine ev ds = Ok (ds', b) → client_reach st0 ds'.

Lemma client_step_action ev ds ds' b :
  fsm_apply client_machine ev ds = Ok (ds', b) →
  ∃ ds1, client_action ev ds = Ok ds1 ∧ (ds' = ds1 ∨ ∃ s, ds' = set_cs_Status s ds1).
Proof.
  rewrite fsm_apply_eq. unfold apply_documented. case_bool_decide; [done|].
  destruct (chart_lookup _ _) as [d|]; [|done]. simpl.
  destruct (client_action ev ds) as [ds1| | |]; simpl; try done.
  destruct d; simpl; intros [= <- <-]; eauto.
Qed.

Lemma client_step_accounting ev ds ds' b :
  prices_ok (cs_Params ds) → accounting ds → payload_ok ev ds →
  fsm_apply client_machine ev ds = Ok (ds', b) →
  accounting ds' ∧ cs_Proposal ds' = cs_Proposal ds.
Proof.
  intros Hp Ha Hok (ds1 & Hact & Hds')%client_step_action.
  assert (accounting ds1 ∧ cs_Proposal ds1 = cs_Proposal ds) as [Ha1 Hp1].
  { destruct (sent_amount ev) as [v|] eqn:Hne.
    - destruct ev; simplify_eq/=.
      split; [by eapply payment_sent_accounting|by eapply payment_sent_params].
    - assert (accounted ds1 = accounted ds) as E by (eapply action_keeps_accounted; eauto).
      split; [by eapply accounting_accounted|]. by injection E. }
  destruct Hds' as [->|[s ->]]; [done|]. split; [|by destruct ds1].
  eapply accounting_accounted; [apply set_status_accounted|done].
Qed.

End reach.

(** A client deal with the default parameters, in a given state. *)
Definition sample_deal (st : Status) : ClientState :=
  set_cs_PaymentInfo (Some (MkPaymentInfo "ch" 0))
    (set_cs_WaitMsgCID (Some "msg")
       (set_cs_Status st (Retrieve_state 1 "root" default_params 1000 "peer" "me" "you" None))).

Definition failing_manager : Manager unit :=
  MkManager (λ _ _ _, go_err (ErrExternal "down")) (λ _, go_err (ErrExternal "down"))
    (λ _, go_err (ErrExternal "down")) (λ _ _ _, go_err (ErrExternal "down"))
    (λ _, go_err (ErrExternal "down")) (λ _ _ _ _, go_err (ErrExternal "down")).

Definition sample_env : DealEnvironment unit :=
  MkDealEnvironment unit failing_manager (λ _ _, inr (MkChannelID "a" "b" 0))
    (λ _ _ _ _, None) (λ _, None).

(** In every status, the event an entry function triggers is accepted by the
    state chart, with exactly one exception: when waiting for a channel that adds
    its initial funds, or when checking funds, a payment failure triggers
    [EventPaymentChannelErrored], which the chart of those two statuses does not
    list. *)
Theorem client_handlers_accepted {M : Type} (env : DealEnvironment M) (s : Status)
    (ds : ClientState) (m m' : M) (ev : Event) h :
  StateEntryFuncs env s = Some h → h ds m = (m', Ok (Some ev)) →
  next_status client_machine ev s = None ↔
  (s = StatusPaymentChannelAddingInitialFunds ∨ s = StatusCheckFunds) ∧
  ∃ err, ev = EventPaymentChannelErrored err.
Proof.
  intros Hh Hrun. split; [by eapply handler_event_refused|].
  by intros [[->| ->] [err ->]].
Qed.

Lemma client_handlers_accepted_witness :
  next_status client_machine (EventPaymentChannelErrored (ErrExternal "down"))
    StatusPaymentChannelAddingInitialFunds = None.
Proof.
  apply (client_handlers_accepted sample_env StatusPaymentChannelAddingInitialFunds
           (sample_deal StatusPaymentChannelAddingInitialFunds) tt tt
           (EventPaymentChannelErrored (ErrExternal "down")) (WaitPaymentChannelReady sample_env));
    [reflexivity|reflexivity|eauto].
Defined.

(** A payment channel failure while the initial funds are being added, or
    while the funds are checked, is dropped: the deal stays in its state and no
    entry function runs again, so nothing moves the deal until an outside event
    arrives. *)
Theorem client_payment_error_dropped {R : FsmRuntime} (ds : ClientState) (err : error) :
  cs_Status ds = StatusPaymentChannelAddingInitialFunds ∨ cs_Status ds = StatusCheckFunds →
  fsm_apply client_machine (EventPaymentChannelErrored err) ds = Err invalid_transition.
Proof.
  intros H. rewrite fsm_apply_eq. unfold apply_documented. simpl.
  by destruct H as [-> | ->].
Qed.

Lemma client_payment_error_dropped_witness :
  apply_documented client_machine (EventPaymentChannelErrored (ErrExternal "down"))
    (sample_deal StatusCheckFunds) = Err invalid_transition.
Proof.
  exact (@client_payment_error_dropped documented_runtime (sample_deal StatusCheckFunds)
           (ErrExternal "down") (or_intror eq_refl)).
Defined.

(** C4: in every deal state reachable from [Retrieve], the unseal payment is
    between zero and its price, and the unseal payment plus the price of the
    bytes counted as paid for never exceeds the funds spent. *)
Theorem client_accounting {R : FsmRuntime} next root params funds sender ca pa sid ds :
  prices_ok params →
  client_reach (Retrieve_state next root params funds sender ca pa sid) ds →
  0 <= cs_UnsealFundsPaid ds <= UnsealPrice params ∧
  cs_UnsealFundsPaid ds + cs_BytesPaidFor ds * PricePerByte params <= cs_FundsSpent ds.
Proof.
  intros Hp Hr.
  assert (accounting ds ∧ cs_Params ds = params) as [Ha Hparams].
  { induction Hr as [|ds ev ds' b Hr [IHa IHp] Hok Happ].
    - split; [|done]. unfold accounting, cs_Params. simpl.
      destruct Hp. repeat split; lia.
    - destruct (client_step_accounting ev ds ds' b) as [Ha' Hprop]; [by rewrite IHp|done..|].
      split; [done|]. unfold cs_Params in *. by rewrite Hprop. }
  unfold accounting in Ha. rewrite Hparams in Ha. tauto.
Qed.

(** Run a list of events; [None] when one of them is refused or unsound. *)
Fixpoint client_run (evs : list Event) (ds : ClientState) : option ClientState :=
  match evs with
  | [] => Some ds
  | ev :: evs' =>
    if match ev with EventPaymentSent v => cs_FundsSpent ds <=? v | _ => true end
    then match apply_documented client_machine ev ds with
         | Ok (ds', _) => client_run evs' ds'
         | _ => None
         end
    else None
  end.

Lemma client_run_reach st0 evs ds ds' :
  @client_reach documented_runtime st0 ds → client_run evs ds = Some ds' →
  @client_reach documented_runtime st0 ds'.
Proof.
  revert ds. induction evs as [|ev evs IH]; intros ds Hr; simpl; [by intros [= <-]|].
  destruct (match ev with EventPaymentSent _ => _ | _ => _ end) eqn:Hp; [|done].
  destruct (apply_documented _ ev ds) as [[ds1 b]| | |] eqn:Ha; try done.
  apply IH. eapply (@client_reach_step documented_runtime); [done| |exact Ha].
  destruct ev; simpl; auto. by to_prop.
Qed.

(** A deal that paid for two megabytes. *)
Definition paid_events : list Event :=
  [EventDealProposed (MkChannelID "a" "b" 0); EventDealAccepted; EventPaymentChannelSkip;
   EventBlocksReceived 2097152; EventPaymentRequested 2097152; EventSendFunds;
   EventPaymentSent 4194304].

Definition paid_deal : ClientState :=
  default (sample_deal StatusNew)
    (client_run paid_events
       (Retrieve_state 1 "root" default_params 1000 "peer" "me" "you" None)).

Lemma client_accounting_witness :
  (cs_BytesPaidFor paid_deal = 2097152 ∧ cs_FundsSpent paid_deal = 4194304) ∧
  0 <= cs_UnsealFundsPaid paid_deal <= UnsealPrice default_params ∧
  cs_UnsealFundsPaid paid_deal + cs_BytesPaidFor paid_deal * PricePerByte default_params
  <= cs_FundsSpent paid_deal.
Proof.
  split; [by vm_compute|].
  refine (@client_accounting documented_runtime 1 "root" default_params 1000 "peer" "me" "you"
            None paid_deal (conj (ltac:(done) : 0 <= 2) (ltac:(done) : 0 <= 0)) _).
  apply (client_run_reach _ paid_events
           (Retrieve_state 1 "root" default_params 1000 "peer" "me" "you" None));
    [apply client_reach_init|vm_compute; reflexivity].
Defined.

(** What [calcAmountToSend] computes when there is something to pay. *)
Lemma calcAmountToSend_due ds :
  prices_ok (cs_Params ds) → 0 <= cs_CurrentInterval ds → 0 <= cs_TotalReceived ds < two63 →
  0 < calcAmountToSend ds →
  calcAmountToSend ds
  = (if (UnsealPrice (cs_Params ds) <=? cs_UnsealFundsPaid ds) && negb (cs_AllBlocksReceived ds)
     then cs_CurrentInterval ds else cs_TotalReceived ds)
    * PricePerByte (cs_Params ds) + UnsealPrice (cs_Params ds) ∧
  calcAmountToSend ds
  <= cs_TotalReceived ds * PricePerByte (cs_Params ds) + UnsealPrice (cs_Params ds).
Proof.
  intros [Hp Hu] Hci Hr. unfold calcAmountToSend. destruct (_ && _)%bool.
  - destruct (Z.ltb_spec (cs_TotalReceived ds) (cs_CurrentInterval ds)); [lia|].
    rewrite i64_small by lia. split; [done|nia].
  - rewrite i64_small by lia. split; [done|lia].
Qed.

(** C10: the client only reports a payment after creating and sending a voucher
    on the deal's channel and lane for exactly the amount due: the unseal price
    plus the price of all bytes up to the current interval boundary while blocks
    are coming, or of all bytes received otherwise.  It is more than what was
    spent so far and pays for nothing that was not received. *)
Theorem SendFunds_pays_for_received {M : Type} (env : DealEnvironment M)
    {C : VoucherContract (env_Payments env)} (ds : ClientState) (m m' : M) (v : Z) :
  prices_ok (cs_Params ds) → 0 <= cs_FundsSpent ds →
  0 <= cs_CurrentInterval ds → 0 <= cs_TotalReceived ds < two63 →
  SendFunds env ds m = (m', Ok (Some (EventPaymentSent v))) →
  v = (if (UnsealPrice (cs_Params ds) <=? cs_UnsealFundsPaid ds) && negb (cs_AllBlocksReceived ds)
       then cs_CurrentInterval ds else cs_TotalReceived ds)
      * PricePerByte (cs_Params ds) + UnsealPrice (cs_Params ds) ∧
  cs_FundsSpent ds < v ∧
  v <= cs_TotalReceived ds * PricePerByte (cs_Params ds) + UnsealPrice (cs_Params ds) ∧
  ∃ pi sv, cs_PaymentInfo ds = Some pi ∧
    mgr_CreateVoucher (env_Payments env) (PayCh pi) v (Lane pi) m
    = (m', Ok (MkVoucherCreateResult (Some sv) 0)) ∧
    sv_Amount sv = v ∧ sv_Lane sv = Lane pi ∧ sv_ChannelAddr sv = PayCh pi ∧
    env_SendDataTransferVoucher env (cs_ChannelID ds) (ID (cs_Proposal ds)) (PayCh pi) sv = None.
Proof.
  intros [Hp Hu] Hs Hci Hr. unfold SendFunds, trigger, go_bind, go_try, go_ret, go_panic.
  destruct (Z.leb_spec (calcAmountToSend ds) (cs_FundsSpent ds)) as [|Hlt]; [done|].
  destruct (cs_PaymentInfo ds) as [pi|]; [|done].
  destruct (mgr_CreateVoucher _ _ _ _ m) as [m1 [res| | |]] eqn:Hcv; try done.
  pose proof (create_voucher_contract _ _ _ _ _ _ Hcv) as Hres. destruct res as [ov sf]; simpl in *.
  destruct (Z.ltb_spec 0 sf); [done|].
  destruct Hres as [(sv & -> & -> & Hch & Ham & Hla)|[_ ?]]; [|lia].
  destruct (env_SendDataTransferVoucher _ _ _ _ sv) eqn:Hsend; [done|]. intros [= <- <-].
  destruct (calcAmountToSend_due ds) as [Heq Hle]; [done|done|done|lia|].
  split_and!; [done|done|done|exists pi, sv; by split_and!].
Qed.

(** A manager that grants every voucher. *)
Definition granting_manager : Manager unit :=
  MkManager (λ _ _ _, go_ret (MkChannelResponse "ch" Undef)) (λ _, go_ret "ch")
    (λ _, go_ret 0)
    (λ ch amt lane,
       go_ret (MkVoucherCreateResult (Some (MkVoucher ch lane 1 amt [] None EmptyString)) 0))
    (λ _, go_err (ErrExternal "down")) (λ _ _ _ _, go_ret 0).

#[export] Instance granting_contract : VoucherContract granting_manager.
Proof. split. intros ch amt lane m m' res [= <- <-]. left. by eexists. Qed.

Definition granting_env : DealEnvironment unit :=
  MkDealEnvironment unit granting_manager (λ _ _, inr (MkChannelID "a" "b" 0))
    (λ _ _ _ _, None) (λ _, None).

Lemma SendFunds_pays_for_received_witness :
  let ds := set_cs_TotalReceived 1500000 (sample_deal StatusSendFunds) in
  2097152 = (if (0 <=? cs_UnsealFundsPaid ds) && negb (cs_AllBlocksReceived ds)
             then cs_CurrentInterval ds else cs_TotalReceived ds) * 2 + 0 ∧
  cs_FundsSpent ds < 2097152.
Proof.
  destruct (SendFunds_pays_for_received granting_env
    (set_cs_TotalReceived 1500000 (sample_deal StatusSendFunds)) tt tt 2097152)
    as (H1 & H2 & _); try done.
Defined.

(** Any deal that is not in a final state can be cancelled: [EventCancel] is
    accepted and moves it to the cancelling state, whose entry function triggers
    an event that is accepted and ends the deal in a final state. *)
Theorem client_cancel_terminates {R : FsmRuntime} {M : Type} (env : DealEnvironment M)
    (ds : ClientState) (m : M) :
  cs_Status ds ∉ FinalityStates →
  ∃ ds1 ev ds2 b, fsm_apply client_machine EventCancel ds = Ok (ds1, true) ∧
    cs_Status ds1 = StatusCancelling ∧
    CancelDeal env ds1 m = (m, Ok (Some ev)) ∧
    fsm_apply client_machine ev ds1 = Ok (ds2, b) ∧ cs_Status ds2 ∈ FinalityStates.
Proof.
  intros Hf.
  exists (set_cs_Status StatusCancelling (set_cs_Message "Client cancelled retrieval" ds)).
  assert (fsm_apply client_machine EventCancel ds
          = Ok (set_cs_Status StatusCancelling (set_cs_Message "Client cancelled retrieval" ds),
                true)) as ->.
  { rewrite fsm_apply_eq. unfold apply_documented. by rewrite bool_decide_false. }
  unfold CancelDeal, trigger, go_ret.
  destruct (env_CloseDataTransfer env _) as [err|].
  - eexists (EventDataTransferError err), _, _. split_and!; try done.
    + by rewrite fsm_apply_eq.
    + simpl. set_solver.
  - eexists EventCancelComplete, _, _. split_and!; try done.
    + by rewrite fsm_apply_eq.
    + simpl. set_solver.
Qed.

Lemma client_cancel_terminates_witness :
  ∃ ds1 ev ds2 b,
    apply_documented client_machine EventCancel (sample_deal StatusOngoing) = Ok (ds1, true) ∧
    cs_Status ds1 = StatusCancelling ∧ CancelDeal sample_env ds1 tt = (tt, Ok (Some ev)) ∧
    apply_documented client_machine ev ds1 = Ok (ds2, b) ∧ cs_Status ds2 ∈ FinalityStates.
Proof.
  apply (@client_cancel_terminates documented_runtime unit sample_env (sample_deal StatusOngoing) tt).
  vm_compute. set_solver.
Defined.

(** The statuses for which [eventFromDealStatus] has a case. *)
Definition known_response (s : Status) : bool :=
  bool_decide (s ∈ [StatusRejected; StatusErrored; StatusDealNotFound; StatusAccepted;
    StatusFundsNeededUnseal; StatusFundsNeededLastPayment; StatusCompleted; StatusFundsNeeded;
    StatusOngoing]).

(** The arguments sent with a client event match the parameters of its
    action, except for a response with an unexpected status: that event is sent
    without the status its action takes. *)
Theorem eventFromDataTransfer_args (text : string) (event : DtEvent) (st : DtChannelState)
    (n : EventName) (args : list Arg) :
  eventFromDataTransfer text event st = (n, args) → n ≠ NameNoEvent →
  (Generate n args = None ↔
   dt_Code event = DtNewVoucherResult ∧
   ∃ r, dts_LastVoucherResult st = VRResponse r ∧ known_response (r_Status r) = false).
Proof.
  destruct event as [code msg], st as [? ? ? ? [r|] ? cm]; unfold eventFromDataTransfer; simpl.
  - destruct code; simpl; try (intros [= <- <-]; naive_solver).
    + destruct r as [[] ? ? ?]; simpl; intros [= <- <-] _; naive_solver.
    + destruct (String.eqb cm text); intros [= <- <-]; naive_solver.
  - destruct code; simpl; try (intros [= <- <-]; naive_solver).
    destruct (String.eqb cm text); intros [= <- <-]; naive_solver.
Qed.

Lemma eventFromDataTransfer_args_witness :
  let r := MkResponse StatusUnsealed 1 0 EmptyString in
  Generate NameUnknownResponseReceived [] = None.
Proof.
  apply (eventFromDataTransfer_args "rejected" (MkDtEvent DtNewVoucherResult EmptyString)
    (MkDtChannelState "a" "b" DtOngoing VOther (VRResponse (MkResponse StatusUnsealed 1 0 EmptyString)) 0 EmptyString)
    NameUnknownResponseReceived []); [reflexivity|discriminate|].
  split; [reflexivity|]. eexists. split; reflexivity.
Defined.
