(* ===== verification/Retrieval.v ===== *)
(** * The retrieval client (retrieval/manager.go, counter.go)

    The client keeps its deals in a group of state machines, one per deal, under the
    number its counter gives it.  The group belongs to go-statemachine; what the client
    relies on is a class. *)
From S2P Require Import Prelude Deal Fsm PayTypes DataTransfer ClientFsm.

(** A machine answers a refused event by logging it and keeping its state. *)
Definition client_apply {R : FsmRuntime} (ev : Event) (ds : ClientState) : outcome error ClientState :=
  match fsm_apply client_machine ev ds with
  | Ok (ds', _) => Ok ds'
  | Err _ => Ok ds
  | Panic => Panic
  | Hang => Hang
  end.

(** The group of the client's state machines. *)
Class ClientGroup (G : Type) : Type := {
  cg_Begin : Z → ClientState → go G error unit;
  cg_Send : Z → Event → go G error unit;
  cg_List : go G error (list ClientState)
}.

(** A deal is begun once; an event changes its deal only, the way its machine says; the
    listing has the state of every deal. *)
Class ClientGroupLaws {R : FsmRuntime} (G : Type) {CG : ClientGroup G} : Type := {
  cg_view : G → gmap Z ClientState;
  begin_ok_law : ∀ id st g g', cg_Begin id st g = (g', Ok tt) →
    cg_view g !! id = None ∧ cg_view g' = <[id := st]> (cg_view g);
  begin_err_law : ∀ id st g g' e, cg_Begin id st g = (g', Err e) → cg_view g' = cg_view g;
  send_ok_law : ∀ id ev g g' ds, cg_Send id ev g = (g', Ok tt) → cg_view g !! id = Some ds →
    ∃ ds', client_apply ev ds = Ok ds' ∧ cg_view g' = <[id := ds']> (cg_view g);
  send_err_law : ∀ id ev g g' e, cg_Send id ev g = (g', Err e) → cg_view g' = cg_view g;
  send_returns_law : ∀ id ev g ds ds', cg_view g !! id = Some ds → client_apply ev ds = Ok ds' →
    ∃ g', cg_Send id ev g = (g', Ok tt) ∨ ∃ e, cg_Send id ev g = (g', Err e);
  list_law : ∀ g, ∃ g', cg_view g' = cg_view g ∧
    ((∃ l, cg_List g = (g', Ok l) ∧ l ≡ₚ (map_to_list (cg_view g)).*2) ∨ ∃ e, cg_List g = (g', Err e))
}.

(** ** The client *)

Record Client (G : Type) : Type := MkClient {
  cl_counter : Z;
  cl_stateMachines : G
}.
Arguments MkClient {G}.
Arguments cl_counter {G}.
Arguments cl_stateMachines {G}.

Section client.
Context {G : Type} {CG : ClientGroup G}.
(** Whether the multistore has a store. *)
Context (ms_Get : Z → option error).
Local Abbreviation C := (go (Client G) error).

Definition on_group {A} (m : go G error A) : C A := λ c,
  let '(g, r) := m (cl_stateMachines c) in (MkClient (cl_counter c) g, r).

(** The number is taken before the store is checked. *)
Definition Retrieve (root : cid) (params : Params) (totalFunds : Z) (sender : peer_id)
    (clientAddr providerAddr : address) (storeID : option Z) : C Z :=
  do* go_modify (λ c, MkClient (counter_next (cl_counter c)) (cl_stateMachines c)) then
  let* c := go_get in
  let next := cl_counter c in
  do* match storeID with
      | None => go_ret tt
      | Some id => match ms_Get id with Some err => go_err err | None => go_ret tt end
      end then
  do* on_group (cg_Begin next (Retrieve_state next root params totalFunds sender clientAddr providerAddr storeID)) then
  do* on_group (cg_Send next EventOpen) then
  go_ret next.

(** The payment information of a deal that lacks funds is dereferenced. *)
Fixpoint restart_all (chAddr : address) (deals : list ClientState) : C unit :=
  match deals with
  | [] => go_ret tt
  | d :: deals' =>
    if bool_decide (cs_Status d = StatusInsufficientFunds) then
      match cs_PaymentInfo d with
      | None => go_panic
      | Some pi =>
        if String.eqb (PayCh pi) chAddr then
          do* on_group (cg_Send (ID (cs_Proposal d)) EventRecheckFunds) then
          restart_all chAddr deals'
        else restart_all chAddr deals'
      end
    else restart_all chAddr deals'
  end.

Definition TryRestartInsufficientFunds (chAddr : address) : C unit :=
  let* deals := on_group cg_List in
  restart_all chAddr deals.

End client.

(** ** What the client goes through *)

(** The shortfall of a voucher is found on the channel of the deal; vouchers grow. *)
Definition event_ok (ev : Event) (ds : ClientState) : Prop :=
  payload_ok ev ds ∧ match ev with EventVoucherShortfall _ => is_Some (cs_PaymentInfo ds) | _ => True end.

(** The handler of a deal that sends funds keeps to the second part. *)
Lemma shortfall_on_channel {M} (env : DealEnvironment M) ds m m' z :
  SendFunds env ds m = (m', Ok (Some (EventVoucherShortfall z))) → is_Some (cs_PaymentInfo ds).
Proof.
  unfold SendFunds. destruct (cs_PaymentInfo ds); [by eauto|].
  unfold go_bind, go_try, trigger, go_ret, go_panic. repeat case_match; naive_solver.
Qed.

(** *** Deals that wait for funds *)

Definition awaits_funds (s : Status) : bool :=
  match s with StatusCheckFunds | StatusInsufficientFunds => true | _ => false end.

Definition funded (ds : ClientState) : Prop := awaits_funds (cs_Status ds) = true → is_Some (cs_PaymentInfo ds).

(** Only a shortfall makes a deal wait for funds. *)
Lemma to_awaits ev s s' :
  next_status client_machine ev s = Some s' → awaits_funds s' = true →
  awaits_funds s = true ∨ ∃ z, ev = EventVoucherShortfall z.
Proof. destruct ev, s; vm_compute; intros [= <-]; eauto; discriminate. Qed.

Lemma action_keeps_info ev ds ds' :
  client_action ev ds = Ok ds' → is_Some (cs_PaymentInfo ds) → is_Some (cs_PaymentInfo ds').
Proof.
  destruct ev; simpl; unfold payment_sent, ensure_payment_info, outcome_bind; repeat case_match; try done;
    intros [= <-]; destruct ds; simpl in *; try done; eauto.
Qed.

Lemma set_status_info s ds : cs_PaymentInfo (set_cs_Status s ds) = cs_PaymentInfo ds.
Proof. by destruct ds. Qed.

Section invariant.
Context {R : FsmRuntime}.

Lemma apply_funded ev ds ds' : event_ok ev ds → funded ds → client_apply ev ds = Ok ds' → funded ds'.
Proof.
  intros [_ Hev] Hf. unfold client_apply. destruct (fsm_apply client_machine ev ds) as [[ds1 b]|e| |] eqn:E; try done;
    intros [= <-]; [|done].
  intros Hs. assert (is_Some (cs_PaymentInfo ds)) as Hi.
  { destruct (to_awaits ev (cs_Status ds) (cs_Status ds1)) as [?|[z ->]]; [|done|by apply Hf|done].
    exact (fsm_apply_status client_machine _ _ _ _ E). }
  apply client_step_action in E as (ds2 & Ha & Hd). apply (action_keeps_info _ _ _ Ha) in Hi.
  destruct Hd as [->|[s ->]]; [done|]. by rewrite set_status_info.
Qed.

(** What holds of every deal of a client. *)
Record deal_ok (id : Z) (ds : ClientState) : Prop := {
  do_id : ID (cs_Proposal ds) = id;
  do_prices : prices_ok (cs_Params ds);
  do_accounting : accounting ds;
  do_funded : funded ds
}.

Lemma apply_deal_ok id ev ds ds' : event_ok ev ds → deal_ok id ds → client_apply ev ds = Ok ds' → deal_ok id ds'.
Proof.
  intros Hev [Hid Hp Ha Hf] Hap. pose proof (apply_funded _ _ _ Hev Hf Hap) as Hf'.
  unfold client_apply in Hap. destruct (fsm_apply client_machine ev ds) as [[ds1 b]|e| |] eqn:E; try done;
    injection Hap as <-; [|done].
  apply client_step_accounting in E as [Ha' Hp']; [|done|done|apply Hev].
  split; [congruence| |done|done]. unfold cs_Params in *. by rewrite Hp'.
Qed.

Lemma new_deal_ok next root params funds sender ca pa sid :
  prices_ok params → deal_ok next (Retrieve_state next root params funds sender ca pa sid).
Proof.
  intros Hp. split; [done|done| |done]. destruct Hp. unfold accounting, cs_Params. simpl. split_and!; lia.
Qed.

Context {G : Type} {CG : ClientGroup G} {LAWS : ClientGroupLaws G} (ms_Get : Z → option error).
Implicit Types (c : Client G).

Definition deals c : gmap Z ClientState := cg_view (cl_stateMachines c).

(** A client that starts without deals, through retrievals, restarts and the events of
    its deals, in any order. *)
Inductive client_runs : Client G → Prop :=
| runs_new val g : cg_view g = ∅ → client_runs (MkClient val g)
| runs_retrieve c c' root params funds sender ca pa sid :
    client_runs c → prices_ok params → returns (Retrieve ms_Get root params funds sender ca pa sid) c c' → client_runs c'
| runs_restart c c' ch : client_runs c → returns (TryRestartInsufficientFunds ch) c c' → client_runs c'
| runs_event c g' id ev ds :
    client_runs c → deals c !! id = Some ds → event_ok ev ds →
    cg_Send id ev (cl_stateMachines c) = (g', Ok tt) → client_runs (MkClient (cl_counter c) g').

Definition client_ok c : Prop := map_Forall deal_ok (deals c).

Lemma send_deal_ok id ev g g' ds :
  map_Forall deal_ok (cg_view g) → cg_view g !! id = Some ds → event_ok ev ds → cg_Send id ev g = (g', Ok tt) →
  map_Forall deal_ok (cg_view g').
Proof.
  intros Hok Hd Hev Hs. destruct (send_ok_law _ _ _ _ _ Hs Hd) as (ds' & Ha & ->).
  apply map_Forall_insert_2; [|done]. eapply apply_deal_ok; [done| |exact Ha]. by apply Hok.
Qed.

(** What a restart makes of a deal. *)
Definition lacks_funds (ch : address) (ds : ClientState) : bool :=
  bool_decide (cs_Status ds = StatusInsufficientFunds) &&
  match cs_PaymentInfo ds with Some pi => String.eqb (PayCh pi) ch | None => false end.

Definition restarted (ch : address) (ds : ClientState) : ClientState :=
  if lacks_funds ch ds then set_cs_Status StatusCheckFunds ds else ds.

Lemma recheck_apply ds :
  cs_Status ds = StatusInsufficientFunds → client_apply EventRecheckFunds ds = Ok (set_cs_Status StatusCheckFunds ds).
Proof.
  intros Hs. unfold client_apply. rewrite fsm_apply_eq. unfold apply_documented. simpl. rewrite Hs. by vm_compute.
Qed.

(** Going over deals of the group: the ones that lack funds on the channel are checked
    again, and nothing else changes. *)
Lemma restart_all_run ch l c :
  Forall (λ d, deals c !! ID (cs_Proposal d) = Some d ∧ funded d) l → NoDup ((λ d, ID (cs_Proposal d)) <$> l) →
  ∃ c', (restart_all ch l c = (c', Ok tt) ∧
         (∀ d, d ∈ l → deals c' !! ID (cs_Proposal d) = Some (restarted ch d)) ∧
         (∀ id, id ∉ (λ d, ID (cs_Proposal d)) <$> l → deals c' !! id = deals c !! id)) ∨
        ∃ e, restart_all ch l c = (c', Err e).
Proof.
  revert c. induction l as [|d l IH]; intros c Hl Hnd; cbn [restart_all].
  { exists c. left. split_and!; [done|set_solver|done]. }
  apply Forall_cons in Hl as [[Hd Hf] Hl]. rewrite fmap_cons in Hnd. apply NoDup_cons in Hnd as [Hni Hnd].
  assert (∀ c1, deals c1 !! ID (cs_Proposal d) = Some (restarted ch d) →
    (∀ id, id ≠ ID (cs_Proposal d) → deals c1 !! id = deals c !! id) →
    ∃ c', (restart_all ch l c1 = (c', Ok tt) ∧
           (∀ d', d' ∈ d :: l → deals c' !! ID (cs_Proposal d') = Some (restarted ch d')) ∧
           (∀ id, id ∉ (λ d, ID (cs_Proposal d)) <$> d :: l → deals c' !! id = deals c !! id)) ∨
          ∃ e, restart_all ch l c1 = (c', Err e)) as Hnext.
  { intros c1 Hd1 Hoth. destruct (IH c1) as (c' & [(Hr & Hin & Hout)|He]); [|done|..|by eauto].
    - rewrite Forall_forall in Hl |- *. intros d' Hd'. rewrite Hoth; [by apply Hl|].
      intros E. apply Hni. rewrite <-E. apply list_elem_of_fmap. by exists d'.
    - exists c'. left. split_and!; [done| |].
      + intros d' [->|?]%elem_of_cons; [by rewrite Hout|by apply Hin].
      + intros id [Hne Hno]%not_elem_of_cons. rewrite Hout by done. by apply Hoth. }
  unfold restarted, lacks_funds in Hnext. destruct (bool_decide_reflect (cs_Status d = StatusInsufficientFunds)) as [Hs|Hs];
    [|by apply Hnext].
  destruct Hf as [pi Hpi]; [by rewrite Hs|]. rewrite Hpi in Hnext |- *. cbn [andb] in Hnext.
  destruct (String.eqb (PayCh pi) ch); [|by apply Hnext].
  pose proof (recheck_apply d Hs) as Hap.
  destruct (send_returns_law _ _ (cl_stateMachines c) _ _ Hd Hap) as (g' & [Hsend|[e Hsend]]).
  - unfold go_bind, on_group. rewrite Hsend. destruct (send_ok_law _ _ _ _ _ Hsend Hd) as (ds' & Ha & Hv).
    rewrite Hap in Ha. injection Ha as <-. apply (Hnext (MkClient (cl_counter c) g')); unfold deals; cbn [cl_stateMachines]; rewrite Hv.
    + by rewrite lookup_insert_eq.
    + intros id Hne. by rewrite lookup_insert_ne.
  - eexists. right. exists e. unfold go_bind, on_group. by rewrite Hsend.
Qed.

Lemma elem_deals m (ds : ClientState) : ds ∈ (map_to_list (m : gmap Z ClientState)).*2 ↔ ∃ id, m !! id = Some ds.
Proof.
  rewrite list_elem_of_fmap. split.
  - intros ([id d] & -> & Hd%elem_of_map_to_list). eauto.
  - intros [id Hd]. exists (id, ds). split; [done|]. by apply elem_of_map_to_list.
Qed.

Lemma NoDup_deal_ids m :
  map_Forall deal_ok m → NoDup ((λ d, ID (cs_Proposal d)) <$> (map_to_list (m : gmap Z ClientState)).*2).
Proof.
  intros Hok. rewrite <-list_fmap_compose. erewrite list_fmap_ext; [apply (NoDup_fst_map_to_list m)|].
  intros i [id d] Hi. apply list_elem_of_lookup_2, elem_of_map_to_list in Hi. simpl. by apply (do_id _ _ (Hok _ _ Hi)).
Qed.

(** A restart returns, and then has checked every deal again that lacked funds on the
    channel, and no other. *)
Lemma restart_run ch c :
  client_ok c → ∃ c', (TryRestartInsufficientFunds ch c = (c', Ok tt) ∧ deals c' = restarted ch <$> deals c) ∨
                      ∃ e, TryRestartInsufficientFunds ch c = (c', Err e).
Proof.
  intros Hok. unfold TryRestartInsufficientFunds, go_bind, on_group.
  destruct (list_law (cl_stateMachines c)) as (g1 & Hv & [(l & Hl & Hperm)|[e He]]).
  2: { rewrite He. eauto. }
  rewrite Hl. set (c1 := MkClient (cl_counter c) g1). fold (deals c) in Hv, Hperm.
  assert (deals c1 = deals c) as E1 by exact Hv.
  destruct (restart_all_run ch l c1) as (c' & [(Hr & Hin & Hout)|He]); [..|by eauto].
  - rewrite Forall_forall. intros d Hd. rewrite Hperm, elem_deals in Hd. destruct Hd as [id Hd].
    destruct (Hok _ _ Hd) as [Hid _ _ Hf]. by rewrite E1, Hid.
  - rewrite Hperm. by apply NoDup_deal_ids.
  - exists c'. left. split; [done|]. apply map_eq. intros id. rewrite lookup_fmap.
    destruct (deals c !! id) as [d|] eqn:Hd; simpl.
    + rewrite <-(do_id _ _ (Hok _ _ Hd)). apply Hin. rewrite Hperm, elem_deals. eauto.
    + rewrite Hout, E1; [done|]. intros (d & -> & Hd')%list_elem_of_fmap. rewrite Hperm, elem_deals in Hd'.
      destruct Hd' as [id Hd']. rewrite (do_id _ _ (Hok _ _ Hd')) in Hd. congruence.
Qed.

(** *** The invariant *)

(** The invariant, with the deals some code is about to use. *)
Definition holds (ids : gset Z) c : Prop := client_ok c ∧ ids ⊆ dom (deals c).

Lemma recheck_holds ids id : id ∈ ids → preserves (holds ids) (on_group (cg_Send id EventRecheckFunds)).
Proof.
  intros Hid c c' [Hok Hids] Hr. assert (is_Some (deals c !! id)) as [ds Hd] by (apply elem_of_dom; set_solver).
  unfold on_group in Hr. apply returns_cases in Hr as [[[] Hr]|[e Hr]];
    destruct (cg_Send _ _ _) as [g' r] eqn:Hs; injection Hr as <- ->; unfold holds, client_ok, deals in *; simpl.
  - split; [by apply (send_deal_ok _ _ _ _ _ Hok Hd) in Hs|].
    destruct (send_ok_law _ _ _ _ _ Hs Hd) as (ds' & _ & ->). set_solver.
  - by rewrite (send_err_law _ _ _ _ _ Hs).
Qed.

Lemma restart_all_holds ids ch l :
  (∀ d, d ∈ l → ID (cs_Proposal d) ∈ ids) → preserves (holds ids) (restart_all ch l).
Proof.
  induction l as [|d l IH]; intros Hl; cbn [restart_all]; [by apply preserves_pure|].
  assert (preserves (holds ids) (restart_all ch l)) as Hrec by (apply IH; set_solver).
  case_bool_decide; [|done]. destruct (cs_PaymentInfo d) as [pi|]; [|by apply preserves_pure].
  destruct (String.eqb _ _); [|done]. apply preserves_bind; [apply recheck_holds, Hl; by left|by intros _].
Qed.

Lemma restart_preserves ch : preserves client_ok (TryRestartInsufficientFunds ch).
Proof.
  intros c c' Hok Hr. unfold TryRestartInsufficientFunds in Hr.
  destruct (list_law (cl_stateMachines c)) as (g1 & Hv & [(l & Hl & Hperm)|[e He]]).
  - eapply returns_step in Hr; [|by unfold on_group; rewrite Hl].
    refine (proj1 (restart_all_holds (dom (cg_view g1)) ch l _ _ _ (conj _ _) Hr)); [| |reflexivity].
    + intros d Hd. rewrite Hperm, elem_deals in Hd. destruct Hd as [id Hd].
      rewrite Hv, (do_id _ _ (Hok _ _ Hd)). by apply elem_of_dom_2 in Hd.
    + unfold client_ok, deals in *. simpl. by rewrite Hv.
  - apply returns_bind in Hr as [(c1 & l & Hl & _)|[e' Hl]]; unfold on_group in Hl; rewrite He in Hl; [done|].
    injection Hl as <- _. unfold client_ok, deals in *. simpl. by rewrite Hv.
Qed.

Lemma Retrieve_preserves root params funds sender ca pa sid :
  prices_ok params → preserves client_ok (Retrieve ms_Get root params funds sender ca pa sid).
Proof.
  intros Hp c c' Hok Hr. unfold Retrieve in Hr. eapply returns_step in Hr; [|reflexivity].
  eapply returns_step in Hr; [|reflexivity]. cbn beta zeta in Hr. set (c1 := MkClient _ _) in Hr.
  set (next := cl_counter c1) in Hr. assert (client_ok c1) as Hok1 by done. clearbody c1.
  apply returns_bind in Hr as [(c2 & [] & Hst & Hr)|[e Hst]].
  2: { destruct sid as [id|]; [destruct (ms_Get id)|]; unfold go_err, go_ret in Hst; by simplify_eq. }
  assert (c2 = c1) as -> by (destruct sid as [id|]; [destruct (ms_Get id)|]; unfold go_err, go_ret in Hst; by simplify_eq).
  set (st := Retrieve_state _ _ _ _ _ _ _ _) in Hr.
  apply returns_bind in Hr as [(c3 & [] & Hb & Hr)|[e Hb]]; unfold on_group in Hb;
    destruct (cg_Begin _ _ _) as [g r] eqn:Eb; injection Hb as <- ->.
  2: { unfold client_ok, deals in *. simpl. by rewrite (begin_err_law _ _ _ _ _ Eb). }
  apply begin_ok_law in Eb as [_ Hv]. assert (map_Forall deal_ok (cg_view g)) as Hg.
  { rewrite Hv. apply map_Forall_insert_2; [by apply new_deal_ok|done]. }
  assert (cg_view g !! next = Some st) as Hd by (rewrite Hv; apply lookup_insert_eq).
  apply returns_bind in Hr as [(c4 & [] & Hs & Hr)|[e Hs]]; unfold on_group in Hs; cbn [cl_stateMachines] in Hs;
    destruct (cg_Send _ _ _) as [g' r] eqn:Es; injection Hs as <- ->.
  - destruct Hr as [? [= <- _]]. by apply (send_deal_ok _ _ _ _ _ Hg Hd) in Es.
  - unfold client_ok, deals. simpl. by rewrite (send_err_law _ _ _ _ _ Es).
Qed.

Lemma runs_ok c : client_runs c → client_ok c.
Proof.
  induction 1 as [val g Hg|c c' root params funds sender ca pa sid _ IH Hp Hr|c c' ch _ IH Hr|c g' id ev ds _ IH Hd Hev Hs].
  - unfold client_ok, deals. simpl. rewrite Hg. apply map_Forall_empty.
  - by eapply Retrieve_preserves.
  - by eapply restart_preserves.
  - by eapply send_deal_ok.
Qed.

Lemma open_apply next root params funds sender ca pa sid :
  client_apply EventOpen (Retrieve_state next root params funds sender ca pa sid)
  = Ok (Retrieve_state next root params funds sender ca pa sid).
Proof. unfold client_apply. rewrite fsm_apply_eq. reflexivity. Qed.

(** A retrieval that succeeds has begun one deal, under a number no deal had, in its
    initial state, and touched no other. *)
Lemma Retrieve_begins root params funds sender ca pa sid c c' id :
  Retrieve ms_Get root params funds sender ca pa sid c = (c', Ok id) →
  id = counter_next (cl_counter c) ∧ cl_counter c' = id ∧ deals c !! id = None ∧
  deals c' = <[id := Retrieve_state id root params funds sender ca pa sid]> (deals c).
Proof.
  unfold Retrieve. intros (c1 & [] & [= <-] & Hr)%go_bind_ok.
  apply go_bind_ok in Hr as (c2 & c2' & Hg & Hr). injection Hg as <- <-. cbn [cl_counter] in Hr.
  apply go_bind_ok in Hr as (c2 & [] & Hst & Hr).
  assert (c2 = MkClient (counter_next (cl_counter c)) (cl_stateMachines c)) as ->
    by (destruct sid as [n|]; [destruct (ms_Get n)|]; unfold go_err, go_ret in Hst; by simplify_eq).
  apply go_bind_ok in Hr as (c3 & [] & Hb & Hr). unfold on_group in Hb. cbn [cl_stateMachines cl_counter] in Hb.
  destruct (cg_Begin _ _ _) as [g r] eqn:Eb. injection Hb as <- ->. apply begin_ok_law in Eb as [Hn Hv].
  apply go_bind_ok in Hr as (c4 & [] & Hs & [-> ->]%go_ret_ok). unfold on_group in Hs. cbn [cl_stateMachines cl_counter] in Hs.
  destruct (cg_Send _ _ _) as [g' r] eqn:Es. injection Hs as <- ->.
  eapply send_ok_law in Es as (ds' & Ha & Hv'); [|rewrite Hv; apply lookup_insert_eq].
  rewrite open_apply in Ha. injection Ha as <-. unfold deals. simpl. split_and!; [done|done|done|].
  by rewrite Hv', Hv, insert_insert_eq.
Qed.

(** C5: Whatever a client goes through, each deal is kept under its own number, what it
    spent covers the bytes and the unsealing it counts as paid, and a deal that waits
    for funds has a channel. *)
Theorem client_deals_invariant c id ds :
  client_runs c → deals c !! id = Some ds →
  ID (cs_Proposal ds) = id ∧
  cs_UnsealFundsPaid ds + cs_BytesPaidFor ds * PricePerByte (cs_Params ds) <= cs_FundsSpent ds ∧
  (cs_Status ds = StatusInsufficientFunds → is_Some (cs_PaymentInfo ds)).
Proof.
  intros Hc Hd. destruct (runs_ok c Hc id ds Hd) as [Hid _ (_ & _ & Ha & _) Hf]. split_and!; [done|done|].
  intros Hs. apply Hf. by rewrite Hs.
Qed.

(** C11: Restarting after funds were added to a channel never panics, and when it succeeds
    every deal that lacked funds on the channel checks them again and no other deal
    changes. *)
Theorem restart_rechecks c ch :
  client_runs c →
  ∃ c', (TryRestartInsufficientFunds ch c = (c', Ok tt) ∧ deals c' = restarted ch <$> deals c) ∨
        ∃ e, TryRestartInsufficientFunds ch c = (c', Err e).
Proof. intros Hc. by apply restart_run, runs_ok. Qed.

End invariant.

(** ** A group in memory *)

#[export] Instance mem_group : ClientGroup (gmap Z ClientState) := {|
  cg_Begin id st := λ g,
    match g !! id with
    | Some _ => (g, Err (ErrExternal "begin: already tracking identifier"))
    | None => (<[id := st]> g, Ok tt)
    end;
  cg_Send id ev := λ g,
    match g !! id with
    | None => (g, Err (ErrExternal "not found"))
    | Some ds =>
      match @client_apply documented_runtime ev ds with
      | Ok ds' => (<[id := ds']> g, Ok tt)
      | Err e => (g, Err e)
      | Panic => (g, Panic)
      | Hang => (g, Hang)
      end
    end;
  cg_List := λ g, (g, Ok (map_to_list g).*2)
|}.

#[export, refine] Instance mem_group_laws : @ClientGroupLaws documented_runtime (gmap Z ClientState) mem_group :=
  {| cg_view g := g |}.
Proof.
  - simpl. intros id st g g'. destruct (g !! id) eqn:E; [done|]. by intros [= <-].
  - simpl. intros id st g g' e. destruct (g !! id); by intros [= <-].
  - simpl. intros id ev g g' ds Hs Hd. rewrite Hd in Hs. destruct (client_apply ev ds); simplify_eq. eauto.
  - simpl. intros id ev g g' e Hs. destruct (g !! id); [|by simplify_eq]. by destruct (client_apply _ _); simplify_eq.
  - simpl. intros id ev g ds ds' -> ->. eauto.
  - simpl. intros g. exists g. split; [done|]. left. eauto.
Defined.

Definition stores (id : Z) : option error := if id <? 10 then None else Some (ErrExternal "no store").

Definition client_0 : Client (gmap Z ClientState) := MkClient 41 ∅.
Definition retrieve_root := Retrieve stores "root" default_params 1000 "peer" "me" "you" (Some 3).
Definition client_1 := Eval vm_compute in (retrieve_root client_0).1.

(** Up to the shortfall of a voucher and the answer that there are no more funds. *)
Definition short : list Event :=
  [EventDealProposed (MkChannelID "a" "b" 0); EventDealAccepted; EventPaymentChannelReady "ch"; EventLaneAllocated 2;
   EventPaymentRequested 5; EventSendFunds; EventVoucherShortfall 7; EventFundsExpended 7].

Definition event_okb (ev : Event) (ds : ClientState) : bool :=
  match ev with
  | EventPaymentSent v => cs_FundsSpent ds <=? v
  | EventVoucherShortfall _ => match cs_PaymentInfo ds with Some _ => true | None => false end
  | _ => true
  end.

Lemma event_okb_ok ev ds : event_okb ev ds = true → event_ok ev ds.
Proof.
  destruct ev; simpl; try done; [intros Hv%Z.leb_le; by split|].
  destruct (cs_PaymentInfo ds) eqn:E; [|done]. intros _. split; [done|]. rewrite E. eauto.
Qed.

Fixpoint run_events (id : Z) (evs : list Event) (c : Client (gmap Z ClientState)) : option (Client (gmap Z ClientState)) :=
  match evs with
  | [] => Some c
  | ev :: evs' =>
    match cl_stateMachines c !! id with
    | None => None
    | Some ds =>
      if event_okb ev ds then
        match cg_Send id ev (cl_stateMachines c) with
        | (g', Ok tt) => run_events id evs' (MkClient (cl_counter c) g')
        | _ => None
        end
      else None
    end
  end.

Abbreviation mem_runs := (@client_runs documented_runtime _ _ _ stores) (only parsing).

Lemma run_events_runs id evs c c' : mem_runs c → run_events id evs c = Some c' → mem_runs c'.
Proof.
  revert c. induction evs as [|ev evs IH]; intros c Hc; cbn [run_events]; [by intros [= <-]|].
  destruct (cl_stateMachines c !! id) as [ds|] eqn:Hd; [|done]. destruct (event_okb ev ds) eqn:Hok; [|done].
  destruct (cg_Send id ev _) as [g' [[]| | |]] eqn:Hs; try done. apply IH.
  eapply (runs_event stores c g' id ev ds); [done..|by apply event_okb_ok|done].
Qed.

Definition client_short := Eval vm_compute in default client_0 (run_events 42 short client_1).

Lemma runs_short : mem_runs client_short.
Proof.
  apply (run_events_runs 42 short client_1); [|vm_eq].
  apply (runs_retrieve stores client_0 client_1 "root" default_params 1000 "peer" "me" "you" (Some 3));
    [by apply runs_new|done|]. apply (returned retrieve_root client_0 42). vm_eq.
Qed.

Definition short_deal := Eval vm_compute in default (sample_deal StatusNew) (cl_stateMachines client_short !! 42).

Lemma client_deals_invariant_witness :
  ID (cs_Proposal short_deal) = 42 ∧
  cs_UnsealFundsPaid short_deal + cs_BytesPaidFor short_deal * PricePerByte (cs_Params short_deal) <= cs_FundsSpent short_deal ∧
  (cs_Status short_deal = StatusInsufficientFunds → is_Some (cs_PaymentInfo short_deal)).
Proof. apply (@client_deals_invariant documented_runtime _ _ _ stores client_short 42 short_deal runs_short). vm_eq. Defined.

Lemma restart_rechecks_witness :
  ∃ c', (TryRestartInsufficientFunds "ch" client_short = (c', Ok tt) ∧
         deals (R:=documented_runtime) c' = restarted "ch" <$> deals (R:=documented_runtime) client_short) ∨
        ∃ e, TryRestartInsufficientFunds "ch" client_short = (c', Err e).
Proof. apply (@restart_rechecks documented_runtime _ _ _ stores client_short "ch" runs_short). Defined.

Example short_restarted :
  cs_Status short_deal = StatusInsufficientFunds ∧
  cs_Status <$> cl_stateMachines (TryRestartInsufficientFunds "ch" client_short).1 !! 42 = Some StatusCheckFunds ∧
  cs_Status <$> cl_stateMachines (TryRestartInsufficientFunds "other" client_short).1 !! 42 = Some StatusInsufficientFunds.
Proof. split_and!; vm_eq. Qed.
