(* ===== verification/Transport.v ===== *)
(** * Stores of the transfers (retrieval/gsconfig.go)

    Before a transfer starts, the transport is given the store its blocks go to: the one
    of the client deal with the number of the proposal. *)
From S2P Require Import Prelude Deal Fsm PayTypes DataTransfer ClientFsm Retrieval.

(** Reading one machine of the client's group. *)
Class ClientGet (G : Type) : Type := cg_Get : Z → go G error ClientState.

Class ClientGetLaws {R : FsmRuntime} (G : Type) {CG : ClientGroup G} {LAWS : ClientGroupLaws G}
    {GET : ClientGet G} : Prop := {
  get_ok_law : ∀ id g g' ds, cg_Get id g = (g', Ok ds) → g' = g ∧ cg_view g !! id = Some ds;
  get_found_law : ∀ id g ds, cg_view g !! id = Some ds → cg_Get id g = (g, Ok ds);
  get_absent_law : ∀ id g, cg_view g !! id = None → ∃ e, cg_Get id g = (g, Err e)
}.

Section transport.
Context {G : Type} {CG : ClientGroup G} {GET : ClientGet G}.
Context (ms_Get : Z → option error).
(** [StoreConfigurableTransport]: the store a channel is given. *)
Context {T : Type} (UseStore : ChannelID → Z → go T error unit).

(** The peer is not looked at, and the store of the deal is dereferenced. *)
Definition dualStoreGetter_Get (pid : peer_id) (did : Z) : go (Client G) error Z :=
  let* cstate := on_group (cg_Get did) in
  match cs_StoreID cstate with
  | None => go_panic
  | Some id => match ms_Get id with Some err => go_err err | None => go_ret id end
  end.

Definition OtherParty (channelID : ChannelID) (thisPeer : peer_id) : peer_id :=
  if String.eqb thisPeer (ch_Initiator channelID) then ch_Responder channelID else ch_Initiator channelID.

(** The state is the client beside the transport; errors are logged.  [configurable] is
    whether the transport can be given stores. *)
Definition TransportConfigurer (thisPeer : peer_id) (channelID : ChannelID) (voucher : Voucher)
    (configurable : bool) : go (Client G * T) error unit :=
  match ProposalFromVoucher voucher with
  | None => go_ret tt
  | Some dealProposal =>
    if negb configurable then go_ret tt
    else
      let* r := go_try (λ w, let '(c, o) := dualStoreGetter_Get (OtherParty channelID thisPeer) (ID dealProposal) w.1
                             in ((c, w.2), o)) in
      match r with
      | inl _ => go_ret tt
      | inr store =>
        do* go_try (λ w, let '(t, o) := UseStore channelID store w.2 in ((w.1, t), o)) then
        go_ret tt
      end
  end.

Context {R : FsmRuntime} {LAWS : ClientGroupLaws G} {GL : ClientGetLaws G}.

Lemma dualStoreGetter_found pid did (c : Client G) ds :
  deals c !! did = Some ds →
  dualStoreGetter_Get pid did c = (c, match cs_StoreID ds with
    | None => Panic
    | Some id => match ms_Get id with Some err => Err err | None => Ok id end
    end).
Proof.
  intros Hd. unfold dualStoreGetter_Get, go_bind, on_group. rewrite (get_found_law _ _ _ Hd).
  destruct c. simpl. destruct (cs_StoreID ds) as [id|]; [|done]. by destruct (ms_Get id).
Qed.

Lemma dualStoreGetter_absent pid did (c : Client G) :
  deals c !! did = None → ∃ e, dualStoreGetter_Get pid did c = (c, Err e).
Proof.
  intros Hd. destruct (get_absent_law _ _ Hd) as [e He]. exists e.
  unfold dualStoreGetter_Get, go_bind, on_group. rewrite He. by destruct c.
Qed.

(** What configuring a transfer comes to. *)
Lemma TransportConfigurer_uses self chid (p : Proposal) (c : Client G) (t t' : T) ds id :
  deals c !! ID p = Some ds → cs_StoreID ds = Some id → ms_Get id = None →
  UseStore chid id t = (t', Ok tt) →
  TransportConfigurer self chid (VProposal p) true (c, t) = ((c, t'), Ok tt).
Proof.
  intros Hd Hs Hm Hu. unfold TransportConfigurer. simpl. unfold go_bind, go_try. simpl.
  rewrite (dualStoreGetter_found _ _ _ _ Hd), Hs, Hm. simpl. by rewrite Hu.
Qed.

End transport.

(** ** Properties *)

Section properties.
Context {R : FsmRuntime} {G : Type} {CG : ClientGroup G} {LAWS : ClientGroupLaws G}.
Context {GET : ClientGet G} {GL : ClientGetLaws G} (ms_Get : Z → option error).
Context {T : Type} (UseStore : ChannelID → Z → go T error unit).

(** The blocks of a retrieval go to the store it was started with: once it has begun, the
    transfer of its proposal is given that store. *)
Theorem retrieval_store_used self chid root params funds sender ca pa sid (c c' : Client G) id p (t t' : T) :
  Retrieve ms_Get root params funds sender ca pa (Some sid) c = (c', Ok id) → ID p = id →
  UseStore chid sid t = (t', Ok tt) →
  TransportConfigurer ms_Get UseStore self chid (VProposal p) true (c', t) = ((c', t'), Ok tt).
Proof.
  intros Hr Hid Hu. assert (ms_Get sid = None) as Hm.
  { unfold Retrieve in Hr. apply go_bind_ok in Hr as (c1 & [] & _ & Hr).
    apply go_bind_ok in Hr as (c2 & c2' & _ & Hr). apply go_bind_ok in Hr as (c3 & [] & Hst & _).
    by destruct (ms_Get sid). }
  apply Retrieve_begins in Hr as (_ & _ & _ & Hd).
  assert (deals c' !! ID p = Some (Retrieve_state id root params funds sender ca pa (Some sid))) as Hp
    by (by rewrite Hid, Hd, lookup_insert_eq).
  by eapply TransportConfigurer_uses.
Qed.

(** The store does not depend on who opened the transfer: a proposal another peer sends
    with the number of a deal of this client is served from the store of that deal, and
    if the deal has no store the node panics. *)
Theorem foreign_proposal_store self chid p (c : Client G) ds (t t' : T) :
  ch_Initiator chid ≠ self → deals c !! ID p = Some ds →
  match cs_StoreID ds with
  | None => (TransportConfigurer ms_Get UseStore self chid (VProposal p) true (c, t)).2 = Panic
  | Some id => ms_Get id = None → UseStore chid id t = (t', Ok tt) →
      TransportConfigurer ms_Get UseStore self chid (VProposal p) true (c, t) = ((c, t'), Ok tt)
  end.
Proof.
  intros _ Hd. destruct (cs_StoreID ds) as [id|] eqn:Hs.
  - intros Hm Hu. by eapply TransportConfigurer_uses.
  - unfold TransportConfigurer. simpl. unfold go_bind, go_try. simpl.
    by rewrite (dualStoreGetter_found _ _ _ _ _ Hd), Hs.
Qed.

End properties.

(** ** Witnesses *)

#[export] Instance mem_get : ClientGet (gmap Z ClientState) := λ id g,
  match g !! id with Some ds => (g, Ok ds) | None => (g, Err (ErrExternal "not found")) end.

#[export] Instance mem_get_laws : @ClientGetLaws documented_runtime _ mem_group mem_group_laws mem_get.
Proof.
  split; unfold cg_Get, mem_get; simpl; intros id g.
  - intros g' ds. destruct (g !! id); by intros [= <- <-].
  - by intros ds ->.
  - intros ->. by eexists.
Qed.

Definition use_store (chid : ChannelID) (id : Z) : go (gmap ChannelID Z) error unit :=
  go_modify (<[chid := id]>).

Definition own_channel : ChannelID := MkChannelID "me" "peer" 0.
Definition foreign_channel : ChannelID := MkChannelID "mallory" "me" 0.

Lemma retrieval_store_used_witness :
  TransportConfigurer stores use_store "me" own_channel (VProposal (MkProposal "root" 42 default_params)) true (client_1, ∅)
  = ((client_1, {[own_channel := 3]}), Ok tt).
Proof.
  apply (retrieval_store_used (LAWS:=mem_group_laws) stores use_store "me" own_channel "root" default_params 1000
    "peer" "me" "you" 3 client_0 client_1 42); [vm_eq|done|vm_eq].
Defined.

Lemma foreign_proposal_store_witness :
  TransportConfigurer stores use_store "me" foreign_channel (VProposal (MkProposal "other" 42 default_params)) true (client_1, ∅)
  = ((client_1, {[foreign_channel := 3]}), Ok tt).
Proof.
  apply (foreign_proposal_store (LAWS:=mem_group_laws) stores use_store "me" foreign_channel
    (MkProposal "other" 42 default_params) client_1
    (Retrieve_state 42 "root" default_params 1000 "peer" "me" "you" (Some 3)) ∅); [done|vm_eq|done|vm_eq].
Defined.
