(* ===== verification/ProviderFsm.v ===== *)
(** * The retrieval provider state machine (retrieval/provider)

    The event table of the provider, its actions, the entry functions, and the
    translation of data transfer events. *)
From S2P Require Import Prelude Deal Fsm PayTypes DataTransfer.

(** ** Events (events.go) *)
Inductive Event : Type :=
| EventOpen
| EventDealNotFound
| EventDealRejected
| EventDealAccepted
| EventBlockSent (totalSent : Z)
| EventBlocksCompleted
| EventPaymentRequested (totalSent : Z)
| EventSaveVoucherFailed (err : error)
| EventPartialPaymentReceived (fundsReceived : Z) (ch : address)
| EventPaymentReceived (fundsReceived : Z) (ch : address)
| EventComplete
| EventUnsealError
| EventUnsealComplete
| EventDataTransferError (err : error)
| EventCancelComplete
| EventCleanupComplete
| EventMultiStoreError (err : error)
| EventClientCancelled.

(** ** The state chart (FSMEvents) *)
Definition provider_chart (ev : Event) : list (Source * Dest) :=
  match ev with
  | EventOpen => [(From StatusNew, ToNoChange)]
  | EventDealAccepted => [(From StatusNew, To StatusOngoing)]
  | EventBlockSent _ => FromMany [StatusOngoing] ToNoChange
  | EventBlocksCompleted => FromMany [StatusOngoing] (To StatusBlocksComplete)
  | EventPaymentRequested _ =>
      [(From StatusOngoing, To StatusFundsNeeded);
       (From StatusFundsNeeded, ToJustRecord);
       (From StatusBlocksComplete, To StatusFundsNeededLastPayment)]
  | EventSaveVoucherFailed _ =>
      FromMany [StatusFundsNeeded; StatusFundsNeededLastPayment] (To StatusFailing)
  | EventPartialPaymentReceived _ _ =>
      FromMany [StatusFundsNeeded; StatusFundsNeededLastPayment] ToNoChange
  | EventPaymentReceived _ _ =>
      [(From StatusFundsNeeded, To StatusOngoing);
       (From StatusFundsNeededLastPayment, To StatusFinalizing)]
      ++ FromMany [StatusBlocksComplete; StatusOngoing; StatusFinalizing] ToJustRecord
  | EventComplete =>
      FromMany [StatusBlocksComplete; StatusFinalizing] (To StatusCompleting)
  | EventCleanupComplete => [(From StatusCompleting, To StatusCompleted)]
  | EventCancelComplete =>
      [(From StatusCancelling, To StatusCancelled); (From StatusFailing, To StatusErrored)]
  | EventDataTransferError _ => [(FromAny, To StatusErrored)]
  | EventMultiStoreError _ => [(FromAny, To StatusErrored)]
  | EventClientCancelled =>
      [(From StatusFailing, ToJustRecord); (From StatusCancelling, ToJustRecord);
       (FromAny, To StatusCancelling)]
  | EventDealNotFound | EventDealRejected | EventUnsealError | EventUnsealComplete => []
  end.

Definition recordError (err : error) (ds : ProviderState) : outcome error ProviderState :=
  Ok (set_ps_Message (Error err) ds).

Definition provider_action (ev : Event) (ds : ProviderState) : outcome error ProviderState :=
  match ev with
  | EventBlockSent totalSent => Ok (set_ps_TotalSent totalSent ds)
  | EventPaymentRequested totalSent => Ok (set_ps_TotalSent totalSent ds)
  | EventSaveVoucherFailed err => recordError err ds
  | EventPartialPaymentReceived fundsReceived ch =>
      Ok (set_ps_PayCh (Some ch)
            (set_ps_FundsReceived (ps_FundsReceived ds + fundsReceived) ds))
  | EventPaymentReceived fundsReceived ch =>
      let ds := set_ps_FundsReceived (ps_FundsReceived ds + fundsReceived) ds in
      outcome_bind (Provider_NextInterval ds)
        (λ next, Ok (set_ps_PayCh (Some ch) (set_ps_CurrentInterval next ds)))
  | EventDataTransferError err => recordError err ds
  | EventMultiStoreError err => recordError err ds
  | EventClientCancelled =>
      if bool_decide (ps_Status ds ≠ StatusFailing)
      then Ok (set_ps_Message "Client cancelled retrieval" ds)
      else Ok ds
  | _ => Ok ds
  end.

Definition FinalityStates : list Status := [StatusErrored; StatusCompleted; StatusCancelled].

Definition provider_machine : Machine ProviderState Event :=
  MkMachine provider_chart provider_action ps_Status set_ps_Status FinalityStates.

(** ** Entry functions *)

Record DealEnvironment : Type := MkDealEnvironment {
  env_TrackTransfer : ProviderState → option error;
  env_UntrackTransfer : ProviderState → option error;
  env_DeleteStore : Z → option error;
  env_CloseDataTransfer : ChannelID → option error
}.

Definition TrackTransfer (env : DealEnvironment) (ds : ProviderState) : option Event :=
  match env_TrackTransfer env ds with
  | Some err => Some (EventDataTransferError err)
  | None => None
  end.

Definition CancelDeal (env : DealEnvironment) (ds : ProviderState) : option Event :=
  match env_UntrackTransfer env ds with
  | Some err => Some (EventDataTransferError err)
  | None =>
    match env_DeleteStore env (ps_StoreID ds) with
    | Some err => Some (EventMultiStoreError err)
    | None =>
      match env_CloseDataTransfer env (ps_ChannelID ds) with
      | Some err =>
        if bool_decide (err ≠ ErrTerminated) then Some (EventDataTransferError err)
        else Some EventCancelComplete
      | None => Some EventCancelComplete
      end
    end
  end.

Definition CleanupDeal (env : DealEnvironment) (ds : ProviderState) : option Event :=
  match env_UntrackTransfer env ds with
  | Some err => Some (EventDataTransferError err)
  | None => Some EventCleanupComplete
  end.

Definition StateEntryFuncs (env : DealEnvironment) (s : Status)
    : option (ProviderState → option Event) :=
  match s with
  | StatusFailing => Some (CancelDeal env)
  | StatusCancelling => Some (CancelDeal env)
  | StatusCompleting => Some (CleanupDeal env)
  | _ => None
  end.

(** ** Data transfer events (dtsubscriber.go)

    [None] is the distinguished value [noProviderEvent]. *)
Definition eventFromDataTransfer (event : DtEvent) : option Event :=
  match dt_Code event with
  | DtAccept => Some EventDealAccepted
  | DtDisconnected =>
      Some (EventDataTransferError (ErrMsg "deal data transfer stalled (peer hungup)"))
  | DtError =>
      Some (EventDataTransferError
              (ErrMsg ("deal data transfer failed: " +:+ dt_Message event)))
  | DtCancel => Some EventClientCancelled
  | _ => None
  end.

(** The events sent to the provider's state machines, in order. *)
Definition DataTransferSubscriber (host : peer_id) (event : DtEvent)
    (channelState : DtChannelState) : list (ProviderDealIdentifier * Event) :=
  match ProposalFromVoucher (dts_Voucher channelState) with
  | None => []
  | Some dealProposal =>
    if negb (String.eqb (dts_Sender channelState) host) then []
    else
      let dealID := MkDealIdentifier (dts_Recipient channelState) (ID dealProposal) in
      let first := if bool_decide (dts_Status channelState = DtCompleted)
                   then [(dealID, EventComplete)] else [] in
      match eventFromDataTransfer event with
      | None => first
      | Some retrievalEvent => first ++ [(dealID, retrievalEvent)]
      end
  end.

(** ** Properties *)

#[export] Instance provider_machine_laws : MachineLaws provider_machine.
Proof.
  split; [|by intros s []].
  intros ev ds ds'. destruct ev; simpl; unfold recordError, outcome_bind;
    repeat case_match; simpl; try done; intros [= <-]; by destruct ds.
Qed.

(** Events with the funds they bring. *)
Definition funds_of (ev : Event) : Z :=
  match ev with
  | EventPartialPaymentReceived f _ | EventPaymentReceived f _ => f
  | _ => 0
  end.

Section reach.
Context {R : FsmRuntime}.

(** Runs of the provider machine with the events that were accepted. *)
Inductive provider_run (st0 : ProviderState) : list Event → ProviderState → Prop :=
| provider_run_init : provider_run st0 [] st0
| provider_run_step evs ds ev ds' b :
    provider_run st0 evs ds → fsm_apply provider_machine ev ds = Ok (ds', b) →
    provider_run st0 (evs ++ [ev]) ds'.

Lemma provider_step_action ev ds ds' b :
  fsm_apply provider_machine ev ds = Ok (ds', b) →
  ∃ ds1, provider_action ev ds = Ok ds1 ∧ (ds' = ds1 ∨ ∃ s, ds' = set_ps_Status s ds1).
Proof.
  rewrite fsm_apply_eq. unfold apply_documented. case_bool_decide; [done|].
  destruct (chart_lookup _ _) as [d|]; [|done]. simpl.
  destruct (provider_action ev ds) as [ds1| | |]; simpl; try done.
  destruct d; simpl; intros [= <- <-]; eauto.
Qed.

(** What one accepted event does to the ledger of the deal. *)
Lemma provider_step_ledger ev ds ds' b :
  fsm_apply provider_machine ev ds = Ok (ds', b) →
  ps_FundsReceived ds' = ps_FundsReceived ds + funds_of ev ∧
  ps_Proposal ds' = ps_Proposal ds ∧ ps_ChannelID ds' = ps_ChannelID ds ∧
  match ev with
  | EventPaymentReceived _ _ =>
      NextInterval (ps_Params ds) (ps_CurrentInterval ds) = Ok (ps_CurrentInterval ds')
  | _ => ps_CurrentInterval ds' = ps_CurrentInterval ds
  end.
Proof.
  intros (ds1 & Hact & Hds')%provider_step_action.
  enough (ps_FundsReceived ds1 = ps_FundsReceived ds + funds_of ev ∧
          ps_Proposal ds1 = ps_Proposal ds ∧ ps_ChannelID ds1 = ps_ChannelID ds ∧
          match ev with
          | EventPaymentReceived _ _ =>
              NextInterval (ps_Params ds) (ps_CurrentInterval ds) = Ok (ps_CurrentInterval ds1)
          | _ => ps_CurrentInterval ds1 = ps_CurrentInterval ds
          end) as Hgoal.
  { destruct Hds' as [->|[s ->]]; [done|]. by destruct ds1. }
  destruct ev; simpl in *; unfold recordError, outcome_bind, Provider_NextInterval, ps_Params in *;
    repeat case_match; simplify_eq; rewrite ?Z.add_0_r; first [done | by destruct ds].
Qed.

End reach.

Definition sample_env : DealEnvironment :=
  MkDealEnvironment (λ _, None) (λ _, None) (λ _, None) (λ _, Some ErrTerminated).

Definition sample_deal (st : Status) (p : Params) : ProviderState :=
  MkProviderState (MkProposal "root" 1 p) 0 (MkChannelID "c" "p" 7) st "c" 0 0 EmptyString
    (PaymentInterval p) None.

(** Along any run of the provider's state machine the funds recorded as
    received are the initial funds plus the sum of all accepted payments, partial
    ones included; the proposal never changes. *)
Theorem provider_funds_received {R : FsmRuntime} (st0 ds : ProviderState) (evs : list Event) :
  provider_run st0 evs ds →
  ps_FundsReceived ds = ps_FundsReceived st0 + sumZ funds_of evs ∧
  ps_Proposal ds = ps_Proposal st0.
Proof.
  induction 1 as [|evs ds ev ds' b _ [IHf IHp] Happ]; [simpl; split; [lia|done]|].
  apply provider_step_ledger in Happ as (Hf & Hp & _).
  rewrite sumZ_app, sumZ_cons, sumZ_nil. split; [lia|congruence].
Qed.

Lemma provider_funds_received_witness :
  let st0 := sample_deal StatusFundsNeeded default_params in
  ps_FundsReceived (set_ps_PayCh (Some "ch") (set_ps_FundsReceived 5 st0)) = 0 + (5 + 0).
Proof.
  refine (proj1 (@provider_funds_received documented_runtime
    (sample_deal StatusFundsNeeded default_params)
    (set_ps_PayCh (Some "ch") (set_ps_FundsReceived 5
       (sample_deal StatusFundsNeeded default_params)))
    [EventPartialPaymentReceived 5 "ch"] _)).
  apply (@provider_run_step documented_runtime _ []
           (sample_deal StatusFundsNeeded default_params)
           (EventPartialPaymentReceived 5 "ch") _ true);
    [apply provider_run_init|reflexivity].
Defined.

(** Every event triggered by an entry function of the provider is accepted
    by the chart in that status and leads to a final status, so a failing,
    cancelling or completing deal always terminates. *)
Theorem provider_handlers_terminate (env : DealEnvironment) (s : Status) (ds : ProviderState) h :
  StateEntryFuncs env s = Some h →
  ∃ ev s', h ds = Some ev ∧ next_status provider_machine ev s = Some s' ∧ s' ∈ FinalityStates.
Proof.
  intros Hh. destruct s; simplify_eq/=; unfold CancelDeal, CleanupDeal; repeat case_match;
    (eexists _, _; split_and!; [reflexivity|reflexivity|set_solver]).
Qed.

Lemma provider_handlers_terminate_witness :
  ∃ ev s', CancelDeal sample_env (sample_deal StatusFailing default_params) = Some ev ∧
    next_status provider_machine ev StatusFailing = Some s' ∧ s' ∈ FinalityStates.
Proof.
  apply (provider_handlers_terminate sample_env StatusFailing
           (sample_deal StatusFailing default_params)). reflexivity.
Defined.

(** The provider's payment interval always sits on an interval boundary:
    after any number of accepted payments it is the boundary that follows the
    previous ones, so it never decreases. *)
Theorem provider_interval_advances {R : FsmRuntime} (ds ds' : ProviderState) (ev : Event)
    (b : bool) (k : nat) :
  params_ok (ps_Params ds) → ps_CurrentInterval ds = boundary (ps_Params ds) k →
  fits (ps_Params ds) (interval_steps (ps_Params ds) (ps_CurrentInterval ds)) →
  fsm_apply provider_machine ev ds = Ok (ds', b) →
  ∃ k', (k ≤ k')%nat ∧ ps_CurrentInterval ds' = boundary (ps_Params ds) k'.
Proof.
  intros Hp Hk Hf (_ & _ & _ & Hi)%provider_step_ledger.
  destruct ev; try (exists k; split; [lia|congruence]).
  pose proof (boundary_nonneg _ Hp k).
  destruct (NextInterval_boundary _ Hp (ps_CurrentInterval ds)) as (j & Hj & Hj1 & Hj2);
    [lia|done|].
  exists (S j). split; [|congruence].
  destruct (decide (k ≤ S j)%nat) as [|Hgt]; [done|].
  pose proof (boundary_mono _ Hp (S j) k). lia.
Qed.

Lemma provider_interval_advances_witness :
  ∃ k', (1 ≤ k')%nat ∧ 3145728 = boundary default_params k'.
Proof.
  apply (@provider_interval_advances documented_runtime
    (sample_deal StatusFundsNeeded default_params)
    (set_ps_Status StatusOngoing (set_ps_PayCh (Some "ch") (set_ps_CurrentInterval 3145728
       (set_ps_FundsReceived 5 (sample_deal StatusFundsNeeded default_params)))))
    (EventPaymentReceived 5 "ch") true 1);
    first [reflexivity | vm_compute; intuition congruence].
Defined.
