(* ===== verification/Revalidator.v ===== *)
(** * The retrieval provider's validators (retrieval/validators.go)

    The request validator that accepts or rejects pull requests, the
    revalidator that meters the data sent on each channel and requests payment
    at interval boundaries, and the ask store they consult
    (retrieval/askstore.go, retrieval/environments.go). *)
From S2P Require Import Prelude Deal Fsm PayTypes DataTransfer ProviderFsm.

(** ** The ask store (askstore.go) *)

(** An ask is an offer.  [ask_Priced] is false where its minimum price is nil, which
    is written to a peer as the zero of [ask_Offer]. *)
Record Ask : Type := MkAsk {
  ask_Offer : Offer;
  ask_Priced : bool
}.

Definition AskStore : Type := gmap cid Ask.

Definition SetAsk (k : cid) (ask : Ask) (s : AskStore) : AskStore := <[k := ask]> s.

(** The zero value of [deal.Offer] with the fields [GetAsk] fills in. *)
Definition default_ask : Ask :=
  MkAsk (MkOffer Undef Undef Undef 0 Undef 0 DefaultPaymentInterval DefaultPaymentIntervalIncrease 0) true.

Definition GetAsk (k : cid) (s : AskStore) : Ask :=
  match s !! k with
  | None => default_ask
  | Some a => a
  end.

(** ** The revalidator's state *)

(** [legacyProtocol] is left out: nothing reads or writes it. *)
Record channelData : Type := MkChannelData {
  cd_dealID : ProviderDealIdentifier;
  cd_totalSent : Z;
  cd_totalPaidFor : Z;
  cd_interval : Z;
  cd_pricePerByte : Z;
  cd_reload : bool
}.

Definition set_cd_totalSent (v : Z) (c : channelData) : channelData :=
  MkChannelData (cd_dealID c) v (cd_totalPaidFor c) (cd_interval c) (cd_pricePerByte c)
    (cd_reload c).
Definition set_cd_reload (v : bool) (c : channelData) : channelData :=
  MkChannelData (cd_dealID c) (cd_totalSent c) (cd_totalPaidFor c) (cd_interval c)
    (cd_pricePerByte c) v.

(** The table of tracked channels, beside the state [W] of the services the
    environment gives access to (state machines and payments).  The source
    keeps one freshly allocated [channelData] per key, so updating the entry of
    a key is updating the object behind the pointer. *)
Record PR (W : Type) : Type := MkPR {
  trackedChannels : gmap ChannelID channelData;
  pr_world : W
}.
Arguments MkPR {W}.
Arguments trackedChannels {W}.
Arguments pr_world {W}.

(** [RevalidatorEnvironment] with the part of [ValidationEnvironment] that
    reaches the state machines. *)
Record RevalidatorEnvironment (W : Type) : Type := MkRevalidatorEnvironment {
  env_Payments : Manager W;
  env_Begin : ProviderDealIdentifier → ProviderState → go W error unit;
  env_SendEvent : ProviderDealIdentifier → Event → go W error unit;
  env_Get : ProviderDealIdentifier → go W error ProviderState
}.
Arguments MkRevalidatorEnvironment {W}.
Arguments env_Payments {W}.
Arguments env_Begin {W}.
Arguments env_SendEvent {W}.
Arguments env_Get {W}.

Section revalidator.
Context {W : Type} (env : RevalidatorEnvironment W).

(** A call on the environment. *)
Definition on_world {A} (m : go W error A) : go (PR W) error A := λ s,
  let '(w, r) := m (pr_world s) in (MkPR (trackedChannels s) w, r).

Definition get_channel (chid : ChannelID) : go (PR W) error (option channelData) := λ s,
  (s, Ok (trackedChannels s !! chid)).

Definition put_channel (chid : ChannelID) (c : channelData) : go (PR W) error unit := λ s,
  (MkPR (<[chid := c]> (trackedChannels s)) (pr_world s), Ok tt).

(** What [writeDealState] stores for a deal. *)
Definition write_channel (d : ProviderState) (c : channelData) : channelData :=
  let price := PricePerByte (ps_Params d) in
  let paidFor :=
    if negb (price =? 0)
    then big_uint64 (big_div (Z.max (ps_FundsReceived d - UnsealPrice (ps_Params d)) 0) price)
    else cd_totalPaidFor c in
  MkChannelData (cd_dealID c) (ps_TotalSent d) paidFor (ps_CurrentInterval d) price (cd_reload c).

(** A missing entry is a nil dereference. *)
Definition writeDealState (d : ProviderState) : go (PR W) error unit :=
  let* channel := get_channel (ps_ChannelID d) in
  match channel with
  | None => go_panic
  | Some c => put_channel (ps_ChannelID d) (write_channel d c)
  end.

Definition TrackChannel (d : ProviderState) : go (PR W) error unit :=
  do* put_channel (ps_ChannelID d) (MkChannelData (Identifier d) 0 0 0 0 false) then
  writeDealState d.

Definition UntrackChannel (d : ProviderState) : go (PR W) error unit := λ s,
  (MkPR (delete (ps_ChannelID d) (trackedChannels s)) (pr_world s), Ok tt).

(** [channel] is the entry of [chid]. *)
Definition loadDealState (chid : ChannelID) (channel : channelData) : go (PR W) error unit :=
  if negb (cd_reload channel) then go_ret tt
  else
    let* d := on_world (env_Get env (cd_dealID channel)) in
    do* writeDealState d then
    let* channel := get_channel chid in
    match channel with
    | None => go_panic
    | Some c => put_channel chid (set_cd_reload false c)
    end.

Definition errorDealResponse (dealID : ProviderDealIdentifier) (err : error) : Response :=
  MkResponse StatusErrored (di_DealID dealID) 0 (Error err).

Definition paymentOwed (d : ProviderState) (totalPaid : Z) : outcome error Z :=
  let unseal := UnsealPrice (ps_Params d) in
  if totalPaid <? unseal then Ok (unseal - totalPaid)
  else
    let transferPayment := totalPaid - unseal in
    outcome_bind (Provider_IntervalLowerBound d) (λ currentLimitLower,
    let totalPaymentRequired := i64 currentLimitLower * PricePerByte (ps_Params d) in
    Ok (totalPaymentRequired - transferPayment)).

(** A Go function that returns a voucher result and an error returns both. *)
Definition result : Type := option Response * option error.

Definition processPayment (dealID : ProviderDealIdentifier) (payment : Payment)
    : go (PR W) error result :=
  let* d := go_try (on_world (env_Get env dealID)) in
  match d with
  | inl err => go_ret (Some (errorDealResponse dealID err), Some err)
  | inr d =>
    let* received := go_try (on_world (mgr_AddVoucherInbound (env_Payments env)
      (pay_PaymentChannel payment) (pay_PaymentVoucher payment) EmptyString 0)) in
    match received with
    | inl err =>
      do* go_try (on_world (env_SendEvent env dealID (EventSaveVoucherFailed err))) then
      go_ret (Some (errorDealResponse dealID err), Some err)
    | inr received =>
      let totalPaid := ps_FundsReceived d + received in
      let* owed := go_lift (paymentOwed d totalPaid) in
      if 0 <? owed then
        do* go_try (on_world (env_SendEvent env dealID
              (EventPartialPaymentReceived received (pay_PaymentChannel payment)))) then
        go_ret (Some (MkResponse (ps_Status d) (ID (ps_Proposal d)) owed EmptyString), Some ErrPause)
      else
        do* go_try (on_world (env_SendEvent env dealID
              (EventPaymentReceived received (pay_PaymentChannel payment)))) then
        if bool_decide (ps_Status d = StatusFundsNeededLastPayment)
        then go_ret (Some (MkResponse StatusCompleted (ID (ps_Proposal d)) 0 EmptyString),
                     Some ErrResume)
        else go_ret (None, Some ErrResume)
    end
  end.

Definition Revalidate (channelID : ChannelID) (voucher : Voucher) : go (PR W) error result :=
  let* channel := get_channel channelID in
  match channel with
  | None => go_ret (None, None)
  | Some channel =>
    match voucher with
    | VPayment payment =>
      let* r := processPayment (cd_dealID channel) payment in
      do* (if bool_decide (r.2 = None ∨ r.2 = Some ErrResume)
           then let* c := get_channel channelID in
                match c with
                | None => go_ret tt
                | Some c => put_channel channelID (set_cd_reload true c)
                end
           else go_ret tt) then
      go_ret r
    | _ => go_ret (None, Some (ErrMsg "wrong voucher type"))
    end
  end.

(** The price of the bytes sent and not paid for. *)
Definition unpaid_price (c : channelData) : Z :=
  i64 (u64 (cd_totalSent c - cd_totalPaidFor c)) * cd_pricePerByte c.

(** The answers carry whether the channel is handled by this revalidator. *)
Definition OnPullDataSent (chid : ChannelID) (additionalBytesSent : Z)
    : go (PR W) error (bool * result) :=
  let* channel := get_channel chid in
  match channel with
  | None => go_ret (false, (None, None))
  | Some channel =>
    let* err := go_try (loadDealState chid channel) in
    match err with
    | inl err => go_ret (true, (None, Some err))
    | inr _ =>
      let* channel := get_channel chid in
      match channel with
      | None => go_panic
      | Some channel =>
        let channel := set_cd_totalSent (u64 (cd_totalSent channel + additionalBytesSent)) channel in
        do* put_channel chid channel then
        if (cd_pricePerByte channel =? 0) || (cd_totalSent channel <? cd_interval channel)
        then
          let* e := go_try (on_world (env_SendEvent env (cd_dealID channel)
                      (EventBlockSent (cd_totalSent channel)))) in
          go_ret (true, (None, match e with inl err => Some err | inr _ => None end))
        else
          let* e := go_try (on_world (env_SendEvent env (cd_dealID channel)
                      (EventPaymentRequested (cd_totalSent channel)))) in
          match e with
          | inl err => go_ret (true, (None, Some err))
          | inr _ =>
            go_ret (true, (Some (MkResponse StatusFundsNeeded (di_DealID (cd_dealID channel))
                                   (unpaid_price channel) EmptyString), Some ErrPause))
          end
      end
    end
  end.

Definition OnPushDataReceived (chid : ChannelID) (additionalBytesReceived : Z)
    : go (PR W) error (bool * result) :=
  go_ret (false, (None, None)).

Definition OnComplete (chid : ChannelID) : go (PR W) error (bool * result) :=
  let* channel := get_channel chid in
  match channel with
  | None => go_ret (false, (None, None))
  | Some channel =>
    let* err := go_try (loadDealState chid channel) in
    match err with
    | inl err => go_ret (true, (None, Some err))
    | inr _ =>
      let* channel := get_channel chid in
      match channel with
      | None => go_panic
      | Some channel =>
        let* e := go_try (on_world (env_SendEvent env (cd_dealID channel) EventBlocksCompleted)) in
        match e with
        | inl err => go_ret (true, (None, Some err))
        | inr _ =>
          if unpaid_price channel =? 0
          then go_ret (true, (Some (MkResponse StatusCompleted (di_DealID (cd_dealID channel)) 0
                                      EmptyString), None))
          else
            let* e := go_try (on_world (env_SendEvent env (cd_dealID channel)
                        (EventPaymentRequested (cd_totalSent channel)))) in
            match e with
            | inl err => go_ret (true, (None, Some err))
            | inr _ =>
              go_ret (true, (Some (MkResponse StatusFundsNeededLastPayment
                                     (di_DealID (cd_dealID channel)) (unpaid_price channel)
                                     EmptyString), Some ErrPause))
            end
        end
      end
    end
  end.

(** ** The request validator *)

(** Comparing with a nil price dereferences it. *)
Definition CheckDealParams (asks : AskStore) (ds : ProviderState) : outcome error unit :=
  let a := GetAsk (PayloadCID (ps_Proposal ds)) asks in
  let ask := ask_Offer a in
  let p := ps_Params ds in
  if negb (ask_Priced a) then Panic
  else if PricePerByte p <? o_MinPricePerByte ask then Err (ErrMsg "price per byte too low")
  else if o_MaxPaymentInterval ask <? PaymentInterval p
  then Err (ErrMsg "payment interval too large")
  else if o_MaxPaymentIntervalIncrease ask <? PaymentIntervalIncrease p
  then Err (ErrMsg "payment interval increase too large")
  else Ok tt.

Definition GetStoreID (c : cid) : error + Z := inr 0.

Definition acceptDeal (asks : AskStore) (d : ProviderState)
    : outcome error (ProviderState * (Status * option error)) :=
  match CheckDealParams asks d with
  | Err err => Ok (d, (StatusRejected, Some err))
  | Ok _ =>
    match GetStoreID (PayloadCID (ps_Proposal d)) with
    | inl err => Ok (set_ps_StoreID 0 d, (StatusDealNotFound, Some err))
    | inr id => Ok (set_ps_StoreID id d, (StatusAccepted, None))
    end
  | Panic => Panic
  | Hang => Hang
  end.

Definition BeginTracking (pds : ProviderState) : go (PR W) error unit :=
  do* on_world (env_Begin env (Identifier pds) pds) then
  do* TrackChannel pds then
  on_world (env_SendEvent env (Identifier pds) EventOpen).

Definition ValidatePush : go (PR W) error result :=
  go_ret (None, Some (ErrMsg "No pushes accepted")).

(** [encode] is the dag-cbor encoder, [allSelectorBytes] the encoding of the
    selector that matches everything. *)
Definition ValidatePull {Node} (encode : Node → error + bytes) (allSelectorBytes : bytes)
    (asks : AskStore) (isRestart : bool) (chid : ChannelID) (receiver : peer_id)
    (voucher : Voucher) (baseCid : cid) (selector : Node) : go (PR W) error result :=
  match voucher with
  | VProposal proposal =>
    if negb (String.eqb (PayloadCID proposal) baseCid)
    then go_ret (None, Some (ErrMsg "incorrect CID for this proposal"))
    else
      match encode selector with
      | inl err => go_ret (None, Some err)
      | inr buf =>
        let bytesCompare :=
          match Selector (p_Params proposal) with
          | Some raw => if SelectorSpecified (p_Params proposal) then raw else allSelectorBytes
          | None => allSelectorBytes
          end in
        if negb (String.eqb buf bytesCompare)
        then go_ret (None, Some (ErrMsg "incorrect selector for this proposal"))
        else if isRestart then go_ret (None, None)
        else
          let pds := MkProviderState proposal 0 chid StatusNew receiver 0 0 EmptyString
                       (PaymentInterval (p_Params proposal)) None in
          let* res := go_lift (acceptDeal asks pds) in
          let '(pds, (status, err)) := res in
          match err with
          | Some err =>
            go_ret (Some (MkResponse status (ID proposal) 0 (Error err)), Some err)
          | None =>
            let* e := go_try (BeginTracking pds) in
            match e with
            | inl err => go_ret (None, Some err)
            | inr _ => go_ret (Some (MkResponse status (ID proposal) 0 EmptyString), None)
            end
          end
      end
  | _ => go_ret (None, Some (ErrMsg "wrong voucher type"))
  end.

End revalidator.

(** ** The contract of the environment *)

(** A state machine answers a refused event by logging it and keeping its state. *)
Definition group_apply {R : FsmRuntime} (ev : Event) (ds : ProviderState)
    : outcome error ProviderState :=
  match fsm_apply provider_machine ev ds with
  | Ok (ds', _) => Ok ds'
  | Err _ => Ok ds
  | Panic => Panic
  | Hang => Hang
  end.

(** What the provider relies on from the state machine group (its state is seen
    through [view]) and from the payment manager: an inbound voucher never takes
    funds away. *)
Class RevalidatorLaws {R : FsmRuntime} {W} (env : RevalidatorEnvironment W)
    (view : W → gmap ProviderDealIdentifier ProviderState) : Prop := {
  get_law : ∀ id w, (env_Get env id w).1 = w ∧
    (∀ ds, (env_Get env id w).2 = Ok ds → view w !! id = Some ds);
  send_ok_law : ∀ id ev w w' ds ds',
    env_SendEvent env id ev w = (w', Ok tt) → view w !! id = Some ds →
    group_apply ev ds = Ok ds' → view w' = <[id := ds']> (view w);
  send_err_law : ∀ id ev w w' e, env_SendEvent env id ev w = (w', Err e) → view w' = view w;
  inbound_law : ∀ ch sv w w' r,
    mgr_AddVoucherInbound (env_Payments env) ch sv EmptyString 0 w = (w', r) →
    view w' = view w ∧ (∀ delta, r = Ok delta → 0 <= delta)
}.

(** ** Bounded credit *)

Section credit.
Context {R : FsmRuntime} {W : Type} (env : RevalidatorEnvironment W).
Context (view : W → gmap ProviderDealIdentifier ProviderState) {L : RevalidatorLaws env view}.
Context (chid : ChannelID) (prop : Proposal).
Local Abbreviation p := (p_Params prop).

(** The payment that has been checked when the deal reaches its k-th interval:
    everything up to the boundary two intervals below the one being sent. *)
Definition required (k : nat) : Z :=
  match k with
  | O => 0
  | S k' => UnsealPrice p + boundary p k' * PricePerByte p
  end.

(** The deal is in its k-th interval and has been paid for accordingly. *)
Definition deal_credit (k : nat) (ds : ProviderState) : Prop :=
  ps_ChannelID ds = chid ∧ ps_Proposal ds = prop ∧
  ps_CurrentInterval ds = boundary p (S k) ∧ required k <= ps_FundsReceived ds.

(** The counters of the deal are below 2^63 and the boundaries fit. *)
Definition in_range (ds : ProviderState) : Prop :=
  fits p (interval_steps p (ps_CurrentInterval ds)) ∧ ps_CurrentInterval ds < two63.

Definition credit (id : ProviderDealIdentifier) (s : PR W) : Prop :=
  ∃ cd ds k, trackedChannels s !! chid = Some cd ∧ cd_dealID cd = id ∧
    view (pr_world s) !! id = Some ds ∧ deal_credit k ds ∧
    cd_pricePerByte cd = PricePerByte p ∧ cd_interval cd <= ps_CurrentInterval ds.

(** Events that bring no money: those of the data transfer subscriber, of the
    entry functions and of the metering itself. *)
Definition no_funds (ev : Event) : bool :=
  match ev with
  | EventPartialPaymentReceived _ _ | EventPaymentReceived _ _ => false
  | _ => true
  end.

(** One step of the provider for this deal. *)
Inductive pr_step (id : ProviderDealIdentifier) : PR W → PR W → Prop :=
| step_sent n s s' r : OnPullDataSent env chid n s = (s', Ok r) → pr_step id s s'
| step_complete s s' r : OnComplete env chid s = (s', Ok r) → pr_step id s s'
| step_voucher v s s' r : Revalidate env chid v s = (s', Ok r) → pr_step id s s'
| step_event ev s s' r :
    no_funds ev = true → go_try (on_world (env_SendEvent env id ev)) s = (s', Ok r) →
    pr_step id s s'.

(** Runs along which the counters stay in range. *)
Inductive pr_run (id : ProviderDealIdentifier) (s0 : PR W) : PR W → Prop :=
| pr_run_init : pr_run id s0 s0
| pr_run_step s s' :
    pr_run id s0 s → (∀ ds, view (pr_world s) !! id = Some ds → in_range ds) →
    pr_step id s s' → pr_run id s0 s'.

Context (Hok : params_ok p) (Hpos : 0 < PaymentInterval p).

(** An event whose action returns is applied or refused. *)
Lemma group_apply_total ev ds ds1 :
  provider_action ev ds = Ok ds1 →
  ∃ ds', group_apply ev ds = Ok ds' ∧
         (ds' = ds ∨ ∃ b, fsm_apply provider_machine ev ds = Ok (ds', b)).
Proof.
  intros Ha. unfold group_apply. destruct (fsm_apply provider_machine ev ds) as [[ds' b]|e| |] eqn:E;
    eauto; rewrite fsm_apply_eq in E; unfold apply_documented in E;
    cbn [m_action provider_machine] in E; rewrite Ha in E; repeat case_match; done.
Qed.

Lemma no_funds_step k ev ds :
  no_funds ev = true → deal_credit k ds →
  ∃ ds', group_apply ev ds = Ok ds' ∧ deal_credit k ds' ∧
         ps_CurrentInterval ds' = ps_CurrentInterval ds.
Proof.
  intros Hev Hd. assert (∃ ds1, provider_action ev ds = Ok ds1) as [ds1 Ha].
  { destruct ev; simpl in *; unfold recordError; try case_match; eauto; done. }
  destruct (group_apply_total _ _ _ Ha) as (ds' & -> & [->|[b E]]); [eauto|].
  exists ds'. destruct Hd as (Hc & Hp & Hi & Hr).
  apply provider_step_ledger in E as (Hf & Hp' & Hc' & Hi').
  assert (funds_of ev = 0) by (by destruct ev).
  assert (ps_CurrentInterval ds' = ps_CurrentInterval ds) by (by destruct ev).
  unfold deal_credit. split_and!; try congruence; lia.
Qed.

(** A payment keeps the deal in its interval, or moves it to the next one when
    the event is the one for a sufficient payment. *)
Lemma partial_step k f a ds :
  0 <= f → deal_credit k ds →
  ∃ ds', group_apply (EventPartialPaymentReceived f a) ds = Ok ds' ∧ deal_credit k ds' ∧
         ps_CurrentInterval ds' = ps_CurrentInterval ds.
Proof.
  intros Hf0 Hd. destruct (group_apply_total (EventPartialPaymentReceived f a) ds _ eq_refl)
    as (ds' & -> & [->|[b E]]); [eauto|].
  exists ds'. destruct Hd as (Hc & Hp & Hi & Hr).
  apply provider_step_ledger in E as (Hf & Hp' & Hc' & Hi'). simpl in Hf, Hi'.
  unfold deal_credit. split_and!; try congruence; lia.
Qed.

Lemma payment_step k f a ds :
  deal_credit k ds → in_range ds → required (S k) <= ps_FundsReceived ds + f →
  ∃ ds' k', group_apply (EventPaymentReceived f a) ds = Ok ds' ∧ deal_credit k' ds' ∧
         ps_CurrentInterval ds <= ps_CurrentInterval ds'.
Proof.
  intros Hd [Hfit Hlt] Hpay. pose proof Hd as (Hc & Hp & Hi & Hr).
  rewrite Hi in Hfit. pose proof (NextInterval_at p Hok Hpos _ Hfit) as Hn.
  assert (∃ ds1, provider_action (EventPaymentReceived f a) ds = Ok ds1) as [ds1 Ha].
  { simpl. unfold Provider_NextInterval, ps_Params. destruct ds; simpl in *. subst.
    rewrite Hn. simpl. eauto. }
  destruct (group_apply_total _ _ _ Ha) as (ds' & -> & [->|[b E]]); [eauto using Z.le_refl|].
  exists ds', (S k). apply provider_step_ledger in E as (Hf & Hp' & Hc' & Hi').
  unfold ps_Params in Hi'. rewrite Hp, Hi, Hn in Hi'.
  assert (ps_CurrentInterval ds' = boundary p (S (S k))) as Hi'' by congruence.
  cbn [funds_of] in Hf. pose proof (boundary_mono p Hok (S k) (S (S k)) ltac:(lia)).
  unfold deal_credit. split_and!; congruence.
Qed.

(** The part of the invariant that lives in the state machines. *)
Definition world_credit (id : ProviderDealIdentifier) (lim : Z) (w : W) : Prop :=
  ∃ ds k, view w !! id = Some ds ∧ deal_credit k ds ∧ lim <= ps_CurrentInterval ds.

(** Sending an event that keeps the credit keeps it whether the group takes the
    event or answers with an error. *)
Lemma send_credit id ev lim s s' r ds k :
  view (pr_world s) !! id = Some ds → deal_credit k ds → lim <= ps_CurrentInterval ds →
  (∃ ds' k', group_apply ev ds = Ok ds' ∧ deal_credit k' ds' ∧
             ps_CurrentInterval ds <= ps_CurrentInterval ds') →
  go_try (on_world (env_SendEvent env id ev)) s = (s', Ok r) →
  trackedChannels s' = trackedChannels s ∧ world_credit id lim (pr_world s').
Proof.
  intros Hv Hd Hl (ds' & k' & Ha & Hd' & Hi). unfold go_try, on_world, world_credit.
  destruct (env_SendEvent env id ev (pr_world s)) as [w [[]|e| |]] eqn:E; intros [= <- <-]; simpl;
    split; try done.
  - rewrite (send_ok_law _ _ _ _ _ _ E Hv Ha). exists ds', k'. rewrite lookup_insert_eq.
    split_and!; [done..|lia].
  - rewrite (send_err_law _ _ _ _ _ E). by exists ds, k.
Qed.

Lemma no_funds_credit id ev lim s s' r :
  no_funds ev = true → world_credit id lim (pr_world s) →
  go_try (on_world (env_SendEvent env id ev)) s = (s', Ok r) →
  trackedChannels s' = trackedChannels s ∧ world_credit id lim (pr_world s').
Proof.
  intros Hev (ds & k & Hv & Hd & Hl) Hs. eapply (send_credit id ev); [done..| |exact Hs].
  destruct (no_funds_step _ _ _ Hev Hd) as (ds' & Ha & Hd' & Hi).
  exists ds', k. split_and!; [done..|lia].
Qed.

Lemma credit_split id s :
  credit id s ↔ ∃ cd, trackedChannels s !! chid = Some cd ∧ cd_dealID cd = id ∧
    cd_pricePerByte cd = PricePerByte p ∧ world_credit id (cd_interval cd) (pr_world s).
Proof.
  unfold credit, world_credit. split.
  - intros (cd & ds & k & ? & ? & ? & ? & ? & ?). eauto 10.
  - intros (cd & ? & ? & ? & ds & k & ? & ? & ?). eauto 10.
Qed.

(** The state is reloaded from the deal: the meter follows the deal's interval. *)
Lemma loadDealState_credit id cd s s' r :
  trackedChannels s !! chid = Some cd → credit id s →
  go_try (loadDealState env chid cd) s = (s', Ok r) → credit id s'.
Proof.
  intros Hcd Hcr. pose proof Hcr as (cd' & ds & k & Hcd' & Hid & Hv & Hd & Hp & Hi).
  assert (cd' = cd) as -> by congruence. unfold loadDealState.
  destruct (cd_reload cd); simpl; [|intros [= <- <-]; done].
  unfold go_try, go_bind, on_world.
  destruct (env_Get env (cd_dealID cd) (pr_world s)) as [w [d|e| |]] eqn:E; simpl;
    pose proof (get_law (cd_dealID cd) (pr_world s)) as [Hw Hg]; rewrite E in Hw, Hg; simpl in *;
    subst w; try (intros [= <- <-]; done).
  assert (d = ds) as -> by (specialize (Hg _ eq_refl); congruence).
  unfold writeDealState, get_channel, put_channel, go_bind. simpl.
  destruct Hd as (Hc & Hpr & Hint & Hreq). rewrite Hc, Hcd. simpl. rewrite lookup_insert_eq.
  intros [= <- <-]. simpl. rewrite insert_insert_eq. apply credit_split. eexists.
  simpl. rewrite lookup_insert_eq. split_and!; [done|by destruct cd|simpl; unfold ps_Params; by rewrite Hpr|].
  exists ds, k. unfold deal_credit. simpl. split_and!; try done; congruence || lia.
Qed.

Lemma load_keeps_channel cd s s' r :
  trackedChannels s !! chid = Some cd →
  go_try (loadDealState env chid cd) s = (s', Ok (inr r)) →
  ∃ cd', trackedChannels s' !! chid = Some cd'.
Proof.
  intros Hcd. unfold loadDealState. destruct (cd_reload cd); simpl; [|intros [= <- <-]; eauto].
  unfold go_try, go_bind, on_world, writeDealState, get_channel, put_channel, go_bind, go_panic.
  repeat case_match; simplify_eq/=; eauto; intros [= <- <-]; simpl; rewrite lookup_insert_eq; eauto.
Qed.

(** Changing the meter of the channel keeps the credit. *)
Lemma credit_put id s cd cd' :
  trackedChannels s !! chid = Some cd → credit id s →
  cd_dealID cd' = cd_dealID cd → cd_pricePerByte cd' = cd_pricePerByte cd →
  cd_interval cd' = cd_interval cd →
  credit id (MkPR (<[chid := cd']> (trackedChannels s)) (pr_world s)).
Proof.
  intros Hcd (cd1 & ds & k & Hcd1 & Hid & Hv & Hd & Hp & Hi) H1 H2 H3. simplify_eq.
  exists cd', ds, k. simpl. rewrite lookup_insert_eq. split_and!; try done; congruence.
Qed.

Lemma credit_send id ev s s' r :
  no_funds ev = true → credit id s →
  go_try (on_world (env_SendEvent env id ev)) s = (s', Ok r) →
  credit id s' ∧ trackedChannels s' = trackedChannels s.
Proof.
  intros Hev (cd & Hcd & Hid & Hp & Hw)%credit_split Hs.
  apply (no_funds_credit _ _ _ _ _ _ Hev Hw) in Hs as [Ht Hw']. split; [|done].
  apply credit_split. exists cd. by rewrite Ht.
Qed.

Lemma sent_credit id n s s' r :
  credit id s → OnPullDataSent env chid n s = (s', Ok r) →
  credit id s' ∧
  (r = (true, (None, None)) → PricePerByte p ≠ 0 →
   ∃ cd, trackedChannels s' !! chid = Some cd ∧ cd_totalSent cd < cd_interval cd).
Proof.
  intros Hcr. unfold OnPullDataSent, get_channel. intros (s1 & o & [= <- <-] & H)%go_bind_ok.
  destruct (trackedChannels s !! chid) as [cd|] eqn:Hcd;
    [|unfold go_ret in H; injection H as <- <-; split; [done|]; intros [=]].
  apply go_bind_ok in H as (s1 & res & Hload & H).
  pose proof (loadDealState_credit _ _ _ _ _ Hcd Hcr Hload) as Hcr1.
  destruct res as [err|[]]; [unfold go_ret in H; injection H as <- <-; split; [done|]; intros [=]|].
  apply go_bind_ok in H as (s2 & o & [= <- <-] & H).
  destruct (trackedChannels s1 !! chid) as [cd1|] eqn:Hcd1; [|done].
  set (cd2 := set_cd_totalSent _ cd1) in H.
  apply go_bind_ok in H as (s2 & [] & [= <-] & H).
  pose proof (credit_put _ _ _ cd2 Hcd1 Hcr1 eq_refl eq_refl eq_refl) as Hcr2.
  assert (cd_dealID cd2 = id ∧ cd_pricePerByte cd2 = PricePerByte p) as [Hid Hpr].
  { destruct Hcr2 as (cd3 & ? & ? & Hl & ? & ? & ? & ? & ?). simpl in Hl.
    rewrite lookup_insert_eq in Hl. by simplify_eq. }
  destruct ((cd_pricePerByte cd2 =? 0) || (cd_totalSent cd2 <? cd_interval cd2)) eqn:Et;
    apply go_bind_ok in H as (s3 & res & Hs & H); rewrite Hid in Hs;
    apply credit_send in Hs as [Hcr3 Ht]; try done.
  - unfold go_ret in H. injection H as <- <-. split; [done|]. intros _ Hnz.
    exists cd2. rewrite Ht. simpl. rewrite lookup_insert_eq. split; [done|].
    apply orb_true_iff in Et as [Et|Et]; to_prop; [congruence|done].
  - destruct res; unfold go_ret in H; injection H as <- <-; (split; [done|]); intros [=].
Qed.

Lemma complete_credit id s s' r :
  credit id s → OnComplete env chid s = (s', Ok r) → credit id s'.
Proof.
  intros Hcr. unfold OnComplete, get_channel. intros (s1 & o & [= <- <-] & H)%go_bind_ok.
  destruct (trackedChannels s !! chid) as [cd|] eqn:Hcd;
    [|unfold go_ret in H; by injection H as <- <-].
  apply go_bind_ok in H as (s1 & res & Hload & H).
  pose proof (loadDealState_credit _ _ _ _ _ Hcd Hcr Hload) as Hcr1.
  destruct res as [err|[]]; [unfold go_ret in H; by injection H as <- <-|].
  apply go_bind_ok in H as (s2 & o & [= <- <-] & H).
  destruct (trackedChannels s1 !! chid) as [cd1|] eqn:Hcd1; [|done].
  assert (cd_dealID cd1 = id) as Hid.
  { destruct Hcr1 as (cd3 & ? & ? & Hl & ? & ?). by simplify_eq. }
  rewrite Hid in H.
  apply go_bind_ok in H as (s3 & res & Hs & H). apply credit_send in Hs as [Hcr3 Ht]; try done.
  destruct res; [unfold go_ret in H; by injection H as <- <-|].
  destruct (unpaid_price cd1 =? 0); [unfold go_ret in H; by injection H as <- <-|].
  apply go_bind_ok in H as (s4 & res & Hs & H). apply credit_send in Hs as [Hcr4 Ht']; try done.
  destruct res; unfold go_ret in H; by injection H as <- <-.
Qed.

(** A payment that leaves nothing owed covers everything up to the lower
    boundary of the current interval. *)
Lemma paymentOwed_required k ds totalPaid owed :
  deal_credit k ds → in_range ds → paymentOwed ds totalPaid = Ok owed →
  owed <= 0 → required (S k) <= totalPaid.
Proof.
  intros (Hc & Hp & Hi & Hr) [Hfit Hlt]. unfold paymentOwed, ps_Params. rewrite Hp.
  destruct (Z.ltb_spec totalPaid (UnsealPrice p)); [intros [= <-]; lia|].
  unfold Provider_IntervalLowerBound, ps_Params. rewrite Hp, Hi.
  rewrite Hi in Hfit, Hlt. rewrite (IntervalLowerBound_at p Hok Hpos) by done. cbn [outcome_bind].
  pose proof (boundary_nonneg p Hok k). pose proof (boundary_mono p Hok k (S k) ltac:(lia)).
  rewrite i64_small by lia. intros [= <-] Ho. cbn [required]. lia.
Qed.

Lemma on_world_get id s s' r ds :
  view (pr_world s) !! id = Some ds →
  go_try (on_world (env_Get env id)) s = (s', Ok r) →
  s' = s ∧ (r = inr ds ∨ ∃ e, r = inl e).
Proof.
  intros Hv. unfold go_try, on_world. pose proof (get_law id (pr_world s)) as [Hw Hg].
  destruct (env_Get env id (pr_world s)) as [w [d|e| |]]; simpl in *; subst w;
    intros [= <- <-]; (split; [by destruct s|]); [|eauto].
  specialize (Hg _ eq_refl). left. congruence.
Qed.

Lemma on_world_inbound id lim ch sv s s' r :
  world_credit id lim (pr_world s) →
  go_try (on_world (mgr_AddVoucherInbound (env_Payments env) ch sv EmptyString 0)) s = (s', Ok r) →
  trackedChannels s' = trackedChannels s ∧ view (pr_world s') = view (pr_world s) ∧
  (∀ delta, r = inr delta → 0 <= delta).
Proof.
  intros _. unfold go_try, on_world.
  destruct (mgr_AddVoucherInbound _ _ _ _ _ _) as [w [d|e| |]] eqn:E;
    pose proof (inbound_law _ _ _ _ _ E) as [Hv Hd]; intros [= <- <-]; simpl;
    split_and!; try done.
  intros delta [= ->]. by apply Hd.
Qed.

Lemma processPayment_credit id lim payment s s' r :
  world_credit id lim (pr_world s) →
  (∀ ds, view (pr_world s) !! id = Some ds → in_range ds) →
  processPayment env id payment s = (s', Ok r) →
  trackedChannels s' = trackedChannels s ∧ world_credit id lim (pr_world s').
Proof.
  intros Hw Hr. pose proof Hw as (ds & k & Hv & Hd & Hl). unfold processPayment.
  intros (s1 & o & Hget & H)%go_bind_ok.
  destruct (on_world_get _ _ _ _ _ Hv Hget) as [-> [->|[e ->]]];
    [|unfold go_ret in H; by injection H as <- <-].
  apply go_bind_ok in H as (s1 & rec & Hin & H).
  destruct (on_world_inbound _ _ _ _ _ _ _ Hw Hin) as (Ht & Hv1 & Hdelta).
  rewrite <- Ht. rewrite <- Hv1 in Hv.
  assert (world_credit id lim (pr_world s1)) as Hw1 by (exists ds, k; done).
  destruct rec as [err|received].
  - apply go_bind_ok in H as (s2 & res & Hs & H).
    apply (no_funds_credit _ _ lim) in Hs as [Ht2 Hw2]; try done.
    unfold go_ret in H. by injection H as <- <-.
  - specialize (Hdelta _ eq_refl). rewrite Hv1 in Hv. specialize (Hr _ Hv). rewrite <- Hv1 in Hv.
    apply go_bind_ok in H as (s2 & owed & [= <- Ho] & H).
    destruct (Z.ltb_spec 0 owed) as [Hpos'|Hneg];
      apply go_bind_ok in H as (s3 & res & Hs & H).
    + destruct (partial_step k received (pay_PaymentChannel payment) ds Hdelta Hd)
        as (ds' & Ha & Hd' & Hi).
      apply (send_credit _ _ lim _ _ _ ds k) in Hs as [Ht2 Hw2]; try done;
        [|exists ds', k; rewrite Hi; split_and!; done || lia].
      unfold go_ret in H. by injection H as <- <-.
    + assert (required (S k) <= ps_FundsReceived ds + received)
        by (eapply paymentOwed_required; eauto; lia).
      destruct (payment_step k received (pay_PaymentChannel payment) ds Hd)
        as (ds' & k' & Ha & Hd' & Hi); [done..|].
      apply (send_credit _ _ lim _ _ _ ds k) in Hs as [Ht2 Hw2]; try done; [|by exists ds', k'].
      destruct (bool_decide _); unfold go_ret in H; by injection H as <- <-.
Qed.

Lemma revalidate_credit id v s s' r :
  credit id s → (∀ ds, view (pr_world s) !! id = Some ds → in_range ds) →
  Revalidate env chid v s = (s', Ok r) → credit id s'.
Proof.
  intros Hcr Hr. unfold Revalidate, get_channel. intros (s1 & o & [= <- <-] & H)%go_bind_ok.
  pose proof Hcr as (cd & Hcd & Hid & Hp & Hw)%credit_split. rewrite Hcd in H.
  destruct v as [|payment|]; try (unfold go_ret in H; by injection H as <- <-).
  rewrite Hid in H. apply go_bind_ok in H as (s1 & o & Hpp & H).
  destruct (processPayment_credit _ _ _ _ _ _ Hw Hr Hpp) as [Ht Hw1].
  assert (credit id s1) as Hcr1 by (apply credit_split; exists cd; by rewrite Ht).
  apply go_bind_ok in H as (s2 & [] & Hif & H). unfold go_ret in H. injection H as <- <-.
  destruct (bool_decide _); [|by injection Hif as <-].
  apply go_bind_ok in Hif as (s3 & o' & [= <- <-] & Hif). rewrite Ht, Hcd in Hif.
  unfold put_channel in Hif. injection Hif as <-. rewrite <- Ht in Hcd.
  by apply (credit_put _ _ cd).
Qed.

Lemma run_credit id s0 s : credit id s0 → pr_run id s0 s → credit id s.
Proof.
  intros H0. induction 1 as [|s s' _ IH Hr Hstep]; [done|].
  destruct Hstep as [n s s' r Hs|s s' r Hs|v s s' r Hs|ev s s' r Hev Hs].
  - by apply (sent_credit _ _ _ _ _ IH Hs).
  - by apply (complete_credit _ _ _ _ IH Hs).
  - by apply (revalidate_credit _ _ _ _ _ IH Hr Hs).
  - by apply (credit_send _ _ _ _ _ Hev IH Hs).
Qed.

End credit.

(** Tracking a deal starts its meter from the state of the deal. *)
Lemma TrackChannel_run {W} (d : ProviderState) (s : PR W) :
  TrackChannel d s
  = (MkPR (<[ps_ChannelID d := write_channel d (MkChannelData (Identifier d) 0 0 0 0 false)]>
            (trackedChannels s)) (pr_world s), Ok tt).
Proof.
  unfold TrackChannel, writeDealState, get_channel, put_channel, go_bind. simpl.
  rewrite lookup_insert_eq. simpl. by rewrite insert_insert_eq.
Qed.

(** ** A concrete environment

    The group of state machines as a map, driven by the documented runtime, and
    a payment manager that credits five tokens per voucher. *)

Abbreviation map_group := (gmap ProviderDealIdentifier ProviderState).

Definition map_send (id : ProviderDealIdentifier) (ev : Event) : go map_group error unit := λ w,
  match w !! id with
  | None => (w, Err ErrNotFound)
  | Some ds =>
    match @group_apply documented_runtime ev ds with
    | Ok ds' => (<[id := ds']> w, Ok tt)
    | Err e => (w, Err e)
    | Panic => (w, Panic)
    | Hang => (w, Hang)
    end
  end.

Definition map_manager : Manager map_group :=
  MkManager (λ _ _ _, go_err ErrNotFound) (λ _, go_err ErrNotFound) (λ _, go_err ErrNotFound)
    (λ _ _ _, go_err ErrNotFound) (λ _, go_err ErrNotFound)
    (λ ch sv proof minDelta, match sv with Some sv => go_ret (Z.max minDelta (sv_Amount sv)) | None => go_panic end).

Definition map_env : RevalidatorEnvironment map_group :=
  MkRevalidatorEnvironment map_manager
    (λ id ds w, match w !! id with
                | Some _ => (w, Err (ErrMsg "already exists"))
                | None => (<[id := ds]> w, Ok tt)
                end)
    map_send
    (λ id w, match w !! id with Some ds => (w, Ok ds) | None => (w, Err ErrNotFound) end).

#[export] Instance map_env_laws : @RevalidatorLaws documented_runtime _ map_env (λ w, w).
Proof.
  split; simpl.
  - intros id w. destruct (w !! id) eqn:E; simpl; split; try done; intros ds [= <-]; done.
  - unfold map_send. intros id ev w w' ds ds' H Hv Ha. rewrite Hv, Ha in H. by simplify_eq.
  - unfold map_send. intros id ev w w' e H. repeat case_match; by simplify_eq.
  - unfold go_ret, go_panic. intros ch [sv|] w w' r [= <- <-]; (split; [done|]); intros delta [=]. lia.
Qed.

(** The parameter check, as bounds on the terms. *)
Definition within_ask (a : Ask) (p : Params) : Prop :=
  o_MinPricePerByte (ask_Offer a) <= PricePerByte p ∧
  PaymentInterval p <= o_MaxPaymentInterval (ask_Offer a) ∧
  PaymentIntervalIncrease p <= o_MaxPaymentIntervalIncrease (ask_Offer a).

Lemma CheckDealParams_ok (asks : AskStore) (ds : ProviderState) :
  CheckDealParams asks ds = Ok tt ↔
  let a := GetAsk (PayloadCID (ps_Proposal ds)) asks in ask_Priced a = true ∧ within_ask a (ps_Params ds).
Proof.
  unfold CheckDealParams, within_ask. generalize (GetAsk (PayloadCID (ps_Proposal ds)) asks). intros [ask []]; simpl; [|naive_solver].
  destruct (Z.ltb_spec (PricePerByte (ps_Params ds)) (o_MinPricePerByte ask)); [naive_solver lia|].
  destruct (Z.ltb_spec (o_MaxPaymentInterval ask) (PaymentInterval (ps_Params ds)));
    [naive_solver lia|].
  destruct (Z.ltb_spec (o_MaxPaymentIntervalIncrease ask) (PaymentIntervalIncrease (ps_Params ds)));
    naive_solver lia.
Qed.

(** ** Properties *)

(** C1: the provider's credit is bounded.  Along any run of the provider for a
    tracked deal (data sent, payments received, events of the data transfer),
    when the meter lets more data through without asking for a payment, the
    bytes sent are below the upper boundary of the current interval and the
    funds received cover the unsealing price and every byte up to the boundary
    two intervals below it. *)
Theorem provider_bounded_credit {R : FsmRuntime} {W} (env : RevalidatorEnvironment W)
    (view : W → gmap ProviderDealIdentifier ProviderState) {L : RevalidatorLaws env view}
    (d : ProviderState) (s0 s1 s s' : PR W) (n : Z) :
  let chid := ps_ChannelID d in
  let p := ps_Params d in
  params_ok p → 0 < PaymentInterval p → PricePerByte p ≠ 0 →
  ps_FundsReceived d = 0 → ps_CurrentInterval d = PaymentInterval p →
  TrackChannel d s0 = (s1, Ok tt) → view (pr_world s1) !! Identifier d = Some d →
  pr_run env view chid (ps_Proposal d) (Identifier d) s1 s →
  OnPullDataSent env chid n s = (s', Ok (true, (None, None))) →
  ∃ cd ds k, trackedChannels s' !! chid = Some cd ∧ view (pr_world s') !! Identifier d = Some ds ∧
    cd_totalSent cd < boundary p (S k) ∧ required (ps_Proposal d) k <= ps_FundsReceived ds.
Proof.
  intros chid p Hok Hpos Hnz Hf Hi Htr Hv Hrun Hsent. rewrite TrackChannel_run in Htr.
  injection Htr as <-.
  assert (credit view chid (ps_Proposal d) (Identifier d)
            (MkPR (<[ps_ChannelID d :=
                     write_channel d (MkChannelData (Identifier d) 0 0 0 0 false)]>
                    (trackedChannels s0)) (pr_world s0))) as Hcr.
  { eexists _, d, O. simpl. rewrite lookup_insert_eq. unfold deal_credit. subst p chid.
    unfold ps_Params in *. simpl. split_and!; try done; lia. }
  apply (run_credit env view _ _ Hok Hpos) in Hrun; [|done].
  destruct (sent_credit env view _ _ _ _ _ _ _ Hrun Hsent)
    as [(cd & ds & k & Hcd & _ & Hv' & (_ & _ & Hcur & Hreq) & _ & Hint) Hlt].
  destruct (Hlt eq_refl Hnz) as (cd' & Hcd' & Hlt'). simplify_eq.
  exists cd, ds, k. split_and!; try done. unfold p, ps_Params. lia.
Qed.

(** The provider after sending [n] bytes of a deal on the default terms. *)
Definition sample_pr (n : Z) : PR map_group :=
  let d := sample_deal StatusOngoing default_params in
  MkPR {[ps_ChannelID d := MkChannelData (Identifier d) n 0 1048576 2 false]}
    {[Identifier d := set_ps_TotalSent n d]}.

Lemma provider_bounded_credit_witness :
  let d := sample_deal StatusOngoing default_params in
  ∃ cd ds k, trackedChannels (sample_pr 1000) !! ps_ChannelID d = Some cd ∧
    pr_world (sample_pr 1000) !! Identifier d = Some ds ∧
    cd_totalSent cd < boundary default_params (S k) ∧
    required (ps_Proposal d) k <= ps_FundsReceived ds.
Proof.
  intros d.
  apply (@provider_bounded_credit documented_runtime map_group map_env (λ w, w) map_env_laws d
    (MkPR ∅ {[Identifier d := d]}) (sample_pr 0) (sample_pr 0) (sample_pr 1000) 1000);
    first [apply pr_run_init | reflexivity | vm_compute; intuition congruence].
Defined.

(** A payment resumes the deal exactly when it covers the unsealing price
    and the price of every byte up to the lower boundary of the current
    interval. *)
Theorem paymentOwed_spec (d : ProviderState) (totalPaid low owed : Z) :
  let p := ps_Params d in
  IntervalLowerBound p (ps_CurrentInterval d) = Ok low → 0 <= low < two63 →
  0 <= PricePerByte p → paymentOwed d totalPaid = Ok owed →
  (owed <= 0 ↔ UnsealPrice p + low * PricePerByte p <= totalPaid) ∧
  (0 < owed → owed <= Z.max (UnsealPrice p - totalPaid)
                            (UnsealPrice p + low * PricePerByte p - totalPaid)).
Proof.
  intros p Hlow Hr Hp. unfold paymentOwed, Provider_IntervalLowerBound. fold p. rewrite Hlow.
  assert (0 <= low * PricePerByte p) by nia. cbn [outcome_bind]. rewrite i64_small by lia.
  destruct (Z.ltb_spec totalPaid (UnsealPrice p)); intros [= <-]; lia.
Qed.

Lemma paymentOwed_spec_witness :
  let d := set_ps_CurrentInterval 3145728 (sample_deal StatusFundsNeeded default_params) in
  paymentOwed d 2097152 = Ok 0 ∧
  ((0 <= 0 ↔ 0 + 1048576 * 2 <= 2097152) ∧
   (0 < 0 → 0 <= Z.max (0 - 2097152) (0 + 1048576 * 2 - 2097152))).
Proof.
  intros d. split; [reflexivity|].
  apply (paymentOwed_spec d 2097152 1048576 0); vm_compute; intuition congruence.
Defined.

(** C13: the request validator accepts a pull request only for the content and
    selector of the proposal and on terms within the provider's ask; the deal is
    then tracked with a fresh meter. *)
Theorem ValidatePull_accepts {W Node} (env : RevalidatorEnvironment W)
    (encode : Node → error + bytes) (allBytes : bytes) (asks : AskStore) (chid : ChannelID)
    (receiver : peer_id) (v : Voucher) (baseCid : cid) (sel : Node) (s s' : PR W) (r : Response) :
  ValidatePull env encode allBytes asks false chid receiver v baseCid sel s
    = (s', Ok (Some r, None)) →
  ∃ prop, v = VProposal prop ∧ PayloadCID prop = baseCid ∧
    encode sel = inr (if SelectorSpecified (p_Params prop)
                      then default allBytes (Selector (p_Params prop)) else allBytes) ∧
    r = MkResponse StatusAccepted (ID prop) 0 EmptyString ∧
    ask_Priced (GetAsk baseCid asks) = true ∧
    (let ask := ask_Offer (GetAsk baseCid asks) in
     o_MinPricePerByte ask <= PricePerByte (p_Params prop) ∧
     PaymentInterval (p_Params prop) <= o_MaxPaymentInterval ask ∧
     PaymentIntervalIncrease (p_Params prop) <= o_MaxPaymentIntervalIncrease ask) ∧
    ∃ paidFor, trackedChannels s' !! chid
      = Some (MkChannelData (MkDealIdentifier receiver (ID prop)) 0 paidFor
                (PaymentInterval (p_Params prop)) (PricePerByte (p_Params prop)) false).
Proof.
  unfold ValidatePull. destruct v as [prop| |]; [|done..].
  destruct (String.eqb_spec (PayloadCID prop) baseCid) as [Hcid|]; [|done]. simpl negb.
  destruct (encode sel) as [e|buf] eqn:Henc; [done|].
  destruct (negb (String.eqb buf _)) eqn:Hsel; [done|]. to_prop. apply String.eqb_eq in Hsel.
  cbn iota. unfold acceptDeal, go_bind at 1, go_lift. destruct (CheckDealParams asks _) as [[]|e| |] eqn:Hck; [|done..].
  cbn -[CheckDealParams BeginTracking]. intros ([w1 t1] & res & Hb & H)%go_bind_ok.
  destruct res as [e|[]]; [done|]. unfold go_ret in H. injection H as <- <-.
  exists prop. do 2 (split; [done|]). split.
  { f_equal. rewrite Hsel. unfold SelectorSpecified. by destruct (Selector (p_Params prop)). }
  apply CheckDealParams_ok in Hck as [Hpr Hck]. simpl in Hpr, Hck. rewrite Hcid in Hpr, Hck.
  split; [done|]. split; [done|]. split; [exact Hck|].
  unfold go_try in Hb. destruct (BeginTracking env _ s) as [s2 [[]| | |]] eqn:Hbt; simplify_eq.
    unfold BeginTracking in Hbt. apply go_bind_ok in Hbt as (s3 & [] & Hbeg & Hbt).
    apply go_bind_ok in Hbt as (s4 & [] & Htr & Hs). rewrite TrackChannel_run in Htr.
    injection Htr as <-. unfold on_world in Hs. simpl in Hs.
    destruct (env_SendEvent _ _ _ _) as [w2 o]. injection Hs as <- <- _. simpl.
    rewrite lookup_insert_eq. eexists. by unfold write_channel.
Qed.

Lemma ValidatePull_accepts_witness :
  ∃ prop, VProposal (MkProposal "root" 1 default_params) = VProposal prop ∧
    PayloadCID prop = "root" ∧
    inr "all" = (inr (if SelectorSpecified (p_Params prop)
                      then default "all" (Selector (p_Params prop)) else "all") : error + bytes) ∧
    MkResponse StatusAccepted 1 0 EmptyString = MkResponse StatusAccepted (ID prop) 0 EmptyString ∧
    ask_Priced (GetAsk "root" ∅) = true ∧
    (let ask := ask_Offer (GetAsk "root" ∅) in
     o_MinPricePerByte ask <= PricePerByte (p_Params prop) ∧
     PaymentInterval (p_Params prop) <= o_MaxPaymentInterval ask ∧
     PaymentIntervalIncrease (p_Params prop) <= o_MaxPaymentIntervalIncrease ask) ∧
    ∃ paidFor, trackedChannels (ValidatePull map_env (λ b : bytes, inr b) "all" ∅ false
        (MkChannelID "c" "p" 7) "c" (VProposal (MkProposal "root" 1 default_params)) "root" "all"
        (MkPR ∅ ∅)).1 !! MkChannelID "c" "p" 7
      = Some (MkChannelData (MkDealIdentifier "c" (ID prop)) 0 paidFor
                (PaymentInterval (p_Params prop)) (PricePerByte (p_Params prop)) false).
Proof.
  apply (ValidatePull_accepts map_env (λ b : bytes, inr b) "all" ∅ (MkChannelID "c" "p" 7) "c"
    (VProposal (MkProposal "root" 1 default_params)) "root" "all" (MkPR ∅ ∅)).
  reflexivity.
Defined.

(** The parameter check lets a proposal with both interval parameters zero
    through whenever its price is high enough, and once such a deal needs funds,
    the event that records a payment never finishes. *)
Theorem zero_interval_hangs (asks : AskStore) (d : ProviderState) (f : Z) (ch : address)
    {R : FsmRuntime} :
  let ask := ask_Offer (GetAsk (PayloadCID (ps_Proposal d)) asks) in
  ask_Priced (GetAsk (PayloadCID (ps_Proposal d)) asks) = true → PaymentInterval (ps_Params d) = 0 → PaymentIntervalIncrease (ps_Params d) = 0 →
  o_MinPricePerByte ask <= PricePerByte (ps_Params d) →
  0 <= o_MaxPaymentInterval ask → 0 <= o_MaxPaymentIntervalIncrease ask →
  0 <= ps_CurrentInterval d → ps_Status d = StatusFundsNeeded →
  CheckDealParams asks d = Ok tt ∧ group_apply (EventPaymentReceived f ch) d = Hang.
Proof.
  intros ask Hpr H1 H2 Hp Hi Hinc Hc Hst. split.
  - apply CheckDealParams_ok. subst ask. split; [done|]. unfold within_ask. lia.
  - unfold group_apply. rewrite fsm_apply_eq. unfold apply_documented. simpl. rewrite Hst.
    simpl. unfold Provider_NextInterval, NextInterval.
    change (ps_Params (set_ps_FundsReceived _ d)) with (ps_Params d).
    change (ps_CurrentInterval (set_ps_FundsReceived _ d)) with (ps_CurrentInterval d).
    by rewrite NextInterval_zero_loop.
Qed.

Lemma zero_interval_hangs_witness :
  let d := sample_deal StatusFundsNeeded (MkParams None None 2 0 0 0) in
  CheckDealParams ∅ d = Ok tt ∧
  @group_apply documented_runtime (EventPaymentReceived 5 "ch") d = Hang.
Proof.
  intros d. apply (zero_interval_hangs ∅ d 5 "ch"); first [reflexivity | vm_compute; congruence].
Defined.
