(* ===== verification/Cbor.v ===== *)
(** * CBOR primitives (cbor-gen, go-ipld-cbor, go-address and others)

    The generated codecs of the repository are built from the primitives of
    cbor-gen and from the codecs of addresses, big integers, content identifiers
    and vouchers.  They are libraries: [CborLib] names them and [CborLaws] states
    that they read back what they write.  A writer appends to its buffer and a
    reader consumes its input: both are computations whose state is the byte
    string. *)
From S2P Require Import Prelude Deal PayTypes.

Definition MajUnsignedInt : Z := 0.
Definition MajNegativeInt : Z := 1.
Definition MajByteString : Z := 2.
Definition MajTextString : Z := 3.
Definition MajArray : Z := 4.
Definition MajMap : Z := 5.
Definition MajOther : Z := 7.

Definition cborNullByte : Ascii.ascii := Ascii.ascii_of_nat 246.

Class CborLib : Type := {
  MaxLength : Z;
  ByteArrayMaxLen : Z;
  MajorTypeHeader : Z → Z → bytes;
  BoolBytes : bool → bytes;
  CborReadHeader : go bytes error (Z * Z);
  ReadString : go bytes error string;
  CidBytes : cid → error + bytes;
  ReadCid : go bytes error cid;
  AddressBytes : option address → error + bytes;
  ReadAddress : go bytes error address;
  BigIntBytes : Z → error + bytes;
  ReadBigInt : go bytes error Z;
  SignedVoucherBytes : option SignedVoucher → error + bytes;
  ReadSignedVoucher : go bytes error SignedVoucher;
  (* raw items: [cbg.Deferred], and skipping one with [cbg.ScanForLinks], whose
     error the generated code ignores *)
  CborItem : bytes → Prop;
  ReadDeferred : go bytes error bytes;
  ScanForLinks : bytes → bytes;
  ChannelIDBytes : ChannelID → error + bytes;
  ReadChannelID : go bytes error ChannelID
}.

(** ** Input and output *)

Definition Write (b : bytes) : go bytes error unit := λ w, (w +:+ b, Ok tt).

(** [cborutil.Dump] of a record: its writer on an empty buffer. *)
Definition Dump (w : go bytes error unit) : outcome error bytes :=
  match w EmptyString with
  | (b, Ok _) => Ok b
  | (_, Err e) => Err e
  | (_, Panic) => Panic
  | (_, Hang) => Hang
  end.

(** Writing what a library encoder answers. *)
Definition WriteEnc (r : error + bytes) : go bytes error unit :=
  match r with
  | inl e => go_err e
  | inr b => Write b
  end.

Definition EOF : error := ErrMsg "EOF".
Definition ErrUnexpectedEOF : error := ErrMsg "unexpected EOF".

(** [ReadByte], and [UnreadByte] when the byte is not null: whether the input
    starts with null, consuming it if so. *)
Definition ReadNull : go bytes error bool := λ r,
  match r with
  | EmptyString => (r, Err EOF)
  | String b r' => if Ascii.eqb b cborNullByte then (r', Ok true) else (r, Ok false)
  end.

(** [io.ReadFull] into a buffer of [n] bytes: the error tells an empty input from
    one that is too short. *)
Definition ReadFull (n : Z) : go bytes error bytes := λ r,
  if Z.of_nat (String.length r) <? n
  then (EmptyString, Err (if String.eqb r EmptyString then EOF else ErrUnexpectedEOF))
  else (String.substring (Z.to_nat n) (String.length r - Z.to_nat n) r,
        Ok (String.substring 0 (Z.to_nat n) r)).

Definition len (s : string) : Z := Z.of_nat (String.length s).

Section codec.
Context {CB : CborLib}.

(** A text field. *)
Definition WriteText (toolong : string) (s : string) : go bytes error unit :=
  if MaxLength <? len s then go_err (ErrMsg toolong)
  else
    do* Write (MajorTypeHeader MajTextString (len s)) then
    Write s.

Definition ReadUint64 : go bytes error Z :=
  let* h := CborReadHeader in
  if negb (h.1 =? MajUnsignedInt) then go_err (ErrMsg "wrong type for uint64 field")
  else go_ret h.2.

Definition ReadBool : go bytes error bool :=
  let* h := CborReadHeader in
  if negb (h.1 =? MajOther) then go_err (ErrMsg "booleans must be major type 7")
  else if h.2 =? 20 then go_ret false
  else if h.2 =? 21 then go_ret true
  else go_err (ErrMsg ("booleans are either major type 7, value 20 or 21 (got " +:+ pretty h.2 +:+ ")")).

(** The array header that opens a record. *)
Definition ReadFields (n : Z) : go bytes error unit :=
  let* h := CborReadHeader in
  if negb (h.1 =? MajArray) then go_err (ErrMsg "cbor input should be of type array")
  else if negb (h.2 =? n) then go_err (ErrMsg "cbor input had wrong number of fields")
  else go_ret tt.

(** A nullable field. *)
Definition ReadNullable {A} (wrap : string) (rd : go bytes error A) : go bytes error (option A) :=
  let* null := ReadNull in
  if null then go_ret None
  else
    let* r := go_try rd in
    match r with
    | inl e => go_err (ErrWrap wrap e)
    | inr a => go_ret (Some a)
    end.

Definition ReadWrapped {A} (wrap : string) (rd : go bytes error A) : go bytes error A :=
  let* r := go_try rd in
  match r with
  | inl e => go_err (ErrWrap wrap e)
  | inr a => go_ret a
  end.

Definition WriteCidOrNull (wrap : string) (c : option cid) : go bytes error unit :=
  match c with
  | None => Write CborNull
  | Some c =>
    match CidBytes c with
    | inl e => go_err (ErrWrap wrap e)
    | inr b => Write b
    end
  end.

Definition WriteCid (wrap : string) (c : cid) : go bytes error unit :=
  match CidBytes c with
  | inl e => go_err (ErrWrap wrap e)
  | inr b => Write b
  end.

(** A nullable field of a record that is decoded entry by entry: null leaves the
    field as it was. *)
Definition ReadNullableOr {A} (wrap : string) (rd : go bytes error A) (old : option A)
    : go bytes error (option A) :=
  let* o := ReadNullable wrap rd in
  go_ret (match o with Some _ => o | None => old end).

(** A nullable integer. *)
Definition WriteUint64OrNull (o : option Z) : go bytes error unit :=
  match o with
  | None => Write CborNull
  | Some n => Write (MajorTypeHeader MajUnsignedInt n)
  end.

Definition ReadUint64OrNull (old : option Z) : go bytes error (option Z) :=
  let* null := ReadNull in
  if null then go_ret old
  else
    let* n := ReadUint64 in
    go_ret (Some n).

(** [cbg.Deferred]: raw bytes, written as null when there are none. *)
Definition WriteDeferred (o : option bytes) : go bytes error unit :=
  match o with
  | None => Write CborNull
  | Some raw => Write raw
  end.

Definition ReadDeferredField : go bytes error (option bytes) :=
  let* raw := ReadWrapped "failed to read deferred field" ReadDeferred in
  go_ret (Some raw).

(** A byte slice; [io.ReadFull] fills the slice there is when the length is zero. *)
Definition ReadByteSlice (field : string) (old : bytes) : go bytes error bytes :=
  let* h := CborReadHeader in
  if ByteArrayMaxLen <? h.2
  then go_err (ErrMsg (field +:+ ": byte array too large (" +:+ pretty h.2 +:+ ")"))
  else if negb (h.1 =? MajByteString) then go_err (ErrMsg "expected byte array")
  else ReadFull (if 0 <? h.2 then h.2 else len old).

(** *** Signed integers *)

Definition WriteInt64 (z : Z) : go bytes error unit :=
  if 0 <=? z then Write (MajorTypeHeader MajUnsignedInt z)
  else Write (MajorTypeHeader MajNegativeInt (- z - 1)).

Definition ReadInt64 : go bytes error Z :=
  let* h := CborReadHeader in
  let extraI := i64 h.2 in
  if h.1 =? MajUnsignedInt
  then if extraI <? 0 then go_err (ErrMsg "int64 positive overflow") else go_ret extraI
  else if h.1 =? MajNegativeInt
  then if extraI <? 0 then go_err (ErrMsg "int64 negative oveflow") else go_ret (-1 - extraI)
  else go_err (ErrMsg ("wrong type for int64 field: " +:+ pretty h.1)).

(** *** Byte strings *)

Definition WriteByteString (toolong : string) (b : bytes) : go bytes error unit :=
  if ByteArrayMaxLen <? len b then go_err (ErrMsg toolong)
  else
    do* Write (MajorTypeHeader MajByteString (len b)) then
    Write b.

Definition ReadByteString (field : string) : go bytes error bytes :=
  let* h := CborReadHeader in
  if ByteArrayMaxLen <? h.2
  then go_err (ErrMsg (field +:+ ": byte array too large (" +:+ pretty h.2 +:+ ")"))
  else if negb (h.1 =? MajByteString) then go_err (ErrMsg "expected byte array")
  else ReadFull h.2.

(** *** Records encoded as maps

    The fields are written with their names in order; a reader starts from the
    zero record and dispatches on each name it reads, so it accepts any order,
    missing fields and unknown ones. *)

Definition dquote : string := String (Ascii.ascii_of_nat 34) EmptyString.

Definition WriteKey (name : string) : go bytes error unit :=
  WriteText ("Value in field " +:+ dquote +:+ name +:+ dquote +:+ " was too long") name.

Fixpoint ReadEntries {A} (field : string → A → option (go bytes error A)) (n : nat) (a : A)
    : go bytes error A :=
  match n with
  | O => go_ret a
  | S n' =>
    let* name := ReadString in
    let* a := match field name a with
              | Some rd => rd
              | None => λ r, (ScanForLinks r, Ok a)
              end in
    ReadEntries field n' a
  end.

(** What every field reader keeps, the reader of the entries keeps. *)
Lemma ReadEntries_keeps {A} (P : A → Prop) (field : string → A → option (go bytes error A)) n :
  (∀ name a rd s s' b, P a → field name a = Some rd → rd s = (s', Ok b) → P b) →
  ∀ a s s' b, P a → ReadEntries field n a s = (s', Ok b) → P b.
Proof.
  intros Hf. induction n as [|n IH]; intros a s s' b Ha; simpl.
  - by intros [_ ->]%go_ret_ok.
  - intros (s1 & name & _ & (s2 & a2 & H & Hr)%go_bind_ok)%go_bind_ok.
    eapply IH; [|exact Hr]. destruct (field name a) as [rd|] eqn:Efd; [by eapply Hf|].
    by injection H as _ <-.
Qed.

Definition ReadMap {A} (type : string) (field : string → A → option (go bytes error A)) (zero : A)
    : go bytes error A :=
  let* h := CborReadHeader in
  if negb (h.1 =? MajMap) then go_err (ErrMsg "cbor input should be of type map")
  else if MaxLength <? h.2
  then go_err (ErrMsg (type +:+ ": map struct too large (" +:+ pretty h.2 +:+ ")"))
  else ReadEntries field (Z.to_nat h.2) zero.

(** ** Laws of the libraries *)

(** The encoding of a value starts with a byte that is not null. *)
Definition not_null (b : bytes) : Prop :=
  ∃ x b', b = String x b' ∧ x ≠ cborNullByte.

Class CborLaws : Prop := {
  lengths : MaxLength = 8192 ∧ ByteArrayMaxLen = 2097152;
  header_rt : ∀ maj n rest, 0 <= maj < 8 → is_u64 n →
    CborReadHeader (MajorTypeHeader maj n +:+ rest) = (rest, Ok (maj, n));
  bool_rt : ∀ b rest,
    CborReadHeader (BoolBytes b +:+ rest) = (rest, Ok (MajOther, if b then 21 else 20));
  string_rt : ∀ s rest, len s <= MaxLength →
    ReadString (MajorTypeHeader MajTextString (len s) +:+ s +:+ rest) = (rest, Ok s);
  header_not_null : ∀ maj n, 0 <= maj < 7 → not_null (MajorTypeHeader maj n);
  cid_rt : ∀ c b, CidBytes c = inr b →
    not_null b ∧ ∀ rest, ReadCid (b +:+ rest) = (rest, Ok c);
  address_rt : ∀ a b, AddressBytes (Some a) = inr b →
    not_null b ∧ ∀ rest, ReadAddress (b +:+ rest) = (rest, Ok a);
  bigint_rt : ∀ z b, BigIntBytes z = inr b → ∀ rest, ReadBigInt (b +:+ rest) = (rest, Ok z);
  voucher_rt : ∀ v b, SignedVoucherBytes (Some v) = inr b →
    not_null b ∧ ∀ rest, ReadSignedVoucher (b +:+ rest) = (rest, Ok v);
  nil_voucher : SignedVoucherBytes None = inr CborNull;
  nil_address : AddressBytes None = inr CborNull;
  null_item : CborItem CborNull;
  deferred_rt : ∀ raw rest, CborItem raw → ReadDeferred (raw +:+ rest) = (rest, Ok raw);
  channel_id_rt : ∀ c b, ChannelIDBytes c = inr b → ∀ rest, ReadChannelID (b +:+ rest) = (rest, Ok c);
  (* whatever the input: the argument of a header is a uint64, and a raw item is
     one item *)
  header_range : ∀ s s' maj n, CborReadHeader s = (s', Ok (maj, n)) → is_u64 n;
  deferred_item : ∀ s s' raw, ReadDeferred s = (s', Ok raw) → CborItem raw
}.

(** ** What a reader yields

    [yields P r]: every value [r] reads satisfies [P], whatever the input. *)

Definition yields {A} (P : A → Prop) (r : go bytes error A) : Prop :=
  ∀ s s' a, r s = (s', Ok a) → P a.

Lemma yields_ret {A} (P : A → Prop) a : P a → yields P (go_ret a).
Proof. by intros HP s s' b [_ ->]%go_ret_ok. Qed.

Lemma yields_err {A} (P : A → Prop) e : yields P (go_err e).
Proof. by intros s s' a. Qed.

Lemma yields_bind {A B} (P : A → Prop) (Q : B → Prop) r (k : A → go bytes error B) :
  yields P r → (∀ a, P a → yields Q (k a)) → yields Q (let* x := r in k x).
Proof. intros Hr Hk s s' b (s1 & a & Ha & Hb)%go_bind_ok. by eapply Hk; [eapply Hr|]. Qed.

Lemma yields_any {A} (r : go bytes error A) : yields (λ _, True) r.
Proof. by intros s s' a. Qed.

Lemma yields_if {A} (P : A → Prop) (c : bool) r1 r2 :
  yields P r1 → yields P r2 → yields P (if c then r1 else r2).
Proof. by destruct c. Qed.

Lemma yields_try {A} (P : A → Prop) r :
  yields P r → yields (λ x, match x with inr a => P a | inl _ => True end) (go_try (E:=error) r).
Proof.
  intros Hr s s' x H. apply go_try_ok in H. destruct x as [e|a]; [done|]. by eapply Hr.
Qed.

Lemma yields_wrapped {A} (P : A → Prop) wrap r : yields P r → yields P (ReadWrapped wrap r).
Proof.
  intros Hr. eapply yields_bind; [by apply yields_try|]. intros [e|a] Ha;
    [apply yields_err|by apply yields_ret].
Qed.

Definition when {A} (P : A → Prop) (o : option A) : Prop :=
  match o with Some a => P a | None => True end.

Lemma yields_nullable {A} (P : A → Prop) wrap r : yields P r → yields (when P) (ReadNullable wrap r).
Proof.
  intros Hr. eapply yields_bind; [apply yields_any|]. intros null _.
  apply yields_if; [by apply yields_ret|]. eapply yields_bind; [by apply yields_try|].
  intros [e|a] Ha; [apply yields_err|by apply yields_ret].
Qed.

Lemma yields_nullable_or {A} (P : A → Prop) wrap r old :
  yields P r → when P old → yields (when P) (ReadNullableOr wrap r old).
Proof.
  intros Hr Ho. eapply yields_bind; [by apply yields_nullable|]. intros [a|] Ha; by apply yields_ret.
Qed.

Lemma yields_map {A} (P : A → Prop) type (field : string → A → option (go bytes error A)) zero :
  P zero → (∀ name a rd, P a → field name a = Some rd → yields P rd) →
  yields P (ReadMap type field zero).
Proof.
  intros Hz Hf. eapply yields_bind; [apply yields_any|]. intros h _.
  do 2 (apply yields_if; [apply yields_err|]). intros s s' b Hr.
  eapply (ReadEntries_keeps P); [|exact Hz|exact Hr].
  intros name a rd s1 s2 c Ha Hrd Hc. by eapply Hf.
Qed.

Lemma yields_uint64 {LAWS : CborLaws} : yields is_u64 ReadUint64.
Proof.
  eapply (yields_bind (λ h, is_u64 h.2)).
  - intros s s' [maj n] H. by eapply header_range.
  - intros h Hh. apply yields_if; [apply yields_err|by apply yields_ret].
Qed.

Lemma yields_uint64_or_null {LAWS : CborLaws} old :
  when is_u64 old → yields (when is_u64) (ReadUint64OrNull old).
Proof.
  intros Ho. eapply yields_bind; [apply yields_any|]. intros null _.
  apply yields_if; [by apply yields_ret|]. eapply yields_bind; [apply yields_uint64|].
  intros n Hn. by apply yields_ret.
Qed.

Lemma yields_deferred_field {LAWS : CborLaws} : yields (when CborItem) ReadDeferredField.
Proof.
  eapply yields_bind.
  - apply (yields_wrapped CborItem). intros s s' raw. apply deferred_item.
  - intros raw Hr. by apply yields_ret.
Qed.

Lemma lengths_u64 {LAWS : CborLaws} : is_u64 MaxLength ∧ is_u64 ByteArrayMaxLen.
Proof. destruct lengths as [-> ->]. unfold is_u64, two64. lia. Qed.

(** ** Round trips

    [codec w r a]: whatever [w] writes, [r] reads back as [a], leaving what
    follows. *)

Definition codec {A} (w : go bytes error unit) (r : go bytes error A) (a : A) : Prop :=
  ∀ s s', w s = (s', Ok tt) →
  ∃ b, s' = s +:+ b ∧ ∀ rest, r (b +:+ rest) = (rest, Ok a).

Lemma codec_bind {A B} w1 w2 (r1 : go bytes error A) (k : A → go bytes error B) a c :
  codec w1 r1 a → codec w2 (k a) c → codec (do* w1 then w2) (let* x := r1 in k x) c.
Proof.
  intros H1 H2 s s' H. unfold go_bind in H.
  destruct (w1 s) as [s1 [[]| | |]] eqn:E1; try done.
  destruct (H1 _ _ E1) as (b1 & -> & Hr1). destruct (H2 _ _ H) as (b2 & -> & Hr2).
  exists (b1 +:+ b2). split; [by rewrite string_app_assoc|].
  intros rest. unfold go_bind. rewrite <- string_app_assoc, Hr1. apply Hr2.
Qed.

(** Reading a value that needs no byte. *)
Lemma codec_ret {A} (a : A) : codec (go_ret tt) (go_ret a) a.
Proof. intros s s' [= <-]. exists EmptyString. split; [by rewrite string_app_empty_r|done]. Qed.

(** A writer with nothing after it, and a reader that ends by building the result. *)
Lemma codec_end {A B} w (r : go bytes error A) (f : A → B) a :
  codec w r a → codec w (let* x := r in go_ret (f x)) (f a).
Proof.
  intros H s s' Hw. destruct (H _ _ Hw) as (b & -> & Hr). exists b. split; [done|].
  intros rest. unfold go_bind, go_ret. by rewrite Hr.
Qed.

Lemma codec_write {A} b (r : go bytes error A) a :
  (∀ rest, r (b +:+ rest) = (rest, Ok a)) → codec (Write b) r a.
Proof. intros H s s' [= <-]. by exists b. Qed.

(** A writer that may refuse the value. *)
Lemma codec_guard {A} (c : bool) e w (r : go bytes error A) a :
  (c = false → codec w r a) → codec (if c then go_err e else w) r a.
Proof. destruct c; [|auto]. by intros _ s s'. Qed.

Context {LAWS : CborLaws}.

Lemma codec_fields n :
  is_u64 n → codec (Write (MajorTypeHeader MajArray n)) (ReadFields n) tt.
Proof.
  intros Hn. apply codec_write. intros rest. unfold ReadFields, go_bind.
  rewrite header_rt by (done || (unfold MajArray; lia)). simpl. by rewrite Z.eqb_refl.
Qed.

Lemma codec_uint64 n :
  is_u64 n → codec (Write (MajorTypeHeader MajUnsignedInt n)) ReadUint64 n.
Proof.
  intros Hn. apply codec_write. intros rest. unfold ReadUint64, go_bind.
  by rewrite header_rt by (done || (unfold MajUnsignedInt; lia)).
Qed.

Lemma codec_bool b : codec (Write (BoolBytes b)) ReadBool b.
Proof.
  apply codec_write. intros rest. unfold ReadBool, go_bind. rewrite bool_rt. by destruct b.
Qed.

Lemma codec_text e s : codec (WriteText e s) ReadString s.
Proof.
  unfold WriteText. apply codec_guard. intros Hl. to_prop.
  intros s0 s' [= <-]. exists (MajorTypeHeader MajTextString (len s) +:+ s).
  split; [by rewrite string_app_assoc|]. intros rest. rewrite <- string_app_assoc.
  by apply string_rt.
Qed.

(** Library encoders, plain and nullable. *)
Lemma codec_wrapped {A} wrap enc (r : go bytes error A) a :
  (∀ b, enc = inr b → ∀ rest, r (b +:+ rest) = (rest, Ok a)) →
  codec (WriteEnc enc) (ReadWrapped wrap r) a.
Proof.
  intros H. destruct enc as [e|b]; [by intros s s'|]. apply codec_write. intros rest.
  unfold ReadWrapped, go_bind, go_try. by rewrite (H b eq_refl).
Qed.

Lemma nullable_some {A} wrap b (r : go bytes error A) a :
  not_null b → (∀ rest, r (b +:+ rest) = (rest, Ok a)) →
  codec (Write b) (ReadNullable wrap r) (Some a).
Proof.
  intros (x & b' & -> & Hx) H. apply codec_write. intros rest.
  unfold ReadNullable, go_bind. simpl. destruct (Ascii.eqb_spec x cborNullByte); [done|].
  unfold go_try. pose proof (H rest) as Hr. simpl in Hr. by rewrite Hr.
Qed.

Lemma nullable_none {A} wrap (r : go bytes error A) :
  codec (Write CborNull) (ReadNullable wrap r) None.
Proof. by apply codec_write. Qed.

Lemma codec_cid_or_null e wrap c :
  codec (WriteCidOrNull e c) (ReadNullable wrap ReadCid) c.
Proof.
  destruct c as [c|]; [|apply nullable_none]. simpl.
  destruct (CidBytes c) as [err|b] eqn:E; [by intros s s'|].
  apply cid_rt in E as [Hn Hr]. by apply nullable_some.
Qed.

Lemma codec_voucher wrap v :
  codec (WriteEnc (SignedVoucherBytes v)) (ReadNullable wrap ReadSignedVoucher) v.
Proof.
  destruct v as [v|]; [|rewrite nil_voucher; apply nullable_none].
  destruct (SignedVoucherBytes (Some v)) as [err|b] eqn:E; [by intros s s'|].
  apply voucher_rt in E as [Hn Hr]. by apply nullable_some.
Qed.

Lemma substring_full s rest :
  String.substring 0 (String.length s) (s +:+ rest) = s ∧
  String.substring (String.length s) (String.length (s +:+ rest) - String.length s) (s +:+ rest) = rest.
Proof.
  induction s as [|c s [IH1 IH2]].
  - split; [by destruct rest|]. cbn [String.length]. rewrite Nat.sub_0_r.
    change (EmptyString +:+ rest) with rest.
    induction rest as [|x rest IH]; [done|]. exact (f_equal (String x) IH).
  - split; [exact (f_equal (String c) IH1)|exact IH2].
Qed.

Lemma ReadFull_rt s rest : ReadFull (len s) (s +:+ rest) = (rest, Ok s).
Proof.
  unfold ReadFull, len. rewrite Nat2Z.id.
  pose proof (string_length_app s rest) as Hl.
  destruct (Z.ltb_spec (Z.of_nat (String.length (s +:+ rest))) (Z.of_nat (String.length s)));
    [rewrite Hl in *; lia|].
  destruct (substring_full s rest) as [-> ->]. done.
Qed.

Lemma codec_int64 z : is_i64 z → codec (WriteInt64 z) ReadInt64 z.
Proof.
  intros [Hl Hu]. unfold WriteInt64. destruct (Z.leb_spec 0 z).
  - apply codec_write. intros rest. unfold ReadInt64, go_bind.
    rewrite header_rt; [|unfold MajUnsignedInt; lia|unfold is_u64, two63, two64 in *; lia].
    simpl. rewrite i64_small by lia. by destruct (Z.ltb_spec z 0); [lia|].
  - apply codec_write. intros rest. unfold ReadInt64, go_bind.
    rewrite header_rt; [|unfold MajNegativeInt; lia|unfold is_u64, two63, two64 in *; lia].
    cbn [fst snd]. rewrite i64_small by (unfold two63 in *; lia).
    destruct (Z.ltb_spec (- z - 1) 0); [lia|]. cbn.
    unfold go_ret. do 2 f_equal. lia.
Qed.

Lemma codec_byte_string e f b : codec (WriteByteString e b) (ReadByteString f) b.
Proof.
  unfold WriteByteString. apply codec_guard. intros Hl. to_prop.
  pose proof lengths_u64 as [_ [? ?]]. unfold ReadByteString.
  eapply (codec_bind _ _ _ _ (MajByteString, len b)).
  { apply codec_write. intros rest. apply header_rt; [unfold MajByteString; lia|].
    unfold is_u64, len in *; lia. }
  cbn [fst snd]. destruct (Z.ltb_spec ByteArrayMaxLen (len b)); [lia|]. cbn iota beta.
  apply codec_write. intros. apply ReadFull_rt.
Qed.

Lemma codec_cid wrap wrap' c : codec (WriteCid wrap c) (ReadWrapped wrap' ReadCid) c.
Proof.
  unfold WriteCid. destruct (CidBytes c) as [e|b] eqn:E; [by intros s s'|].
  apply (codec_wrapped _ (inr b)). intros b' [= <-]. by apply cid_rt.
Qed.

Lemma codec_bigint wrap z : codec (WriteEnc (BigIntBytes z)) (ReadWrapped wrap ReadBigInt) z.
Proof. apply codec_wrapped. intros b. apply bigint_rt. Qed.

Lemma codec_address wrap a :
  codec (WriteEnc (AddressBytes (Some a))) (ReadWrapped wrap ReadAddress) a.
Proof. apply codec_wrapped. intros b Hb. by apply address_rt. Qed.

Lemma codec_channel_id wrap c :
  codec (WriteEnc (ChannelIDBytes c)) (ReadWrapped wrap ReadChannelID) c.
Proof. apply codec_wrapped. intros b. apply channel_id_rt. Qed.

Lemma codec_nullable_or {A} w wrap (r : go bytes error A) o :
  codec w (ReadNullable wrap r) o → codec w (ReadNullableOr wrap r None) o.
Proof.
  intros H. pose proof (codec_end _ _ (λ o : option A, match o with Some _ => o | None => None end) _ H) as H'.
  by destruct o.
Qed.

Lemma codec_address_or_null wrap a :
  codec (WriteEnc (AddressBytes a)) (ReadNullableOr wrap ReadAddress None) a.
Proof.
  apply codec_nullable_or. destruct a as [a|]; [|rewrite nil_address; apply nullable_none].
  destruct (AddressBytes (Some a)) as [err|b] eqn:E; [by intros s s'|].
  apply address_rt in E as [Hn Hr]. by apply nullable_some.
Qed.

Lemma codec_uint64_or_null o :
  match o with Some n => is_u64 n | None => True end →
  codec (WriteUint64OrNull o) (ReadUint64OrNull None) o.
Proof.
  destruct o as [n|]; [|by intros _; apply codec_write]. intros Hn. simpl.
  intros s s' [= <-]. exists (MajorTypeHeader MajUnsignedInt n). split; [done|]. intros rest.
  destruct (header_not_null MajUnsignedInt n) as (x & b' & E & Hx); [unfold MajUnsignedInt; lia|].
  pose proof (header_rt MajUnsignedInt n rest ltac:(unfold MajUnsignedInt; lia) Hn) as Hh.
  rewrite E in *. unfold ReadUint64OrNull, go_bind. simpl.
  destruct (Ascii.eqb_spec x cborNullByte); [done|]. unfold ReadUint64, go_bind. simpl in Hh.
  by rewrite Hh.
Qed.

Lemma codec_deferred_field raw :
  CborItem raw → codec (Write raw) ReadDeferredField (Some raw).
Proof.
  intros H. apply (codec_end _ _ Some). apply codec_write. intros rest.
  unfold ReadWrapped, go_bind, go_try. by rewrite deferred_rt.
Qed.

Lemma codec_byte_slice e f b : codec (WriteByteString e b) (ReadByteSlice f EmptyString) b.
Proof.
  unfold WriteByteString. apply codec_guard. intros Hl. to_prop.
  pose proof lengths_u64 as [_ [? ?]]. unfold ReadByteSlice.
  eapply (codec_bind _ _ _ _ (MajByteString, len b)).
  { apply codec_write. intros rest. apply header_rt; [unfold MajByteString; lia|].
    unfold is_u64, len in *; lia. }
  cbn [fst snd]. destruct (Z.ltb_spec ByteArrayMaxLen (len b)); [lia|]. cbn iota beta.
  assert ((if 0 <? len b then len b else len EmptyString) = len b) as ->.
  { unfold len in *. simpl. destruct (Z.ltb_spec 0 (Z.of_nat (String.length b))); lia. }
  apply codec_write. intros. apply ReadFull_rt.
Qed.

Lemma codec_deferred raw : CborItem raw → codec (Write raw) ReadDeferred raw.
Proof. intros H. apply codec_write. intros rest. by apply deferred_rt. Qed.

Lemma codec_nested {A} wrap w (r : go bytes error A) a : codec w r a → codec w (ReadWrapped wrap r) a.
Proof.
  intros H s s' Hw. destruct (H _ _ Hw) as (b & -> & Hr). exists b. split; [done|].
  intros rest. unfold ReadWrapped, go_bind, go_try. by rewrite Hr.
Qed.

(** One entry of a record encoded as a map, and the last one. *)
Lemma codec_entry {A B} (field : string → A → option (go bytes error A)) name n (a : A)
    w rest (r : go bytes error B) (x : B) (f : B → A) (c : A) :
  field name a = Some (let* y := r in go_ret (f y)) → codec w r x →
  codec rest (ReadEntries field n (f x)) c →
  codec (do* WriteKey name then do* w then rest) (ReadEntries field (S n) a) c.
Proof.
  intros Hf Hw Hr. cbn [ReadEntries]. apply (codec_bind _ _ _ _ name); [apply codec_text|].
  cbn beta. rewrite Hf. eapply (codec_bind _ _ _ (λ a, ReadEntries field n a) (f x)); [|exact Hr].
  by apply codec_end.
Qed.

Lemma codec_last {A B} (field : string → A → option (go bytes error A)) name (a : A)
    w (r : go bytes error B) (x : B) (f : B → A) :
  field name a = Some (let* y := r in go_ret (f y)) → codec w r x →
  codec (do* WriteKey name then w) (ReadEntries field 1 a) (f x).
Proof.
  intros Hf Hw. cbn [ReadEntries]. apply (codec_bind _ _ _ _ name); [apply codec_text|].
  cbn beta. rewrite Hf. intros s s' H. destruct (Hw _ _ H) as (b & -> & Hb). exists b.
  split; [done|]. intros rest. unfold go_bind, go_ret. by rewrite Hb.
Qed.

Lemma codec_map {A} type (field : string → A → option (go bytes error A)) (zero c : A) n w :
  0 <= n <= 8192 → codec w (ReadEntries field (Z.to_nat n) zero) c →
  codec (do* Write (MajorTypeHeader MajMap n) then w) (ReadMap type field zero) c.
Proof.
  intros [Hn Hm] Hw. unfold ReadMap.
  eapply (codec_bind _ _ _ _ (MajMap, n)).
  { apply codec_write. intros rest. apply header_rt; [unfold MajMap; lia|].
    unfold is_u64, two64; lia. }
  cbn [fst snd]. destruct lengths as [-> _].
  destruct (Z.ltb_spec 8192 n); [lia|]. done.
Qed.

(** A nullable record encoded as a map. *)
Lemma codec_map_or_null {A} wrap type (field : string → A → option (go bytes error A)) (zero c : A) n w :
  0 <= n <= 8192 → codec w (ReadEntries field (Z.to_nat n) zero) c →
  codec (do* Write (MajorTypeHeader MajMap n) then w) (ReadNullableOr wrap (ReadMap type field zero) None) (Some c).
Proof.
  intros Hn Hw. apply codec_nullable_or. intros s s' Hrun.
  pose proof Hrun as Hrun'. unfold go_bind, Write in Hrun'.
  destruct (Hw _ _ Hrun') as (b & -> & _). exists (MajorTypeHeader MajMap n +:+ b).
  split; [by rewrite string_app_assoc|]. intros rest.
  destruct (codec_map type field zero c n w Hn Hw _ _ Hrun) as (b' & Eb & Hr).
  rewrite <- string_app_assoc in Eb. apply string_app_inv_l in Eb as <-.
  destruct (header_not_null MajMap n) as (x & b1 & E & Hx); [unfold MajMap; lia|].
  unfold ReadNullable, go_bind. specialize (Hr rest). rewrite E in *. simpl in *.
  destruct (Ascii.eqb_spec x cborNullByte); [done|]. unfold go_try. by rewrite Hr.
Qed.

(** A nullable record encoded as an array. *)
Lemma codec_array_or_null {A} wrap n w (r : go bytes error A) a :
  is_u64 n → codec w r a →
  codec (do* Write (MajorTypeHeader MajArray n) then w)
    (ReadNullable wrap (do* ReadFields n then r)) (Some a).
Proof.
  intros Hn Hw s s' Hrun.
  destruct (codec_bind _ _ _ (λ _, r) tt a (codec_fields n Hn) Hw _ _ Hrun) as (b & -> & Hr).
  exists b. split; [done|]. intros rest. unfold go_bind, Write in Hrun.
  destruct (Hw _ _ Hrun) as (b' & Eb & _). rewrite <- string_app_assoc in Eb.
  apply string_app_inv_l in Eb as ->.
  destruct (header_not_null MajArray n) as (x & h & E & Hx); [unfold MajArray; lia|].
  specialize (Hr rest). rewrite E in *. unfold ReadNullable, go_bind at 1. simpl in *.
  destruct (Ascii.eqb_spec x cborNullByte); [done|]. unfold go_bind, go_try in *. by rewrite Hr.
Qed.

End codec.

(** Unfolds one field of a writer and of a reader. *)
Ltac field tac := eapply codec_bind; [tac|]; cbn beta.


(** ** A library with these laws

    A self-delimiting format: bits closed by a dot for numbers, one mark per
    character for strings, and fields one after the other for records. *)

Class Wire (A : Type) : Type := {
  wput : A → bytes;
  wget : bytes → option (A * bytes);
  wire_rt : ∀ a rest, wget (wput a +:+ rest) = Some (a, rest)
}.

Definition bit0 : Ascii.ascii := Ascii.ascii_of_nat 48.
Definition bit1 : Ascii.ascii := Ascii.ascii_of_nat 49.
Definition dot : Ascii.ascii := Ascii.ascii_of_nat 46.
(** Marks of a value, a header and a big integer, for skipping an item. *)
Definition tagv : Ascii.ascii := Ascii.ascii_of_nat 118.
Definition tagh : Ascii.ascii := Ascii.ascii_of_nat 104.
Definition tagz : Ascii.ascii := Ascii.ascii_of_nat 122.

Fixpoint pos_bits (p : positive) : bytes :=
  match p with
  | xH => "."
  | xO p' => String bit0 (pos_bits p')
  | xI p' => String bit1 (pos_bits p')
  end.

Fixpoint read_bits (r : bytes) : option (positive * bytes) :=
  match r with
  | EmptyString => None
  | String c r' =>
    if Ascii.eqb c dot then Some (1%positive, r')
    else match read_bits r' with
         | Some (p, r'') => Some (if Ascii.eqb c bit0 then xO p else xI p, r'')
         | None => None
         end
  end.

Lemma read_bits_write p rest : read_bits (pos_bits p +:+ rest) = Some (p, rest).
Proof. induction p as [p IH|p IH|]; simpl; [by rewrite IH..|done]. Qed.

Definition get_Z (r : bytes) : option (Z * bytes) :=
  match r with
  | EmptyString => None
  | String c r' =>
    if Ascii.eqb c dot then Some (0, r')
    else match read_bits r' with
         | Some (p, r'') => Some (if Ascii.eqb c bit0 then Zneg p else Zpos p, r'')
         | None => None
         end
  end.

#[export, refine] Instance Z_wire : Wire Z := {
  wput z := match z with
            | Z0 => "."
            | Zpos p => String bit1 (pos_bits p)
            | Zneg p => String bit0 (pos_bits p)
            end;
  wget := get_Z
}.
Proof. intros [|p|p] rest; simpl; by rewrite ?read_bits_write. Defined.

Fixpoint put_string (s : string) : bytes :=
  match s with
  | EmptyString => "."
  | String c s' => String bit1 (String c (put_string s'))
  end.

Fixpoint get_string (r : bytes) : option (string * bytes) :=
  match r with
  | String m (String c r' as r'') =>
    if Ascii.eqb m dot then Some (EmptyString, r'')
    else match get_string r' with
         | Some (s, rest) => Some (String c s, rest)
         | None => None
         end
  | String m EmptyString => if Ascii.eqb m dot then Some (EmptyString, EmptyString) else None
  | EmptyString => None
  end.

#[export, refine] Instance string_wire : Wire string := { wput := put_string; wget := get_string }.
Proof. intros s rest. induction s as [|c s IH]; simpl; [by destruct rest|by rewrite IH]. Defined.

#[export, refine] Instance prod_wire {A B} `{Wire A, Wire B} : Wire (A * B) := {
  wput p := wput p.1 +:+ wput p.2;
  wget r := match wget r with
            | Some (a, r') => match wget r' with
                              | Some (b, r'') => Some ((a, b), r'')
                              | None => None
                              end
            | None => None
            end
}.
Proof. intros [a b] rest. simpl. by rewrite <- string_app_assoc, !wire_rt. Defined.

Fixpoint get_list {A} `{Wire A} (n : nat) (r : bytes) : option (list A * bytes) :=
  match n with
  | O => Some ([], r)
  | S n' => match wget r with
            | Some (a, r') => match get_list n' r' with
                              | Some (l, r'') => Some (a :: l, r'')
                              | None => None
                              end
            | None => None
            end
  end.

#[export, refine] Instance list_wire {A} `{Wire A} : Wire (list A) := {
  wput l := wput (Z.of_nat (length l)) +:+ foldr (λ a b, wput a +:+ b) EmptyString l;
  wget r := match wget r with
            | Some (n, r') => get_list (Z.to_nat n) r'
            | None => None
            end
}.
Proof.
  intros l rest. rewrite <- string_app_assoc, wire_rt, Nat2Z.id.
  induction l as [|a l IH]; simpl; [done|]. by rewrite <- string_app_assoc, wire_rt, IH.
Defined.

(** A type whose values are given by an encodable one. *)
Definition inj_wire {A B} `{Wire B} (f : A → B) (g : B → A) (fg : ∀ a, g (f a) = a) : Wire A.
Proof.
  refine {| wput a := wput (f a);
            wget r := match wget r with Some (b, r') => Some (g b, r') | None => None end |}.
  intros a rest. by rewrite wire_rt, fg.
Defined.

#[export] Instance option_wire {A} `{Wire A} : Wire (option A) :=
  inj_wire (λ o, match o with Some a => [a] | None => [] end) head
    (λ o, match o with Some _ | None => eq_refl end).

#[export] Instance SignedVoucher_wire : Wire SignedVoucher :=
  inj_wire
    (λ v, (sv_ChannelAddr v, sv_Lane v, sv_Nonce v, sv_Amount v, sv_Merges v,
           sv_Signature v, sv_other v))
    (λ t, let '(a, l, n, m, g, s, o) := t in MkVoucher a l n m g s o)
    (λ v, match v with MkVoucher _ _ _ _ _ _ _ => eq_refl end).

#[export] Instance ChannelID_wire : Wire ChannelID :=
  inj_wire (λ c, (ch_Initiator c, ch_Responder c, ch_ID c))
    (λ t, let '(i, r, n) := t in MkChannelID i r n)
    (λ c, match c with MkChannelID _ _ _ => eq_refl end).

Definition write_as (t : Ascii.ascii) {A} `{Wire A} (a : A) : bytes := String t (wput a).
Definition write_value {A} `{Wire A} (a : A) : bytes := write_as tagv a.

Definition read_value {A} `{Wire A} : go bytes error A := λ r,
  match r with
  | EmptyString => (r, Err EOF)
  | String _ r' =>
    match wget r' with
    | None => (EmptyString, Err ErrUnexpectedEOF)
    | Some (a, rest) => (rest, Ok a)
    end
  end.

Lemma read_value_as t {A} `{Wire A} (a : A) rest :
  read_value (write_as t a +:+ rest) = (rest, Ok a).
Proof. unfold read_value, write_as. simpl. by rewrite wire_rt. Qed.

Lemma read_value_write {A} `{Wire A} (a : A) rest :
  read_value (write_value a +:+ rest) = (rest, Ok a).
Proof. apply read_value_as. Qed.

(** Skipping: a byte or text string has its content after the header. *)
Definition skip_item (r : bytes) : bytes :=
  match r with
  | EmptyString => r
  | String c _ =>
    if Ascii.eqb c tagh then
      match read_value (A:=Z * Z) r with
      | (r1, Ok h) => if (h.1 =? MajByteString) || (h.1 =? MajTextString) then (ReadFull h.2 r1).1 else r1
      | (r1, _) => r1
      end
    else if Ascii.eqb c tagz then (read_value (A:=Z) r).1
    else (read_value (A:=string) r).1
  end.

Arguments write_as : simpl never.
Arguments write_value : simpl never.
Arguments read_value : simpl never.

#[export] Instance bits_lib : CborLib := {|
  MaxLength := 8192;
  ByteArrayMaxLen := 2097152;
  MajorTypeHeader maj n := write_as tagh (maj, n);
  BoolBytes b := write_value (MajOther, if b then 21 else 20);
  CborReadHeader := let* h := read_value (A:=Z * Z) in go_ret (h.1, u64 h.2);
  ReadString := let* h := read_value (A:=Z * Z) in ReadFull h.2;
  CidBytes c := inr (write_value c);
  ReadCid := read_value;
  AddressBytes a := match a with Some a => inr (write_value a) | None => inr CborNull end;
  ReadAddress := read_value;
  BigIntBytes z := inr (write_as tagz z);
  ReadBigInt := read_value;
  SignedVoucherBytes v := match v with Some v => inr (write_value v) | None => inr CborNull end;
  ReadSignedVoucher := read_value;
  CborItem raw := raw = CborNull ∨ ∃ s : string, raw = write_value s;
  ReadDeferred := let* null := ReadNull in
                  if null then go_ret CborNull
                  else let* s := read_value (A:=string) in go_ret (write_value s);
  ScanForLinks := skip_item;
  ChannelIDBytes c := inr (write_value c);
  ReadChannelID := read_value
|}.

#[export] Instance bits_laws : CborLaws.
Proof.
  assert (∀ {A} `{Wire A} (a : A), not_null (write_value a)) as Hnn
    by (intros; by exists tagv, (wput a)).
  assert (∀ {A} `{Wire A} (a : A), not_null (write_as tagh a)) as Hnh
    by (intros; by exists tagh, (wput a)).
  split; simpl; intros; simplify_eq; try (by apply read_value_as); try (by apply Hnh);
    try (split; [by apply Hnn|intros; by apply read_value_as]).
  - done.
  - unfold go_bind, go_ret. rewrite read_value_as. simpl. by rewrite u64_small.
  - unfold go_bind, go_ret, write_value. rewrite read_value_as. by destruct b.
  - unfold go_bind. rewrite read_value_as. apply ReadFull_rt.
  - done.
  - done.
  - by left.
  - destruct H as [->|[s ->]]; [done|]. unfold go_bind. simpl.
    change (String tagv _) with (write_value s +:+ rest). rewrite read_value_write. done.
  - apply go_bind_ok in H as (s1 & h & _ & [_ [= _ ->]]%go_ret_ok). apply u64_range.
  - apply go_bind_ok in H as (s1 & [] & _ & H); [apply go_ret_ok in H as [_ ->]; by left|].
    apply go_bind_ok in H as (s2 & x & _ & [_ ->]%go_ret_ok). right. by exists x.
Qed.
