(* ===== verification/DataRef.v ===== *)
(** * Content references (exchange/index.go, exchange/index_cbor_gen.go)

    The record kept for each piece of content in the index, and the generated
    codec under which the index persists it. *)
From S2P Require Import Prelude Deal PayTypes Cbor.

(** A node of a linked list. *)
Abbreviation node := nat (only parsing).

(** [bucketNode] is not serialised. *)
Record DataRef : Type := MkDataRef {
  dr_PayloadCID : cid;
  dr_PayloadSize : Z;
  dr_Keys : list bytes;
  dr_Freq : Z;
  dr_BucketID : Z;
  dr_bucketNode : option node
}.

#[export] Instance DataRef_eq_dec : EqDecision DataRef.
Proof. solve_decision. Defined.

Definition set_dr_PayloadCID (v : cid) (r : DataRef) : DataRef :=
  MkDataRef v (dr_PayloadSize r) (dr_Keys r) (dr_Freq r) (dr_BucketID r) (dr_bucketNode r).
Definition set_dr_PayloadSize (v : Z) (r : DataRef) : DataRef :=
  MkDataRef (dr_PayloadCID r) v (dr_Keys r) (dr_Freq r) (dr_BucketID r) (dr_bucketNode r).
Definition set_dr_Keys (v : list bytes) (r : DataRef) : DataRef :=
  MkDataRef (dr_PayloadCID r) (dr_PayloadSize r) v (dr_Freq r) (dr_BucketID r) (dr_bucketNode r).
Definition set_dr_Freq (v : Z) (r : DataRef) : DataRef :=
  MkDataRef (dr_PayloadCID r) (dr_PayloadSize r) (dr_Keys r) v (dr_BucketID r) (dr_bucketNode r).
Definition set_dr_BucketID (v : Z) (r : DataRef) : DataRef :=
  MkDataRef (dr_PayloadCID r) (dr_PayloadSize r) (dr_Keys r) (dr_Freq r) v (dr_bucketNode r).
Definition set_dr_bucketNode (v : option node) (r : DataRef) : DataRef :=
  MkDataRef (dr_PayloadCID r) (dr_PayloadSize r) (dr_Keys r) (dr_Freq r) (dr_BucketID r) v.

(** [DataRef.Has]. *)
Definition Has (d : DataRef) (key : string) : bool :=
  existsb (λ elt, String.eqb elt key) (dr_Keys d).

Definition zero_DataRef : DataRef := MkDataRef Undef 0 [] 0 0 None.

(** ** Encoding *)

Section codec.
Context {CB : CborLib}.

Fixpoint WriteKeys (l : list bytes) : go bytes error unit :=
  match l with
  | [] => go_ret tt
  | v :: l' =>
    do* WriteByteString "Byte array in field v was too long" v then
    WriteKeys l'
  end.

Fixpoint ReadKeys (n : nat) : go bytes error (list bytes) :=
  match n with
  | O => go_ret []
  | S n' =>
    let* k := ReadByteString "t.Keys[i]" in
    let* ks := ReadKeys n' in
    go_ret (k :: ks)
  end.

(** An empty array leaves the field as it was. *)
Definition ReadKeysField (old : list bytes) : go bytes error (list bytes) :=
  let* h := CborReadHeader in
  if MaxLength <? h.2
  then go_err (ErrMsg ("t.Keys: array too large (" +:+ pretty h.2 +:+ ")"))
  else if negb (h.1 =? MajArray) then go_err (ErrMsg "expected cbor array")
  else
    let* ks := ReadKeys (Z.to_nat h.2) in
    go_ret (if 0 <? h.2 then ks else old).

Definition DataRef_MarshalCBOR (t : DataRef) : go bytes error unit :=
  do* Write (MajorTypeHeader MajMap 5) then
  do* WriteKey "PayloadCID" then
  do* WriteCid "failed to write cid field t.PayloadCID" (dr_PayloadCID t) then
  do* WriteKey "PayloadSize" then
  do* WriteInt64 (dr_PayloadSize t) then
  do* WriteKey "Keys" then
  do* (if MaxLength <? Z.of_nat (length (dr_Keys t))
       then go_err (ErrMsg "Slice value in field t.Keys was too long")
       else
         do* Write (MajorTypeHeader MajArray (Z.of_nat (length (dr_Keys t)))) then
         WriteKeys (dr_Keys t)) then
  do* WriteKey "Freq" then
  do* WriteInt64 (dr_Freq t) then
  do* WriteKey "BucketID" then
  WriteInt64 (dr_BucketID t).

Definition DataRef_field (name : string) (t : DataRef) : option (go bytes error DataRef) :=
  if String.eqb name "PayloadCID"
  then Some (let* c := ReadWrapped "failed to read cid field t.PayloadCID" ReadCid in
             go_ret (set_dr_PayloadCID c t))
  else if String.eqb name "PayloadSize"
  then Some (let* n := ReadInt64 in go_ret (set_dr_PayloadSize n t))
  else if String.eqb name "Keys"
  then Some (let* ks := ReadKeysField (dr_Keys t) in go_ret (set_dr_Keys ks t))
  else if String.eqb name "Freq"
  then Some (let* n := ReadInt64 in go_ret (set_dr_Freq n t))
  else if String.eqb name "BucketID"
  then Some (let* n := ReadInt64 in go_ret (set_dr_BucketID n t))
  else None.

Definition DataRef_UnmarshalCBOR : go bytes error DataRef :=
  ReadMap "DataRef" DataRef_field zero_DataRef.

(** The integers of a reference fit in an [int64]. *)
Definition ref_in_range (r : DataRef) : Prop :=
  is_i64 (dr_PayloadSize r) ∧ is_i64 (dr_Freq r) ∧ is_i64 (dr_BucketID r).

(** A decoded reference is in no list. *)
Lemma decoded_no_node raw rest r :
  DataRef_UnmarshalCBOR raw = (rest, Ok r) → dr_bucketNode r = None.
Proof.
  unfold DataRef_UnmarshalCBOR, ReadMap. intros (s1 & h & _ & H)%go_bind_ok.
  destruct (negb _); [done|]. destruct (_ <? _); [done|]. revert H.
  apply (ReadEntries_keeps (λ r, dr_bucketNode r = None)); [|done].
  unfold DataRef_field. intros name a rd s s' b Ha. repeat case_match; try done;
    intros [= <-] (? & ? & _ & [_ ->]%go_ret_ok)%go_bind_ok; exact Ha.
Qed.

Context {LAWS : CborLaws}.

Lemma Keys_codec l : codec (WriteKeys l) (ReadKeys (length l)) l.
Proof.
  induction l as [|k l IH]; simpl; [apply codec_ret|].
  field ltac:(apply codec_byte_string). by apply (codec_end _ _ (cons k)).
Qed.

Lemma KeysField_codec l e :
  codec (if MaxLength <? Z.of_nat (length l) then go_err (ErrMsg e)
         else do* Write (MajorTypeHeader MajArray (Z.of_nat (length l))) then WriteKeys l)
    (ReadKeysField []) l.
Proof.
  apply codec_guard. intros Hl. to_prop. pose proof lengths_u64 as [[? ?] _]. unfold ReadKeysField.
  eapply (codec_bind _ _ _ _ (MajArray, Z.of_nat (length l))).
  { apply codec_write. intros rest. apply header_rt; [unfold MajArray; lia|].
    unfold is_u64 in *; lia. }
  cbn [fst snd]. destruct (Z.ltb_spec MaxLength (Z.of_nat (length l))); [lia|]. cbn iota beta.
  rewrite Nat2Z.id. cbn [negb Z.eqb MajArray Pos.eqb].
  pose proof (codec_end _ _ (λ ks : list bytes, if 0 <? Z.of_nat (length l) then ks else []) _
                (Keys_codec l)) as Hk. cbn beta in Hk.
  replace (if 0 <? Z.of_nat (length l) then l else []) with l in Hk by (by destruct l).
  exact Hk.
Qed.

Lemma DataRef_codec r :
  ref_in_range r →
  codec (DataRef_MarshalCBOR r) DataRef_UnmarshalCBOR (set_dr_bucketNode None r).
Proof.
  intros (Hs & Hf & Hb). destruct r as [c sz keys freq bid nd]. simpl in *.
  apply codec_map; [lia|]. change (Z.to_nat 5) with 5%nat. simpl dr_Keys.
  eapply codec_entry; [reflexivity|apply codec_cid|].
  eapply codec_entry; [reflexivity|by apply codec_int64|].
  eapply codec_entry; [reflexivity|apply KeysField_codec|].
  eapply codec_entry; [reflexivity|by apply codec_int64|].
  apply (codec_last _ _ _ _ ReadInt64 bid (λ n, MkDataRef c sz keys freq n None));
    [reflexivity|by apply codec_int64].
Qed.

End codec.

(** ** Properties *)

(** A content reference is read back from its encoding as it was, except
    for its place in the list, which is never persisted. *)
Theorem DataRef_roundtrip {CB : CborLib} {LAWS : CborLaws} (r : DataRef) (b rest : bytes) :
  ref_in_range r → DataRef_MarshalCBOR r EmptyString = (b, Ok tt) →
  DataRef_UnmarshalCBOR (b +:+ rest) = (rest, Ok (set_dr_bucketNode None r)).
Proof. intros Hr Hw. by destruct (DataRef_codec r Hr _ _ Hw) as (b' & -> & H). Qed.

Definition sample_ref : DataRef := MkDataRef "root" 1024 ["a"; "b.txt"] 3 4 (Some 7%nat).

Lemma DataRef_roundtrip_witness :
  DataRef_UnmarshalCBOR ((DataRef_MarshalCBOR sample_ref EmptyString).1 +:+ "tail")
  = ("tail", Ok (set_dr_bucketNode None sample_ref)).
Proof.
  apply (DataRef_roundtrip sample_ref); [vm_compute; intuition congruence|].
  run_eq.
Defined.
