(* ===== verification/Index.v ===== *)
(** * The content index (exchange/index.go)

    The references to the content a node stores, kept in a list of buckets of
    increasing read frequency, from which the least frequently used are evicted;
    the interest list of content other nodes read; garbage collection.

    References are shared through pointers: the list, the maps and the callers
    hold the same objects.  The model has a heap of references and lists of
    nodes whose values are kept apart, as in container/list: a removed node
    keeps its value and has no successor. *)
From S2P Require Import Prelude Deal PayTypes Cbor DataRef.

Abbreviation ptr := nat (only parsing).

Definition ErrRefNotFound : error := ErrMsg "ref not found".
Definition ErrRefAlreadyExists : error := ErrMsg "ref already exists".
Definition KIndex : string := "idx".

Record bucket : Type := MkBucket {
  b_id : Z;
  b_entries : gset ptr
}.

Record listEntry : Type := MkListEntry {
  le_entries : gset ptr;
  le_freq : Z
}.

Definition newBucket (id : Z) : bucket := MkBucket id ∅.
Definition newListEntry (freq : Z) : listEntry := MkListEntry ∅ freq.

(** The HAMT library, the datastore, the block store and DAG traversal, over an
    external state [X].  [ie_Set] receives the encoded value; [ie_Root] and
    [ie_Node] enumerate the entries of the index and of another root in the
    order of the library; a walk answers the blocks visited before it ended. *)
Record IndexEnv (X : Type) : Type := MkIndexEnv {
  ie_NewNode : go X error unit;
  ie_LoadRoot : cid → go X error unit;
  ie_Root : go X error (list (string * bytes));
  ie_Node : cid → go X error (list (string * bytes));
  ie_Set : string → bytes → go X error unit;
  ie_Delete : string → go X error bool;
  ie_Flush : go X error unit;
  ie_Put : go X error cid;
  ie_dsGet : string → go X error bytes;
  ie_dsPut : string → bytes → go X error unit;
  ie_CidCast : bytes → error + cid;
  ie_CidBytes : cid → bytes;
  ie_String : cid → string;
  ie_V1 : cid → cid;
  ie_WalkDAG : cid → go X error (list cid * option error);
  ie_DeleteBlock : cid → go X error unit;
  ie_AllKeys : go X error (list cid);
  ie_GCBlockstore : bool;
  ie_GCDatastore : bool;
  ie_CollectGarbage : go X error unit
}.
Arguments MkIndexEnv {X}.
Arguments ie_NewNode {X}.
Arguments ie_LoadRoot {X}.
Arguments ie_Root {X}.
Arguments ie_Node {X}.
Arguments ie_Set {X}.
Arguments ie_Delete {X}.
Arguments ie_Flush {X}.
Arguments ie_Put {X}.
Arguments ie_dsGet {X}.
Arguments ie_dsPut {X}.
Arguments ie_CidCast {X}.
Arguments ie_CidBytes {X}.
Arguments ie_String {X}.
Arguments ie_V1 {X}.
Arguments ie_WalkDAG {X}.
Arguments ie_DeleteBlock {X}.
Arguments ie_AllKeys {X}.
Arguments ie_GCBlockstore {X}.
Arguments ie_GCDatastore {X}.
Arguments ie_CollectGarbage {X}.

(** [ix_next] numbers the nodes and references allocated so far. *)
Record Index (X : Type) : Type := MkIndex {
  ix_ext : X;
  ix_ub : Z;
  ix_lb : Z;
  ix_gcSet : gset cid;
  ix_size : Z;
  ix_blist : list node;
  ix_buckets : gmap node bucket;
  ix_heap : gmap ptr DataRef;
  ix_Refs : gmap string ptr;
  ix_rootCID : cid;
  ix_freqs : list node;
  ix_entries : gmap node listEntry;
  ix_interest : gmap string ptr;
  ix_next : nat
}.
Arguments MkIndex {X}.
Arguments ix_ext {X}.
Arguments ix_ub {X}.
Arguments ix_lb {X}.
Arguments ix_gcSet {X}.
Arguments ix_size {X}.
Arguments ix_blist {X}.
Arguments ix_buckets {X}.
Arguments ix_heap {X}.
Arguments ix_Refs {X}.
Arguments ix_rootCID {X}.
Arguments ix_freqs {X}.
Arguments ix_entries {X}.
Arguments ix_interest {X}.
Arguments ix_next {X}.

Section setters.
Context {X : Type}.
Definition set_ix_ext (v : X) (s : Index X) : Index X :=
  MkIndex v (ix_ub s) (ix_lb s) (ix_gcSet s) (ix_size s) (ix_blist s) (ix_buckets s) (ix_heap s)
    (ix_Refs s) (ix_rootCID s) (ix_freqs s) (ix_entries s) (ix_interest s) (ix_next s).
Definition set_ix_gcSet (v : gset cid) (s : Index X) : Index X :=
  MkIndex (ix_ext s) (ix_ub s) (ix_lb s) v (ix_size s) (ix_blist s) (ix_buckets s) (ix_heap s)
    (ix_Refs s) (ix_rootCID s) (ix_freqs s) (ix_entries s) (ix_interest s) (ix_next s).
Definition set_ix_size (v : Z) (s : Index X) : Index X :=
  MkIndex (ix_ext s) (ix_ub s) (ix_lb s) (ix_gcSet s) v (ix_blist s) (ix_buckets s) (ix_heap s)
    (ix_Refs s) (ix_rootCID s) (ix_freqs s) (ix_entries s) (ix_interest s) (ix_next s).
Definition set_ix_blist (v : list node) (s : Index X) : Index X :=
  MkIndex (ix_ext s) (ix_ub s) (ix_lb s) (ix_gcSet s) (ix_size s) v (ix_buckets s) (ix_heap s)
    (ix_Refs s) (ix_rootCID s) (ix_freqs s) (ix_entries s) (ix_interest s) (ix_next s).
Definition set_ix_buckets (v : gmap node bucket) (s : Index X) : Index X :=
  MkIndex (ix_ext s) (ix_ub s) (ix_lb s) (ix_gcSet s) (ix_size s) (ix_blist s) v (ix_heap s)
    (ix_Refs s) (ix_rootCID s) (ix_freqs s) (ix_entries s) (ix_interest s) (ix_next s).
Definition set_ix_heap (v : gmap ptr DataRef) (s : Index X) : Index X :=
  MkIndex (ix_ext s) (ix_ub s) (ix_lb s) (ix_gcSet s) (ix_size s) (ix_blist s) (ix_buckets s) v
    (ix_Refs s) (ix_rootCID s) (ix_freqs s) (ix_entries s) (ix_interest s) (ix_next s).
Definition set_ix_Refs (v : gmap string ptr) (s : Index X) : Index X :=
  MkIndex (ix_ext s) (ix_ub s) (ix_lb s) (ix_gcSet s) (ix_size s) (ix_blist s) (ix_buckets s)
    (ix_heap s) v (ix_rootCID s) (ix_freqs s) (ix_entries s) (ix_interest s) (ix_next s).
Definition set_ix_rootCID (v : cid) (s : Index X) : Index X :=
  MkIndex (ix_ext s) (ix_ub s) (ix_lb s) (ix_gcSet s) (ix_size s) (ix_blist s) (ix_buckets s)
    (ix_heap s) (ix_Refs s) v (ix_freqs s) (ix_entries s) (ix_interest s) (ix_next s).
Definition set_ix_freqs (v : list node) (s : Index X) : Index X :=
  MkIndex (ix_ext s) (ix_ub s) (ix_lb s) (ix_gcSet s) (ix_size s) (ix_blist s) (ix_buckets s)
    (ix_heap s) (ix_Refs s) (ix_rootCID s) v (ix_entries s) (ix_interest s) (ix_next s).
Definition set_ix_entries (v : gmap node listEntry) (s : Index X) : Index X :=
  MkIndex (ix_ext s) (ix_ub s) (ix_lb s) (ix_gcSet s) (ix_size s) (ix_blist s) (ix_buckets s)
    (ix_heap s) (ix_Refs s) (ix_rootCID s) (ix_freqs s) v (ix_interest s) (ix_next s).
Definition set_ix_interest (v : gmap string ptr) (s : Index X) : Index X :=
  MkIndex (ix_ext s) (ix_ub s) (ix_lb s) (ix_gcSet s) (ix_size s) (ix_blist s) (ix_buckets s)
    (ix_heap s) (ix_Refs s) (ix_rootCID s) (ix_freqs s) (ix_entries s) v (ix_next s).
Definition set_ix_next (v : nat) (s : Index X) : Index X :=
  MkIndex (ix_ext s) (ix_ub s) (ix_lb s) (ix_gcSet s) (ix_size s) (ix_blist s) (ix_buckets s)
    (ix_heap s) (ix_Refs s) (ix_rootCID s) (ix_freqs s) (ix_entries s) (ix_interest s) v.
End setters.

(** ** Linked lists *)

(** [Element.Next]: nil for the last node and for one that is not in the list. *)
Fixpoint list_next (n : node) (l : list node) : option node :=
  match l with
  | [] => None
  | x :: l' => if Nat.eqb x n then head l' else list_next n l'
  end.

(** [InsertAfter] and [InsertBefore] do nothing when the mark is not in the list. *)
Fixpoint insert_after (n x : node) (l : list node) : list node :=
  match l with
  | [] => []
  | y :: l' => if Nat.eqb y n then y :: x :: l' else y :: insert_after n x l'
  end.

Fixpoint insert_before (n x : node) (l : list node) : list node :=
  match l with
  | [] => []
  | y :: l' => if Nat.eqb y n then x :: y :: l' else y :: insert_before n x l'
  end.

Definition list_remove (n : node) (l : list node) : list node :=
  filter (λ y, y ≠ n) l.

Section index.
Context {CB : CborLib} {X : Type} (env : IndexEnv X).
(** The order in which the entries of a bucket are enumerated. *)
Context (range : gset ptr → list ptr).
Local Abbreviation I := (go (Index X) error).

Definition on_ext {A} (m : go X error A) : I A := λ s,
  let '(x, r) := m (ix_ext s) in (set_ix_ext x s, r).

(** Dereferencing. *)
Definition deref (p : ptr) : I DataRef := λ s,
  (s, match ix_heap s !! p with Some r => Ok r | None => Panic end).

Definition bucket_at (n : node) : I bucket := λ s,
  (s, match ix_buckets s !! n with Some b => Ok b | None => Panic end).

Definition entry_at (n : node) : I listEntry := λ s,
  (s, match ix_entries s !! n with Some e => Ok e | None => Panic end).

Definition put_ref (p : ptr) (r : DataRef) : I unit :=
  go_modify (λ s, set_ix_heap (<[p := r]> (ix_heap s)) s).
Definition put_bucket (n : node) (b : bucket) : I unit :=
  go_modify (λ s, set_ix_buckets (<[n := b]> (ix_buckets s)) s).
Definition put_entry (n : node) (e : listEntry) : I unit :=
  go_modify (λ s, set_ix_entries (<[n := e]> (ix_entries s)) s).

(** A new object. *)
Definition alloc : I nat := λ s, (set_ix_next (S (ix_next s)) s, Ok (ix_next s)).

Definition alloc_ref (r : DataRef) : I ptr :=
  let* p := alloc in
  do* put_ref p r then
  go_ret p.

(** The wrappers around the lists of buckets and of interest. *)
Definition add_to_bucket (n : node) (p : ptr) : I unit :=
  let* b := bucket_at n in
  put_bucket n (MkBucket (b_id b) ({[p]} ∪ b_entries b)).

Definition add_to_entry (n : node) (p : ptr) : I unit :=
  let* e := entry_at n in
  put_entry n (MkListEntry ({[p]} ∪ le_entries e) (le_freq e)).

Definition insert_bucket (place : node → list node → list node) (b : bucket) : I node :=
  let* n := alloc in
  do* put_bucket n b then
  do* go_modify (λ s, set_ix_blist (place n (ix_blist s)) s) then
  go_ret n.

Definition insert_entry (place : node → list node → list node) (e : listEntry) : I node :=
  let* n := alloc in
  do* put_entry n e then
  do* go_modify (λ s, set_ix_freqs (place n (ix_freqs s)) s) then
  go_ret n.

Definition push_front (x : node) (l : list node) : list node := x :: l.
Definition push_back (x : node) (l : list node) : list node := l ++ [x].

(** ** Loading *)

(** Encoding a reference for the HAMT. *)
Definition hamt_Set (k : string) (r : DataRef) : I unit :=
  let* b := go_lift (Dump (DataRef_MarshalCBOR r)) in
  on_ext (ie_Set env k b).

Definition decode_ref (raw : bytes) : outcome error DataRef := (DataRef_UnmarshalCBOR raw).2.

(** Places a loaded reference: in the bucket of its identifier if it exists, in
    a new one before the first bucket of a higher identifier, or at the back. *)
Fixpoint place_bucket (p : ptr) (id : Z) (places : list node) : I node :=
  match places with
  | [] => insert_bucket push_back (MkBucket id {[p]})
  | e :: places' =>
    let* b := bucket_at e in
    if b_id b =? id
    then do* put_bucket e (MkBucket (b_id b) ({[p]} ∪ b_entries b)) then go_ret e
    else if id <? b_id b then insert_bucket (insert_before e) (MkBucket id {[p]})
    else place_bucket p id places'
  end.

Definition load_ref (raw : bytes) : I unit :=
  let* v := go_lift (decode_ref raw) in
  let* p := alloc_ref v in
  do* go_modify (λ s, set_ix_Refs (<[ie_String env (dr_PayloadCID v) := p]> (ix_Refs s)) s) then
  do* go_modify (λ s, set_ix_size (u64 (ix_size s + u64 (dr_PayloadSize v))) s) then
  let* s := go_get in
  let* n := match ix_blist s with
            | [] => insert_bucket push_front (MkBucket (dr_BucketID v) {[p]})
            | l => place_bucket p (dr_BucketID v) l
            end in
  put_ref p (set_dr_bucketNode (Some n) v).

Fixpoint load_refs (l : list (string * bytes)) : I unit :=
  match l with
  | [] => go_ret tt
  | (_, raw) :: l' =>
    do* load_ref raw then
    load_refs l'
  end.

Definition loadFromStore : I unit :=
  let* enc := go_try (on_ext (ie_dsGet env KIndex)) in
  match enc with
  | inl err => if bool_decide (err = ErrNotFound) then on_ext (ie_NewNode env) else go_err err
  | inr enc =>
    let* r := go_sum (ie_CidCast env enc) in
    do* on_ext (ie_LoadRoot env r) then
    go_modify (set_ix_rootCID r)
  end.

(** [WithBounds]. *)
Definition WithBounds (up lo : Z) : outcome error (Z * Z) :=
  if up <? lo then Panic else Ok (up, lo).

Definition empty_index (x : X) (ub lb : Z) : Index X :=
  MkIndex x ub lb ∅ 0 [] ∅ ∅ ∅ Undef [] ∅ ∅ 0.

(** [NewIndex] on the index its options built. *)
Definition NewIndex : I unit :=
  do* loadFromStore then
  let* l := on_ext (ie_Root env) in
  load_refs l.

(** ** Bounds *)

Definition Root (s : Index X) : cid := ix_rootCID s.

Definition Available (s : Index X) : Z :=
  let margin := u64 (ix_ub s - ix_lb s) in
  if u64 (ix_ub s - ix_size s) <? margin then 0 else u64 (ix_ub s - ix_size s).

Definition Flush : I unit :=
  do* on_ext (ie_Flush env) then
  let* r := on_ext (ie_Put env) in
  do* go_modify (set_ix_rootCID r) then
  on_ext (ie_dsPut env KIndex (ie_CidBytes env r)).

(** ** The list of buckets *)

Definition remBlistEntry (place : node) (entry : ptr) : I unit :=
  let* b := bucket_at place in
  let entries := b_entries b ∖ {[entry]} in
  do* put_bucket place (MkBucket (b_id b) entries) then
  if bool_decide (entries = ∅)
  then go_modify (λ s, set_ix_blist (list_remove place (ix_blist s)) s)
  else go_ret tt.

Definition remFreqEntry (place : node) (entry : ptr) : I unit :=
  let* e := entry_at place in
  let entries := le_entries e ∖ {[entry]} in
  do* put_entry place (MkListEntry entries (le_freq e)) then
  if bool_decide (entries = ∅)
  then go_modify (λ s, set_ix_freqs (list_remove place (ix_freqs s)) s)
  else go_ret tt.

(** The bucket a read moves to: identifier and place, nil when there is none. *)
Definition next_place (currentPlace : option node) : I (Z * option node) :=
  let* s := go_get in
  match currentPlace with
  | None =>
    match last (ix_blist s) with
    | None => go_ret (1, None)
    | Some n => let* b := bucket_at n in go_ret (b_id b, Some n)
    end
  | Some c =>
    let* b := bucket_at c in
    go_ret (i64 (u64 (b_id b + 1)), list_next c (ix_blist s))
  end.

Definition increment (ref : ptr) : I unit :=
  let* r := deref ref in
  let currentPlace := dr_bucketNode r in
  let* np := next_place currentPlace in
  let nextID := np.1 in
  let* same := match np.2 with
               | None => go_ret false
               | Some n => let* b := bucket_at n in go_ret (b_id b =? nextID)
               end in
  let* nextPlace :=
    match np.2, (same : bool) with
    | Some n, true => go_ret n
    | _, _ =>
      match currentPlace with
      | Some c =>
        let* s := go_get in
        if bool_decide (c ∈ ix_blist s)
        then insert_bucket (insert_after c) (newBucket nextID)
        else go_panic
      | None => insert_bucket push_front (newBucket nextID)
      end
    end in
  do* put_ref ref (MkDataRef (dr_PayloadCID r) (dr_PayloadSize r) (dr_Keys r)
        (match currentPlace with Some _ => i64 (u64 (dr_Freq r + 1)) | None => dr_Freq r end)
        nextID (Some nextPlace)) then
  do* add_to_bucket nextPlace ref then
  match currentPlace with
  | Some c => remBlistEntry c ref
  | None => go_ret tt
  end.

(** ** Eviction *)

(** A walk that fails has tagged the blocks visited before. *)
Definition tagForGC (ref : ptr) : I unit :=
  let* r := deref ref in
  let* w := on_ext (ie_WalkDAG env (dr_PayloadCID r)) in
  do* go_modify (λ s, set_ix_gcSet (ix_gcSet s ∪ list_to_set w.1) s) then
  match w.2 with
  | Some err => go_err err
  | None => go_ret tt
  end.

(** The inner loop over the entries of one bucket: the amount evicted so far and
    whether the target was reached. *)
Fixpoint evict_bucket (place : node) (size : Z) (entries : list ptr) (evicted : Z) : I (Z * bool) :=
  match entries with
  | [] => go_ret (evicted, false)
  | entry :: entries' =>
    do* go_try (tagForGC entry) then
    let* r := deref entry in
    do* go_modify (λ s, set_ix_Refs (delete (ie_String env (dr_PayloadCID r)) (ix_Refs s)) s) then
    do* remBlistEntry place entry then
    let evicted := u64 (evicted + u64 (dr_PayloadSize r)) in
    do* go_modify (λ s, set_ix_size (u64 (ix_size s - u64 (dr_PayloadSize r))) s) then
    if size <=? evicted then go_ret (evicted, true)
    else evict_bucket place size entries' evicted
  end.

(** The outer loop goes from a node to its successor, which is nil once the node
    was removed. *)
Fixpoint evict_loop (places : list node) (size evicted : Z) : I Z :=
  match places with
  | [] => go_ret evicted
  | place :: places' =>
    let* b := bucket_at place in
    let* r := evict_bucket place size (range (b_entries b)) evicted in
    if r.2 : bool then go_ret r.1
    else
      let* s := go_get in
      if bool_decide (place ∈ ix_blist s) then evict_loop places' size r.1
      else go_ret r.1
  end.

Definition evict (size : Z) : I Z :=
  let* s := go_get in
  evict_loop (ix_blist s) size 0.

(** ** Operations *)

Definition SetRef (ref : ptr) : I unit :=
  let* r := deref ref in
  let k := ie_String env (dr_PayloadCID r) in
  let* s := go_get in
  if bool_decide (is_Some (ix_Refs s !! k)) then go_err ErrRefAlreadyExists
  else
    do* go_modify (λ s, set_ix_Refs (<[k := ref]> (ix_Refs s)) s) then
    do* go_modify (λ s, set_ix_size (u64 (ix_size s + u64 (dr_PayloadSize r))) s) then
    let* s := go_get in
    do* (if (0 <? ix_ub s) && (0 <? ix_lb s) && (ix_ub s <? ix_size s)
         then do* evict (u64 (ix_size s - ix_lb s)) then go_ret tt
         else go_ret tt) then
    do* increment ref then
    let* r := deref ref in
    do* hamt_Set k r then
    Flush.

Definition GetRef (k : cid) : I ptr :=
  let* s := go_get in
  match ix_Refs s !! ie_String env k with
  | None => go_err ErrRefNotFound
  | Some ref =>
    do* increment ref then
    let* r := deref ref in
    do* hamt_Set (ie_String env k) r then
    do* Flush then
    go_ret ref
  end.

Definition PeekRef (k : cid) : I ptr :=
  let* s := go_get in
  match ix_Refs s !! ie_String env k with
  | None => go_err ErrRefNotFound
  | Some ref => go_ret ref
  end.

(** The keys of [new] that are not among [seen], in order; [seen] is not
    extended on the way. *)
Definition missing_keys (seen new : list bytes) : list bytes :=
  filter (λ k, k ∉ seen) new.

(** What is stored under the key is the argument, not the merged reference. *)
Definition UpdateRef (ref : DataRef) : I unit :=
  let k := ie_String env (dr_PayloadCID ref) in
  let* s := go_get in
  match ix_Refs s !! k with
  | None => go_err ErrRefNotFound
  | Some cur =>
    let* curef := deref cur in
    do* put_ref cur (set_dr_Keys (dr_Keys curef ++ missing_keys (dr_Keys curef) (dr_Keys ref)) curef) then
    do* hamt_Set k ref then
    Flush
  end.

Definition DropRef (k : cid) : I unit :=
  let* found := on_ext (ie_Delete env (ie_String env k)) in
  if negb found then go_err ErrRefNotFound
  else
    let* s := go_get in
    match ix_Refs s !! ie_String env k with
    | None => go_panic
    | Some ref =>
      do* tagForGC ref then
      let* r := deref ref in
      match dr_bucketNode r with
      | None => go_panic
      | Some n =>
        do* remBlistEntry n ref then
        do* go_modify (λ s, set_ix_Refs (delete (ie_String env k) (ix_Refs s)) s) then
        Flush
      end
    end.

(** [ListRefs] fills a slice of the length of the map, in the order of the list;
    writing past its end panics. *)
Fixpoint list_entries (n : nat) (entries : list ptr) (refs : list ptr) : outcome error (list ptr) :=
  match entries with
  | [] => Ok refs
  | k :: entries' =>
    if Nat.ltb n (length refs) then Err (ErrMsg "found duplicate ref in the linked list")
    else if Nat.eqb (length refs) n then Panic
    else list_entries n entries' (refs ++ [k])
  end.

Fixpoint list_buckets (n : nat) (places : list node) (refs : list ptr) : I (list ptr) :=
  match places with
  | [] => go_ret refs
  | e :: places' =>
    let* b := bucket_at e in
    let* refs := go_lift (list_entries n (range (b_entries b)) refs) in
    list_buckets n places' refs
  end.

(** The answer has [len(idx.Refs)] slots; the ones not filled are nil. *)
Definition ListRefs : I (list (option ptr)) :=
  let* s := go_get in
  let* refs := list_buckets (size (ix_Refs s)) (ix_blist s) [] in
  go_ret ((Some <$> refs) ++ replicate (size (ix_Refs s) - length refs) None).

Definition Len (s : Index X) : nat := size (ix_Refs s).

(** ** Garbage collection *)

Fixpoint delete_blocks (l : list cid) : I unit :=
  match l with
  | [] => go_ret tt
  | c :: l' =>
    do* on_ext (ie_DeleteBlock env c) then
    delete_blocks l'
  end.

Definition collect_datastore : I unit :=
  if negb (ie_GCDatastore env) then go_err (ErrMsg "datastore is not a GCDatastore")
  else on_ext (ie_CollectGarbage env).

(** [gc_order] is the order in which the set of tagged blocks is enumerated. *)
Definition GC (gc_order : gset cid → list cid) : I unit :=
  let* s := go_get in
  if bool_decide (ix_gcSet s = ∅) then go_ret tt
  else if negb (ie_GCBlockstore env) then go_err (ErrMsg "blockstore is not a GCBlockstore")
  else
    let* r := go_try (delete_blocks (gc_order (ix_gcSet s))) in
    match r with
    | inl err => go_err (ErrWrap "failed to run garbage collector" err)
    | inr _ =>
      do* go_modify (set_ix_gcSet ∅) then
      collect_datastore
    end.

(** The blocks reachable from the references of the index. *)
Fixpoint reachable (l : list (string * bytes)) (acc : gset cid) : I (gset cid) :=
  match l with
  | [] => go_ret acc
  | (_, raw) :: l' =>
    let* ref := go_lift (decode_ref raw) in
    let* w := on_ext (ie_WalkDAG env (dr_PayloadCID ref)) in
    match w.2 with
    | Some err => go_err err
    | None => reachable l' (acc ∪ list_to_set w.1)
    end
  end.

Fixpoint sweep (keep : gset cid) (l : list cid) : I unit :=
  match l with
  | [] => go_ret tt
  | k :: l' =>
    if bool_decide (ie_V1 env k ∈ keep) then sweep keep l'
    else
      do* on_ext (ie_DeleteBlock env k) then
      sweep keep l'
  end.

Definition CleanBlockStore : I unit :=
  let* l := on_ext (ie_Root env) in
  let* keep := reachable l ∅ in
  let* keys := on_ext (ie_AllKeys env) in
  do* sweep keep keys then
  collect_datastore.

(** ** Interest *)

(** Places a reference of frequency [freq] from the given nodes on. *)
Fixpoint place_entry (p : ptr) (freq : Z) (places : list node) : I node :=
  match places with
  | [] => insert_entry push_back (MkListEntry {[p]} freq)
  | e :: places' =>
    let* le := entry_at e in
    if le_freq le =? freq
    then do* put_entry e (MkListEntry ({[p]} ∪ le_entries le) (le_freq le)) then go_ret e
    else if freq <? le_freq le then insert_entry (insert_before e) (MkListEntry {[p]} freq)
    else place_entry p freq places'
  end.

(** The nodes from [n] to the end of the list. *)
Fixpoint list_from (n : node) (l : list node) : list node :=
  match l with
  | [] => []
  | x :: l' => if Nat.eqb x n then l else list_from n l'
  end.

(** A nil node ends the loop at once; a node that was removed is visited alone. *)
Definition places_from (c : option node) (l : list node) : list node :=
  match c with
  | None => []
  | Some n => if bool_decide (n ∈ l) then list_from n l else [n]
  end.

(** The removal is deferred: it runs after the reference was placed. *)
Definition load_interest (k : string) (raw : bytes) : I unit :=
  let* s := go_get in
  if bool_decide (is_Some (ix_Refs s !! k)) then go_ret tt
  else
    let* v := go_lift (decode_ref raw) in
    match ix_interest s !! k with
    | Some p =>
      let* ref := deref p in
      let currentPlace := dr_bucketNode ref in
      let nextFreq := i64 (u64 (dr_Freq ref + dr_Freq v)) in
      if nextFreq =? dr_Freq ref then go_ret tt
      else
        do* put_ref p (set_dr_Freq nextFreq ref) then
        let* n := place_entry p nextFreq (places_from currentPlace (ix_freqs s)) in
        do* put_ref p (set_dr_bucketNode (Some n) (set_dr_Freq nextFreq ref)) then
        match currentPlace with
        | None => go_panic
        | Some c => remFreqEntry c p
        end
    | None =>
      let* p := alloc_ref v in
      do* go_modify (λ s, set_ix_interest (<[k := p]> (ix_interest s)) s) then
      let* n := match ix_freqs s with
                | [] => insert_entry push_front (MkListEntry {[p]} (dr_Freq v))
                | l => place_entry p (dr_Freq v) l
                end in
      put_ref p (set_dr_bucketNode (Some n) v)
    end.

Fixpoint load_interests (l : list (string * bytes)) : I unit :=
  match l with
  | [] => go_ret tt
  | (k, raw) :: l' =>
    do* load_interest k raw then
    load_interests l'
  end.

Definition LoadInterest (r : cid) : I unit :=
  let* l := on_ext (ie_Node env r) in
  load_interests l.

(** Collects entries until they fill the space available. *)
Fixpoint fill_entries (av : Z) (entries : list ptr) (added : Z) (out : gset ptr)
    : I (gset ptr * Z * bool) :=
  match entries with
  | [] => go_ret (out, added, false)
  | k :: entries' =>
    let* r := deref k in
    let out := {[k]} ∪ out in
    let added := u64 (added + u64 (dr_PayloadSize r)) in
    if av <=? added then go_ret (out, added, true)
    else fill_entries av entries' added out
  end.

Fixpoint fill (av : Z) (places : list node) (added : Z) (out : gset ptr) : I (gset ptr) :=
  match places with
  | [] => go_ret out
  | e :: places' =>
    let* le := entry_at e in
    let* r := fill_entries av (range (le_entries le)) added out in
    let '(out, added, full) := r in
    if full : bool then go_ret out else fill av places' added out
  end.

(** Whether a reference of the front bucket is read less often than [freq]. *)
Fixpoint any_less (freq : Z) (entries : list ptr) : I bool :=
  match entries with
  | [] => go_ret false
  | p :: entries' =>
    let* r := deref p in
    if dr_Freq r <? freq then go_ret true else any_less freq entries'
  end.

Definition Interesting : I (gset ptr) :=
  let* s := go_get in
  let av := Available s in
  if 0 <? av then fill av (rev (ix_freqs s)) 0 ∅
  else
    match last (ix_freqs s) with
    | None => go_err (ErrMsg "nothing interesting")
    | Some e =>
      let* entry := entry_at e in
      match head (ix_blist s) with
      | None => go_panic
      | Some front =>
        let* b := bucket_at front in
        let* less := any_less (le_freq entry) (range (b_entries b)) in
        match (less : bool), range (le_entries entry) with
        | true, k :: _ => go_ret {[k]}
        | _, _ => go_err (ErrMsg "nothing interesting")
        end
      end
    end.

Definition InterestLen (s : Index X) : nat := size (ix_interest s).

Definition DropInterest (k : cid) : I unit :=
  let* s := go_get in
  match ix_interest s !! ie_String env k with
  | None => go_err (ErrMsg "ref not found")
  | Some p =>
    do* go_modify (λ s, set_ix_interest (delete (ie_String env k) (ix_interest s)) s) then
    let* ref := deref p in
    match dr_bucketNode ref with
    | None => go_panic
    | Some n => remFreqEntry n p
    end
  end.

End index.
