(* ===== verification/IndexLfu.v ===== *)
(** * The index keeps its least frequently used order

    The representation invariant of the content index: the list of buckets is in
    strictly increasing order of frequency, no bucket is empty, and the table of
    references, the buckets and the references' own back pointers agree.  Every
    operation keeps it, on every outcome. *)
From S2P Require Import Prelude Deal PayTypes Cbor DataRef Index.

(** ** Lists sorted by a key *)

Lemma elem_insert_after (c x : node) (l : list node) (y : node) : c ∈ l → y ∈ insert_after c x l ↔ y = x ∨ y ∈ l.
Proof.
  induction l as [|a l IH]; [set_solver|]. intros Hc. simpl.
  destruct (Nat.eqb_spec a c) as [->|Hne]; [set_solver|].
  rewrite !elem_of_cons, IH by set_solver. set_solver.
Qed.

Lemma elem_insert_before (c x : node) (l : list node) (y : node) : c ∈ l → y ∈ insert_before c x l ↔ y = x ∨ y ∈ l.
Proof.
  induction l as [|a l IH]; [set_solver|]. intros Hc. simpl.
  destruct (Nat.eqb_spec a c) as [->|Hne]; [set_solver|].
  rewrite !elem_of_cons, IH by set_solver. set_solver.
Qed.

Lemma elem_list_remove n l y : y ∈ list_remove n l ↔ y ≠ n ∧ y ∈ l.
Proof. unfold list_remove. by rewrite list_elem_of_filter. Qed.

Section by_key.
Context (f : node → Z).
Implicit Types (l : list node) (n x c : node).

Definition by_key l : Prop := StronglySorted (λ x y, f x < f y) l.

Lemma by_key_inj l x y : by_key l → x ∈ l → y ∈ l → f x = f y → x = y.
Proof.
  unfold by_key. intros Hs. induction Hs as [|a l _ IH Hall]; [set_solver|].
  rewrite Forall_forall in Hall. rewrite !elem_of_cons. intros [->|Hx] [->|Hy] E; auto.
  - specialize (Hall _ Hy). lia.
  - specialize (Hall _ Hx). lia.
Qed.

Lemma by_key_remove l n : by_key l → by_key (list_remove n l).
Proof.
  unfold by_key, list_remove. induction 1 as [|a l Hs IH Hall]; [by constructor|].
  rewrite filter_cons. case_decide; [|done]. constructor; [done|].
  apply Forall_forall. intros y [_ Hy]%list_elem_of_filter. rewrite Forall_forall in Hall.
  by apply Hall.
Qed.

Lemma by_key_cons x l : (∀ y, y ∈ l → f x < f y) → by_key l → by_key (x :: l).
Proof. intros Hx Hl. unfold by_key. constructor; [done|]. by apply Forall_forall. Qed.

Lemma by_key_snoc x l : (∀ y, y ∈ l → f y < f x) → by_key l → by_key (l ++ [x]).
Proof.
  intros Hx Hl. apply StronglySorted_app_2; [|done|by repeat constructor].
  intros a b Ha ->%list_elem_of_singleton. by apply Hx.
Qed.

Lemma by_key_insert_after c x l :
  by_key l → c ∈ l → f c < f x → (∀ y, y ∈ l → f c < f y → f x < f y) →
  by_key (insert_after c x l).
Proof.
  unfold by_key. induction 1 as [|a l Hs IH Hall]; [set_solver|]. intros Hc Hlt Hup. simpl.
  rewrite Forall_forall in Hall. destruct (Nat.eqb_spec a c) as [->|Hne].
  - apply by_key_cons; [set_solver|]. apply by_key_cons; [|done]. set_solver.
  - assert (c ∈ l) as Hcl by set_solver. apply by_key_cons; [|apply IH; set_solver].
    intros y [->|Hy]%elem_insert_after; [|by apply Hall|done]. specialize (Hall _ Hcl). lia.
Qed.

Lemma by_key_insert_before c x l :
  by_key l → c ∈ l → f x < f c → (∀ y, y ∈ l → f y < f c → f y < f x) →
  by_key (insert_before c x l).
Proof.
  unfold by_key. induction 1 as [|a l Hs IH Hall]; [set_solver|]. intros Hc Hlt Hlo. simpl.
  rewrite Forall_forall in Hall. destruct (Nat.eqb_spec a c) as [->|Hne].
  - apply by_key_cons; [|by apply by_key_cons].
    intros y [->|Hy]%elem_of_cons; [lia|]. specialize (Hall _ Hy). lia.
  - assert (c ∈ l) as Hcl by set_solver. apply by_key_cons; [|apply IH; set_solver].
    intros y [->|Hy]%elem_insert_before; [|by apply Hall|done].
    specialize (Hall _ Hcl). apply Hlo; [set_solver|lia].
Qed.

(** What follows a node: the next higher key. *)
Lemma list_next_spec c l :
  by_key l → c ∈ l →
  match list_next c l with
  | Some n => n ∈ l ∧ f c < f n ∧ ∀ y, y ∈ l → f c < f y → y = n ∨ f n < f y
  | None => ∀ y, y ∈ l → f y <= f c
  end.
Proof.
  unfold by_key. induction 1 as [|a l Hs IH Hall]; [set_solver|]. intros Hc. simpl.
  rewrite Forall_forall in Hall. destruct (Nat.eqb_spec a c) as [->|Hne].
  - destruct l as [|n l]; simpl; [set_solver by lia|].
    inversion_clear Hs as [|? ? Hs' Hn]. rewrite Forall_forall in Hn.
    split; [set_solver|]. split; [set_solver|].
    intros y [->|[->|Hy]%elem_of_cons]%elem_of_cons Hlt; [lia|by left|right; by apply Hn].
  - assert (c ∈ l) as Hcl by set_solver. specialize (IH Hcl).
    pose proof (Hall _ Hcl). destruct (list_next c l) as [n|].
    + destruct IH as (Hn & Hlt & Hall'). split; [set_solver|]. split; [done|].
      intros y [->|Hy]%elem_of_cons Hy'; [lia|]. by apply Hall'.
    + intros y [->|Hy]%elem_of_cons; [lia|]. by apply IH.
Qed.

Lemma last_max l n : by_key l → last l = Some n → n ∈ l ∧ ∀ y, y ∈ l → f y <= f n.
Proof.
  unfold by_key. intros Hs. induction Hs as [|a l Hs IH Hall]; [done|].
  destruct l as [|b l]; [intros [= ->]; split; [set_solver|]; intros y ->%list_elem_of_singleton; lia|].
  intros Hl. change (last (a :: b :: l)) with (last (b :: l)) in Hl.
  destruct (IH Hl) as [Hn Hmax]. split; [set_solver|].
  intros y [->|Hy]%elem_of_cons; [|by apply Hmax].
  rewrite Forall_forall in Hall. specialize (Hall _ Hn). lia.
Qed.

End by_key.

Lemma by_key_ext (f g : node → Z) l : (∀ n, n ∈ l → f n = g n) → by_key f l → by_key g l.
Proof.
  unfold by_key. intros Hfg Hs. induction Hs as [|a l Hs IH Hall]; [by constructor|].
  constructor; [apply IH; set_solver|]. rewrite Forall_forall in Hall |- *.
  intros y Hy. rewrite <- !Hfg by set_solver. by apply Hall.
Qed.

(** ** The invariant *)

Section invariant.
Context {CB : CborLib} {X : Type} (env : IndexEnv X).
Implicit Types (s : Index X) (p q : ptr) (n c : node) (r : DataRef).

Definition id_of s n : Z := match ix_buckets s !! n with Some b => b_id b | None => 0 end.

(** A reference sits in the bucket it points to. *)
Definition placed s p r : Prop :=
  ∃ n b, dr_bucketNode r = Some n ∧ n ∈ ix_blist s ∧ ix_buckets s !! n = Some b ∧
         p ∈ b_entries b ∧ dr_BucketID r = b_id b.

(** [P] are references of the table that are not placed yet and [h] a node whose
    bucket may still be empty: both arise in the middle of an operation. *)
Record lfu (P : gset ptr) (h : option node) s : Prop := {
  lfu_sorted : by_key (id_of s) (ix_blist s);
  lfu_fresh : ∀ n, n ∈ ix_blist s → (n < ix_next s)%nat;
  lfu_bucket : ∀ n, n ∈ ix_blist s →
    ∃ b, ix_buckets s !! n = Some b ∧ (Some n ≠ h → b_entries b ≠ ∅);
  lfu_ref : ∀ k p, ix_Refs s !! k = Some p →
    ∃ r, ix_heap s !! p = Some r ∧ ie_String env (dr_PayloadCID r) = k ∧ (p ∉ P → placed s p r);
  lfu_entry : ∀ n b p, n ∈ ix_blist s → ix_buckets s !! n = Some b → p ∈ b_entries b →
    p ∉ P ∧ ∃ r, ix_heap s !! p = Some r ∧
      ix_Refs s !! ie_String env (dr_PayloadCID r) = Some p ∧ dr_bucketNode r = Some n
}.

(** Between operations nothing is pending. *)
Definition lfu_ok s : Prop := lfu ∅ None s.

(** The part of the state the invariant is about. *)
Definition core s := (ix_blist s, ix_buckets s, ix_heap s, ix_Refs s, ix_next s).
Definition same_core s s' : Prop := core s' = core s.

#[export] Instance same_core_refl : Reflexive same_core.
Proof. done. Qed.
#[export] Instance same_core_trans : Transitive same_core.
Proof. unfold same_core. intros ???. congruence. Qed.
#[export] Instance same_core_pre : PreOrder same_core.
Proof. by split; typeclasses eauto. Qed.

Lemma lfu_core P h s s' : same_core s s' → lfu P h s → lfu P h s'.
Proof.
  unfold same_core, core. intros [= E1 E2 E3 E4 E5] [H1 H2 H3 H4 H5].
  split; unfold placed, id_of in *; rewrite ?E1, ?E2, ?E3, ?E4, ?E5; done.
Qed.

(** *** One change at a time *)

Definition insert_node (place : node → list node → list node) (id : Z) s : Index X :=
  set_ix_blist (place (ix_next s) (ix_blist s))
    (set_ix_buckets (<[ix_next s := newBucket id]> (ix_buckets s)) (set_ix_next (S (ix_next s)) s)).

Definition rem_entry n p s : Index X :=
  let b := default (newBucket 0) (ix_buckets s !! n) in
  let entries := b_entries b ∖ {[p]} in
  let s' := set_ix_buckets (<[n := MkBucket (b_id b) entries]> (ix_buckets s)) s in
  if bool_decide (entries = ∅) then set_ix_blist (list_remove n (ix_blist s)) s' else s'.

Definition add_ref n p r s : Index X :=
  let b := default (newBucket 0) (ix_buckets s !! n) in
  set_ix_buckets (<[n := MkBucket (b_id b) ({[p]} ∪ b_entries b)]> (ix_buckets s))
    (set_ix_heap (<[p := set_dr_bucketNode (Some n) (set_dr_BucketID (b_id b) r)]> (ix_heap s)) s).

Lemma insert_node_ok P s place id :
  lfu P None s →
  (∀ f : node → Z, by_key f (ix_blist s) → (∀ n, n ∈ ix_blist s → f n = id_of s n) →
     f (ix_next s) = id → by_key f (place (ix_next s) (ix_blist s))) →
  (∀ y, y ∈ place (ix_next s) (ix_blist s) ↔ y = ix_next s ∨ y ∈ ix_blist s) →
  lfu P (Some (ix_next s)) (insert_node place id s).
Proof.
  intros [H1 H2 H3 H4 H5] Hsort Helem.
  assert (∀ n, n ∈ ix_blist s → ix_next s ≠ n) as Hne by (intros n Hn%H2; lia).
  assert (∀ n, n ∈ ix_blist s →
            <[ix_next s := newBucket id]> (ix_buckets s) !! n = ix_buckets s !! n) as Hlk
    by (intros n Hn; rewrite lookup_insert_ne; auto).
  split; simpl.
  - apply Hsort.
    + apply (by_key_ext (id_of s)); [|done]. intros n Hn. unfold id_of. simpl. by rewrite Hlk.
    + intros n Hn. unfold id_of. simpl. by rewrite Hlk.
    + unfold id_of. simpl. by rewrite lookup_insert_eq.
  - intros n [->|Hn%H2]%Helem; lia.
  - intros n [->|Hn]%Helem; [rewrite lookup_insert_eq; by eexists|].
    rewrite Hlk by done. destruct (H3 _ Hn) as (b & Hb & He). exists b. split; [done|].
    intros _. by apply He.
  - intros k p Hk. destruct (H4 _ _ Hk) as (r & Hr & Hs & Hp). exists r. split_and!; [done..|].
    intros HP. destruct (Hp HP) as (n & b & ? & Hn & Hb & ? & ?). exists n, b. simpl.
    rewrite Hlk by done. split_and!; try done. apply Helem. by right.
  - intros n b p [->|Hn]%Helem; [rewrite lookup_insert_eq; intros [= <-]; set_solver|].
    rewrite Hlk by done. by apply H5.
Qed.

(** Taking a placed reference out of its bucket makes it pending. *)
Lemma rem_entry_ok P h s n p r :
  lfu P h s → ix_Refs s !! ie_String env (dr_PayloadCID r) = Some p → p ∉ P →
  ix_heap s !! p = Some r → dr_bucketNode r = Some n → Some n ≠ h →
  lfu ({[p]} ∪ P) h (rem_entry n p s).
Proof.
  intros [H1 H2 H3 H4 H5] Hk HP Hr Hn Hh.
  destruct (H4 _ _ Hk) as (r' & Hr' & _ & Hp). simplify_eq.
  destruct (Hp HP) as (n' & b & Hn' & Hin & Hb & Hpb & Hid). simplify_eq.
  assert (∀ l m, (if bool_decide (b_entries b ∖ {[p]} = ∅) then list_remove n l else l) = m →
            ∀ y, y ∈ m ↔ y ∈ l ∧ (y = n → b_entries b ∖ {[p]} ≠ ∅)) as Hmem.
  { intros l m <- y. case_bool_decide as Hb'; [rewrite elem_list_remove|]; naive_solver. }
  assert (rem_entry n p s = set_ix_blist
            (if bool_decide (b_entries b ∖ {[p]} = ∅) then list_remove n (ix_blist s) else ix_blist s)
            (set_ix_buckets (<[n := MkBucket (b_id b) (b_entries b ∖ {[p]})]> (ix_buckets s)) s))
    as -> by (unfold rem_entry; rewrite Hb; simpl; by destruct s, (bool_decide _)).
  specialize (Hmem (ix_blist s) _ eq_refl).
  split; simpl.
  - apply (by_key_ext (id_of s)).
    + intros y _. unfold id_of. simpl. destruct (decide (y = n)) as [->|Hne].
      * by rewrite lookup_insert_eq, Hb.
      * by rewrite lookup_insert_ne.
    + case_bool_decide; [by apply by_key_remove|done].
  - intros y [Hy _]%Hmem. by apply H2.
  - intros y [Hy Hyn]%Hmem. destruct (decide (y = n)) as [->|Hne].
    + rewrite lookup_insert_eq. eexists. split; [done|]. simpl. auto.
    + rewrite lookup_insert_ne by done. by apply H3.
  - intros k q Hq. destruct (H4 _ _ Hq) as (rq & Hrq & Hsq & Hpq). exists rq. split_and!; [done..|].
    intros Hnq. destruct Hpq as (m & bm & Hm & Hml & Hbm & Hqb & Hidq); [set_solver|].
    destruct (decide (m = n)) as [->|Hne].
    + simplify_eq. assert (q ∈ b_entries b ∖ {[p]}) as Hq' by set_solver.
      exists n, (MkBucket (b_id b) (b_entries b ∖ {[p]})). simpl. rewrite lookup_insert_eq.
      split_and!; try done. apply Hmem. split; [done|]. intros _ E. rewrite E in Hq'. set_solver.
    + exists m, bm. simpl. rewrite lookup_insert_ne by done. split_and!; try done.
      by apply Hmem.
  - intros m bm q [Hm _]%Hmem. destruct (decide (m = n)) as [->|Hne].
    + rewrite lookup_insert_eq. intros [= <-]. simpl. intros [Hq Hqp]%elem_of_difference.
      destruct (H5 _ _ _ Hm Hb Hq) as [HqP Hrest]. split; [set_solver|done].
    + rewrite lookup_insert_ne by done. intros Hbm Hq.
      destruct (H5 _ _ _ Hm Hbm Hq) as [HqP (rq & Hrq & Hkq & Hnq)].
      split; [|by eauto]. intros [->%elem_of_singleton|?]%elem_of_union; [|done].
      by simplify_eq.
Qed.

(** Placing a pending reference in a bucket of the list. *)
Lemma add_ref_ok P h s n p r :
  lfu ({[p]} ∪ P) h s → p ∉ P → ix_Refs s !! ie_String env (dr_PayloadCID r) = Some p →
  n ∈ ix_blist s → h = None ∨ h = Some n → lfu P None (add_ref n p r s).
Proof.
  intros [H1 H2 H3 H4 H5] HP Hk Hn Hh.
  destruct (H3 _ Hn) as (b & Hb & _). unfold add_ref. rewrite Hb. simpl.
  set (r' := set_dr_bucketNode (Some n) (set_dr_BucketID (b_id b) r)).
  assert (∀ m bm q, m ∈ ix_blist s → ix_buckets s !! m = Some bm → q ∈ b_entries bm → q ≠ p) as Hnp.
  { intros m bm q Hm Hbm Hq ->. destruct (H5 _ _ _ Hm Hbm Hq). set_solver. }
  split; simpl.
  - apply (by_key_ext (id_of s)); [|done]. intros m _. unfold id_of. simpl.
    destruct (decide (m = n)) as [->|Hne]; [by rewrite lookup_insert_eq, Hb|].
    by rewrite lookup_insert_ne.
  - done.
  - intros m Hm. destruct (decide (m = n)) as [->|Hne].
    + rewrite lookup_insert_eq. eexists. split; [done|]. simpl. set_solver.
    + rewrite lookup_insert_ne by done. destruct (H3 _ Hm) as (bm & Hbm & He). exists bm.
      split; [done|]. intros _. apply He. destruct Hh as [->| ->]; congruence.
  - intros k q Hq. destruct (decide (q = p)) as [->|Hqp].
    + destruct (H4 _ _ Hq) as (r0 & Hr0 & Hs0 & _). destruct (H4 _ _ Hk) as (r1 & Hr1 & Hs1 & _).
      exists r'. rewrite lookup_insert_eq. split_and!; [done|simpl; congruence|].
      intros _. exists n, (MkBucket (b_id b) ({[p]} ∪ b_entries b)). simpl.
      rewrite lookup_insert_eq. split_and!; try done. set_solver.
    + destruct (H4 _ _ Hq) as (rq & Hrq & Hsq & Hpq). exists rq. rewrite lookup_insert_ne by done.
      split_and!; [done..|]. intros HqP.
      destruct Hpq as (m & bm & Hm & Hml & Hbm & Hqb & Hidq); [set_solver|].
      destruct (decide (m = n)) as [->|Hne].
      * simplify_eq. exists n, (MkBucket (b_id b) ({[p]} ∪ b_entries b)). simpl.
        rewrite lookup_insert_eq. split_and!; try done. set_solver.
      * exists m, bm. simpl. by rewrite lookup_insert_ne.
  - intros m bm q Hm Hbm Hq. destruct (decide (m = n)) as [->|Hne].
    + rewrite lookup_insert_eq in Hbm. injection Hbm as <-. simpl in Hq.
      destruct (decide (q = p)) as [->|Hqp].
      * split; [done|]. exists r'. by rewrite lookup_insert_eq.
      * assert (q ∈ b_entries b) as Hqb by set_solver. destruct (H5 _ _ _ Hn Hb Hqb) as [HqP Hrest].
        split; [set_solver|]. by rewrite lookup_insert_ne.
    + rewrite lookup_insert_ne in Hbm by done. pose proof (Hnp _ _ _ Hm Hbm Hq).
      destruct (H5 _ _ _ Hm Hbm Hq) as [HqP Hrest]. split; [set_solver|].
      by rewrite lookup_insert_ne.
Qed.

(** A pending reference that leaves the table. *)
Lemma drop_pending P h s k p :
  lfu ({[p]} ∪ P) h s → ix_Refs s !! k = Some p → p ∉ P →
  lfu P h (set_ix_Refs (delete k (ix_Refs s)) s).
Proof.
  intros [H1 H2 H3 H4 H5] Hk HP. split; simpl; [done..| |].
  - intros k' q [Hne Hq]%lookup_delete_Some. destruct (H4 _ _ Hq) as (rq & Hrq & Hsq & Hpq).
    exists rq. split_and!; [done..|]. intros HqP. apply Hpq.
    intros [->%elem_of_singleton|?]%elem_of_union; [|done].
    destruct (H4 _ _ Hk) as (r' & Hr' & Hs' & _). congruence.
  - intros n b q Hn Hb Hq. destruct (H5 _ _ _ Hn Hb Hq) as (HqP & rq & Hrq & Hkq & Hnq).
    split; [set_solver|]. exists rq. split_and!; [done| |done].
    rewrite lookup_delete_ne; [done|]. intros ->. rewrite Hkq in Hk. injection Hk as ->. set_solver.
Qed.

(** A reference that is nowhere enters the table. *)
Lemma enter_pending s k p r :
  lfu_ok s → ix_Refs s !! k = None → ix_heap s !! p = Some r →
  ie_String env (dr_PayloadCID r) = k → dr_bucketNode r = None →
  lfu {[p]} None (set_ix_Refs (<[k := p]> (ix_Refs s)) s).
Proof.
  intros [H1 H2 H3 H4 H5] Hk Hr Hs Hn. split; simpl; [done..| |].
  - intros k' q. destruct (decide (k' = k)) as [->|Hne].
    + rewrite lookup_insert_eq. intros [= <-]. exists r. split_and!; [done..|set_solver].
    + rewrite lookup_insert_ne by done. intros Hq.
      destruct (H4 _ _ Hq) as (rq & Hrq & Hsq & Hpq). exists rq. split_and!; [done..|].
      intros _. apply Hpq. set_solver.
  - intros n b q Hnb Hb Hq. destruct (H5 _ _ _ Hnb Hb Hq) as (_ & rq & Hrq & Hkq & Hnq).
    split; [intros ->%elem_of_singleton; congruence|]. exists rq. split_and!; [done| |done].
    rewrite lookup_insert_ne; [done|]. congruence.
Qed.

(** *** Reading a reference *)

Lemma remBlistEntry_run s n p b :
  ix_buckets s !! n = Some b → remBlistEntry n p s = (rem_entry n p s, Ok tt).
Proof.
  intros Hb. unfold remBlistEntry, rem_entry, go_bind, bucket_at. rewrite Hb. simpl.
  by case_bool_decide.
Qed.

Lemma insert_bucket_run s place id :
  insert_bucket place (newBucket id) s = (insert_node place id s, Ok (ix_next s)).
Proof. done. Qed.

(** Adding to one bucket and removing from another commute. *)
Lemma rem_add_comm s c n p r b :
  c ≠ n → ix_buckets s !! c = Some b →
  rem_entry c p (add_ref n p r s) = add_ref n p r (rem_entry c p s).
Proof.
  intros Hne Hb. unfold rem_entry, add_ref. simpl.
  rewrite !lookup_insert_ne, Hb by done. simpl.
  case_bool_decide; simpl; rewrite ?lookup_insert_ne by done; destruct s; simpl;
    unfold set_ix_buckets, set_ix_heap, set_ix_blist; simpl; by rewrite insert_insert_ne.
Qed.

(** Where a read moves a reference: an existing bucket or a new one. *)
Definition read_target s c id : Index X * node :=
  match list_next c (ix_blist s) with
  | Some n => if id_of s n =? id then (s, n) else (insert_node (insert_after c) id s, ix_next s)
  | None => (insert_node (insert_after c) id s, ix_next s)
  end.

Lemma read_target_ok s c b id :
  lfu_ok s → c ∈ ix_blist s → ix_buckets s !! c = Some b → id = b_id b + 1 →
  let '(s1, n) := read_target s c id in
  lfu ∅ (Some n) s1 ∧ n ∈ ix_blist s1 ∧ c ∈ ix_blist s1 ∧ n ≠ c ∧ ix_buckets s1 !! c = Some b ∧
  id_of s1 n = id ∧ ix_heap s1 = ix_heap s ∧ ix_Refs s1 = ix_Refs s.
Proof.
  intros Hok Hc Hb ->. pose proof Hok as [H1 H2 H3 _ _].
  assert (id_of s c = b_id b) as Hid by (unfold id_of; by rewrite Hb).
  pose proof (list_next_spec (id_of s) c (ix_blist s) H1 Hc) as Hnext.
  assert ((∀ y, y ∈ ix_blist s → b_id b < id_of s y → b_id b + 1 < id_of s y) →
          lfu ∅ (Some (ix_next s)) (insert_node (insert_after c) (b_id b + 1) s) ∧
          ix_next s ∈ insert_after c (ix_next s) (ix_blist s) ∧
          c ∈ insert_after c (ix_next s) (ix_blist s) ∧ ix_next s ≠ c ∧
          <[ix_next s := newBucket (b_id b + 1)]> (ix_buckets s) !! c = Some b ∧
          id_of (insert_node (insert_after c) (b_id b + 1) s) (ix_next s) = b_id b + 1 ∧
          ix_heap s = ix_heap s ∧ ix_Refs s = ix_Refs s) as Hnew.
  { intros Hup. assert (ix_next s ≠ c) as Hne by (pose proof (H2 _ Hc); lia).
    split_and!; try done.
    - apply insert_node_ok; [done| |intros y; exact (elem_insert_after _ _ _ _ Hc)].
      intros f Hf Hfs Hfn. apply by_key_insert_after; [done|done| |].
      + rewrite Hfn, Hfs by done. lia.
      + intros y Hy. rewrite Hfn, !Hfs, Hid by done. by apply Hup.
    - apply (elem_insert_after _ _ _ _ Hc). by left.
    - apply (elem_insert_after _ _ _ _ Hc). by right.
    - by rewrite lookup_insert_ne.
    - unfold id_of. simpl. by rewrite lookup_insert_eq. }
  unfold read_target. destruct (list_next c (ix_blist s)) as [n|].
  - destruct Hnext as (Hn & Hlt & Hmin). destruct (Z.eqb_spec (id_of s n) (b_id b + 1)) as [E|E].
    + split_and!; try done; [|intros ->; lia].
      destruct Hok as [? ? H3' ? ?]. split; try done.
      intros m Hm. destruct (H3' _ Hm) as (bm & Hbm & He). exists bm. split; [done|].
      intros _. by apply He.
    + apply Hnew. intros y Hy Hly. destruct (Hmin y Hy) as [->|?]; lia.
  - apply Hnew. intros y Hy Hly. specialize (Hnext y Hy). lia.
Qed.

(** The reference after one more read. *)
Definition read_ref r n id : DataRef :=
  MkDataRef (dr_PayloadCID r) (dr_PayloadSize r) (dr_Keys r) (i64 (u64 (dr_Freq r + 1))) id (Some n).

Lemma increment_run s p r c b :
  lfu_ok s → ix_heap s !! p = Some r → dr_bucketNode r = Some c → c ∈ ix_blist s →
  ix_buckets s !! c = Some b → is_i64 (b_id b + 1) →
  let '(s1, n) := read_target s c (b_id b + 1) in
  increment p s = (rem_entry c p (add_ref n p (set_dr_Freq (i64 (u64 (dr_Freq r + 1))) r) s1), Ok tt).
Proof.
  intros Hok Hr Hn Hc Hb Hid.
  pose proof (read_target_ok s c b _ Hok Hc Hb eq_refl) as Hrt.
  assert (∀ n b2, ix_buckets s !! n = Some b2 → id_of s n = b_id b2) as Hidof
    by (intros n b2 E; unfold id_of; by rewrite E).
  unfold increment, next_place, deref, go_bind, go_get, go_ret. rewrite Hr, Hn. unfold bucket_at.
  rewrite Hb. cbn [fst snd]. rewrite i64_u64 by done. unfold read_target in *.
  assert (bool_decide (c ∈ ix_blist s) = true) as Hbd by (by apply bool_decide_eq_true_2).
  assert (∀ n, n ∈ ix_blist s → n ≠ c → id_of s n = b_id b + 1 →
    ix_buckets (add_ref n p (set_dr_Freq (i64 (u64 (dr_Freq r + 1))) r) s) !! c = Some b) as Hca.
  { intros n Hnl Hne _. unfold add_ref. simpl. by rewrite lookup_insert_ne. }
  destruct (list_next c (ix_blist s)) as [n|] eqn:Enext.
  - pose proof (list_next_spec (id_of s) c (ix_blist s) (lfu_sorted _ _ _ Hok) Hc) as Hnx.
    rewrite Enext in Hnx. destruct Hnx as (Hnl & Hlt & _).
    destruct (lfu_bucket _ _ _ Hok _ Hnl) as (b2 & Hb2 & _). rewrite Hb2, (Hidof _ _ Hb2) in *.
    destruct (Z.eqb_spec (b_id b2) (b_id b + 1)) as [E|E].
    + destruct Hrt as (_ & _ & _ & Hne & _). cbn [put_ref go_modify].
      unfold add_to_bucket, put_ref, put_bucket, go_modify, go_bind, bucket_at. simpl. rewrite Hb2.
      erewrite remBlistEntry_run by (simpl; rewrite lookup_insert_ne; [exact Hb|done]).
      unfold add_ref. rewrite Hb2. simpl. by rewrite E.
    + rewrite Hbd. rewrite insert_bucket_run. cbn beta iota zeta.
      unfold add_to_bucket, put_ref, put_bucket, go_modify, go_bind, bucket_at. simpl.
      rewrite lookup_insert_eq.
      erewrite remBlistEntry_run
        by (simpl; rewrite lookup_insert_ne; [exact (proj1 (proj2 (proj2 (proj2 (proj2 Hrt)))))|];
            exact (proj1 (proj2 (proj2 (proj2 Hrt))))).
      unfold add_ref. simpl. by rewrite lookup_insert_eq.
  - rewrite Hbd. rewrite insert_bucket_run. cbn beta iota zeta.
    unfold add_to_bucket, put_ref, put_bucket, go_modify, go_bind, bucket_at. simpl.
    rewrite lookup_insert_eq.
    erewrite remBlistEntry_run
      by (simpl; rewrite lookup_insert_ne; [exact (proj1 (proj2 (proj2 (proj2 (proj2 Hrt)))))|];
          exact (proj1 (proj2 (proj2 (proj2 Hrt))))).
    unfold add_ref. simpl. by rewrite lookup_insert_eq.
Qed.

(** What an operation on the list leaves alone. *)
Definition same_rest s s' : Prop :=
  ix_ext s' = ix_ext s ∧ ix_ub s' = ix_ub s ∧ ix_lb s' = ix_lb s ∧ ix_size s' = ix_size s ∧
  ix_gcSet s' = ix_gcSet s ∧ ix_rootCID s' = ix_rootCID s ∧ ix_freqs s' = ix_freqs s ∧
  ix_entries s' = ix_entries s ∧ ix_interest s' = ix_interest s ∧
  (ix_next s ≤ ix_next s')%nat.

Lemma same_rest_entries s s1 c n p r :
  same_rest s s1 → same_rest s (rem_entry c p (add_ref n p r s1)).
Proof. unfold same_rest, rem_entry, add_ref. intros. by case_bool_decide. Qed.

Lemma read_target_rest s c id : same_rest s (read_target s c id).1.
Proof. unfold read_target, same_rest. repeat case_match; simpl; split_and!; auto. Qed.

Lemma rem_entry_heap c p s : ix_heap (rem_entry c p s) = ix_heap s.
Proof. unfold rem_entry. by case_bool_decide. Qed.

Lemma rem_entry_Refs c p s : ix_Refs (rem_entry c p s) = ix_Refs s.
Proof. unfold rem_entry. by case_bool_decide. Qed.

Lemma rem_entry_blist c p s n : n ≠ c → n ∈ ix_blist s → n ∈ ix_blist (rem_entry c p s).
Proof. unfold rem_entry. case_bool_decide; [|done]. intros. by apply elem_list_remove. Qed.

(** Reading a placed reference moves it one bucket up. *)
Lemma increment_placed_ok s p r :
  lfu_ok s → ix_Refs s !! ie_String env (dr_PayloadCID r) = Some p → ix_heap s !! p = Some r →
  is_i64 (dr_BucketID r + 1) →
  ∃ s' n, increment p s = (s', Ok tt) ∧ lfu_ok s' ∧
    ix_heap s' = <[p := read_ref r n (dr_BucketID r + 1)]> (ix_heap s) ∧
    ix_Refs s' = ix_Refs s ∧ same_rest s s'.
Proof.
  intros Hok Hk Hr Hid. destruct (lfu_ref _ _ _ Hok _ _ Hk) as (r' & Hr' & _ & Hp). simplify_eq.
  destruct (Hp (not_elem_of_empty _)) as (c & b & Hn & Hc & Hb & Hpb & Hbid).
  rewrite Hbid in *. pose proof (read_target_ok s c b _ Hok Hc Hb eq_refl) as Hrt.
  pose proof (increment_run s p r c b Hok Hr Hn Hc Hb Hid) as Hrun.
  pose proof (read_target_rest s c (b_id b + 1)) as Hrest.
  destruct (read_target s c (b_id b + 1)) as [s1 n].
  destruct Hrt as (Hl & Hn1 & Hc1 & Hne & Hb1 & Hid1 & Hheap & HRefs). simpl in Hrest.
  rewrite <- HRefs in Hk. rewrite <- Hheap in Hr.
  eexists _, n. split; [exact Hrun|]. split_and!.
  - rewrite (rem_add_comm _ _ _ _ _ b) by done.
    apply (add_ref_ok ∅ (Some n)); simpl.
    + rewrite union_empty_r_L. rewrite <- (union_empty_r_L {[p]}).
      by apply (rem_entry_ok _ _ _ _ _ r); [..|congruence].
    + set_solver.
    + by rewrite rem_entry_Refs.
    + by apply rem_entry_blist.
    + by right.
  - rewrite rem_entry_heap. unfold add_ref. simpl. rewrite Hheap. unfold read_ref.
    destruct (lfu_bucket _ _ _ Hl _ Hn1) as (b2 & Hb2 & _). unfold id_of in Hid1.
    rewrite Hb2 in *. simpl. by rewrite Hid1.
  - rewrite rem_entry_Refs. done.
  - by apply same_rest_entries.
Qed.

(** A new reference joins the most read bucket. *)
Lemma increment_new_ok s p r :
  lfu {[p]} None s → ix_Refs s !! ie_String env (dr_PayloadCID r) = Some p →
  ix_heap s !! p = Some r → dr_bucketNode r = None →
  ∃ s' n id, increment p s = (s', Ok tt) ∧ lfu_ok s' ∧
    ix_heap s' = <[p := set_dr_bucketNode (Some n) (set_dr_BucketID id r)]> (ix_heap s) ∧
    ix_Refs s' = ix_Refs s ∧ same_rest s s' ∧
    id = match last (ix_blist s) with Some m => id_of s m | None => 1 end.
Proof.
  intros Hok Hk Hr Hn. unfold increment, next_place, deref, go_bind, go_get, go_ret.
  rewrite Hr, Hn. destruct r as [rc rs rk rf ri rn]. simpl in *. subst rn.
  destruct (last (ix_blist s)) as [n|] eqn:El.
  - apply (last_max (id_of s)) in El as [Hnl _]; [|apply Hok].
    destruct (lfu_bucket _ _ _ Hok _ Hnl) as (b & Hb & _). unfold bucket_at. rewrite Hb.
    cbn [fst snd]. rewrite Hb. rewrite Z.eqb_refl. cbn beta iota zeta.
    unfold add_to_bucket, put_ref, put_bucket, go_modify, go_bind, bucket_at. simpl. rewrite Hb.
    eexists _, n, (b_id b). split; [reflexivity|]. split_and!; try done.
    + pose proof (add_ref_ok ∅ None s n p (MkDataRef rc rs rk rf ri None)) as H.
      unfold add_ref in H. rewrite Hb in H. simpl in H.
      apply H; [by rewrite union_empty_r_L|set_solver|done|done|by left].
    + unfold id_of. by rewrite Hb.
  - apply last_None in El. cbn [fst snd]. unfold go_ret. cbn beta iota zeta. rewrite ?insert_bucket_run. cbn beta iota zeta.
    unfold add_to_bucket, put_ref, put_bucket, go_modify, go_bind, bucket_at. simpl.
    rewrite lookup_insert_eq.
    eexists _, (ix_next s), 1. split; [reflexivity|]. split_and!; try done; [|unfold same_rest; simpl; split_and!; auto].
    assert (lfu {[p]} (Some (ix_next s)) (insert_node push_front 1 s)) as H1.
    { apply insert_node_ok; [done| |].
      - intros f _ _ _. rewrite El. by repeat constructor.
      - intros y. unfold push_front. by rewrite elem_of_cons. }
    pose proof (add_ref_ok ∅ (Some (ix_next s)) (insert_node push_front 1 s) (ix_next s) p
                  (MkDataRef rc rs rk rf ri None)) as H. unfold add_ref in H. simpl in H.
    rewrite lookup_insert_eq in H. simpl in H. rewrite insert_insert_eq in H |- *.
    apply H; [by rewrite union_empty_r_L|set_solver|done|by left|by right].
Qed.

(** *** Eviction *)

(** Everything in memory but the set of tagged blocks and the root. *)
Definition mem s :=
  (core s, (ix_ub s, ix_lb s, ix_size s), (ix_freqs s, ix_entries s, ix_interest s)).
Definition same_mem s s' : Prop := mem s' = mem s.

#[export] Instance same_mem_pre : PreOrder same_mem.
Proof. unfold same_mem. split; [by intros s|intros ???; congruence]. Qed.

Lemma same_mem_parts s s' :
  same_mem s s' → same_core s s' ∧ ix_size s' = ix_size s ∧ ix_interest s' = ix_interest s.
Proof.
  unfold same_mem, mem. intros H. split; [exact (f_equal (λ t, t.1.1) H)|].
  split; [exact (f_equal (λ t, t.1.2.2) H)|exact (f_equal (λ t, t.2.2) H)].
Qed.

Lemma on_ext_mem {A} (m : go X error A) : keeps same_mem (on_ext m).
Proof. intros s. unfold on_ext. by destruct (m (ix_ext s)). Qed.

(** Everything but the external state and the set of tagged blocks. *)
Definition tagged s s' : Prop :=
  core s' = core s ∧ ix_ub s' = ix_ub s ∧ ix_lb s' = ix_lb s ∧ ix_size s' = ix_size s ∧
  ix_rootCID s' = ix_rootCID s ∧ ix_freqs s' = ix_freqs s ∧ ix_entries s' = ix_entries s ∧
  ix_interest s' = ix_interest s ∧ ix_gcSet s ⊆ ix_gcSet s'.

Lemma tagForGC_tagged p s s' res : tagForGC env p s = (s', res) → tagged s s'.
Proof.
  unfold tagForGC, go_bind, deref, on_ext. destruct (ix_heap s !! p) as [rp|].
  2: { intros [= <- _]. by unfold tagged. }
  destruct (ie_WalkDAG env (dr_PayloadCID rp) (ix_ext s)) as [x [w| | |]];
    [|intros [= <- _]; by unfold tagged..].
  cbn [go_modify]. unfold go_modify. destruct w.2; intros [= <- _]; unfold tagged; simpl; set_solver.
Qed.

(** The references of [l] and their sizes. *)
Definition ref_size s p : Z := match ix_heap s !! p with Some r => u64 (dr_PayloadSize r) | None => 0 end.
Definition sizes s (l : list ptr) : Z := sumZ (ref_size s) l.

(** [l] was evicted from [place]. *)
Record evicted s s' place (l : list ptr) : Prop := {
  ev_heap : ix_heap s' = ix_heap s;
  ev_next : ix_next s' = ix_next s;
  ev_bounds : ix_ub s' = ix_ub s ∧ ix_lb s' = ix_lb s;
  ev_Refs : ∀ k q, ix_Refs s' !! k = Some q ↔ ix_Refs s !! k = Some q ∧ q ∉ l;
  ev_size : ix_size s' = u64 (ix_size s - sizes s l);
  ev_other : ∀ n, n ≠ place → ix_buckets s' !! n = ix_buckets s !! n;
  ev_blist : ∀ n, n ≠ place → n ∈ ix_blist s' ↔ n ∈ ix_blist s;
  ev_interest : ix_freqs s' = ix_freqs s ∧ ix_entries s' = ix_entries s ∧
                ix_interest s' = ix_interest s
}.

Lemma u64_size_small s : is_u64 (ix_size s) → u64 (ix_size s) = ix_size s.
Proof. apply u64_small. Qed.

Lemma rem_entry_frame c p s :
  ix_next (rem_entry c p s) = ix_next s ∧ ix_ub (rem_entry c p s) = ix_ub s ∧
  ix_lb (rem_entry c p s) = ix_lb s ∧ ix_size (rem_entry c p s) = ix_size s ∧
  ix_freqs (rem_entry c p s) = ix_freqs s ∧ ix_entries (rem_entry c p s) = ix_entries s ∧
  ix_interest (rem_entry c p s) = ix_interest s.
Proof. unfold rem_entry. by case_bool_decide. Qed.

(** One entry. *)
Lemma evict_one P s p r place b :
  lfu P None s → place ∈ ix_blist s → ix_buckets s !! place = Some b → p ∈ b_entries b →
  ix_heap s !! p = Some r →
  let s' := rem_entry place p
              (set_ix_Refs (delete (ie_String env (dr_PayloadCID r)) (ix_Refs s)) s) in
  lfu P None s' ∧ evicted s (set_ix_size (u64 (ix_size s - u64 (dr_PayloadSize r))) s') place [p] ∧
  ix_buckets s' !! place = Some (MkBucket (b_id b) (b_entries b ∖ {[p]})) ∧
  (place ∈ ix_blist s' ↔ b_entries b ∖ {[p]} ≠ ∅).
Proof.
  intros Hok Hpl Hb Hp Hr. pose proof (lfu_entry _ _ _ Hok _ _ _ Hpl Hb Hp) as (HP & r' & Hr' & Hk & Hn).
  rewrite Hr in Hr'. injection Hr' as <-. intros s'.
  assert (s' = set_ix_Refs (delete (ie_String env (dr_PayloadCID r)) (ix_Refs (rem_entry place p s)))
                 (rem_entry place p s)) as Es.
  { unfold s', rem_entry. simpl. rewrite Hb. simpl. by case_bool_decide. }
  assert (ix_buckets s' = <[place := MkBucket (b_id b) (b_entries b ∖ {[p]})]> (ix_buckets s)) as Ebk.
  { unfold s', rem_entry. simpl. rewrite Hb. simpl. by case_bool_decide. }
  assert (ix_blist s' = if bool_decide (b_entries b ∖ {[p]} = ∅) then list_remove place (ix_blist s)
                        else ix_blist s) as Ebl.
  { unfold s', rem_entry. simpl. rewrite Hb. simpl. by case_bool_decide. }
  assert (ix_Refs s' = delete (ie_String env (dr_PayloadCID r)) (ix_Refs s)) as ERf
    by (unfold s'; by rewrite rem_entry_Refs).
  split_and!.
  - rewrite Es. eapply drop_pending; [by apply (rem_entry_ok _ _ _ _ _ r)| |done].
    by rewrite rem_entry_Refs.
  - split; simpl.
    + unfold s'. by rewrite rem_entry_heap.
    + by destruct (rem_entry_frame place p (set_ix_Refs (delete (ie_String env (dr_PayloadCID r)) (ix_Refs s)) s))
        as (? & ? & ? & ? & ? & ? & ?).
    + by destruct (rem_entry_frame place p (set_ix_Refs (delete (ie_String env (dr_PayloadCID r)) (ix_Refs s)) s))
        as (? & ? & ? & ? & ? & ? & ?).
    + intros k q. rewrite ERf. split.
      * intros [Hne Hq]%lookup_delete_Some. split; [done|]. intros ->%list_elem_of_singleton.
        destruct (lfu_ref _ _ _ Hok _ _ Hq) as (? & ? & ? & _). congruence.
      * intros [Hq Hne]. rewrite lookup_delete_ne; [done|]. intros <-. set_solver.
    + unfold sizes. simpl. unfold ref_size. rewrite Hr. f_equal. lia.
    + intros n Hne. rewrite Ebk. by rewrite lookup_insert_ne.
    + intros n Hne. rewrite Ebl. case_bool_decide; [|done]. rewrite elem_list_remove. naive_solver.
    + by destruct (rem_entry_frame place p (set_ix_Refs (delete (ie_String env (dr_PayloadCID r)) (ix_Refs s)) s))
        as (? & ? & ? & ? & ? & ? & ?).
  - rewrite Ebk. by rewrite lookup_insert_eq.
  - rewrite Ebl. case_bool_decide as E; [rewrite elem_list_remove|]; naive_solver.
Qed.

Lemma evicted_trans s s1 s2 place l1 l2 :
  evicted s s1 place l1 → evicted s1 s2 place l2 → evicted s s2 place (l1 ++ l2).
Proof.
  intros [H1 H2 [H3 H3'] H4 H5 H6 H7 (H8 & H9 & H10)] [G1 G2 [G3 G3'] G4 G5 G6 G7 (G8 & G9 & G10)].
  split; try congruence.
  - split; congruence.
  - intros k q. rewrite G4, H4, elem_of_app. naive_solver.
  - rewrite G5, H5, u64_sub_l. unfold sizes. rewrite sumZ_app. f_equal.
    assert (sumZ (ref_size s1) l2 = sumZ (ref_size s) l2) as ->; [|lia].
    unfold ref_size. by rewrite H1.
  - intros n Hn. by rewrite G6, H6.
  - intros n Hn. by rewrite G7, H7.
  - split_and!; congruence.
Qed.

Lemma evicted_nil s place : is_u64 (ix_size s) → evicted s s place [].
Proof.
  intros Hs. split; try done; [set_solver|]. unfold sizes. simpl. by rewrite Z.sub_0_r, u64_small.
Qed.

Lemma tagged_evicted s s1 s2 place l : tagged s s1 → evicted s1 s2 place l → evicted s s2 place l.
Proof.
  intros ([= E1 E2 E3 E4 E5] & E6 & E7 & E8 & _ & E9 & E10 & E11 & _)
    [H1 H2 [H3 H3'] H4 H5 H6 H7 (H8 & H9 & H10)].
  split; try congruence.
  - split; congruence.
  - intros k q. by rewrite H4, E4.
  - rewrite H5, E8. unfold sizes, ref_size. by rewrite E3.
  - intros n Hn. rewrite H6, E2 by done. done.
  - intros n Hn. rewrite H7, E1 by done. done.
  - split_and!; congruence.
Qed.

Lemma evict_bucket_ok P place size entries : ∀ e s s' e' full,
  lfu P None s → is_u64 e → is_u64 (ix_size s) → NoDup entries →
  (entries ≠ [] → place ∈ ix_blist s ∧ ∃ b, ix_buckets s !! place = Some b ∧
                    ∀ p, p ∈ b_entries b ↔ p ∈ entries) →
  evict_bucket env place size entries e s = (s', Ok (e', full)) →
  lfu P None s' ∧ is_u64 (ix_size s') ∧
  ∃ l l2, entries = l ++ l2 ∧ evicted s s' place l ∧ e' = u64 (e + sizes s l) ∧
    (if full then size <= e' else l2 = []) ∧
    (entries = [] → s' = s) ∧ (entries ≠ [] → place ∈ ix_blist s' ↔ l2 ≠ []).
Proof.
  induction entries as [|p entries IH]; intros e s s' e' full Hok He Hsz Hnd Hpl; simpl.
  - intros [-> [= -> ->]]%go_ret_ok. split; [done|]. split; [done|]. exists [], [].
    split_and!; try done; [by apply evicted_nil|]. unfold sizes. simpl. by rewrite Z.add_0_r, u64_small.
  - destruct Hpl as (Hpl & b & Hb & Hent); [done|]. inversion_clear Hnd as [|? ? Hnp Hnd'].
    assert (p ∈ b_entries b) as Hpb by (apply Hent; set_solver).
    intros (s1 & ? & Htag & H)%go_bind_ok.
    assert (tagged s s1) as Ht.
    { unfold go_try in Htag. destruct (tagForGC env p s) as [s1' [| | |]] eqn:E; simplify_eq;
        by apply tagForGC_tagged in E. }
    pose proof Ht as ([= E1 E2 E3 E4 E5] & _ & _ & E8 & _).
    assert (lfu P None s1) as Hok1 by (eapply lfu_core; [|exact Hok]; exact (proj1 Ht)).
    destruct (lfu_entry _ _ _ Hok _ _ _ Hpl Hb Hpb) as (_ & r & Hr & _).
    rewrite <- E1 in Hpl. rewrite <- E2 in Hb. rewrite <- E3 in Hr.
    unfold deref, go_bind in H. rewrite Hr in H. unfold go_modify in H. simpl in H.
    erewrite remBlistEntry_run in H by exact Hb. simpl in H.
    destruct (evict_one P s1 p r place b) as (Hok2 & Hev & Hb2 & Hpl2); [done..|].
    cbn zeta in *. set (s2 := rem_entry place p _) in *.
    assert (set_ix_size (u64 (ix_size s2 - u64 (dr_PayloadSize r))) s2
            = set_ix_size (u64 (ix_size s1 - u64 (dr_PayloadSize r))) s2) as Esz.
    { assert (ix_size s2 = ix_size s1) as ->; [|done].
      exact (proj1 (proj2 (proj2 (proj2 (rem_entry_frame place p
        (set_ix_Refs (delete (ie_String env (dr_PayloadCID r)) (ix_Refs s1)) s1)))))). }
    rewrite Esz in H. set (s3 := set_ix_size _ s2) in *.
    assert (evicted s s3 place [p]) as Hev' by (by eapply tagged_evicted).
    assert (lfu P None s3) as Hok3 by (eapply lfu_core; [|exact Hok2]; done).
    assert (is_u64 (ix_size s3)) as Hsz3 by apply u64_range.
    assert (sizes s [p] = u64 (dr_PayloadSize r)) as Esp.
    { unfold sizes, ref_size. simpl. rewrite <- E3, Hr. lia. }
    rewrite <- Esp in H. destruct (Z.leb_spec size (u64 (e + sizes s [p]))) as [Hle|Hgt].
    + apply go_ret_ok in H as [-> [= -> ->]]. split; [done|]. split; [done|].
      exists [p], entries. split_and!; try done. intros _. change (ix_blist s3) with (ix_blist s2). rewrite Hpl2.
      split; intros Hne E; apply Hne.
      * subst entries. apply set_eq. intros q. rewrite elem_of_difference, Hent. set_solver.
      * destruct entries as [|q entries]; [done|]. exfalso.
        assert (q ∈ b_entries b ∖ {[p]}); [|set_solver].
        apply elem_of_difference. split; [apply Hent; set_solver|]. set_solver.
    + apply IH in H as (Hok' & Hsz' & l & l2 & -> & Hev2 & -> & Hfull & Hsame & Hin); [|done|apply u64_range|done|done|].
      2: { intros Hne. split.
           - apply Hpl2. intros E. destruct entries as [|q entries]; [done|].
             assert (q ∈ b_entries b ∖ {[p]}); [|set_solver].
             apply elem_of_difference. split; [apply Hent; set_solver|]. set_solver.
           - eexists. split; [exact Hb2|]. intros q. simpl. rewrite elem_of_difference, Hent. set_solver. }
      split; [done|]. split; [done|]. exists (p :: l), l2.
      assert (sizes s3 l = sizes s l) as Esl.
      { unfold sizes, ref_size. by rewrite (ev_heap _ _ _ _ Hev'). }
      assert (evicted s s' place (p :: l)) as Hevs by exact (evicted_trans _ _ _ _ [p] l Hev' Hev2).
      split_and!; [done|done| | |done|].
      * rewrite u64_add_l, Esl. f_equal. unfold sizes. simpl. lia.
      * done.
      * intros _. destruct (l ++ l2) as [|q rest] eqn:El.
        -- destruct l; [|done]. simpl in El. subst l2. rewrite Hsame by done.
           change (ix_blist s3) with (ix_blist s2). rewrite Hpl2. split; [|done]. intros Hne _.
           apply Hne, set_eq. intros q. rewrite elem_of_difference, Hent. set_solver.
        -- by apply Hin.
Qed.

(** The entries of a bucket are enumerated in some order, each once. *)
Class RangeOrder (range : gset ptr → list ptr) : Prop :=
  range_perm : ∀ e, range e ≡ₚ elements e.

Context (range : gset ptr → list ptr) {RO : RangeOrder range}.

Lemma elem_range e p : p ∈ range e ↔ p ∈ e.
Proof. by rewrite range_perm, elem_of_elements. Qed.

Lemma NoDup_range e : NoDup (range e).
Proof. rewrite range_perm. apply NoDup_elements. Qed.

(** What an eviction did: nothing on an empty list, otherwise it took entries of
    the first bucket, until the target was met or the bucket was empty. *)
Definition eviction s s' (size e : Z) : Prop :=
  match ix_blist s with
  | [] => s' = s ∧ e = 0
  | place :: _ => ∃ b l l2, ix_buckets s !! place = Some b ∧ range (b_entries b) = l ++ l2 ∧
      evicted s s' place l ∧ e = u64 (sizes s l) ∧ (size <= e ∨ l2 = [])
  end.

Lemma evict_ok P s s' size e :
  lfu P None s → is_u64 (ix_size s) → evict env range size s = (s', Ok e) →
  lfu P None s' ∧ is_u64 (ix_size s') ∧ eviction s s' size e.
Proof.
  intros Hok Hsz. unfold evict, eviction, go_bind, go_get.
  destruct (ix_blist s) as [|place places] eqn:Ebl; simpl; [by intros [= <- <-]|].
  assert (place ∈ ix_blist s) as Hpl by (rewrite Ebl; set_solver).
  destruct (lfu_bucket _ _ _ Hok _ Hpl) as (b & Hb & Hne).
  unfold bucket_at, go_bind. rewrite Hb.
  destruct (evict_bucket _ _ _ _ _ s) as [s1 [[e1 full]| | |]] eqn:Eb; try done.
  apply (evict_bucket_ok P) in Eb as (Hok1 & Hsz1 & l & l2 & Hl & Hev & He & Hfull & _ & Hin);
    [|done|by unfold is_u64, two64|done|apply NoDup_range|].
  2: { intros _. split; [done|]. exists b. split; [done|]. intros p. by rewrite elem_range. }
  rewrite Z.add_0_l in He. simpl. destruct full.
  - intros [-> ->]%go_ret_ok. split; [done|]. split; [done|]. exists b, l, l2. split_and!; try done. by left.
  - subst l2. unfold go_get.
    assert (range (b_entries b) ≠ []) as Hrn.
    { intros E. apply Hne; [done|]. apply set_eq. intros q. rewrite <- elem_range, E. set_solver. }
    rewrite bool_decide_eq_false_2 by (intros H; by apply Hin in H).
    intros [-> ->]%go_ret_ok. split; [done|]. split; [done|]. exists b, l, []. split_and!; try done. by right.
Qed.

(** ** Operations *)

(** A reference is created and handed to [SetRef], as its callers do. *)
Definition SetNew r : go (Index X) error unit :=
  let* p := alloc_ref r in SetRef env range p.

Lemma hamt_Set_mem k r : keeps same_mem (hamt_Set env k r).
Proof. apply keeps_bind; [typeclasses eauto|apply keeps_lift, _|intros b; apply on_ext_mem]. Qed.

Lemma Flush_mem : keeps same_mem (Flush env).
Proof.
  unfold Flush. repeat (apply keeps_bind; [typeclasses eauto| |intros ?]);
    first [apply on_ext_mem|by intros s].
Qed.

Lemma persist_mem k r : keeps same_mem (do* hamt_Set env k r then Flush env).
Proof.
  apply keeps_bind; [typeclasses eauto|apply hamt_Set_mem|intros _; apply Flush_mem].
Qed.

(** Memory: every reference was allocated, and those of the interest list are not
    those of the table. *)
Record separate s : Prop := {
  sep_heap : ∀ p, is_Some (ix_heap s !! p) → (p < ix_next s)%nat;
  sep_interest : ∀ k p, ix_interest s !! k = Some p →
    is_Some (ix_heap s !! p) ∧ ∀ k', ix_Refs s !! k' ≠ Some p
}.

Record index_ok s : Prop := {
  ok_lfu : lfu_ok s;
  ok_size : is_u64 (ix_size s);
  ok_separate : separate s
}.

Lemma deref_run s p r : ix_heap s !! p = Some r → deref p s = (s, Ok r).
Proof. intros H. unfold deref. by rewrite H. Qed.

Lemma bucket_run s n b : ix_buckets s !! n = Some b → bucket_at n s = (s, Ok b).
Proof. intros H. unfold bucket_at. by rewrite H. Qed.

Lemma deref_no_error p : no_error (deref (X:=X) p).
Proof. intros s s' e. unfold deref. by destruct (ix_heap s !! p). Qed.

Lemma bucket_no_error n : no_error (bucket_at (X:=X) n).
Proof. intros s s' e. unfold bucket_at. by destruct (ix_buckets s !! n). Qed.

Lemma remBlistEntry_no_error n p : no_error (remBlistEntry (X:=X) n p).
Proof.
  apply no_error_bind; [apply bucket_no_error|intros b]. apply no_error_bind; [done|intros _].
  by apply no_error_if.
Qed.

Lemma evict_no_error size : no_error (evict env range size).
Proof.
  unfold evict. apply no_error_bind; [done|intros s0]. generalize 0. generalize (ix_blist s0).
  intros l. induction l as [|place l IH]; intros e; [done|]. simpl.
  apply no_error_bind; [apply bucket_no_error|intros b]. apply no_error_bind.
  - generalize (range (b_entries b)). clear. intros l. revert e.
    induction l as [|p l IH]; intros e; [done|]. simpl.
    apply no_error_bind; [apply no_error_try|intros _].
    apply no_error_bind; [apply deref_no_error|intros r]. apply no_error_bind; [done|intros _].
    apply no_error_bind; [apply remBlistEntry_no_error|intros _].
    apply no_error_bind; [done|intros _]. by apply no_error_if.
  - intros [e' full]. simpl. apply no_error_if; [done|].
    apply no_error_bind; [done|intros s1]. by apply no_error_if.
Qed.

(** *** Adding a reference *)

Lemma eviction_spared P s s' size e p :
  lfu P None s → eviction s s' size e → p ∈ P → ∀ k,
  ix_Refs s' !! k = Some p ↔ ix_Refs s !! k = Some p.
Proof.
  intros Hok He Hp k. unfold eviction in He.
  destruct (ix_blist s) as [|place places] eqn:Ebl; [by destruct He as [-> _]|].
  destruct He as (b & l & l2 & Hb & Hl & Hev & _). rewrite (ev_Refs _ _ _ _ Hev).
  split; [tauto|]. intros Hk. split; [done|]. intros Hpl.
  assert (p ∈ b_entries b) as Hpb by (rewrite <- elem_range, Hl; set_solver).
  destruct (lfu_entry _ _ _ Hok place b p) as [HP _]; [rewrite Ebl; set_solver|done|done|done].
Qed.

Lemma eviction_frame s s' size e :
  eviction s s' size e → ix_heap s' = ix_heap s ∧ ix_next s' = ix_next s ∧ ix_ub s' = ix_ub s ∧
  ix_lb s' = ix_lb s ∧ ix_interest s' = ix_interest s ∧
  (∀ k q, ix_Refs s' !! k = Some q → ix_Refs s !! k = Some q).
Proof.
  unfold eviction. destruct (ix_blist s); [by intros [-> _]|].
  intros (b & l1 & l2 & _ & _ & [? ? [? ?] HR ? ? ? (? & ? & ?)] & _). split_and!; try done.
  intros k q. rewrite HR. tauto.
Qed.

(** The table with the new reference and its size, before any eviction. *)
Definition entered s p r : Index X :=
  set_ix_size (u64 (ix_size s + u64 (dr_PayloadSize r)))
    (set_ix_Refs (<[ie_String env (dr_PayloadCID r) := p]> (ix_Refs s)) s).

Definition over_bound s : bool :=
  (0 <? ix_ub s) && (0 <? ix_lb s) && (ix_ub s <? ix_size s).

(** The steps of [SetRef] on a reference that is new. *)
Lemma SetRef_run s s' p r :
  lfu_ok s → ix_heap s !! p = Some r → dr_bucketNode r = None →
  ix_Refs s !! ie_String env (dr_PayloadCID r) = None → returns (SetRef env range p) s s' →
  ∃ s2 s3 n id, lfu {[p]} None s2 ∧ is_u64 (ix_size s2) ∧
    (if over_bound (entered s p r)
     then ∃ e, eviction (entered s p r) s2 (u64 (ix_size (entered s p r) - ix_lb s)) e
     else s2 = entered s p r) ∧
    lfu_ok s3 ∧ ix_Refs s3 = ix_Refs s2 ∧ same_rest s2 s3 ∧
    ix_heap s3 = <[p := set_dr_bucketNode (Some n) (set_dr_BucketID id r)]> (ix_heap s2) ∧
    (ix_next s2 ≤ ix_next s3)%nat ∧ same_mem s3 s'.
Proof.
  intros Hok Hr Hn Hk Hrun.
  assert (lfu {[p]} None (entered s p r)) as Hent.
  { eapply (lfu_core _ _ (set_ix_Refs (<[ie_String env (dr_PayloadCID r) := p]> (ix_Refs s)) s)); [done|].
    by apply (enter_pending s _ p r). }
  assert (is_u64 (ix_size (entered s p r))) as Hsz1 by apply u64_range.
  unfold SetRef in Hrun.
  eapply returns_step in Hrun; [|by apply deref_run]. cbn beta zeta in Hrun. step_ret Hrun.
  rewrite Hk, bool_decide_eq_false_2 in Hrun by (intros [? ?]; done).
  do 3 step_ret Hrun. change (set_ix_size _ _) with (entered s p r) in Hrun.
  fold (over_bound (entered s p r)) in Hrun.
  assert (∃ s2, lfu {[p]} None s2 ∧ is_u64 (ix_size s2) ∧
    (if over_bound (entered s p r)
     then ∃ e, eviction (entered s p r) s2 (u64 (ix_size (entered s p r) - ix_lb s)) e
     else s2 = entered s p r) ∧
    returns (do* increment p then let* r0 := deref p in
             do* hamt_Set env (ie_String env (dr_PayloadCID r)) r0 then Flush env) s2 s') as
    (s2 & Hok2 & Hsz2 & Hev & Hret).
  { destruct (over_bound (entered s p r)).
    - apply returns_bind in Hrun as [(s2 & [] & H & Hret)|[e H]].
      + apply go_bind_ok in H as (s2' & e & Hev & [-> _]%go_ret_ok).
        apply (evict_ok {[p]}) in Hev as (? & ? & ?); [|done|done]. exists s2'. eauto.
      + exfalso. revert H. apply no_error_bind; [apply evict_no_error|done].
    - step_ret Hrun. exists (entered s p r). auto. }
  assert (ix_heap s2 !! p = Some r ∧ ix_Refs s2 !! ie_String env (dr_PayloadCID r) = Some p)
    as [Hr2 Hk2].
  { assert (ix_Refs (entered s p r) !! ie_String env (dr_PayloadCID r) = Some p)
      by (simpl; by rewrite lookup_insert_eq).
    destruct (over_bound _); [|by subst s2]. destruct Hev as [e Hev].
    pose proof (eviction_frame _ _ _ _ Hev) as (-> & _). split; [done|].
    apply (eviction_spared {[p]} _ _ _ _ _ Hent Hev); [set_solver|done]. }
  destruct (increment_new_ok s2 p r) as (s3 & n & id & Hinc & Hok3 & Hheap3 & HRefs3 & Hrest3 & _);
    [done..|].
  eapply returns_step in Hret; [|exact Hinc]. cbn beta in Hret.
  eapply returns_step in Hret; [|apply deref_run; rewrite Hheap3; apply lookup_insert_eq].
  cbn beta in Hret. apply (returns_keeps same_mem) in Hret; [|apply persist_mem].
  exists s2, s3, n, id. split_and!; try done. apply Hrest3.
Qed.


(** New objects and references outside the table. *)
Record grown s s' : Prop := {
  gr_blist : ix_blist s' = ix_blist s;
  gr_buckets : ix_buckets s' = ix_buckets s;
  gr_Refs : ix_Refs s' = ix_Refs s;
  gr_next : (ix_next s ≤ ix_next s')%nat;
  gr_heap : ∀ k p, ix_Refs s !! k = Some p → ix_heap s' !! p = ix_heap s !! p
}.

Lemma lfu_grown P h s s' : grown s s' → lfu P h s → lfu P h s'.
Proof.
  intros [E1 E2 E3 E4 E5] [H1 H2 H3 H4 H5].
  split; unfold placed, id_of in *; rewrite ?E1, ?E2, ?E3; try done.
  - intros n Hn%H2. lia.
  - intros k p Hk. rewrite (E5 _ _ Hk). by apply H4.
  - intros n b p Hn Hb Hp. destruct (H5 n b p Hn Hb Hp) as (HP & r & Hr & Hk & Hnd).
    split; [done|]. exists r. by rewrite (E5 _ _ Hk).
Qed.

Lemma index_ok_mem s s' : same_mem s s' → index_ok s → index_ok s'.
Proof.
  unfold same_mem, mem, core. intros [= E1 E2 E3 E4 E5 E6 E7 E8 E9 E10 E11] [H1 H2 [H3 H4]].
  split; [|congruence|].
  - eapply lfu_core; [|exact H1]. unfold same_core, core. congruence.
  - split; [intros p; rewrite E3, E5; apply H3|].
    intros k p. rewrite E11, E3, E4. apply H4.
Qed.

(** *** The operations keep the invariant *)

Lemma alloc_ref_run s r :
  alloc_ref r s = (set_ix_heap (<[ix_next s := r]> (ix_heap s)) (set_ix_next (S (ix_next s)) s),
                   Ok (ix_next s)).
Proof. done. Qed.

Lemma alloc_index_ok s r :
  index_ok s → index_ok (set_ix_heap (<[ix_next s := r]> (ix_heap s)) (set_ix_next (S (ix_next s)) s)).
Proof.
  intros [Hok Hsz [Hh Hi]]. split; simpl; [|done|].
  - eapply lfu_grown; [|exact Hok]. split; simpl; try done; [lia|]. intros k p Hk.
    rewrite lookup_insert_ne; [done|]. intros <-.
    destruct (lfu_ref _ _ _ Hok _ _ Hk) as (? & Hp & _).
    assert (ix_next s < ix_next s)%nat by (apply Hh; eauto). lia.
  - split; simpl.
    + intros p [x Hp]. destruct (decide (p = ix_next s)) as [->|Hne]; [lia|].
      rewrite lookup_insert_ne in Hp by done. assert (p < ix_next s)%nat by (apply Hh; eauto). lia.
    + intros k p Hk. destruct (Hi _ _ Hk) as [Hp HR]. split; [|done].
      rewrite lookup_insert_is_Some'. by right.
Qed.

Lemma SetRef_index_ok s s' p r :
  index_ok s → ix_heap s !! p = Some r → dr_bucketNode r = None →
  (∀ k, ix_interest s !! k ≠ Some p) → returns (SetRef env range p) s s' → index_ok s'.
Proof.
  intros [Hok Hsz [Hh Hi]] Hr Hn Hp Hret.
  destruct (ix_Refs s !! ie_String env (dr_PayloadCID r)) as [q|] eqn:Hk.
  - unfold SetRef in Hret. eapply returns_step in Hret; [|by apply deref_run].
    cbn beta zeta in Hret. step_ret Hret. rewrite Hk, bool_decide_eq_true_2 in Hret by eauto.
    destruct Hret as [? [= <- _]]. by split.
  - destruct (SetRef_run s s' p r) as (s2 & s3 & n & id & Hok2 & Hsz2 & Hev & Hok3 & HR3 & Hrest & Hheap3 & Hnx & Hmem);
      [done..|].
    assert (ix_heap s2 = ix_heap s ∧ ix_next s2 = ix_next s ∧ ix_interest s2 = ix_interest s ∧
            ∀ k q, ix_Refs s2 !! k = Some q → q = p ∨ ix_Refs s !! k = Some q) as (E1 & E2 & E3 & E4).
    { assert (∀ k q, ix_Refs (entered s p r) !! k = Some q → q = p ∨ ix_Refs s !! k = Some q) as Hent.
      { simpl. intros k q [[_ <-]|[_ ?]]%lookup_insert_Some; auto. }
      destruct (over_bound (entered s p r)); [|by subst s2].
      destruct Hev as [e (-> & -> & _ & _ & -> & HR)%eviction_frame].
      split_and!; try done. intros k q Hq. by apply (Hent k), HR. }
    destruct Hrest as (_ & _ & _ & Hs3 & _ & _ & _ & _ & Hi3 & _).
    apply (index_ok_mem s3); [done|]. split; [done|by rewrite Hs3|]. split.
    + rewrite Hheap3, E1. intros q [x Hq]. destruct (decide (q = p)) as [->|Hne].
      * assert (p < ix_next s)%nat by (apply Hh; eauto). lia.
      * rewrite lookup_insert_ne in Hq by done. assert (q < ix_next s)%nat by (apply Hh; eauto). lia.
    + intros k q. rewrite Hi3, E3, HR3, Hheap3, E1. intros Hq. destruct (Hi _ _ Hq) as [Hq' HR].
      split; [rewrite lookup_insert_is_Some'; by right|].
      intros k' Hk'. destruct (E4 _ _ Hk') as [->|Hk'']; [by apply (Hp k)|by apply (HR k')].
Qed.

Lemma SetNew_index_ok s s' r :
  index_ok s → dr_bucketNode r = None → returns (SetNew r) s s' → index_ok s'.
Proof.
  intros Hok Hn Hret. unfold SetNew in Hret.
  eapply returns_step in Hret; [|apply alloc_ref_run]. cbn beta in Hret.
  eapply SetRef_index_ok; [by apply alloc_index_ok| |exact Hn| |exact Hret]; simpl.
  - apply lookup_insert_eq.
  - intros k Hk. destruct (ok_separate _ Hok) as [Hh Hi]. destruct (Hi _ _ Hk) as [Hp _].
    specialize (Hh _ Hp). lia.
Qed.

(** Once [SetRef] answers, whatever it answers, the table has the content. *)
Lemma SetNew_present s s' r :
  index_ok s → dr_bucketNode r = None → returns (SetNew r) s s' →
  is_Some (ix_Refs s' !! ie_String env (dr_PayloadCID r)).
Proof.
  intros Hok Hn Hret. unfold SetNew in Hret. set (k := ie_String env (dr_PayloadCID r)) in *.
  eapply returns_step in Hret; [|apply alloc_ref_run]. cbn beta in Hret.
  pose proof (alloc_index_ok s r Hok) as Ha. set (p := ix_next s) in *.
  set (s1 := set_ix_heap _ _) in *. assert (ix_heap s1 !! p = Some r) as Hp by apply lookup_insert_eq.
  destruct (ix_Refs s !! k) as [q|] eqn:Hk.
  - unfold SetRef in Hret. eapply returns_step in Hret; [|by apply deref_run].
    cbn beta zeta in Hret. step_ret Hret. simpl in Hret. fold k in Hret.
    rewrite Hk, bool_decide_eq_true_2 in Hret by eauto. destruct Hret as [? [= <- _]]. simpl. rewrite Hk. eauto.
  - destruct (SetRef_run s1 s' p r) as (s2 & s3 & n & id & _ & _ & Hev & _ & HR3 & _ & _ & _ & Hmem);
      [apply Ha|done..|].
    apply same_mem_parts in Hmem as ([= _ _ _ E4 _] & _ & _). rewrite E4, HR3. exists p.
    assert (ix_Refs (entered s1 p r) !! k = Some p) as Hent by (simpl; apply lookup_insert_eq).
    destruct (over_bound _); [|by subst s2]. destruct Hev as [e Hev].
    assert (lfu {[p]} None (entered s1 p r)) as Hlfu.
    { eapply (lfu_core _ _ (set_ix_Refs (<[k := p]> (ix_Refs s1)) s1)); [done|].
      apply (enter_pending s1 _ p r); [apply Ha|done..]. }
    apply (eviction_spared {[p]} _ _ _ _ _ Hlfu Hev); [set_solver|done].
Qed.

Lemma GetRef_run s s' k p r :
  lfu_ok s → ix_Refs s !! ie_String env k = Some p → ix_heap s !! p = Some r →
  is_i64 (dr_BucketID r + 1) → returns (GetRef env k) s s' →
  ∃ s1 n, lfu_ok s1 ∧ ix_heap s1 = <[p := read_ref r n (dr_BucketID r + 1)]> (ix_heap s) ∧
    ix_Refs s1 = ix_Refs s ∧ same_rest s s1 ∧ same_mem s1 s'.
Proof.
  intros Hok Hk Hr Hid Hret. unfold GetRef in Hret. step_ret Hret. rewrite Hk in Hret.
  assert (ie_String env (dr_PayloadCID r) = ie_String env k) as Hs.
  { destruct (lfu_ref _ _ _ Hok _ _ Hk) as (r' & Hr' & Hs & _). congruence. }
  destruct (increment_placed_ok s p r) as (s1 & n & Hinc & Hok1 & Hheap & HRefs & Hrest);
    [done|by rewrite Hs|done..|].
  eapply returns_step in Hret; [|exact Hinc]. cbn beta in Hret.
  eapply returns_step in Hret; [|apply deref_run; rewrite Hheap; apply lookup_insert_eq].
  cbn beta in Hret. exists s1, n. split_and!; try done.
  eapply returns_keeps; [|exact Hret]. apply keeps_bind; [typeclasses eauto|apply hamt_Set_mem|intros _].
  apply keeps_bind; [typeclasses eauto|apply Flush_mem|intros _; by intros s0].
Qed.

Lemma GetRef_index_ok s s' k :
  index_ok s →
  (∀ p r, ix_Refs s !! ie_String env k = Some p → ix_heap s !! p = Some r →
          is_i64 (dr_BucketID r + 1)) →
  returns (GetRef env k) s s' → index_ok s'.
Proof.
  intros [Hok Hsz [Hh Hi]] Hid Hret. destruct (ix_Refs s !! ie_String env k) as [p|] eqn:Hk.
  - destruct (lfu_ref _ _ _ Hok _ _ Hk) as (r & Hr & _).
    destruct (GetRef_run s s' k p r) as (s1 & n & Hok1 & Hheap & HRefs & Hrest & Hmem); [by eauto..|].
    destruct Hrest as (_ & _ & _ & Hs1 & _ & _ & _ & _ & Hi1 & Hnx).
    apply (index_ok_mem s1); [done|]. split; [done|by rewrite Hs1|]. split.
    + rewrite Hheap. intros q. rewrite lookup_insert_is_Some'. intros [<-|Hq].
      * assert (p < ix_next s)%nat by (apply Hh; eauto). lia.
      * specialize (Hh _ Hq). lia.
    + intros k' q. rewrite Hi1, HRefs, Hheap. intros Hq. destruct (Hi _ _ Hq) as [? HR].
      split; [|done]. rewrite lookup_insert_is_Some'. by right.
  - unfold GetRef in Hret. step_ret Hret. rewrite Hk in Hret. destruct Hret as [? [= <- _]]. by split.
Qed.

Lemma UpdateRef_index_ok s s' r :
  index_ok s → returns (UpdateRef env r) s s' → index_ok s'.
Proof.
  intros [Hok Hsz [Hh Hi]] Hret. unfold UpdateRef in Hret. step_ret Hret.
  destruct (ix_Refs s !! ie_String env (dr_PayloadCID r)) as [p|] eqn:Hk.
  2: { destruct Hret as [? [= <- _]]. by split. }
  destruct (lfu_ref _ _ _ Hok _ _ Hk) as (rp & Hr & Hs & Hpl).
  eapply returns_step in Hret; [|by apply deref_run]. cbn beta in Hret. step_ret Hret.
  apply (returns_keeps same_mem) in Hret; [|apply persist_mem].
  apply (index_ok_mem _ _ Hret). clear Hret. set (rp' := set_dr_Keys _ rp).
  destruct Hok as [H1 H2 H3 H4 H5]. split; simpl; [|done|].
  - split; simpl; [done..| |].
    + intros k q Hq. destruct (H4 _ _ Hq) as (rq & Hrq & Hsq & Hpq).
      destruct (decide (q = p)) as [->|Hne].
      * rewrite lookup_insert_eq. exists rp'. simplify_eq. by split_and!.
      * rewrite lookup_insert_ne by done. by exists rq.
    + intros n b q Hn Hb Hq. destruct (H5 _ _ _ Hn Hb Hq) as (HP & rq & Hrq & Hkq & Hnq).
      split; [done|]. destruct (decide (q = p)) as [->|Hne].
      * rewrite lookup_insert_eq. exists rp'. simplify_eq. by split_and!.
      * rewrite lookup_insert_ne by done. by exists rq.
  - split; simpl.
    + intros q. rewrite lookup_insert_is_Some'. intros [<-|Hq]; apply Hh; eauto.
    + intros k q Hq. destruct (Hi _ _ Hq) as [? HR]. split; [|done].
      rewrite lookup_insert_is_Some'. by right.
Qed.

(** The steps of [DropRef] on a reference of the table. *)
Lemma DropRef_run s s' k p r :
  lfu_ok s → ix_Refs s !! ie_String env k = Some p → ix_heap s !! p = Some r →
  returns (DropRef env k) s s' →
  (same_core s s' ∧ ix_size s' = ix_size s ∧ ix_interest s' = ix_interest s) ∧
    (∃ e, DropRef env k s = (s', Err e)) ∨
  ∃ s1 n, lfu_ok s1 ∧ ix_Refs s1 = delete (ie_String env k) (ix_Refs s) ∧
    ix_heap s1 = ix_heap s ∧ ix_next s1 = ix_next s ∧ ix_size s1 = ix_size s ∧
    ix_interest s1 = ix_interest s ∧ dr_bucketNode r = Some n ∧ same_mem s1 s'.
Proof.
  intros Hok Hk Hr Hret. unfold DropRef in Hret |- *.
  apply returns_bind in Hret as [(s1 & found & Hd & Hret)|[e Hd]].
  2: { left. pose proof Hd as Hm. apply (keeps_run _ _ _ _ _ (on_ext_mem _)) in Hm.
       split; [by apply same_mem_parts|]. exists e. unfold go_bind at 1. by rewrite Hd. }
  pose proof (keeps_run _ _ _ _ _ (on_ext_mem _) Hd) as Hm. apply same_mem_parts in Hm as (Hc1 & Hsz1 & Hi1).
  destruct found; simpl in Hret.
  2: { left. destruct Hret as [? [= <- _]]. split; [done|]. eexists. unfold go_bind at 1. by rewrite Hd. }
  step_ret Hret. pose proof Hc1 as [= E1 E2 E3 E4 E5]. rewrite E4, Hk in Hret.
  apply returns_bind in Hret as [(s2 & [] & Ht & Hret)|[e Ht]].
  2: { left. pose proof Ht as Ht'. apply tagForGC_tagged in Ht as (Hc2 & _ & _ & Hs2 & _ & _ & _ & Hi2 & _).
       split; [split_and!; [by etrans|congruence|congruence]|]. exists e.
       unfold go_bind at 1. rewrite Hd. simpl. unfold go_bind at 1, go_get.
       rewrite E4, Hk. unfold go_bind at 1. by rewrite Ht'. }
  apply tagForGC_tagged in Ht as (Hc2 & _ & _ & Hs2 & _ & _ & _ & Hi2 & _).
  assert (same_core s s2) as Hc by (by etrans). pose proof Hc as [= F1 F2 F3 F4 F5].
  eapply returns_step in Hret; [|apply deref_run; by rewrite F3]. cbn beta in Hret.
  assert (ie_String env (dr_PayloadCID r) = ie_String env k) as Hs.
  { destruct (lfu_ref _ _ _ Hok _ _ Hk) as (r' & Hr' & Hs & _). congruence. }
  assert (lfu_ok s2) as Hok2 by (by eapply lfu_core).
  destruct (lfu_ref _ _ _ Hok2 (ie_String env k) p) as (r' & Hr' & _ & Hp); [by rewrite F4|].
  rewrite F3, Hr in Hr'. injection Hr' as <-.
  destruct (Hp (not_elem_of_empty _)) as (n & b & Hn & _ & Hb & _). rewrite Hn in Hret.
  eapply returns_step in Hret; [|by eapply remBlistEntry_run]. cbn beta in Hret.
  step_ret Hret. right. eexists _, n. split_and!; [| | | | | |done|].
  7: { eapply returns_keeps; [|exact Hret]. apply Flush_mem. }
  - eapply drop_pending; simpl.
    + apply (rem_entry_ok ∅ None _ _ p r); [done|by rewrite Hs, F4|done|by rewrite F3|done|done].
    + by rewrite rem_entry_Refs, F4.
    + done.
  - simpl. by rewrite rem_entry_Refs, F4.
  - simpl. by rewrite rem_entry_heap.
  - simpl. destruct (rem_entry_frame n p s2) as (-> & _). done.
  - simpl. destruct (rem_entry_frame n p s2) as (_ & _ & _ & -> & _). congruence.
  - simpl. destruct (rem_entry_frame n p s2) as (_ & _ & _ & _ & _ & _ & ->). congruence.
Qed.

Lemma DropRef_index_ok s s' k : index_ok s → returns (DropRef env k) s s' → index_ok s'.
Proof.
  intros [Hok Hsz [Hh Hi]] Hret. destruct (ix_Refs s !! ie_String env k) as [p|] eqn:Hk.
  - destruct (lfu_ref _ _ _ Hok _ _ Hk) as (r & Hr & _).
    destruct (DropRef_run s s' k p r) as [[(Hc & Hs & Hin) _]|(s1 & n & Hok1 & HR & Hhp & Hnx & Hs & Hin & _ & Hm)];
      [done..| |].
    + pose proof Hc as [= E1 E2 E3 E4 E5]. split; [by eapply lfu_core|by rewrite Hs|].
      split; [intros q; rewrite E3, E5; apply Hh|]. intros k' q. rewrite Hin, E3, E4. apply Hi.
    + apply (index_ok_mem s1); [done|]. split; [done|by rewrite Hs|].
      split; [intros q; rewrite Hhp, Hnx; apply Hh|]. intros k' q. rewrite Hin, Hhp, HR.
      intros Hq. destruct (Hi _ _ Hq) as [? Hno]. split; [done|].
      intros k2 [_ Hk2]%lookup_delete_Some. by apply (Hno k2).
  - unfold DropRef in Hret. apply returns_bind in Hret as [(s1 & found & Hd & Hret)|[e Hd]].
    + apply (keeps_run _ _ _ _ _ (on_ext_mem _)) in Hd. apply (index_ok_mem s1); [|by eapply index_ok_mem].
      destruct found; simpl in Hret; [|destruct Hret as [? [= <- _]]; done].
      step_ret Hret. apply same_mem_parts in Hd as ([= E1 E2 E3 E4 E5] & _).
      rewrite E4, Hk in Hret. by destruct Hret.
    + apply (keeps_run _ _ _ _ _ (on_ext_mem _)) in Hd. by eapply index_ok_mem.
Qed.

(** *** The interest list is kept apart *)

Record same_but_freqs s s' : Prop := {
  sf_blist : ix_blist s' = ix_blist s;
  sf_buckets : ix_buckets s' = ix_buckets s;
  sf_heap : ix_heap s' = ix_heap s;
  sf_Refs : ix_Refs s' = ix_Refs s;
  sf_size : ix_size s' = ix_size s;
  sf_interest : ix_interest s' = ix_interest s;
  sf_next : (ix_next s ≤ ix_next s')%nat
}.

#[export] Instance same_but_freqs_pre : PreOrder same_but_freqs.
Proof.
  split; [by intros s; split|].
  intros s1 s2 s3 [? ? ? ? ? ? ?] [? ? ? ? ? ? ?]. split; first [congruence|lia].
Qed.

Lemma index_ok_freqs s s' : same_but_freqs s s' → index_ok s → index_ok s'.
Proof.
  intros [E1 E2 E3 E4 E5 E6 E7] [Hok Hsz [Hh Hi]]. split; [|by rewrite E5|].
  - eapply lfu_grown; [|exact Hok]. split; try done. intros k p _. by rewrite E3.
  - split; [intros p; rewrite E3; intros Hp%Hh; lia|]. intros k p. rewrite E3, E4, E6. apply Hi.
Qed.

Lemma index_ok_put s p r :
  index_ok s → is_Some (ix_heap s !! p) → (∀ k, ix_Refs s !! k ≠ Some p) →
  index_ok (set_ix_heap (<[p := r]> (ix_heap s)) s).
Proof.
  intros [Hok Hsz [Hh Hi]] Hp HR. split; [|done|].
  - eapply lfu_grown; [|exact Hok]. split; try done. simpl. intros k q Hk.
    rewrite lookup_insert_ne; [done|]. intros <-. by apply (HR k).
  - split; simpl.
    + intros q. rewrite lookup_insert_is_Some'. intros [<-|Hq]; by apply Hh.
    + intros k q Hq. destruct (Hi _ _ Hq). split; [|done]. rewrite lookup_insert_is_Some'. by right.
Qed.

Lemma keeps_freqs_entry n : keeps same_but_freqs (entry_at (X:=X) n).
Proof. intros s. done. Qed.

Lemma keeps_freqs_put n e : keeps same_but_freqs (put_entry (X:=X) n e).
Proof. intros s. by split. Qed.

Lemma keeps_freqs_insert place e : keeps same_but_freqs (insert_entry (X:=X) place e).
Proof. intros s. split; simpl; try done. lia. Qed.

Lemma place_entry_freqs p freq places : keeps same_but_freqs (place_entry (X:=X) p freq places).
Proof.
  induction places as [|e places IH]; simpl; [apply keeps_freqs_insert|].
  apply keeps_bind; [typeclasses eauto|apply keeps_freqs_entry|intros le].
  destruct (le_freq le =? freq).
  - apply keeps_bind; [typeclasses eauto|apply keeps_freqs_put|intros _; by intros s].
  - destruct (freq <? le_freq le); [apply keeps_freqs_insert|done].
Qed.

Lemma remFreqEntry_freqs n p : keeps same_but_freqs (remFreqEntry (X:=X) n p).
Proof.
  unfold remFreqEntry. apply keeps_bind; [typeclasses eauto|apply keeps_freqs_entry|intros e].
  apply keeps_bind; [typeclasses eauto|apply keeps_freqs_put|intros _].
  case_match; intros s; by split.
Qed.

Lemma load_interest_ok s s' k raw :
  index_ok s → returns (load_interest k raw) s s' → index_ok s'.
Proof.
  intros Hok Hret. unfold load_interest in Hret. step_ret Hret.
  case_bool_decide as Hk; [by destruct Hret as [? [= <- _]]|].
  apply returns_bind in Hret as [(s0 & v & [-> _]%go_lift_ok & Hret)|[e H]].
  2: { unfold go_lift in H. by injection H as <- _. }
  destruct (ix_interest s !! k) as [p|] eqn:Hi.
  - destruct (sep_interest _ (ok_separate _ Hok) _ _ Hi) as [[ref Hr] HR].
    eapply returns_step in Hret; [|by apply deref_run]. cbn beta zeta in Hret.
    destruct (_ =? _); [by destruct Hret as [? [= <- _]]|]. step_ret Hret.
    assert (index_ok (set_ix_heap (<[p := set_dr_Freq (i64 (u64 (dr_Freq ref + dr_Freq v))) ref]>
              (ix_heap s)) s)) as Hok1 by (apply index_ok_put; [done|by eexists|done]).
    apply returns_bind in Hret as [(s2 & n & H & Hret)|[e H]];
      apply (keeps_run _ _ _ _ _ (place_entry_freqs _ _ _)) in H; [|by eapply index_ok_freqs].
    assert (index_ok s2) as Hok2 by (by eapply index_ok_freqs).
    step_ret Hret. destruct (dr_bucketNode ref) as [c|]; [|by destruct Hret].
    apply (returns_keeps _ _ _ _ (remFreqEntry_freqs _ _)) in Hret.
    eapply index_ok_freqs; [exact Hret|]. apply index_ok_put; [done| |].
    + rewrite (sf_heap _ _ H). simpl. rewrite lookup_insert_eq. by eexists.
    + intros k'. rewrite (sf_Refs _ _ H). apply HR.
  - eapply returns_step in Hret; [|apply alloc_ref_run]. cbn beta in Hret. step_ret Hret.
    pose proof (alloc_index_ok s v Hok) as Hok1.
    assert (∀ k', ix_Refs s !! k' ≠ Some (ix_next s)) as HR.
    { intros k' Hk'. destruct (lfu_ref _ _ _ (ok_lfu _ Hok) _ _ Hk') as (r & Hr & _).
      assert (ix_next s < ix_next s)%nat by (apply (sep_heap _ (ok_separate _ Hok)); eauto). lia. }
    set (s1 := set_ix_heap _ _) in *.
    assert (index_ok (set_ix_interest (<[k := ix_next s]> (ix_interest s1)) s1)) as Hok2.
    { destruct Hok1 as [Hl Hs [Hh Hin]]. split; [|done|].
      - eapply lfu_core; [|exact Hl]. done.
      - split; [exact Hh|]. simpl. intros k' q [[_ <-]|[_ Hq]]%lookup_insert_Some.
        + split; [rewrite lookup_insert_eq; by eexists|done].
        + apply (Hin _ _ Hq). }
    apply returns_bind in Hret as [(s2 & n & H & Hret)|[e H]].
    2: { apply (keeps_run same_but_freqs) in H; [by eapply index_ok_freqs|].
         case_match; [apply keeps_freqs_insert|apply place_entry_freqs]. }
    apply (keeps_run same_but_freqs) in H;
      [|case_match; [apply keeps_freqs_insert|apply place_entry_freqs]].
    destruct Hret as [? [= <- _]]. apply index_ok_put; [by eapply index_ok_freqs| |].
    + rewrite (sf_heap _ _ H). simpl. rewrite lookup_insert_eq. by eexists.
    + intros k'. rewrite (sf_Refs _ _ H). apply HR.
Qed.

Lemma LoadInterest_index_ok s s' root :
  index_ok s → returns (LoadInterest env root) s s' → index_ok s'.
Proof.
  intros Hok Hret. unfold LoadInterest in Hret.
  apply returns_bind in Hret as [(s1 & l & H & Hret)|[e H]];
    apply (keeps_run _ _ _ _ _ (on_ext_mem _)) in H; apply index_ok_mem in H; try done.
  clear Hok. revert s1 H Hret. induction l as [|[k raw] l IH]; intros s1 Hok Hret; simpl in Hret.
  - by destruct Hret as [? [= <- _]].
  - apply returns_bind in Hret as [(s2 & [] & H & Hret)|[e H]].
    + eapply IH; [|exact Hret]. eapply load_interest_ok; [exact Hok|by eapply returns_ok].
    + eapply load_interest_ok; [exact Hok|]. exists (inl e). unfold go_try. by rewrite H.
Qed.

Lemma DropInterest_index_ok s s' k :
  index_ok s → returns (DropInterest env k) s s' → index_ok s'.
Proof.
  intros Hok Hret. unfold DropInterest in Hret. step_ret Hret.
  destruct (ix_interest s !! ie_String env k) as [p|] eqn:Hi; [|by destruct Hret as [? [= <- _]]].
  step_ret Hret. destruct (sep_interest _ (ok_separate _ Hok) _ _ Hi) as [[ref Hr] HR].
  eapply returns_step in Hret; [|by apply deref_run]. cbn beta in Hret.
  destruct (dr_bucketNode ref) as [n|]; [|by destruct Hret].
  apply (returns_keeps _ _ _ _ (remFreqEntry_freqs _ _)) in Hret.
  eapply index_ok_freqs; [exact Hret|]. destruct Hok as [Hl Hs [Hh Hin]]. split; [|done|].
  - eapply lfu_core; [|exact Hl]. done.
  - split; [exact Hh|]. simpl. intros k' q [_ Hq]%lookup_delete_Some. by apply (Hin k').
Qed.

(** *** Garbage collection changes nothing in memory *)

Lemma GC_mem order : keeps same_mem (GC env order).
Proof.
  unfold GC, collect_datastore. apply keeps_bind; [typeclasses eauto|by intros s|intros s0].
  case_match; [by intros s|]. case_match; [by intros s|].
  apply keeps_bind; [typeclasses eauto| |intros [e|u]]; [|by intros s|].
  - apply keeps_try. generalize (order (ix_gcSet s0)). intros l. induction l as [|c l IH]; [by intros s|].
    simpl. apply keeps_bind; [typeclasses eauto|apply on_ext_mem|done].
  - apply keeps_bind; [typeclasses eauto|by intros s|intros _].
    case_match; [by intros s|apply on_ext_mem].
Qed.

Lemma CleanBlockStore_mem : keeps same_mem (CleanBlockStore env).
Proof.
  unfold CleanBlockStore, collect_datastore.
  apply keeps_bind; [typeclasses eauto|apply on_ext_mem|intros l].
  apply keeps_bind; [typeclasses eauto| |intros keep].
  { generalize (∅ : gset cid). induction l as [|[k raw] l IH]; intros acc; [by intros s|]. simpl.
    apply keeps_bind; [typeclasses eauto|apply keeps_lift, _|intros ref].
    apply keeps_bind; [typeclasses eauto|apply on_ext_mem|intros w].
    case_match; [by intros s|apply IH]. }
  apply keeps_bind; [typeclasses eauto|apply on_ext_mem|intros keys].
  apply keeps_bind; [typeclasses eauto| |intros _; case_match; [by intros s|apply on_ext_mem]].
  induction keys as [|k keys IH]; [by intros s|]. simpl. case_match; [done|].
  apply keeps_bind; [typeclasses eauto|apply on_ext_mem|done].
Qed.

End invariant.
