(* ===== verification/IndexSpec.v ===== *)
(** * What the content index promises

    The theorems about the index: its representation invariant over every
    sequence of operations, loading, reads, eviction, listing and removal.  The
    invariant and the lemmas on single steps are in [IndexLfu]. *)
From S2P Require Import Prelude Deal PayTypes Cbor DataRef Index IndexLfu.

Section spec.
Context {CB : CborLib} {X : Type} (env : IndexEnv X).
Implicit Types (s : Index X) (p q : ptr) (n c : node) (r v : DataRef).

(** ** Loading *)

(** The key of a reference. *)
Definition ref_key r : string := ie_String env (dr_PayloadCID r).

Lemma bucket_put_add s n b p r :
  ix_buckets s !! n = Some b → dr_BucketID r = b_id b →
  go_bind (do* put_bucket n (MkBucket (b_id b) ({[p]} ∪ b_entries b)) then go_ret n)
    (λ m, put_ref p (set_dr_bucketNode (Some m) r)) s = (add_ref n p r s, Ok tt).
Proof.
  intros Hb Hid. unfold go_bind, put_bucket, put_ref, go_modify, go_ret, add_ref. rewrite Hb. simpl.
  do 3 f_equal. destruct r; simpl in *. by subst.
Qed.

Lemma bucket_new_add s place p r :
  go_bind (insert_bucket place (MkBucket (dr_BucketID r) {[p]}))
    (λ m, put_ref p (set_dr_bucketNode (Some m) r)) s
  = (add_ref (ix_next s) p r (insert_node place (dr_BucketID r) s), Ok tt).
Proof.
  unfold add_ref, insert_node. simpl. rewrite lookup_insert_eq. simpl.
  rewrite union_empty_r_L, insert_insert_eq. by destruct r.
Qed.

(** Where a loaded reference goes. *)
Lemma place_bucket_run P s p r l1 l2 :
  lfu env P None s → ix_blist s = l1 ++ l2 → (∀ n, n ∈ l1 → id_of s n < dr_BucketID r) → l1 ++ l2 ≠ [] →
  ∃ s0 n h, lfu env P h s0 ∧ n ∈ ix_blist s0 ∧ (h = None ∨ h = Some n) ∧
    ix_heap s0 = ix_heap s ∧ ix_Refs s0 = ix_Refs s ∧ same_rest s s0 ∧ id_of s0 n = dr_BucketID r ∧
    go_bind (place_bucket p (dr_BucketID r) l2) (λ m, put_ref p (set_dr_bucketNode (Some m) r)) s
    = (add_ref n p r s0, Ok tt).
Proof.
  intros Hok. revert l1. induction l2 as [|e l2 IH]; intros l1 El Hlo Hne; simpl.
  - rewrite app_nil_r in *. rewrite bucket_new_add.
    exists (insert_node push_back (dr_BucketID r) s), (ix_next s), (Some (ix_next s)).
    assert (∀ y, y ∈ push_back (ix_next s) (ix_blist s) ↔ y = ix_next s ∨ y ∈ ix_blist s) as Hel.
    { intros y. unfold push_back. rewrite elem_of_app, list_elem_of_singleton. tauto. }
    split_and!; try done; [| |by right|unfold same_rest; simpl; split_and!; auto|].
    + apply insert_node_ok; [done| |done]. intros f Hf Hfs Hfn. apply by_key_snoc; [|done].
      intros y Hy. rewrite Hfn, Hfs by done. apply Hlo. congruence.
    + apply Hel. by left.
    + unfold id_of. simpl. by rewrite lookup_insert_eq.
  - assert (e ∈ ix_blist s) as He by (rewrite El; set_solver).
    destruct (lfu_bucket _ _ _ _ Hok _ He) as (b & Hb & _).
    assert (id_of s e = b_id b) as Hid by (unfold id_of; by rewrite Hb).
    unfold go_bind at 1 2. rewrite (bucket_run _ _ _ Hb). cbn beta iota.
    destruct (Z.eqb_spec (b_id b) (dr_BucketID r)) as [E|E].
    { exists s, e, None. split_and!; try done; [by left|congruence|].
      rewrite <- (bucket_put_add s e b p r Hb) by done. done. }
    destruct (Z.ltb_spec (dr_BucketID r) (b_id b)) as [Hlt|Hge].
    + exists (insert_node (insert_before e) (dr_BucketID r) s), (ix_next s), (Some (ix_next s)).
      split_and!; try done; [| |by right|unfold same_rest; simpl; split_and!; auto| |].
      * apply insert_node_ok; [done| |intros y; exact (elem_insert_before _ _ _ _ He)].
        intros f Hf Hfs Hfn. apply by_key_insert_before; [done|done|rewrite Hfn, Hfs by done; lia|].
        intros y Hy. rewrite Hfn, !Hfs, Hid by done. rewrite El in Hy.
        apply elem_of_app in Hy as [Hy|Hy]; [intros _; by apply Hlo|].
        intros Hyl. exfalso. pose proof (lfu_sorted _ _ _ _ Hok) as Hs. rewrite El in Hs.
        apply StronglySorted_app_1_r in Hs. apply StronglySorted_inv in Hs as [_ Hall].
        rewrite Forall_forall in Hall. apply elem_of_cons in Hy as [->|Hy]; [lia|].
        specialize (Hall _ Hy). simpl in Hall. lia.
      * apply (elem_insert_before _ _ _ _ He). by left.
      * unfold id_of. simpl. by rewrite lookup_insert_eq.
      * rewrite <- bucket_new_add. done.
    + destruct (IH (l1 ++ [e])) as (s0 & n & h & H); [by rewrite El, <- app_assoc| | |].
      * intros m [Hm|Hm%list_elem_of_singleton]%elem_of_app; [by apply Hlo|subst m; lia].
      * by destruct l1.
      * exists s0, n, h. exact H.
Qed.

Lemma decode_ref_no_node raw v : decode_ref raw = Ok v → dr_bucketNode v = None.
Proof.
  unfold decode_ref. destruct (DataRef_UnmarshalCBOR raw) as [rest o] eqn:E. simpl.
  intros ->. by eapply decoded_no_node.
Qed.

(** Loading one reference whose key is new. *)
Lemma load_ref_run s raw v :
  index_ok env s → decode_ref raw = Ok v → ix_Refs s !! ref_key v = None →
  ∃ s' n, load_ref env raw s = (s', Ok tt) ∧ index_ok env s' ∧
    ix_Refs s' = <[ref_key v := ix_next s]> (ix_Refs s) ∧
    ix_heap s' = <[ix_next s := set_dr_bucketNode (Some n) v]> (ix_heap s) ∧
    (ix_next s < ix_next s')%nat ∧ ix_size s' = u64 (ix_size s + u64 (dr_PayloadSize v)).
Proof.
  intros Hok Hd Hk. pose proof (alloc_index_ok env s v Hok) as Ha.
  set (p := ix_next s) in *. set (s1 := set_ix_heap (<[p := v]> (ix_heap s)) (set_ix_next (S p) s)) in *.
  set (s2 := set_ix_size (u64 (ix_size s + u64 (dr_PayloadSize v)))
               (set_ix_Refs (<[ref_key v := p]> (ix_Refs s)) s1)).
  assert (lfu env {[p]} None s2) as Hl2.
  { eapply (lfu_core _ _ _ (set_ix_Refs (<[ref_key v := p]> (ix_Refs s1)) s1)); [done|].
    eapply enter_pending; [apply Ha|exact Hk|apply lookup_insert_eq|done|].
    by eapply decode_ref_no_node. }
  assert (∃ s0 n h, lfu env {[p]} h s0 ∧ n ∈ ix_blist s0 ∧ (h = None ∨ h = Some n) ∧
    ix_heap s0 = ix_heap s2 ∧ ix_Refs s0 = ix_Refs s2 ∧ same_rest s2 s0 ∧ id_of s0 n = dr_BucketID v ∧
    load_ref env raw s = (add_ref n p v s0, Ok tt)) as
    (s0 & n & h & Hl & Hn & Hh & Hheap & HRefs & Hrest & Hid & Hrun).
  { assert (load_ref env raw s = go_bind
      (match ix_blist s with [] => insert_bucket push_front (MkBucket (dr_BucketID v) {[p]})
       | l => place_bucket p (dr_BucketID v) l end)
      (λ m, put_ref p (set_dr_bucketNode (Some m) v)) s2) as ->.
    { unfold load_ref, go_lift. unfold go_bind at 1. rewrite Hd. done. }
    destruct (ix_blist s) as [|e l] eqn:El.
    - rewrite bucket_new_add.
      exists (insert_node push_front (dr_BucketID v) s2), (ix_next s2), (Some (ix_next s2)).
      split_and!; try done; [|simpl; set_solver|by right|unfold same_rest; simpl; split_and!; auto|].
      + apply insert_node_ok; [done| |].
        * intros f _ _ _. change (ix_blist s2) with (ix_blist s). rewrite El. by repeat constructor.
        * intros y. unfold push_front. by rewrite elem_of_cons.
      + unfold id_of. simpl. by rewrite lookup_insert_eq.
    - apply (place_bucket_run {[p]} s2 p v [] (e :: l)); [done|done|set_solver|done]. }
  destruct Hrest as (_ & _ & _ & Hs0 & _ & _ & _ & _ & Hi0 & Hnx0).
  assert (lfu env ∅ None (add_ref n p v s0)) as Hl'.
  { eapply add_ref_ok; [by rewrite union_empty_r_L|set_solver| |done|done].
    fold (ref_key v). rewrite HRefs. apply lookup_insert_eq. }
  assert (set_dr_bucketNode (Some n)
            (set_dr_BucketID (b_id (default (newBucket 0) (ix_buckets s0 !! n))) v)
          = set_dr_bucketNode (Some n) v) as Ev.
  { unfold id_of in Hid. destruct (lfu_bucket _ _ _ _ Hl _ Hn) as (b & Hb & _). rewrite Hb in *.
    simpl. rewrite Hid. by destruct v. }
  exists (add_ref n p v s0), n. split; [done|]. split_and!.
  - split; [done|simpl; rewrite Hs0; apply u64_range|]. destruct Ha as [_ _ [Hh1 Hi1]].
    split; simpl; rewrite Hheap.
    + intros q [x Hq]. simpl in Hq. destruct (decide (q = p)) as [->|Hne]; [simpl in Hnx0; lia|].
      rewrite !lookup_insert_ne in Hq by done. assert (q < S p)%nat; [|simpl in Hnx0; lia].
      apply Hh1. simpl. rewrite lookup_insert_ne by done. eauto.
    + intros k q. rewrite Hi0. intros Hq. destruct (Hi1 _ _ Hq) as [Hsome HR].
      split; [rewrite lookup_insert_is_Some'; by right|].
      intros k'. rewrite HRefs. simpl. destruct (decide (k' = ref_key v)) as [->|Hne].
      * rewrite lookup_insert_eq. intros [= <-]. destruct (sep_interest _ (ok_separate _ _ Hok) _ _ Hq) as [Hp _].
        apply (sep_heap _ (ok_separate _ _ Hok)) in Hp. unfold p in Hp. lia.
      * rewrite lookup_insert_ne by done. apply HR.
  - simpl. rewrite HRefs. done.
  - simpl. rewrite Hheap, Ev. simpl. by rewrite insert_insert_eq.
  - simpl in *. lia.
  - simpl. by rewrite Hs0.
Qed.

(** The table of [s] is [vs], loaded in addition to that of [s0]. *)
Record loaded s0 s (vs : list DataRef) : Prop := {
  ld_ok : index_ok env s;
  ld_old : ∀ k p, ix_Refs s0 !! k = Some p →
    ix_Refs s !! k = Some p ∧ ix_heap s !! p = ix_heap s0 !! p;
  ld_new : ∀ v, v ∈ vs → ∃ p n, ix_Refs s !! ref_key v = Some p ∧
    ix_heap s !! p = Some (set_dr_bucketNode (Some n) v);
  ld_only : ∀ k, is_Some (ix_Refs s !! k) → is_Some (ix_Refs s0 !! k) ∨ k ∈ ref_key <$> vs;
  ld_size : ix_size s = u64 (ix_size s0 + sumZ (λ v, u64 (dr_PayloadSize v)) vs)
}.

Lemma load_refs_run l : ∀ vs s,
  index_ok env s → Forall2 (λ e v, decode_ref e.2 = Ok v) l vs → NoDup (ref_key <$> vs) →
  (∀ v, v ∈ vs → ix_Refs s !! ref_key v = None) →
  ∃ s', load_refs env l s = (s', Ok tt) ∧ loaded s s' vs.
Proof.
  induction l as [|[k raw] l IH]; intros vs s Hok Hf Hnd Hnew.
  - apply Forall2_nil_inv_l in Hf as ->. exists s. split; [done|].
    split; try done; [set_solver|auto|]. simpl. rewrite Z.add_0_r. symmetry. apply u64_small, Hok.
  - apply Forall2_cons_inv_l in Hf as (v & vs' & Hd & Hf & ->).
    apply NoDup_cons in Hnd as [Hv Hnd].
    destruct (load_ref_run s raw v) as (s1 & n & Hrun & Hok1 & HR & Hh & Hnx & Hsz);
      [done|done|apply Hnew; set_solver|].
    assert (∀ k p, ix_Refs s !! k = Some p → ix_Refs s1 !! k = Some p ∧ ix_heap s1 !! p = ix_heap s !! p)
      as Hold1.
    { intros k' p Hk'. rewrite HR, Hh, !lookup_insert_ne; [done| |].
      - intros <-. destruct (lfu_ref _ _ _ _ (ok_lfu _ _ Hok) _ _ Hk') as (r & Hr & _).
        assert (ix_next s < ix_next s)%nat by (apply (sep_heap _ (ok_separate _ _ Hok)); eauto). lia.
      - intros <-. rewrite (Hnew v) in Hk' by set_solver. done. }
    destruct (IH vs' s1) as (s2 & Hrun2 & [Hok2 Hold2 Hnew2 Honly2 Hsz2]); [done..| |].
    { intros w Hw. rewrite HR, lookup_insert_ne; [apply Hnew; set_solver|].
      intros E. apply Hv. apply list_elem_of_fmap. eauto. }
    exists s2. split.
    { simpl. unfold go_bind. by rewrite Hrun. }
    split; [done| | | |].
    + intros k' p Hk'. destruct (Hold1 _ _ Hk') as [Hk1 Hp1]. destruct (Hold2 _ _ Hk1) as [? Hp2].
      split; [done|]. by rewrite Hp2.
    + intros w [->|Hw]%elem_of_cons; [|by apply Hnew2].
      destruct (Hold2 (ref_key v) (ix_next s)) as [Hk2 Hp2]; [rewrite HR; apply lookup_insert_eq|].
      exists (ix_next s), n. split; [done|]. rewrite Hp2, Hh. apply lookup_insert_eq.
    + intros k' [Hk'|Hk']%Honly2; [|right; set_solver].
      rewrite HR in Hk'. apply lookup_insert_is_Some' in Hk' as [<-|Hk']; [right; set_solver|by left].
    + rewrite Hsz2, Hsz, u64_add_l. simpl. f_equal. lia.
Qed.

Lemma empty_index_ok x ub lb : index_ok env (empty_index x ub lb).
Proof.
  split; [|by unfold is_u64, two64|].
  - split; simpl; try done; [by constructor|set_solver..].
  - split; simpl; [intros p []%lookup_empty_is_Some|by intros k p [=]].
Qed.

(** Opening an index on a store whose entries decode to [vs], under distinct keys. *)
Record opens (x : X) (ub lb : Z) (vs : list DataRef) : Prop := {
  op_load : ∃ s1 x' l, loadFromStore env (empty_index x ub lb) = (s1, Ok tt) ∧
    ie_Root env (ix_ext s1) = (x', Ok l) ∧ Forall2 (λ e v, decode_ref e.2 = Ok v) l vs;
  op_keys : NoDup (ref_key <$> vs)
}.

Lemma loadFromStore_mem : keeps same_mem (loadFromStore env).
Proof.
  unfold loadFromStore. apply keeps_bind; [typeclasses eauto|apply keeps_try, on_ext_mem|intros r].
  case_match; [case_match; [apply on_ext_mem|by intros ?]|].
  apply keeps_bind; [typeclasses eauto|apply keeps_sum; typeclasses eauto|intros c].
  apply keeps_bind; [typeclasses eauto|apply on_ext_mem|intros _; by intros ?].
Qed.

Lemma NewIndex_run x ub lb vs :
  opens x ub lb vs →
  ∃ s, NewIndex env (empty_index x ub lb) = (s, Ok tt) ∧ loaded (empty_index x ub lb) s vs.
Proof.
  intros [(s1 & x' & l & Hload & Hroot & Hf) Hnd].
  pose proof (keeps_run _ _ _ _ _ loadFromStore_mem Hload) as Hm.
  assert (same_mem (empty_index x ub lb) (set_ix_ext x' s1)) as Hm'.
  { etrans; [exact Hm|]. done. }
  assert (index_ok env (set_ix_ext x' s1)) as Hok1 by (eapply index_ok_mem; [exact Hm'|apply empty_index_ok]).
  pose proof Hm' as [= E1 E2 E3 E4 E5 E6 E7 E8 E9 E10 E11]. simpl in *.
  destruct (load_refs_run l vs (set_ix_ext x' s1)) as (s2 & Hrun & [H1 H2 H3 H4 H5]); [done..| |].
  { intros v _. simpl. by rewrite E4. }
  exists s2. split.
  { unfold NewIndex, go_bind. rewrite Hload. unfold on_ext. rewrite Hroot. exact Hrun. }
  simpl in *. split; [done| |done| |].
  - intros k p Hk. simpl in Hk. by rewrite lookup_empty in Hk.
  - intros k Hk. right. destruct (H4 _ Hk) as [Hk'|?]; [|done]. rewrite E4 in Hk'. by destruct Hk' as [? [=]].
  - by rewrite H5, E8.
Qed.

(** ** Every sequence of operations *)

Context (range : gset ptr → list ptr) {RO : RangeOrder range}.

(** Operations that only look. *)
Definition looks {A} (m : go (Index X) error A) : Prop := keeps (=) m.

Lemma list_buckets_looks k places : ∀ refs, looks (list_buckets (X:=X) range k places refs).
Proof.
  induction places as [|e places IH]; intros refs; simpl; [by intros s|].
  apply keeps_bind; [typeclasses eauto|by intros s|intros b].
  apply keeps_bind; [typeclasses eauto|by intros s|intros l; apply IH].
Qed.

Lemma ListRefs_looks : looks (ListRefs (X:=X) range).
Proof.
  unfold ListRefs. apply keeps_bind; [typeclasses eauto|by intros s|intros s0].
  apply keeps_bind; [typeclasses eauto|apply list_buckets_looks|by intros l s].
Qed.

Lemma fill_entries_looks av l : ∀ added out, looks (fill_entries (X:=X) av l added out).
Proof.
  induction l as [|k l IH]; intros added out; simpl; [by intros s|].
  apply keeps_bind; [typeclasses eauto|by intros s|intros r]. case_match; [by intros s|apply IH].
Qed.

Lemma fill_looks av l : ∀ added out, looks (fill (X:=X) range av l added out).
Proof.
  induction l as [|e l IH]; intros added out; simpl; [by intros s|].
  apply keeps_bind; [typeclasses eauto|by intros s|intros le].
  apply keeps_bind; [typeclasses eauto|apply fill_entries_looks|intros [[o a] f]].
  case_match; [by intros s|apply IH].
Qed.

Lemma any_less_looks f l : looks (any_less (X:=X) f l).
Proof.
  induction l as [|p l IH]; simpl; [by intros s|].
  apply keeps_bind; [typeclasses eauto|by intros s|intros r]. case_match; [by intros s|apply IH].
Qed.

Lemma Interesting_looks : looks (Interesting (X:=X) range).
Proof.
  unfold Interesting. apply keeps_bind; [typeclasses eauto|by intros s|intros s0].
  case_match; [apply fill_looks|]. case_match; [|by intros s].
  apply keeps_bind; [typeclasses eauto|by intros s|intros e]. case_match; [|by intros s].
  apply keeps_bind; [typeclasses eauto|by intros s|intros b].
  apply keeps_bind; [typeclasses eauto|apply any_less_looks|intros w]. by repeat case_match.
Qed.

(** An operation that returned.  A read needs room for the next identifier. *)
Inductive index_step : Index X → Index X → Prop :=
| step_SetRef s s' r :
    dr_bucketNode r = None → returns (SetNew env range r) s s' → index_step s s'
| step_GetRef s s' k :
    (∀ p r, ix_Refs s !! ie_String env k = Some p → ix_heap s !! p = Some r →
            is_i64 (dr_BucketID r + 1)) →
    returns (GetRef env k) s s' → index_step s s'
| step_PeekRef s s' k : returns (PeekRef env k) s s' → index_step s s'
| step_ListRefs s s' : returns (ListRefs range) s s' → index_step s s'
| step_UpdateRef s s' r : returns (UpdateRef env r) s s' → index_step s s'
| step_DropRef s s' k : returns (DropRef env k) s s' → index_step s s'
| step_GC s s' order : returns (GC env order) s s' → index_step s s'
| step_CleanBlockStore s s' : returns (CleanBlockStore env) s s' → index_step s s'
| step_LoadInterest s s' root : returns (LoadInterest env root) s s' → index_step s s'
| step_Interesting s s' : returns (Interesting range) s s' → index_step s s'
| step_DropInterest s s' k : returns (DropInterest env k) s s' → index_step s s'.

Lemma index_step_ok s s' : index_ok env s → index_step s s' → index_ok env s'.
Proof.
  intros Hok Hs. destruct Hs as [s s' r Hn H|s s' k Hid H|s s' k H|s s' H|s s' r H|s s' k H|s s' o H
    |s s' H|s s' root H|s s' H|s s' k H].
  - by eapply SetNew_index_ok.
  - by eapply GetRef_index_ok.
  - unfold PeekRef in H. step_ret H. case_match; by destruct H as [? [= <- _]].
  - apply (returns_keeps _ _ _ _ ListRefs_looks) in H. by subst.
  - by eapply UpdateRef_index_ok.
  - by eapply DropRef_index_ok.
  - eapply index_ok_mem; [|exact Hok]. by apply (returns_keeps _ _ _ _ (GC_mem env o)).
  - eapply index_ok_mem; [|exact Hok]. by apply (returns_keeps _ _ _ _ (CleanBlockStore_mem env)).
  - by eapply LoadInterest_index_ok.
  - apply (returns_keeps _ _ _ _ Interesting_looks) in H. by subst.
  - by eapply DropInterest_index_ok.
Qed.

(** The states of an opened index. *)
Definition index_reachable s : Prop := ∃ x ub lb vs s0,
  opens x ub lb vs ∧ NewIndex env (empty_index x ub lb) = (s0, Ok tt) ∧ rtc index_step s0 s.

(** ** Enumerating the list *)

Definition entries_of s n : list ptr :=
  match ix_buckets s !! n with Some b => range (b_entries b) | None => [] end.

Lemma elem_entries s p :
  index_ok env s → p ∈ ix_blist s ≫= entries_of s ↔ ∃ k, ix_Refs s !! k = Some p.
Proof.
  intros [Hok _ _]. rewrite list_elem_of_bind. split.
  - intros (n & Hp & Hn). unfold entries_of in Hp. destruct (lfu_bucket _ _ _ _ Hok _ Hn) as (b & Hb & _).
    rewrite Hb in Hp. apply elem_range in Hp; [|done].
    destruct (lfu_entry _ _ _ _ Hok _ _ _ Hn Hb Hp) as (_ & r & _ & Hk & _). eauto.
  - intros [k Hk]. destruct (lfu_ref _ _ _ _ Hok _ _ Hk) as (r & _ & _ & Hp).
    destruct (Hp (not_elem_of_empty _)) as (n & b & _ & Hn & Hb & Hpb & _). exists n.
    split; [|done]. unfold entries_of. rewrite Hb. by apply elem_range.
Qed.

Lemma by_key_NoDup (f : node → Z) l : by_key f l → NoDup l.
Proof.
  unfold by_key. induction 1 as [|a l _ IH Hall]; constructor; [|done].
  intros Ha. rewrite Forall_forall in Hall. specialize (Hall _ Ha). lia.
Qed.

Lemma NoDup_entries s : index_ok env s → NoDup (ix_blist s ≫= entries_of s).
Proof.
  intros [Hok _ _]. pose proof (by_key_NoDup _ _ (lfu_sorted _ _ _ _ Hok)) as Hnd.
  assert (∀ n, n ∈ ix_blist s → n ∈ ix_blist s) as Hsub by done. revert Hnd Hsub.
  generalize (ix_blist s) at 1 2 4. intros l. induction l as [|n l IH]; intros Hnd Hsub; [constructor|].
  apply NoDup_cons in Hnd as [Hn Hnd]. simpl. apply NoDup_app. split_and!.
  - unfold entries_of. case_match; [apply NoDup_range, RO|constructor].
  - intros p Hp [m [Hpm Hm]]%list_elem_of_bind. unfold entries_of in Hp, Hpm.
    destruct (lfu_bucket _ _ _ _ Hok n) as (b & Hb & _); [apply Hsub; set_solver|].
    destruct (lfu_bucket _ _ _ _ Hok m) as (bm & Hbm & _); [apply Hsub; set_solver|].
    rewrite Hb in Hp. rewrite Hbm in Hpm. apply elem_range in Hp; [|done]. apply elem_range in Hpm; [|done].
    destruct (lfu_entry _ _ _ _ Hok n b p) as (_ & r & Hr & _ & Hrn); [apply Hsub; set_solver|done|done|].
    destruct (lfu_entry _ _ _ _ Hok m bm p) as (_ & r' & Hr' & _ & Hrm); [apply Hsub; set_solver|done|done|].
    simplify_eq. done.
  - apply IH; [done|]. intros m Hm. apply Hsub. set_solver.
Qed.

(** The references of the table, each once. *)
Lemma NoDup_Refs s : index_ok env s → NoDup (map_to_list (ix_Refs s)).*2.
Proof.
  intros [Hok _ _]. apply NoDup_fmap_2_strong; [|apply NoDup_map_to_list].
  intros [k1 p1] [k2 p2] H1%elem_of_map_to_list H2%elem_of_map_to_list E. simpl in E. subst p2.
  destruct (lfu_ref _ _ _ _ Hok _ _ H1) as (r1 & Hr1 & <- & _).
  destruct (lfu_ref _ _ _ _ Hok _ _ H2) as (r2 & Hr2 & <- & _). by simplify_eq.
Qed.

Lemma entries_Refs s : index_ok env s → ix_blist s ≫= entries_of s ≡ₚ (map_to_list (ix_Refs s)).*2.
Proof.
  intros Hok. apply NoDup_Permutation; [by apply NoDup_entries|by apply NoDup_Refs|].
  intros p. rewrite elem_entries by done. rewrite list_elem_of_fmap. split.
  - intros [k Hk]. exists (k, p). split; [done|]. by apply elem_of_map_to_list.
  - intros ([k q] & -> & Hk%elem_of_map_to_list). by exists k.
Qed.

Lemma list_entries_run k l : ∀ refs,
  (length (refs ++ l) ≤ k)%nat → list_entries k l refs = Ok (refs ++ l).
Proof.
  induction l as [|p l IH]; intros refs Hl; simpl; [by rewrite app_nil_r|].
  rewrite length_app in Hl. simpl in Hl. destruct (Nat.ltb_spec k (length refs)); [lia|].
  destruct (Nat.eqb_spec (length refs) k); [lia|]. rewrite IH; [by rewrite <- app_assoc|].
  rewrite <- app_assoc. by rewrite length_app.
Qed.

Lemma list_buckets_run s k l : ∀ refs,
  (∀ n, n ∈ l → is_Some (ix_buckets s !! n)) → (length (refs ++ l ≫= entries_of s) ≤ k)%nat →
  list_buckets range k l refs s = (s, Ok (refs ++ l ≫= entries_of s)).
Proof.
  induction l as [|n l IH]; intros refs Hl Hk; simpl; [by rewrite app_nil_r|].
  destruct (Hl n) as [b Hb]; [set_solver|]. unfold go_bind. rewrite (bucket_run _ _ _ Hb).
  assert (entries_of s n = range (b_entries b)) as En by (unfold entries_of; by rewrite Hb).
  change ((n :: l) ≫= entries_of s) with (entries_of s n ++ l ≫= entries_of s) in Hk.
  rewrite <- En. unfold go_lift. rewrite list_entries_run.
  - rewrite IH; [by rewrite <- app_assoc|set_solver|by rewrite <- app_assoc].
  - revert Hk. rewrite !length_app. lia.
Qed.

Lemma ListRefs_run s :
  index_ok env s → ListRefs range s = (s, Ok (Some <$> ix_blist s ≫= entries_of s)).
Proof.
  intros Hok. pose proof (entries_Refs s Hok) as Hp.
  assert (length (ix_blist s ≫= entries_of s) = size (ix_Refs s)) as Hl.
  { rewrite Hp, length_fmap. apply length_map_to_list. }
  unfold ListRefs, go_bind, go_get. rewrite (list_buckets_run s _ _ []).
  - simpl. rewrite Hl, Nat.sub_diag. simpl. by rewrite app_nil_r.
  - intros n Hn. destruct (lfu_bucket _ _ _ _ (ok_lfu _ _ Hok) _ Hn) as (b & -> & _). eauto.
  - simpl. lia.
Qed.

(** ** Properties *)

(** C19: in every state an index reaches from its opening, through any sequence
    of its operations whether they succeed or fail, the buckets are in strictly
    increasing order and none is empty, the table, the buckets and the
    references' back pointers agree, and the interest list shares no reference
    with the table. *)
Theorem index_invariant s : index_reachable s → index_ok env s.
Proof.
  intros (x & ub & lb & vs & s0 & Ho & Hnew & Hsteps).
  destruct (NewIndex_run x ub lb vs Ho) as (s1 & Hnew' & Hld). rewrite Hnew in Hnew'.
  injection Hnew' as <-. pose proof (ld_ok _ _ _ Hld) as Hok. clear - RO Hok Hsteps.
  induction Hsteps as [|s0 s1 s2 Hs _ IH]; [done|]. apply IH. by eapply index_step_ok.
Qed.

(** Opening an index on a store succeeds when its entries decode under
    distinct keys: the table has exactly those references, each placed in the
    bucket of its identifier, and the size is their total. *)
Theorem NewIndex_loads x ub lb vs :
  opens x ub lb vs →
  ∃ s, NewIndex env (empty_index x ub lb) = (s, Ok tt) ∧ index_ok env s ∧
    (∀ v, v ∈ vs → ∃ p n b, ix_Refs s !! ref_key v = Some p ∧
       ix_heap s !! p = Some (set_dr_bucketNode (Some n) v) ∧
       ix_buckets s !! n = Some b ∧ b_id b = dr_BucketID v ∧ p ∈ b_entries b) ∧
    (∀ k, is_Some (ix_Refs s !! k) ↔ k ∈ ref_key <$> vs) ∧
    ix_size s = u64 (sumZ (λ v, u64 (dr_PayloadSize v)) vs).
Proof.
  intros Ho. destruct (NewIndex_run x ub lb vs Ho) as (s & Hrun & [H1 _ H3 H4 H5]).
  exists s. split_and!; [done|done| | |done].
  - intros v Hv. destruct (H3 _ Hv) as (p & n & Hk & Hp).
    destruct (lfu_ref _ _ _ _ (ok_lfu _ _ H1) _ _ Hk) as (r & Hr & _ & Hpl). rewrite Hp in Hr.
    injection Hr as <-. destruct (Hpl (not_elem_of_empty _)) as (m & b & [= ->] & _ & Hb & Hpb & Hid).
    exists p, m, b. by split_and!.
  - intros k. split; [intros [[? [=]]|?]%H4; done|].
    intros [v [-> Hv]]%list_elem_of_fmap. destruct (H3 _ Hv) as (p & n & Hk & _). by eexists.
Qed.

(** A read returns the reference with one more read counted, moved to the
    bucket of the next identifier, and changes no other reference, neither the
    table nor the size. *)
Theorem GetRef_promotes s s' k p r q :
  index_ok env s → ix_Refs s !! ie_String env k = Some p → ix_heap s !! p = Some r →
  is_i64 (dr_BucketID r + 1) → GetRef env k s = (s', Ok q) →
  q = p ∧ ix_Refs s' = ix_Refs s ∧ ix_size s' = ix_size s ∧
  ∃ n b, ix_heap s' = <[p := read_ref r n (dr_BucketID r + 1)]> (ix_heap s) ∧
    n ∈ ix_blist s' ∧ ix_buckets s' !! n = Some b ∧ b_id b = dr_BucketID r + 1 ∧ p ∈ b_entries b.
Proof.
  intros [Hok _ _] Hk Hr Hid Hrun. assert (q = p) as ->.
  { unfold GetRef in Hrun. apply go_bind_ok in Hrun as (s0 & ? & [= <- <-] & Hrun). rewrite Hk in Hrun.
    apply go_bind_ok in Hrun as (? & ? & _ & Hrun). apply go_bind_ok in Hrun as (? & ? & _ & Hrun).
    apply go_bind_ok in Hrun as (? & ? & _ & Hrun). apply go_bind_ok in Hrun as (? & ? & _ & Hrun).
    by apply go_ret_ok in Hrun as [_ ->]. }
  destruct (GetRef_run env s s' k p r) as (s1 & n & Hok1 & Hh & HR & Hrest & Hm);
    [done..|by eapply returns_ok|].
  apply same_mem_parts in Hm as (Hc & Hsz & _). pose proof Hc as [= E1 E2 E3 E4 E5].
  destruct Hrest as (_ & _ & _ & Hs1 & _). split_and!; [done|congruence|congruence|].
  rewrite E1, E2, E3. destruct (lfu_ref _ _ _ _ Hok1 (ie_String env k) p) as (r' & Hr' & _ & Hp); [by rewrite HR|].
  rewrite Hh, lookup_insert_eq in Hr'. injection Hr' as <-.
  destruct (Hp (not_elem_of_empty _)) as (m & b & [= <-] & Hn & Hb & Hpb & Hbid).
  exists n, b. by split_and!.
Qed.

(** Adding a reference beyond the upper bound evicts references of the least
    read bucket only, until the store is back at the lower bound or that bucket
    is empty: the target may be missed however many references the other
    buckets hold, all of which stay. *)
Theorem SetRef_evicts_front s s' r place places b :
  index_ok env s → dr_bucketNode r = None → ix_Refs s !! ref_key r = None →
  ix_blist s = place :: places → ix_buckets s !! place = Some b →
  over_bound (set_ix_size (u64 (ix_size s + u64 (dr_PayloadSize r))) s) = true →
  SetNew env range r s = (s', Ok tt) →
  ∃ p l, ix_Refs s' !! ref_key r = Some p ∧ NoDup l ∧ (∀ q, q ∈ l → q ∈ b_entries b) ∧
    (∀ k q, k ≠ ref_key r → ix_Refs s' !! k = Some q ↔ ix_Refs s !! k = Some q ∧ q ∉ l) ∧
    ix_size s' = u64 (ix_size s + u64 (dr_PayloadSize r) - sizes s l) ∧
    (u64 (u64 (ix_size s + u64 (dr_PayloadSize r)) - ix_lb s) <= u64 (sizes s l) ∨
     ∀ q, q ∈ b_entries b → q ∈ l).
Proof.
  intros Hok Hn Hk El Hb Hover Hrun. pose proof (alloc_index_ok env s r Hok) as Ha.
  apply go_bind_ok in Hrun as (s1 & p & Halloc & Hset). rewrite alloc_ref_run in Halloc.
  injection Halloc as <- <-. set (p := ix_next s) in *.
  set (s1 := set_ix_heap (<[p := r]> (ix_heap s)) (set_ix_next (S p) s)) in *.
  destruct (SetRef_run env range s1 s' p r) as (s2 & s3 & n & id & _ & _ & Hev & _ & HR3 & Hrest & _ & _ & Hm);
    [apply Ha|apply lookup_insert_eq|done|done|by eapply returns_ok|].
  apply same_mem_parts in Hm as ([= _ _ _ E4 _] & Hsz & _). destruct Hrest as (_ & _ & _ & Hsz3 & _).
  change (over_bound (entered env s1 p r)) with
    (over_bound (set_ix_size (u64 (ix_size s + u64 (dr_PayloadSize r))) s)) in Hev.
  rewrite Hover in Hev. destruct Hev as [e Hev]. unfold eviction in Hev. simpl in Hev. rewrite El in Hev.
  destruct Hev as (b' & l & l2 & Hb' & Hl & [_ _ _ HR Hsize _ _ _] & -> & Hfull).
  rewrite Hb in Hb'. injection Hb' as <-. simpl in HR.
  assert (∀ q, q ∈ b_entries b → ∃ rq, ix_heap s !! q = Some rq) as Hin.
  { intros q Hq. destruct (lfu_entry _ _ _ _ (ok_lfu _ _ Hok) place b q) as (_ & rq & Hrq & _);
      [rewrite El; set_solver|done|done|eauto]. }
  assert (∀ q, q ∈ l → q ∈ b_entries b) as Hlb.
  { intros q Hq. eapply elem_range; [done|]. rewrite Hl. set_solver. }
  assert (∀ q, q ∈ b_entries b → q ≠ p) as Hnp.
  { intros q [rq Hrq]%Hin ->. assert (p < ix_next s)%nat; [|unfold p in *; lia].
    apply (sep_heap _ (ok_separate _ _ Hok)). eauto. }
  assert (sizes (entered env s1 p r) l = sizes s l) as Esz.
  { unfold sizes. assert (∀ q, q ∈ l → q ≠ p) as Hlp by auto. clear -Hlp.
    induction l as [|q l IH]; [done|]. simpl. rewrite IH by set_solver. f_equal.
    unfold ref_size. simpl. rewrite lookup_insert_ne; [done|]. intros <-. apply (Hlp p); set_solver. }
  rewrite Esz in *. exists p, l. rewrite E4, HR3, Hsz, Hsz3. split_and!.
  - apply HR. rewrite lookup_insert_eq. split; [done|]. intros Hp%Hlb%Hnp. done.
  - pose proof (NoDup_range range (b_entries b)) as Hnd. rewrite Hl in Hnd. by apply NoDup_app in Hnd as (? & _).
  - done.
  - intros k q Hne. rewrite HR, lookup_insert_ne by (unfold ref_key in *; congruence). done.
  - rewrite Hsize. simpl. by rewrite u64_sub_l.
  - destruct Hfull as [Hfull| ->]; [by left|right]. intros q Hq. rewrite app_nil_r in Hl.
    rewrite <- Hl. by eapply elem_range.
Qed.

(** The list of references has every reference of the table exactly once,
    and listing never fails. *)
Theorem ListRefs_complete s :
  index_ok env s →
  ∃ l, ListRefs range s = (s, Ok (Some <$> l)) ∧ l ≡ₚ (map_to_list (ix_Refs s)).*2.
Proof.
  intros Hok. exists (ix_blist s ≫= entries_of s).
  split; [by apply ListRefs_run|by apply entries_Refs].
Qed.

(** Dropping a reference removes it from the table and from the list, but
    leaves the recorded size as it was: the space is never given back. *)
Theorem DropRef_keeps_size s s' k p :
  index_ok env s → ix_Refs s !! ie_String env k = Some p → DropRef env k s = (s', Ok tt) →
  ix_Refs s' = delete (ie_String env k) (ix_Refs s) ∧ p ∉ ix_blist s' ≫= entries_of s' ∧
  ix_size s' = ix_size s.
Proof.
  intros Hok Hk Hrun. pose proof (returns_ok _ _ _ _ Hrun) as Hret.
  pose proof (DropRef_index_ok env s s' k Hok Hret) as Hok'.
  destruct (lfu_ref _ _ _ _ (ok_lfu _ _ Hok) _ _ Hk) as (r & Hr & Hs & _).
  destruct (DropRef_run env s s' k p r) as [[_ [e He]]|(s1 & n & _ & HR & _ & _ & Hsz & _ & _ & Hm)];
    [apply Hok|done..|congruence|].
  apply same_mem_parts in Hm as ([= _ _ _ E4 _] & Hsz' & _).
  rewrite elem_entries by done. split_and!; [congruence| |congruence].
  intros [k' Hk']. rewrite E4, HR in Hk'. apply lookup_delete_Some in Hk' as [Hne Hk'].
  destruct (lfu_ref _ _ _ _ (ok_lfu _ _ Hok) _ _ Hk') as (r' & Hr' & Hs' & _). congruence.
Qed.

(** A reference evicted from the table stays in the store, so that dropping
    it finds it there and dereferences nil. *)
Theorem DropRef_evicted_panics s k x :
  ix_Refs s !! ie_String env k = None → ie_Delete env (ie_String env k) (ix_ext s) = (x, Ok true) →
  DropRef env k s = (set_ix_ext x s, Panic).
Proof.
  intros Hk Hd. unfold DropRef, go_bind, on_ext. rewrite Hd. simpl. by rewrite Hk.
Qed.

End spec.

(** The space available is what the upper bound leaves as long as the store
    is at or below the lower bound, and nothing between the bounds; beyond the
    upper bound the subtraction wraps around and the answer is a huge number. *)
Theorem Available_cases {X} (s : Index X) :
  is_u64 (ix_size s) → is_u64 (ix_ub s) → 0 <= ix_lb s <= ix_ub s →
  Available s =
    if ix_size s <=? ix_lb s then ix_ub s - ix_size s
    else if ix_size s <=? ix_ub s then 0
    else if two64 + ix_ub s - ix_size s <? ix_ub s - ix_lb s then 0
    else two64 + ix_ub s - ix_size s.
Proof.
  unfold Available. intros Hs Hu Hl.
  rewrite (u64_small (ix_ub s - ix_lb s)) by (unfold is_u64 in *; lia).
  destruct (Z.leb_spec (ix_size s) (ix_lb s)), (Z.leb_spec (ix_size s) (ix_ub s)); try lia.
  1, 2: rewrite (u64_small (ix_ub s - ix_size s)) by (unfold is_u64 in *; lia);
    destruct (Z.ltb_spec (ix_ub s - ix_size s) (ix_ub s - ix_lb s)); (done || lia).
  assert (u64 (ix_ub s - ix_size s) = two64 + ix_ub s - ix_size s) as ->; [|done].
  unfold u64. rewrite <- (Z_mod_plus_full _ 1), Z.mod_small; unfold is_u64 in *; lia.
Qed.

(** ** A concrete store *)

(** A store that is a table of encoded references. *)
Definition table_store : IndexEnv (gmap string bytes) := {|
  ie_NewNode := go_ret tt;
  ie_LoadRoot _ := go_ret tt;
  ie_Root := λ x, (x, Ok (map_to_list x));
  ie_Node _ := λ x, (x, Ok (map_to_list x));
  ie_Set k b := λ x, (<[k := b]> x, Ok tt);
  ie_Delete k := λ x, (delete k x, Ok (bool_decide (is_Some (x !! k))));
  ie_Flush := go_ret tt;
  ie_Put := go_ret "root";
  ie_dsGet _ := λ x, (x, match map_to_list x with [] => Err ErrNotFound | _ => Ok "root" end);
  ie_dsPut _ _ := go_ret tt;
  ie_CidCast b := inr b;
  ie_CidBytes c := c;
  ie_String c := c;
  ie_V1 c := c;
  ie_WalkDAG c := go_ret ([c], None);
  ie_DeleteBlock _ := go_ret tt;
  ie_AllKeys := go_ret [];
  ie_GCBlockstore := true;
  ie_GCDatastore := true;
  ie_CollectGarbage := go_ret tt
|}.

#[export] Instance elements_order : RangeOrder elements.
Proof. by intros e. Qed.

Definition ref_a : DataRef := MkDataRef "a" 40 [] 0 0 None.
Definition ref_b : DataRef := MkDataRef "b" 40 ["k"] 0 0 None.
Definition ref_c : DataRef := MkDataRef "c" 40 [] 0 0 None.

(** Opened empty with bounds 100 and 50; [a] and [b] added; [b] read. *)
Definition index_0 := (NewIndex table_store (empty_index ∅ 100 50)).1.
Definition index_1 := (SetNew table_store elements ref_a index_0).1.
Definition index_2 := (SetNew table_store elements ref_b index_1).1.
Definition index_3 := (GetRef table_store "b" index_2).1.
Definition index_4 := (SetNew table_store elements ref_c index_3).1.
Definition index_5 := (DropRef table_store "b" index_3).1.
Definition reopened : gmap string bytes := ix_ext index_3.
Definition ref_b' : DataRef := MkDataRef "b" 40 ["k"] 1 2 None.
Definition ref_a' : DataRef := MkDataRef "a" 40 [] 0 1 None.

Lemma opens_empty : opens table_store ∅ 100 50 [].
Proof.
  split; [|constructor]. exists (loadFromStore table_store (empty_index ∅ 100 50)).1, ∅, [].
  split; [run_eq|]. split; [vm_eq|constructor].
Qed.

Lemma index_0_ok : index_ok table_store index_0.
Proof.
  destruct (NewIndex_run table_store ∅ 100 50 [] opens_empty) as (s & Hs & [Hok _ _ _ _]).
  unfold index_0. by rewrite Hs.
Qed.

Lemma index_steps_3 : rtc (index_step table_store elements) index_0 index_3.
Proof.
  eapply rtc_l; [apply (step_SetRef _ _ _ index_1 ref_a); [done|by apply (returned _ _ tt); vm_eq]|].
  eapply rtc_l; [apply (step_SetRef _ _ _ index_2 ref_b); [done|by apply (returned _ _ tt); vm_eq]|].
  apply rtc_once. apply (step_GetRef _ _ _ index_3 "b").
  - assert (ix_Refs index_2 !! "b" = Some 2%nat) as E1 by vm_eq.
    assert (ix_heap index_2 !! 2%nat = Some (MkDataRef "b" 40 ["k"] 0 1 (Some 1%nat))) as E2 by vm_eq.
    simpl. intros p r. rewrite E1. intros [= <-]. rewrite E2. intros [= <-]. by vm_compute.
  - by apply (returned _ _ 2%nat); vm_eq.
Qed.

Lemma index_3_ok : index_ok table_store index_3.
Proof.
  pose proof index_0_ok as Hok. revert Hok. generalize index_steps_3.
  induction 1 as [|s0 s1 s2 Hs _ IH]; [done|]. intros Hok. apply IH.
  eapply index_step_ok; [apply elements_order|exact Hok|exact Hs].
Qed.

Lemma index_invariant_witness : index_ok table_store index_3.
Proof.
  apply (index_invariant table_store elements).
  exists ∅, 100, 50, [], index_0. split; [apply opens_empty|]. split; [run_eq|apply index_steps_3].
Defined.

Lemma NewIndex_loads_witness :
  ∃ s, NewIndex table_store (empty_index reopened 100 50) = (s, Ok tt) ∧ ix_size s = 80.
Proof.
  destruct (NewIndex_loads table_store reopened 100 50 [ref_a'; ref_b']) as (s & Hs & _ & _ & _ & Hsz).
  - split.
    + exists (loadFromStore table_store (empty_index reopened 100 50)).1, reopened,
        (map_to_list reopened). split; [run_eq|]. split; [vm_eq|].
      assert (map_to_list reopened = [("a", default EmptyString (reopened !! "a"));
                                      ("b", default EmptyString (reopened !! "b"))]) as -> by vm_eq.
      repeat constructor; vm_eq.
    + repeat constructor; set_solver.
  - exists s. split; [exact Hs|]. rewrite Hsz. vm_eq.
Defined.

Lemma GetRef_promotes_witness :
  ix_size (GetRef table_store "b" index_3).1 = ix_size index_3.
Proof.
  apply (GetRef_promotes table_store index_3 (GetRef table_store "b" index_3).1 "b" 2
           (MkDataRef "b" 40 ["k"] 1 2 (Some 3%nat)) 2).
  - apply index_3_ok.
  - vm_eq.
  - vm_eq.
  - vm_compute. intuition congruence.
  - run_eq.
Defined.

Lemma SetRef_evicts_front_witness :
  ∃ l, (∀ q, q ∈ l → q ∈ ({[0%nat]} : gset nat)) ∧
       ix_size index_4 = u64 (ix_size index_3 + u64 40 - sizes index_3 l).
Proof.
  destruct (SetRef_evicts_front table_store elements index_3 index_4 ref_c 1 [3%nat] (MkBucket 1 {[0%nat]}))
    as (p & l & _ & _ & Hl & _ & Hsz & _); [apply index_3_ok|vm_eq..|run_eq|].
  exists l. split; [exact Hl|exact Hsz].
Defined.

Lemma ListRefs_complete_witness :
  ∃ l, ListRefs elements index_3 = (index_3, Ok (Some <$> l)) ∧ l ≡ₚ (map_to_list (ix_Refs index_3)).*2.
Proof. apply (ListRefs_complete table_store elements), index_3_ok. Defined.

Lemma DropRef_keeps_size_witness : ix_size index_5 = ix_size index_3.
Proof.
  apply (DropRef_keeps_size table_store elements index_3 index_5 "b" 2); [apply index_3_ok|vm_eq|run_eq].
Defined.

Lemma DropRef_evicted_panics_witness :
  (DropRef table_store "a" index_4).2 = Panic.
Proof.
  rewrite (DropRef_evicted_panics table_store index_4 "a" (delete "a" (ix_ext index_4))); [done|vm_eq..].
Defined.

Lemma Available_cases_witness :
  Available (set_ix_size 101 index_0) = 18446744073709551615.
Proof.
  rewrite (Available_cases (set_ix_size 101 index_0)); [vm_eq|vm_compute; intuition congruence..].
Defined.
