(* ===== verification/PayInfo.v ===== *)
(** * Payment channel records (payments/store.go)

    The records persisted for payment channels, vouchers and messages, the
    methods of [ChannelInfo], and the interface [Store] through which channels
    and the payment manager reach the persisted records. *)
From S2P Require Import Prelude Deal PayTypes.

(** Channel directions *)
Definition DirInbound : Z := 1.
Definition DirOutbound : Z := 2.

(** [vi_Voucher] is a pointer: decoding a null voucher leaves it nil. *)
Record VoucherInfo : Type := MkVoucherInfo {
  vi_Voucher : option SignedVoucher;
  vi_Proof : bytes;
  vi_Submitted : bool
}.

#[export] Instance VoucherInfo_eq_dec : EqDecision VoucherInfo.
Proof. solve_decision. Defined.

Definition set_vi_Submitted (b : bool) (v : VoucherInfo) : VoucherInfo :=
  MkVoucherInfo (vi_Voucher v) (vi_Proof v) b.

Record ChannelInfo : Type := MkChannelInfo {
  ci_ChannelID : string;
  ci_Channel : option address;
  ci_Control : address;
  ci_Target : address;
  ci_Direction : Z;
  ci_Vouchers : list VoucherInfo;
  ci_NextLane : Z;
  ci_Amount : Z;
  ci_PendingAmount : Z;
  ci_CreateMsg : option cid;
  ci_AddFundsMsg : option cid;
  ci_Settling : bool;
  ci_SettlingAt : Z
}.

#[export] Instance ChannelInfo_eq_dec : EqDecision ChannelInfo.
Proof. solve_decision. Defined.

Definition set_ci_ChannelID (v : string) (c : ChannelInfo) : ChannelInfo :=
  MkChannelInfo v (ci_Channel c) (ci_Control c) (ci_Target c) (ci_Direction c)
    (ci_Vouchers c) (ci_NextLane c) (ci_Amount c) (ci_PendingAmount c) (ci_CreateMsg c)
    (ci_AddFundsMsg c) (ci_Settling c) (ci_SettlingAt c).
Definition set_ci_Channel (v : option address) (c : ChannelInfo) : ChannelInfo :=
  MkChannelInfo (ci_ChannelID c) v (ci_Control c) (ci_Target c) (ci_Direction c)
    (ci_Vouchers c) (ci_NextLane c) (ci_Amount c) (ci_PendingAmount c) (ci_CreateMsg c)
    (ci_AddFundsMsg c) (ci_Settling c) (ci_SettlingAt c).
Definition set_ci_Vouchers (v : list VoucherInfo) (c : ChannelInfo) : ChannelInfo :=
  MkChannelInfo (ci_ChannelID c) (ci_Channel c) (ci_Control c) (ci_Target c)
    (ci_Direction c) v (ci_NextLane c) (ci_Amount c) (ci_PendingAmount c) (ci_CreateMsg c)
    (ci_AddFundsMsg c) (ci_Settling c) (ci_SettlingAt c).
Definition set_ci_NextLane (v : Z) (c : ChannelInfo) : ChannelInfo :=
  MkChannelInfo (ci_ChannelID c) (ci_Channel c) (ci_Control c) (ci_Target c)
    (ci_Direction c) (ci_Vouchers c) v (ci_Amount c) (ci_PendingAmount c) (ci_CreateMsg c)
    (ci_AddFundsMsg c) (ci_Settling c) (ci_SettlingAt c).
Definition set_ci_Amount (v : Z) (c : ChannelInfo) : ChannelInfo :=
  MkChannelInfo (ci_ChannelID c) (ci_Channel c) (ci_Control c) (ci_Target c)
    (ci_Direction c) (ci_Vouchers c) (ci_NextLane c) v (ci_PendingAmount c) (ci_CreateMsg c)
    (ci_AddFundsMsg c) (ci_Settling c) (ci_SettlingAt c).
Definition set_ci_PendingAmount (v : Z) (c : ChannelInfo) : ChannelInfo :=
  MkChannelInfo (ci_ChannelID c) (ci_Channel c) (ci_Control c) (ci_Target c)
    (ci_Direction c) (ci_Vouchers c) (ci_NextLane c) (ci_Amount c) v (ci_CreateMsg c)
    (ci_AddFundsMsg c) (ci_Settling c) (ci_SettlingAt c).
Definition set_ci_CreateMsg (v : option cid) (c : ChannelInfo) : ChannelInfo :=
  MkChannelInfo (ci_ChannelID c) (ci_Channel c) (ci_Control c) (ci_Target c)
    (ci_Direction c) (ci_Vouchers c) (ci_NextLane c) (ci_Amount c) (ci_PendingAmount c) v
    (ci_AddFundsMsg c) (ci_Settling c) (ci_SettlingAt c).
Definition set_ci_AddFundsMsg (v : option cid) (c : ChannelInfo) : ChannelInfo :=
  MkChannelInfo (ci_ChannelID c) (ci_Channel c) (ci_Control c) (ci_Target c)
    (ci_Direction c) (ci_Vouchers c) (ci_NextLane c) (ci_Amount c) (ci_PendingAmount c)
    (ci_CreateMsg c) v (ci_Settling c) (ci_SettlingAt c).
Definition set_ci_Settling (v : bool) (c : ChannelInfo) : ChannelInfo :=
  MkChannelInfo (ci_ChannelID c) (ci_Channel c) (ci_Control c) (ci_Target c)
    (ci_Direction c) (ci_Vouchers c) (ci_NextLane c) (ci_Amount c) (ci_PendingAmount c)
    (ci_CreateMsg c) (ci_AddFundsMsg c) v (ci_SettlingAt c).
Definition set_ci_SettlingAt (v : Z) (c : ChannelInfo) : ChannelInfo :=
  MkChannelInfo (ci_ChannelID c) (ci_Channel c) (ci_Control c) (ci_Target c)
    (ci_Direction c) (ci_Vouchers c) (ci_NextLane c) (ci_Amount c) (ci_PendingAmount c)
    (ci_CreateMsg c) (ci_AddFundsMsg c) (ci_Settling c) v.

Record MsgInfo : Type := MkMsgInfo {
  mi_ChannelID : string;
  mi_MsgCid : cid;
  mi_Received : bool;
  mi_Err : string
}.

#[export] Instance MsgInfo_eq_dec : EqDecision MsgInfo.
Proof. solve_decision. Defined.

(** ** Methods of [ChannelInfo] *)

Definition from (ci : ChannelInfo) : address :=
  if ci_Direction ci =? DirOutbound then ci_Control ci else ci_Target ci.

Definition to (ci : ChannelInfo) : address :=
  if ci_Direction ci =? DirOutbound then ci_Target ci else ci_Control ci.

(** [cborutil.Equals] compares two values by their encodings; vouchers whose
    encoding succeeds are equal when the encodings are. *)
Class CborEquals : Type := {
  Equals : option SignedVoucher → option SignedVoucher → error + bool;
  Equals_spec : ∀ sv v b, Equals sv v = inr b → b = bool_decide (v = sv)
}.

Section vouchers.
Context {EQ : CborEquals}.

(** The loop over the vouchers answers the position of the matching entry (the
    source answers the pointer to it). *)
Fixpoint infoForVoucher_loop (sv : SignedVoucher) (l : list VoucherInfo) (i : nat)
    : outcome error (option nat) :=
  match l with
  | [] => Ok None
  | v :: l' =>
    match Equals (Some sv) (vi_Voucher v) with
    | inl err => Err err
    | inr eq => if eq then Ok (Some i) else infoForVoucher_loop sv l' (S i)
    end
  end.

Definition infoForVoucher (ci : ChannelInfo) (sv : SignedVoucher) : outcome error (option nat) :=
  infoForVoucher_loop sv (ci_Vouchers ci) 0.

Definition hasVoucher (ci : ChannelInfo) (sv : SignedVoucher) : outcome error bool :=
  outcome_bind (infoForVoucher ci sv) (λ vi, Ok (bool_decide (is_Some vi))).

Definition not_added : error :=
  ErrMsg "cannot submit voucher that has not been added to channel".

Definition wasVoucherSubmitted (ci : ChannelInfo) (sv : SignedVoucher) : outcome error bool :=
  outcome_bind (infoForVoucher ci sv) (λ vi,
    match vi with
    | None => Err not_added
    | Some i => match ci_Vouchers ci !! i with
                | Some v => Ok (vi_Submitted v)
                | None => Panic
                end
    end).

(** The second loop of [markVoucherSubmitted]; a nil voucher is a nil dereference. *)
Fixpoint mark_lower (sv : SignedVoucher) (l : list VoucherInfo)
    : outcome error (list VoucherInfo) :=
  match l with
  | [] => Ok []
  | v :: l' =>
    match vi_Voucher v with
    | None => Panic
    | Some w =>
      outcome_bind (mark_lower sv l') (λ r,
        Ok ((if (sv_Lane w =? sv_Lane sv) && (sv_Nonce w <? sv_Nonce sv)
             then set_vi_Submitted true v else v) :: r))
    end
  end.

Definition markVoucherSubmitted (ci : ChannelInfo) (sv : SignedVoucher)
    : outcome error ChannelInfo :=
  outcome_bind (infoForVoucher ci sv) (λ vi,
    match vi with
    | None => Err not_added
    | Some i =>
      outcome_bind (mark_lower sv (alter (set_vi_Submitted true) i (ci_Vouchers ci)))
        (λ l, Ok (set_ci_Vouchers l ci))
    end).

(** ** Lemmas *)

(** Channels without nil vouchers. *)
Definition no_nil (ci : ChannelInfo) : Prop :=
  Forall (λ v, is_Some (vi_Voucher v)) (ci_Vouchers ci).

Lemma infoForVoucher_loop_spec sv l i r :
  infoForVoucher_loop sv l i = Ok r →
  match r with
  | Some j => ∃ k v, j = (i + k)%nat ∧ l !! k = Some v ∧ vi_Voucher v = Some sv
  | None => ∀ v, v ∈ l → vi_Voucher v ≠ Some sv
  end.
Proof.
  revert i. induction l as [|v l IH]; intros i; simpl.
  - intros [= <-]. by intros v ?%elem_of_nil.
  - destruct (Equals (Some sv) (vi_Voucher v)) as [e|b] eqn:E; [done|].
    apply Equals_spec in E as ->. case_bool_decide as Hv.
    + intros [= <-]. exists 0%nat, v. split_and!; [lia|done|done].
    + intros Hr%IH. destruct r as [j|].
      * destruct Hr as (k & w & -> & ? & ?). exists (S k), w. split_and!; [lia|done|done].
      * intros w [->|Hw]%elem_of_cons; [done|]. by apply Hr.
Qed.

(** The effect of [mark_lower], entry by entry. *)
Lemma mark_lower_lookup sv l l' i v :
  mark_lower sv l = Ok l' → l' !! i = Some v →
  ∃ v0 w, l !! i = Some v0 ∧ vi_Voucher v0 = Some w ∧ vi_Voucher v = Some w ∧
    vi_Proof v = vi_Proof v0 ∧
    vi_Submitted v = vi_Submitted v0 || ((sv_Lane w =? sv_Lane sv) && (sv_Nonce w <? sv_Nonce sv)).
Proof.
  revert l' i. induction l as [|x l IH]; intros l' i; simpl; [by intros [= <-]|].
  destruct (vi_Voucher x) as [w|] eqn:Hx; [|done].
  destruct (mark_lower sv l) as [r| | |]; simpl; try done. intros [= <-].
  destruct i as [|i]; simpl; [|apply IH; done]. intros [= <-].
  exists x, w. split_and!; try done; destruct ((sv_Lane w =? _) && _); simpl;
    by rewrite ?orb_true_r, ?orb_false_r.
Qed.

Lemma mark_lower_total sv l :
  Forall (λ v, is_Some (vi_Voucher v)) l → ∃ l', mark_lower sv l = Ok l'.
Proof.
  induction 1 as [|v l [w Hw] _ [l' IH]]; simpl; [eauto|]. rewrite Hw, IH. simpl. eauto.
Qed.

Lemma mark_lower_length sv l l' : mark_lower sv l = Ok l' → length l' = length l.
Proof.
  revert l'. induction l as [|x l IH]; intros l'; simpl; [by intros [= <-]|].
  destruct (vi_Voucher x); [|done].
  destruct (mark_lower sv l) as [r| | |]; simpl; try done. intros [= <-]. simpl.
  by rewrite (IH r).
Qed.

End vouchers.

(** Structural equality of vouchers is an encoding comparison that never fails. *)
#[refine, export] Instance structural_equals : CborEquals :=
  {| Equals sv v := inr (bool_decide (v = sv)) |}.
Proof. by intros sv v b [= <-]. Defined.

(** ** Keys of the persisted records

    A key of the datastore, as the list of its namespaces. *)
Abbreviation dskey := (list string).

Definition dsKeyChannelInfo : string := "ChannelInfo".
Definition dsKeyMsgCid : string := "MsgCid".

Definition dskeyForChannel (channelID : string) : dskey := [dsKeyChannelInfo; channelID].
Definition dskeyForMsg (mcid : cid) : dskey := [dsKeyMsgCid; mcid].

(** ** The store interface

    The methods of [*Store] used outside the store.  The methods that take a
    pointer to a [ChannelInfo] and complete it answer the completed record. *)
Record Store (S : Type) : Type := MkStore {
  st_CreateChannel : address → address → cid → Z → go S error ChannelInfo;
  st_SaveNewMessage : string → cid → go S error unit;
  st_putChannelInfo : ChannelInfo → go S error ChannelInfo;
  st_SaveMessageResult : cid → option error → go S error unit;
  st_ByMessageCid : cid → go S error ChannelInfo;
  st_GetMessage : cid → go S error MsgInfo;
  st_ByChannelID : string → go S error ChannelInfo;
  st_OutboundActiveByFromTo : address → address → go S error ChannelInfo;
  st_ByAddress : address → go S error ChannelInfo;
  st_VouchersForPaych : address → go S error (list VoucherInfo);
  st_AllocateLane : address → go S error Z;
  st_TrackChannel : ChannelInfo → go S error ChannelInfo;
  st_ListChannels : go S error (list address);
  st_ListSettlingChannels : go S error (list ChannelInfo);
  st_MarkVoucherSubmitted : ChannelInfo → SignedVoucher → go S error ChannelInfo;
  st_SetChannelSettlingAt : ChannelInfo → Z → go S error ChannelInfo;
  st_RemoveChannel : string → go S error unit
}.
Arguments MkStore {S}.
Arguments st_CreateChannel {S}.
Arguments st_SaveNewMessage {S}.
Arguments st_putChannelInfo {S}.
Arguments st_SaveMessageResult {S}.
Arguments st_ByMessageCid {S}.
Arguments st_GetMessage {S}.
Arguments st_ByChannelID {S}.
Arguments st_OutboundActiveByFromTo {S}.
Arguments st_ByAddress {S}.
Arguments st_VouchersForPaych {S}.
Arguments st_AllocateLane {S}.
Arguments st_TrackChannel {S}.
Arguments st_ListChannels {S}.
Arguments st_ListSettlingChannels {S}.
Arguments st_MarkVoucherSubmitted {S}.
Arguments st_SetChannelSettlingAt {S}.
Arguments st_RemoveChannel {S}.


(** ** What the store promises

    [view s k] is the channel persisted under the key [k].  [emptyAddr] is the address
    written in place of a nil address. *)

(** The in-memory record after it was written. *)
Definition written (emptyAddr : address) (ci : ChannelInfo) : ChannelInfo :=
  match ci_Channel ci with
  | None => set_ci_Channel (Some emptyAddr) ci
  | Some _ => ci
  end.

(** The record that will be read back. *)
Definition stored (emptyAddr : address) (ci : ChannelInfo) : ChannelInfo :=
  set_ci_SettlingAt 0
    (match ci_Channel ci with
     | Some a => if String.eqb a emptyAddr then set_ci_Channel None ci else ci
     | None => ci
     end).

(** The integer fields are [uint64] values. *)
Definition ci_words (ci : ChannelInfo) : Prop := is_u64 (ci_Direction ci) ∧ is_u64 (ci_NextLane ci).

Definition active_from_to (from to : address) (ci : ChannelInfo) : Prop :=
  ci_Direction ci = DirOutbound ∧ ci_Settling ci = false ∧ ci_Control ci = from ∧ ci_Target ci = to.

(** Two states of the store hold the same channels. *)
Definition same {S} (view : S → dskey → option ChannelInfo) (s s' : S) : Prop :=
  ∀ k, view s' k = view s k.

#[export] Instance same_equivalence {S} (view : S → dskey → option ChannelInfo) :
  Equivalence (same view).
Proof.
  split; [by intros s k|intros s s' H k; by rewrite H|].
  intros s1 s2 s3 H1 H2 k. by rewrite H2, H1.
Qed.

Class StoreLaws {EQ : CborEquals} {S} (st : Store S) (view : S → dskey → option ChannelInfo)
    (emptyAddr : address) : Prop := {
  by_id_law : ∀ id s s' r, st_ByChannelID st id s = (s', r) →
    same view s s' ∧ (∀ ci, r = Ok ci → view s (dskeyForChannel id) = Some ci);
  by_address_law : ∀ a s s' r, st_ByAddress st a s = (s', r) →
    same view s s' ∧
    (∀ ci, r = Ok ci → ci_Channel ci = Some a ∧ ∃ k, view s k = Some ci);
  by_from_to_law : ∀ f t s s' r, st_OutboundActiveByFromTo st f t s = (s', r) →
    same view s s' ∧
    (∀ ci, r = Ok ci → active_from_to f t ci ∧ ∃ k, view s k = Some ci);
  put_law : ∀ ci s s' r, st_putChannelInfo st ci s = (s', r) →
    match r with
    | Ok ci' => ∃ id, ci' = written emptyAddr (set_ci_ChannelID id ci) ∧
        (ci_ChannelID ci ≠ EmptyString → id = ci_ChannelID ci) ∧
        (ci_words ci → view s' (dskeyForChannel id)
                       = Some (stored emptyAddr (set_ci_ChannelID id ci))) ∧
        (∀ j, j ≠ dskeyForChannel id → view s' j = view s j)
    | _ => same view s s'
    end;
  remove_law : ∀ id s s' r, st_RemoveChannel st id s = (s', r) →
    match r with
    | Ok _ => view s' (dskeyForChannel id) = None ∧ ∀ j, j ≠ dskeyForChannel id → view s' j = view s j
    | _ => same view s s'
    end;
  message_laws : ∀ s,
    (∀ id c, same view s (st_SaveNewMessage st id c s).1) ∧
    (∀ c e, same view s (st_SaveMessageResult st c e s).1) ∧
    (∀ c, same view s (st_GetMessage st c s).1);
  vouchers_law : ∀ a,
    st_VouchersForPaych st a = (let* ci := st_ByAddress st a in go_ret (ci_Vouchers ci));
  allocate_law : ∀ a,
    st_AllocateLane st a =
    (let* ci := st_ByAddress st a in
     do* st_putChannelInfo st (set_ci_NextLane (u64 (ci_NextLane ci + 1)) ci) then
     go_ret (ci_NextLane ci));
  mark_law : ∀ ci sv,
    st_MarkVoucherSubmitted st ci sv =
    (let* ci := go_lift (markVoucherSubmitted ci sv) in st_putChannelInfo st ci);
  settling_law : ∀ ci ep,
    st_SetChannelSettlingAt st ci ep = st_putChannelInfo st (set_ci_SettlingAt ep ci)
}.

(** A store whose lookups by address do not miss a persisted channel. *)
Class StoreComplete {S} (st : Store S) (view : S → dskey → option ChannelInfo) : Prop := {
  by_address_complete : ∀ a s s', st_ByAddress st a s = (s', Err ErrChannelNotTracked) →
    ∀ k ci, view s k = Some ci → ci_Channel ci ≠ Some a
}.

(** What the payment system maintains of the persisted channels: records carry
    their own identifier, no two of them have the same address, and no address is
    the placeholder. *)
Record store_wf {S} (view : S → dskey → option ChannelInfo) (emptyAddr : address) (s : S)
    : Prop := {
  wf_id : ∀ k ci, view s k = Some ci →
    k = dskeyForChannel (ci_ChannelID ci) ∧ ci_ChannelID ci ≠ EmptyString;
  wf_words : ∀ id ci, view s id = Some ci → ci_words ci;
  wf_address : ∀ i j ci cj a, view s i = Some ci → view s j = Some cj →
    ci_Channel ci = Some a → ci_Channel cj = Some a → i = j;
  wf_empty : ∀ id ci, view s id = Some ci → ci_Channel ci ≠ Some emptyAddr
}.

Section store_lemmas.
Context {EQ : CborEquals} {S : Type} (st : Store S) (view : S → dskey → option ChannelInfo).
Context (emptyAddr : address) {L : StoreLaws st view emptyAddr}.
Local Abbreviation wf := (store_wf view emptyAddr).

#[export] Instance store_wf_same : Proper (same view ==> iff) wf.
Proof.
  assert (∀ s s', same view s s' → wf s → wf s') as H.
  { intros s s' Hs [H1 H2 H3 H4]. split.
    - intros k ci. rewrite Hs. apply H1.
    - intros k ci. rewrite Hs. apply H2.
    - intros i j ci cj a. rewrite !Hs. apply H3.
    - intros k ci. rewrite Hs. apply H4. }
  intros s s' Hs. split; apply H; [done|by symmetry].
Qed.

Lemma stored_id ci : ci_Channel ci ≠ Some emptyAddr → stored emptyAddr ci = set_ci_SettlingAt 0 ci.
Proof.
  intros H. unfold stored. destruct (ci_Channel ci) as [a|]; [|done].
  destruct (String.eqb_spec a emptyAddr); [congruence|done].
Qed.

(** Two records of the store with the same address are the same record. *)
Lemma wf_unique s i j ci cj a :
  wf s → view s i = Some ci → view s j = Some cj → ci_Channel ci = Some a →
  ci_Channel cj = Some a → i = j ∧ ci = cj.
Proof.
  intros Hwf Hi Hj Hci Hcj. assert (i = j) as -> by (eapply wf_address; eauto). split; congruence.
Qed.

(** Writing back a record that was read, with its identifier and address. *)
Lemma update_put s s' k ci0 ci r :
  wf s → view s k = Some ci0 → ci_ChannelID ci = ci_ChannelID ci0 →
  ci_Channel ci = ci_Channel ci0 → ci_words ci → st_putChannelInfo st ci s = (s', Ok r) →
  wf s' ∧ r = written emptyAddr ci ∧ view s' k = Some (set_ci_SettlingAt 0 ci) ∧
  (∀ j, j ≠ k → view s' j = view s j).
Proof.
  intros Hwf Hk Hid Hch Hw (id & -> & Hid' & Hst & Hoth)%put_law.
  destruct (wf_id _ _ _ Hwf _ _ Hk) as [-> Hne]. rewrite Hid in Hid'. specialize (Hid' Hne).
  assert (set_ci_ChannelID id ci = ci) as Hsame
    by (unfold set_ci_ChannelID; destruct ci; simpl in *; congruence).
  rewrite Hsame in *. specialize (Hst Hw). rewrite Hid' in *.
  pose proof (wf_empty _ _ _ Hwf _ _ Hk) as Hem. rewrite <- Hch in Hem.
  rewrite stored_id in Hst by done. split_and!; try done. split.
  - intros j cj Hj. destruct (decide (j = dskeyForChannel (ci_ChannelID ci0))) as [->|Hne'].
    + rewrite Hst in Hj. injection Hj as <-. simpl. by rewrite Hid.
    + rewrite Hoth in Hj by done. by apply (wf_id _ _ _ Hwf).
  - intros j cj Hj. destruct (decide (j = dskeyForChannel (ci_ChannelID ci0))) as [->|Hne'].
    + rewrite Hst in Hj. by injection Hj as <-.
    + rewrite Hoth in Hj by done. by apply (wf_words _ _ _ Hwf j).
  - assert (∀ j cj, view s' j = Some cj → ∃ cj0, view s j = Some cj0 ∧
              ci_Channel cj = ci_Channel cj0) as Hback.
    { intros j cj Hj. destruct (decide (j = dskeyForChannel (ci_ChannelID ci0))) as [->|Hne'].
      - rewrite Hst in Hj. injection Hj as <-. eauto.
      - rewrite Hoth in Hj by done. eauto. }
    intros i j c1 c2 a (d1 & H1 & E1)%Hback (d2 & H2 & E2)%Hback Ha1 Ha2.
    eapply (wf_address _ _ _ Hwf i j d1 d2 a); congruence.
  - intros j cj Hj. destruct (decide (j = dskeyForChannel (ci_ChannelID ci0))) as [->|Hne'].
    + rewrite Hst in Hj. by injection Hj as <-.
    + rewrite Hoth in Hj by done. by apply (wf_empty _ _ _ Hwf j).
Qed.

(** Allocating a lane hands out the next lane of the channel and nothing else
    changes. *)
Lemma allocate_step a s s' l :
  wf s → st_AllocateLane st a s = (s', Ok l) →
  ∃ k ci, view s k = Some ci ∧ ci_Channel ci = Some a ∧ l = ci_NextLane ci ∧
    view s' k = Some (set_ci_SettlingAt 0 (set_ci_NextLane (u64 (l + 1)) ci)) ∧
    (∀ j, j ≠ k → view s' j = view s j) ∧ wf s'.
Proof.
  intros Hwf. rewrite allocate_law. unfold go_bind.
  destruct (st_ByAddress st a s) as [s1 o] eqn:E. apply by_address_law in E as [Hs Hr].
  destruct o as [ci| | |]; try done. destruct (Hr ci eq_refl) as [Ha [k Hk]].
  destruct (st_putChannelInfo st _ s1) as [s2 o] eqn:E.
  destruct o as [r| | |]; try done. intros [= <- <-].
  assert (wf s1) as Hwf1 by (by rewrite <- Hs).
  pose proof Hk as Hk1. rewrite <- Hs in Hk1.
  apply (update_put s1 s2 k ci) in E as (Hwf2 & _ & Hv & Hoth); try done.
  - exists k, ci. split_and!; try done. intros j Hj. by rewrite Hoth, Hs.
  - destruct (wf_words _ _ _ Hwf1 _ _ Hk1) as [? _]. split; [done|apply u64_range].
Qed.

End store_lemmas.

(** ** Properties *)

(** Submitting a voucher marks exactly that voucher (the first entry equal
    to it) and the vouchers of its lane with a lower nonce; every other entry,
    and the vouchers themselves, are unchanged. *)
Theorem markVoucherSubmitted_spec {EQ : CborEquals} (ci ci' : ChannelInfo) (sv : SignedVoucher) :
  markVoucherSubmitted ci sv = Ok ci' →
  length (ci_Vouchers ci') = length (ci_Vouchers ci) ∧
  ∃ j, (∃ v, ci_Vouchers ci !! j = Some v ∧ vi_Voucher v = Some sv) ∧
  ∀ i v', ci_Vouchers ci' !! i = Some v' →
    ∃ v w, ci_Vouchers ci !! i = Some v ∧ vi_Voucher v = Some w ∧ vi_Voucher v' = Some w ∧
      vi_Submitted v' = vi_Submitted v || bool_decide (i = j)
                        || ((sv_Lane w =? sv_Lane sv) && (sv_Nonce w <? sv_Nonce sv)).
Proof.
  unfold markVoucherSubmitted. destruct (infoForVoucher ci sv) as [[j|]| | |] eqn:E; simpl; try done.
  apply infoForVoucher_loop_spec in E as (k & vj & Hj & Hk & Hvj).
  simpl in Hj. subst j.
  destruct (mark_lower sv _) as [l| | |] eqn:Hm; simpl; try done. intros [= <-]. simpl.
  split; [by rewrite (mark_lower_length _ _ _ Hm), length_alter|].
  exists k. split; [eauto|]. intros i v' Hi.
  destruct (mark_lower_lookup _ _ _ _ _ Hm Hi) as (v0 & w & H0 & Hw0 & Hw' & _ & Hsub).
  destruct (decide (i = k)) as [->|Hne].
  - rewrite list_lookup_alter_eq, Hk in H0. injection H0 as <-.
    exists vj, w. rewrite bool_decide_true by done. split_and!; try done.
    rewrite Hsub. simpl. by rewrite orb_true_r.
  - rewrite list_lookup_alter_ne in H0 by done. exists v0, w. rewrite bool_decide_false by done.
    by rewrite orb_false_r.
Qed.

Lemma markVoucherSubmitted_spec_witness :
  let v n := MkVoucher "ch" 1 n (10 * n) [] None EmptyString in
  let ci b1 b2 := set_ci_Vouchers [MkVoucherInfo (Some (v 1)) EmptyString b1;
                                   MkVoucherInfo (Some (v 2)) EmptyString b2;
                                   MkVoucherInfo (Some (v 3)) EmptyString false] (MkChannelInfo "id" (Some "ch") "a" "b" DirOutbound [] 3 100 0 None None false 0) in
  length (ci_Vouchers (ci true true)) = length (ci_Vouchers (ci false false)) ∧
  ∃ j, (∃ w, ci_Vouchers (ci false false) !! j = Some w ∧ vi_Voucher w = Some (v 2)) ∧
  ∀ i v', ci_Vouchers (ci true true) !! i = Some v' →
    ∃ u w, ci_Vouchers (ci false false) !! i = Some u ∧ vi_Voucher u = Some w ∧
      vi_Voucher v' = Some w ∧
      vi_Submitted v' = vi_Submitted u || bool_decide (i = j)
                        || ((sv_Lane w =? sv_Lane (v 2)) && (sv_Nonce w <? sv_Nonce (v 2))).
Proof.
  intros v ci. apply (markVoucherSubmitted_spec (ci false false) (ci true true) (v 2)). reflexivity.
Defined.
