(* ===== verification/PayCodec.v ===== *)
(** * CBOR encoding of the payment records (payments/store_cbor_gen.go)

    Writers and readers of [VoucherInfo], [ChannelInfo] and [MsgInfo] over the
    primitives of [Cbor]. *)
From S2P Require Import Prelude Deal PayTypes PayInfo Cbor.

Section codec.
Context {CB : CborLib}.

(** ** VoucherInfo *)

(** The headers written as constant bytes: an array of three, twelve and four
    fields. *)
Definition lengthBufVoucherInfo : bytes := MajorTypeHeader MajArray 3.
Definition lengthBufChannelInfo : bytes := MajorTypeHeader MajArray 12.
Definition lengthBufMsgInfo : bytes := MajorTypeHeader MajArray 4.

Definition VoucherInfo_MarshalCBOR (t : VoucherInfo) : go bytes error unit :=
  do* Write lengthBufVoucherInfo then
  do* WriteEnc (SignedVoucherBytes (vi_Voucher t)) then
  if ByteArrayMaxLen <? len (vi_Proof t)
  then go_err (ErrMsg "Byte array in field t.Proof was too long")
  else
    do* Write (MajorTypeHeader MajByteString (len (vi_Proof t))) then
    do* Write (vi_Proof t) then
    Write (BoolBytes (vi_Submitted t)).

Definition VoucherInfo_UnmarshalCBOR : go bytes error VoucherInfo :=
  do* ReadFields 3 then
  let* voucher := ReadNullable "unmarshaling t.Voucher pointer" ReadSignedVoucher in
  let* h := CborReadHeader in
  if ByteArrayMaxLen <? h.2 then go_err (ErrMsg ("t.Proof: byte array too large (" +:+ pretty h.2 +:+ ")"))
  else if negb (h.1 =? MajByteString) then go_err (ErrMsg "expected byte array")
  else
    let* proof := ReadFull h.2 in
    let* submitted := ReadBool in
    go_ret (MkVoucherInfo voucher proof submitted).

(** ** ChannelInfo *)

Fixpoint WriteVouchers (l : list VoucherInfo) : go bytes error unit :=
  match l with
  | [] => go_ret tt
  | v :: l' => do* VoucherInfo_MarshalCBOR v then WriteVouchers l'
  end.

Fixpoint ReadVouchers (n : nat) : go bytes error (list VoucherInfo) :=
  match n with
  | O => go_ret []
  | S n' =>
    let* v := VoucherInfo_UnmarshalCBOR in
    let* l := ReadVouchers n' in
    go_ret (v :: l)
  end.

(** [SettlingAt] is not written. *)
Definition ChannelInfo_MarshalCBOR (t : ChannelInfo) : go bytes error unit :=
  do* Write lengthBufChannelInfo then
  do* WriteText "Value in field t.ChannelID was too long" (ci_ChannelID t) then
  do* WriteEnc (AddressBytes (ci_Channel t)) then
  do* WriteEnc (AddressBytes (Some (ci_Control t))) then
  do* WriteEnc (AddressBytes (Some (ci_Target t))) then
  do* Write (MajorTypeHeader MajUnsignedInt (ci_Direction t)) then
  if MaxLength <? Z.of_nat (length (ci_Vouchers t))
  then go_err (ErrMsg "Slice value in field t.Vouchers was too long")
  else
    do* Write (MajorTypeHeader MajArray (Z.of_nat (length (ci_Vouchers t)))) then
    do* WriteVouchers (ci_Vouchers t) then
    do* Write (MajorTypeHeader MajUnsignedInt (ci_NextLane t)) then
    do* WriteEnc (BigIntBytes (ci_Amount t)) then
    do* WriteEnc (BigIntBytes (ci_PendingAmount t)) then
    do* WriteCidOrNull "failed to write cid field t.CreateMsg" (ci_CreateMsg t) then
    do* WriteCidOrNull "failed to write cid field t.AddFundsMsg" (ci_AddFundsMsg t) then
    Write (BoolBytes (ci_Settling t)).

Definition ChannelInfo_UnmarshalCBOR : go bytes error ChannelInfo :=
  do* ReadFields 12 then
  let* channelID := ReadString in
  let* channel := ReadNullable "unmarshaling t.Channel pointer" ReadAddress in
  let* control := ReadWrapped "unmarshaling t.Control" ReadAddress in
  let* target := ReadWrapped "unmarshaling t.Target" ReadAddress in
  let* direction := ReadUint64 in
  let* h := CborReadHeader in
  if MaxLength <? h.2 then go_err (ErrMsg ("t.Vouchers: array too large (" +:+ pretty h.2 +:+ ")"))
  else if negb (h.1 =? MajArray) then go_err (ErrMsg "expected cbor array")
  else
    let* vouchers := ReadVouchers (Z.to_nat h.2) in
    let* nextLane := ReadUint64 in
    let* amount := ReadWrapped "unmarshaling t.Amount" ReadBigInt in
    let* pending := ReadWrapped "unmarshaling t.PendingAmount" ReadBigInt in
    let* createMsg := ReadNullable "failed to read cid field t.CreateMsg" ReadCid in
    let* addFundsMsg := ReadNullable "failed to read cid field t.AddFundsMsg" ReadCid in
    let* settling := ReadBool in
    go_ret (MkChannelInfo channelID channel control target direction vouchers nextLane
              amount pending createMsg addFundsMsg settling 0).

(** ** MsgInfo *)

Definition MsgInfo_MarshalCBOR (t : MsgInfo) : go bytes error unit :=
  do* Write lengthBufMsgInfo then
  do* WriteText "Value in field t.ChannelID was too long" (mi_ChannelID t) then
  do* match CidBytes (mi_MsgCid t) with
      | inl e => go_err (ErrWrap "failed to write cid field t.MsgCid" e)
      | inr b => Write b
      end then
  do* Write (BoolBytes (mi_Received t)) then
  WriteText "Value in field t.Err was too long" (mi_Err t).

Definition MsgInfo_UnmarshalCBOR : go bytes error MsgInfo :=
  do* ReadFields 4 then
  let* channelID := ReadString in
  let* msgCid := ReadWrapped "failed to read cid field t.MsgCid" ReadCid in
  let* received := ReadBool in
  let* err := ReadString in
  go_ret (MkMsgInfo channelID msgCid received err).

Context {LAWS : CborLaws}.

Lemma VoucherInfo_codec v :
  codec (VoucherInfo_MarshalCBOR v) VoucherInfo_UnmarshalCBOR v.
Proof.
  destruct v as [v proof sub]. unfold VoucherInfo_MarshalCBOR, VoucherInfo_UnmarshalCBOR. simpl.
  field ltac:(by apply codec_fields). field ltac:(apply codec_voucher).
  apply codec_guard. intros Hl. to_prop.
  pose proof lengths_u64 as [_ [? ?]].
  assert (is_u64 (len proof)) by (unfold is_u64, len in *; lia).
  eapply (codec_bind _ _ _ _ (MajByteString, len proof)).
  { apply codec_write. intros rest. apply header_rt; [unfold MajByteString; lia|done]. }
  cbn [fst snd]. destruct (Z.ltb_spec ByteArrayMaxLen (len proof)); [lia|]. cbn iota beta.
  field ltac:(apply codec_write; intros; apply ReadFull_rt).
  apply (codec_end _ _ (λ b, MkVoucherInfo v proof b)). apply codec_bool.
Qed.

Lemma Vouchers_codec l : codec (WriteVouchers l) (ReadVouchers (length l)) l.
Proof.
  induction l as [|v l IH]; simpl; [apply codec_ret|].
  field ltac:(apply VoucherInfo_codec). by apply (codec_end _ _ (cons v)).
Qed.

(** The values a [ChannelInfo] of the store can hold. *)
Definition ci_in_range (ci : ChannelInfo) : Prop :=
  is_Some (ci_Channel ci) ∧ is_u64 (ci_Direction ci) ∧ is_u64 (ci_NextLane ci).

Lemma ChannelInfo_codec ci :
  ci_in_range ci →
  codec (ChannelInfo_MarshalCBOR ci) ChannelInfo_UnmarshalCBOR (set_ci_SettlingAt 0 ci).
Proof.
  destruct ci as [id ch ctl tgt dir vs lane amt pend cm am st sat].
  intros ([a Hch] & Hdir & Hlane). simpl in *. subst ch.
  unfold ChannelInfo_MarshalCBOR, ChannelInfo_UnmarshalCBOR, set_ci_SettlingAt. simpl.
  field ltac:(by apply codec_fields). field ltac:(apply codec_text).
  eapply (codec_bind _ _ _ _ (Some a)).
  { destruct (AddressBytes (Some a)) as [e|b] eqn:E; [by intros s s'|].
    apply address_rt in E as [Hn Hr]. by apply nullable_some. }
  field ltac:(apply codec_wrapped; intros b Hb; apply address_rt, Hb).
  field ltac:(apply codec_wrapped; intros b Hb; apply address_rt, Hb).
  field ltac:(by apply codec_uint64).
  apply codec_guard. intros Hl. to_prop. pose proof lengths_u64 as [[? ?] _].
  eapply (codec_bind _ _ _ _ (MajArray, Z.of_nat (length vs))).
  { apply codec_write. intros rest. apply header_rt; [unfold MajArray; lia|].
    unfold is_u64 in *; lia. }
  cbn [fst snd]. destruct (Z.ltb_spec MaxLength (Z.of_nat (length vs))); [lia|]. cbn iota beta.
  rewrite Nat2Z.id. simpl negb. cbn iota beta.
  field ltac:(apply Vouchers_codec). field ltac:(by apply codec_uint64).
  field ltac:(apply codec_wrapped; intros b Hb; apply bigint_rt, Hb).
  field ltac:(apply codec_wrapped; intros b Hb; apply bigint_rt, Hb).
  field ltac:(apply codec_cid_or_null). field ltac:(apply codec_cid_or_null).
  apply (codec_end _ _ (λ b, MkChannelInfo id (Some a) ctl tgt dir vs lane amt pend cm am b 0)).
  apply codec_bool.
Qed.

Lemma MsgInfo_codec mi : codec (MsgInfo_MarshalCBOR mi) MsgInfo_UnmarshalCBOR mi.
Proof.
  destruct mi as [id c rec err]. unfold MsgInfo_MarshalCBOR, MsgInfo_UnmarshalCBOR. simpl.
  field ltac:(by apply codec_fields). field ltac:(apply codec_text).
  eapply (codec_bind _ _ _ _ c).
  { destruct (CidBytes c) as [e|b] eqn:E; [by intros s s'|].
    apply (codec_wrapped _ (inr b)). intros b' [= <-]. by apply cid_rt. }
  field ltac:(apply codec_bool).
  apply (codec_end _ _ (λ e, MkMsgInfo id c rec e)). apply codec_text.
Qed.

End codec.

(** ** Properties *)

(** What the store writes for a payment channel is read back unchanged,
    vouchers and pending messages included, except for the settlement epoch,
    which is always read back as zero: the encoding has twelve of the thirteen
    fields. *)
Theorem ChannelInfo_roundtrip {CB : CborLib} {LAWS : CborLaws} (ci : ChannelInfo)
    (b rest : bytes) :
  ci_in_range ci → ChannelInfo_MarshalCBOR ci EmptyString = (b, Ok tt) →
  ChannelInfo_UnmarshalCBOR (b +:+ rest) = (rest, Ok (set_ci_SettlingAt 0 ci)).
Proof. intros Hr Hw. by destruct (ChannelInfo_codec ci Hr _ _ Hw) as (b' & -> & H). Qed.

Definition sample_info : ChannelInfo :=
  MkChannelInfo "id" (Some "ch") "a" "b" DirOutbound
    [MkVoucherInfo (Some (MkVoucher "ch" 1 2 30 [] (Some (1, "sig")) EmptyString)) EmptyString true]
    3 100 0 None (Some "msg") true 77.

Lemma ChannelInfo_roundtrip_witness :
  ChannelInfo_UnmarshalCBOR
    ((ChannelInfo_MarshalCBOR sample_info EmptyString).1 +:+ "tail")
  = ("tail", Ok (set_ci_SettlingAt 0 sample_info)).
Proof.
  apply (ChannelInfo_roundtrip sample_info).
  - vm_compute. split; [by eexists|intuition congruence].
  - vm_eq.
Defined.

(** Message records are read back unchanged. *)
Theorem MsgInfo_roundtrip {CB : CborLib} {LAWS : CborLaws} (mi : MsgInfo) (b rest : bytes) :
  MsgInfo_MarshalCBOR mi EmptyString = (b, Ok tt) →
  MsgInfo_UnmarshalCBOR (b +:+ rest) = (rest, Ok mi).
Proof. intros Hw. by destruct (MsgInfo_codec mi _ _ Hw) as (b' & -> & H). Qed.

Lemma MsgInfo_roundtrip_witness :
  MsgInfo_UnmarshalCBOR
    ((MsgInfo_MarshalCBOR (MkMsgInfo "id" "c" true "failed") EmptyString).1 +:+ "tail")
  = ("tail", Ok (MkMsgInfo "id" "c" true "failed")).
Proof. apply MsgInfo_roundtrip. vm_eq. Defined.
