(* ===== verification/PayStore.v ===== *)
(** * The payment channel store (payments/store.go)

    Channels and messages are persisted as CBOR records in a key-value
    datastore, which is an interface of the go-datastore library: [Datastore]
    names its operations and [DatastoreLaws] its documented behaviour. *)
From S2P Require Import Prelude Deal PayTypes PayInfo Cbor PayCodec.

Record Datastore (D : Type) : Type := MkDatastore {
  ds_Get : dskey → go D error bytes;
  ds_Put : dskey → bytes → go D error unit;
  ds_Delete : dskey → go D error unit;
  ds_Query : string → go D error (list (error + dskey * bytes))
}.
Arguments MkDatastore {D}.
Arguments ds_Get {D}.
Arguments ds_Put {D}.
Arguments ds_Delete {D}.
Arguments ds_Query {D}.

(** The state of the store: the datastore, and how many identifiers the uuid
    generator has given out. *)
Record sstate (D : Type) : Type := MkSstate {
  ss_ds : D;
  ss_uuids : nat
}.
Arguments MkSstate {D}.
Arguments ss_ds {D}.
Arguments ss_uuids {D}.

Section store.
Context {CB : CborLib} {EQ : CborEquals} {D : Type} (ds : Datastore D).
(** [uuid.New] and the address used in place of a nil address. *)
Context (uuid : nat → string) (emptyAddr : address).

Definition on_ds {A} (m : go D error A) : go (sstate D) error A := λ s,
  let '(d, r) := m (ss_ds s) in (MkSstate d (ss_uuids s), r).

Definition new_uuid : go (sstate D) error string := λ s,
  (MkSstate (ss_ds s) (S (ss_uuids s)), Ok (uuid (ss_uuids s))).

(** The nil channel address is replaced in the record itself. *)
Definition marshall_prepare (ci : ChannelInfo) : ChannelInfo :=
  match ci_Channel ci with
  | None => set_ci_Channel (Some emptyAddr) ci
  | Some _ => ci
  end.

Definition marshallChannelInfo (ci : ChannelInfo) : outcome error bytes :=
  Dump (ChannelInfo_MarshalCBOR (marshall_prepare ci)).

Definition unmarshall_restore (ci : ChannelInfo) : ChannelInfo :=
  match ci_Channel ci with
  | Some a => if String.eqb a emptyAddr then set_ci_Channel None ci else ci
  | None => ci
  end.

Definition unmarshallChannelInfo (value : bytes) : outcome error ChannelInfo :=
  outcome_bind (ChannelInfo_UnmarshalCBOR value).2 (λ stored, Ok (unmarshall_restore stored)).

(** Answers the record as it is after the call. *)
Definition putChannelInfo (ci : ChannelInfo) : go (sstate D) error ChannelInfo :=
  let* ci := (if String.eqb (ci_ChannelID ci) EmptyString
              then let* u := new_uuid in go_ret (set_ci_ChannelID u ci)
              else go_ret ci) in
  let k := dskeyForChannel (ci_ChannelID ci) in
  let* b := go_try (go_lift (marshallChannelInfo ci)) in
  match b with
  | inl err => go_err (ErrWrap "marshalling" err)
  | inr b =>
    do* on_ds (ds_Put ds k b) then
    go_ret (marshall_prepare ci)
  end.

Definition SaveNewMessage (channelID : string) (mcid : cid) : go (sstate D) error unit :=
  let* b := go_lift (Dump (MsgInfo_MarshalCBOR (MkMsgInfo channelID mcid false EmptyString))) in
  on_ds (ds_Put ds (dskeyForMsg mcid) b).

Definition CreateChannel (from to : address) (mcid : cid) (amt : Z)
    : go (sstate D) error ChannelInfo :=
  let ci := MkChannelInfo EmptyString None from to DirOutbound [] 0 0 amt (Some mcid) None
              false 0 in
  let* ci := putChannelInfo ci in
  do* SaveNewMessage (ci_ChannelID ci) mcid then
  go_ret ci.

Definition GetMessage (mcid : cid) : go (sstate D) error MsgInfo :=
  let* val := on_ds (ds_Get ds (dskeyForMsg mcid)) in
  go_lift (MsgInfo_UnmarshalCBOR val).2.

Definition SaveMessageResult (mcid : cid) (msgErr : option error) : go (sstate D) error unit :=
  let* minfo := GetMessage mcid in
  let minfo := MkMsgInfo (mi_ChannelID minfo) (mi_MsgCid minfo) true
                 (match msgErr with Some e => Error e | None => mi_Err minfo end) in
  let* b := go_lift (Dump (MsgInfo_MarshalCBOR minfo)) in
  on_ds (ds_Put ds (dskeyForMsg mcid) b).

Definition ByChannelID (channelID : string) : go (sstate D) error ChannelInfo :=
  let* res := go_try (on_ds (ds_Get ds (dskeyForChannel channelID))) in
  match res with
  | inl err => if bool_decide (err = ErrNotFound) then go_err ErrChannelNotTracked else go_err err
  | inr res => go_lift (unmarshallChannelInfo res)
  end.

(** The loop over the results of the query.  An entry with an error ends the
    search with the (nil) error of the query itself; reaching [max] matches ends
    it too, and [max = 0] is never reached. *)
Fixpoint findChans_loop (filter : ChannelInfo → bool) (max : nat)
    (l : list (error + dskey * bytes)) (matches : list ChannelInfo)
    : outcome error (list ChannelInfo) :=
  match l with
  | [] => Ok matches
  | inl _ :: _ => Ok []
  | inr (_, value) :: l' =>
    outcome_bind (unmarshallChannelInfo value) (λ ci,
      if negb (filter ci) then findChans_loop filter max l' matches
      else
        let matches := matches ++ [ci] in
        if Nat.eqb (length matches) max then Ok matches
        else findChans_loop filter max l' matches)
  end.

Definition findChans (filter : ChannelInfo → bool) (max : nat)
    : go (sstate D) error (list ChannelInfo) :=
  let* res := on_ds (ds_Query ds dsKeyChannelInfo) in
  go_lift (findChans_loop filter max res []).

Definition findChan (filter : ChannelInfo → bool) : go (sstate D) error ChannelInfo :=
  let* cis := findChans filter 1 in
  match cis with
  | [] => go_err ErrChannelNotTracked
  | ci :: _ => go_ret ci
  end.

Definition ByMessageCid (mcid : cid) : go (sstate D) error ChannelInfo :=
  let* minfo := GetMessage mcid in
  findChan (λ ci, String.eqb (ci_ChannelID ci) (mi_ChannelID minfo)).

Definition OutboundActiveByFromTo (from to : address) : go (sstate D) error ChannelInfo :=
  findChan (λ ci,
    if negb (ci_Direction ci =? DirOutbound) then false
    else if ci_Settling ci then false
    else String.eqb (ci_Control ci) from && String.eqb (ci_Target ci) to).

(** The filter of [ByAddress]. *)
Definition has_address (addr : address) (ci : ChannelInfo) : bool :=
  match ci_Channel ci with Some a => String.eqb a addr | None => false end.

Definition ByAddress (addr : address) : go (sstate D) error ChannelInfo :=
  findChan (has_address addr).

Definition VouchersForPaych (ch : address) : go (sstate D) error (list VoucherInfo) :=
  let* ci := ByAddress ch in
  go_ret (ci_Vouchers ci).

Definition AllocateLane (ch : address) : go (sstate D) error Z :=
  let* ci := ByAddress ch in
  let out := ci_NextLane ci in
  do* putChannelInfo (set_ci_NextLane (u64 (ci_NextLane ci + 1)) ci) then
  go_ret out.

Definition TrackChannel (ci : ChannelInfo) : go (sstate D) error ChannelInfo :=
  match ci_Channel ci with
  | None => go_panic
  | Some addr =>
    let* r := go_try (ByAddress addr) in
    match r with
    | inr _ => go_err (ErrMsg ("already tracking channel: " +:+ addr))
    | inl err =>
      if bool_decide (err = ErrChannelNotTracked)
      then
        do* putChannelInfo ci then
        ByAddress addr
      else go_err err
    end
  end.

(** The filter keeps channels with an address, so the address is there. *)
Definition ListChannels : go (sstate D) error (list address) :=
  let* cis := findChans (λ ci, bool_decide (is_Some (ci_Channel ci))) 0 in
  go_ret (omap ci_Channel cis).

Definition ListSettlingChannels : go (sstate D) error (list ChannelInfo) :=
  findChans ci_Settling 0.

Definition MarkVoucherSubmitted (ci : ChannelInfo) (sv : SignedVoucher)
    : go (sstate D) error ChannelInfo :=
  let* ci := go_lift (markVoucherSubmitted ci sv) in
  putChannelInfo ci.

Definition SetChannelSettlingAt (ci : ChannelInfo) (ep : Z) : go (sstate D) error ChannelInfo :=
  putChannelInfo (set_ci_SettlingAt ep ci).

Definition RemoveChannel (channelID : string) : go (sstate D) error unit :=
  on_ds (ds_Delete ds (dskeyForChannel channelID)).

(** The store as the payment manager uses it. *)
Definition datastore_store : Store (sstate D) :=
  MkStore CreateChannel SaveNewMessage putChannelInfo SaveMessageResult ByMessageCid
    GetMessage ByChannelID OutboundActiveByFromTo ByAddress VouchersForPaych AllocateLane
    TrackChannel ListChannels ListSettlingChannels MarkVoucherSubmitted
    SetChannelSettlingAt RemoveChannel.

End store.

(** ** Laws of the datastore *)

Class DatastoreLaws {D} (ds : Datastore D) (contents : D → gmap dskey bytes) : Prop := {
  ds_get_law : ∀ k d d' r, ds_Get ds k d = (d', r) →
    d' = d ∧ match r with
             | Ok v => contents d !! k = Some v
             | Err e => e = ErrNotFound → contents d !! k = None
             | _ => True
             end;
  ds_put_law : ∀ k v d d' r, ds_Put ds k v d = (d', r) →
    contents d' = (match r with Ok _ => <[k := v]> (contents d) | _ => contents d end);
  ds_delete_law : ∀ k d d' r, ds_Delete ds k d = (d', r) →
    contents d' = (match r with Ok _ => delete k (contents d) | _ => contents d end);
  ds_query_law : ∀ p d d' r, ds_Query ds p d = (d', r) →
    d' = d ∧ ∀ l, r = Ok l →
      ∀ k v, inr (k, v) ∈ l → head k = Some p ∧ contents d !! k = Some v
}.

Section refinement.
Context {CB : CborLib} {LAWS : CborLaws} {EQ : CborEquals} {D : Type} (ds : Datastore D).
Context (contents : D → gmap dskey bytes) {DL : DatastoreLaws ds contents}.
Context (uuid : nat → string) (emptyAddr : address).

(** The channels a datastore holds. *)
Definition view (s : sstate D) (k : dskey) : option ChannelInfo :=
  if bool_decide (head k = Some dsKeyChannelInfo)
  then match contents (ss_ds s) !! k with
       | None => None
       | Some b => match unmarshallChannelInfo emptyAddr b with Ok ci => Some ci | _ => None end
       end
  else None.

Lemma view_contents s s' : contents (ss_ds s') = contents (ss_ds s) → view s' = view s.
Proof. intros H. unfold view. by rewrite H. Qed.

Lemma view_id s id :
  view s (dskeyForChannel id)
  = match contents (ss_ds s) !! dskeyForChannel id with
    | None => None
    | Some b => match unmarshallChannelInfo emptyAddr b with Ok ci => Some ci | _ => None end
    end.
Proof. unfold view. by rewrite bool_decide_true. Qed.

(** A written record is read back as [stored] says. *)
Lemma marshall_rt ci b :
  ci_words ci → marshallChannelInfo emptyAddr ci = Ok b →
  unmarshallChannelInfo emptyAddr b = Ok (stored emptyAddr ci).
Proof.
  intros [Hd Hn]. unfold marshallChannelInfo, unmarshallChannelInfo, Dump.
  set (ci1 := marshall_prepare emptyAddr ci).
  assert (ci_in_range ci1) as Hr
    by (subst ci1; destruct ci as [? [] ? ? ? ? ? ? ? ? ? ? ?]; by split_and!).
  destruct (ChannelInfo_MarshalCBOR ci1 EmptyString) as [b' [[]| | |]] eqn:E; try done.
  intros [= <-]. destruct (ChannelInfo_codec ci1 Hr _ _ E) as (b2 & -> & Hrd).
  change (EmptyString +:+ b2) with b2. rewrite <- (string_app_empty_r b2), Hrd. simpl.
  f_equal. subst ci1. unfold unmarshall_restore, marshall_prepare, stored.
  destruct ci as [? [a|] ? ? ? ? ? ? ? ? ? ? ?]; simpl; [by destruct (String.eqb a emptyAddr)|].
  by rewrite String.eqb_refl.
Qed.

Lemma on_ds_eq {A} (m : go D error A) s s' r :
  on_ds m s = (s', r) → m (ss_ds s) = (ss_ds s', r) ∧ ss_uuids s' = ss_uuids s.
Proof. unfold on_ds. destruct (m (ss_ds s)) as [d o]. by intros [= <- <-]. Qed.

(** A filter that only matches what it is asked for. *)
Lemma findChans_loop_sound f max l acc r (P : ChannelInfo → Prop) :
  (∀ k v ci, inr (k, v) ∈ l → unmarshallChannelInfo emptyAddr v = Ok ci → f ci = true → P ci) →
  Forall P acc → findChans_loop emptyAddr f max l acc = Ok r → Forall P r.
Proof.
  revert acc. induction l as [|[e|[k v]] l IH]; intros acc Hl Hacc; simpl.
  - by intros [= <-].
  - by intros [= <-].
  - destruct (unmarshallChannelInfo emptyAddr v) as [ci| | |] eqn:E; simpl; try done.
    destruct (f ci) eqn:Hf; simpl.
    + assert (Forall P (acc ++ [ci])) as Hacc'.
      { apply Forall_app. split; [done|]. apply Forall_singleton.
        apply (Hl k v); [by apply elem_of_cons; left|done|done]. }
      destruct (Nat.eqb _ max); [by intros [= <-]|]. apply IH; [|done].
      intros k' v' ci' Hin. apply (Hl k'). by apply elem_of_cons; right.
    + apply IH; [|done]. intros k' v' ci' Hin. apply (Hl k'). by apply elem_of_cons; right.
Qed.

Lemma findChans_sound f max s s' r :
  findChans ds emptyAddr f max s = (s', r) →
  view s' = view s ∧
  ∀ l, r = Ok l → Forall (λ ci, f ci = true ∧ ∃ k, view s k = Some ci) l.
Proof.
  unfold findChans, go_bind, go_lift.
  destruct (on_ds (ds_Query ds dsKeyChannelInfo) s) as [s1 o] eqn:E.
  apply on_ds_eq in E as [E _]. apply ds_query_law in E as [Hd Hq].
  assert (view s1 = view s) as Hv by (apply view_contents; by rewrite Hd).
  destruct o as [l| | |]; intros [= <- <-]; (split; [done|]); try done.
  intros r' Hr. eapply findChans_loop_sound; [|constructor|exact Hr].
  intros k v ci Hin Hu Hf. split; [done|]. exists k.
  apply (Hq l eq_refl) in Hin as [Hh Hc]. unfold view. rewrite bool_decide_true by done.
  by rewrite Hc, Hu.
Qed.

Lemma findChan_sound f s s' r :
  findChan ds emptyAddr f s = (s', r) →
  view s' = view s ∧ ∀ ci, r = Ok ci → f ci = true ∧ ∃ k, view s k = Some ci.
Proof.
  unfold findChan, go_bind. destruct (findChans ds emptyAddr f 1 s) as [s1 o] eqn:E.
  apply findChans_sound in E as [Hv Hl].
  destruct o as [[|c l]| | |]; intros [= <- <-]; (split; [done|]); try done.
  intros ci [= <-]. specialize (Hl _ eq_refl). by inversion_clear Hl.
Qed.

Lemma putChannelInfo_sound ci s s' r :
  putChannelInfo ds uuid emptyAddr ci s = (s', r) →
  match r with
  | Ok ci' => ∃ id, ci' = written emptyAddr (set_ci_ChannelID id ci) ∧
      (ci_ChannelID ci ≠ EmptyString → id = ci_ChannelID ci) ∧
      (ci_words ci → view s' (dskeyForChannel id)
                     = Some (stored emptyAddr (set_ci_ChannelID id ci))) ∧
      (∀ j, j ≠ dskeyForChannel id → view s' j = view s j)
  | _ => view s' = view s
  end.
Proof.
  unfold putChannelInfo.
  set (pick := if String.eqb _ _ then _ else _).
  assert (∃ s1 id, pick s = (s1, Ok (set_ci_ChannelID id ci)) ∧ ss_ds s1 = ss_ds s ∧
                   (ci_ChannelID ci ≠ EmptyString → id = ci_ChannelID ci))
    as (s1 & id & Hp & Hds & Hid).
  { subst pick. destruct (String.eqb_spec (ci_ChannelID ci) EmptyString).
    - eexists _, _. by split_and!.
    - exists s, (ci_ChannelID ci). split_and!; [|done|done]. by destruct ci. }
  assert (view s1 = view s) as Hv1 by (apply view_contents; by rewrite Hds).
  unfold go_bind at 1. rewrite Hp. clearbody pick.
  unfold go_bind, go_try, go_lift. set (ci1 := set_ci_ChannelID id ci).
  destruct (marshallChannelInfo emptyAddr ci1) as [b| | |] eqn:Hm;
    [|intros [= <- <-]; exact Hv1..].
  simpl. destruct (on_ds _ s1) as [s2 o] eqn:E. apply on_ds_eq in E as [E _].
  apply ds_put_law in E.
  destruct o; intros [= <- <-]; try (rewrite <- Hv1; by apply view_contents).
  exists id. split_and!; [done|done| |].
  - intros Hw. rewrite view_id, E, lookup_insert_eq.
    rewrite (marshall_rt ci1 b); [done| |done]. by destruct ci.
  - intros j Hj. rewrite <- Hv1. unfold view. rewrite E. by rewrite lookup_insert_ne.
Qed.

Lemma putChannelInfo_same ci s s' r :
  putChannelInfo ds uuid emptyAddr ci s = (s', r) →
  match r with Ok _ => True | _ => same view s s' end.
Proof.
  intros H%putChannelInfo_sound. destruct r; [done|intros k; by rewrite H..].
Qed.

(** Records of messages live outside the channel namespace. *)
Lemma put_message_same c b s : same view s (on_ds (ds_Put ds (dskeyForMsg c) b) s).1.
Proof.
  intros k. destruct (on_ds _ s) as [s' o] eqn:E. apply on_ds_eq in E as [E _].
  apply ds_put_law in E. simpl. unfold view. rewrite E. case_bool_decide as Hk; [|done].
  destruct o; [|done..]. rewrite lookup_insert_ne; [done|]. intros <-. done.
Qed.

Lemma GetMessage_same c s : same view s (GetMessage ds c s).1.
Proof.
  intros k. unfold GetMessage, go_bind, go_lift.
  destruct (on_ds _ s) as [s1 o] eqn:E. apply on_ds_eq in E as [E _].
  apply ds_get_law in E as [Hd _]. assert (view s1 = view s) as Hv
    by (apply view_contents; by rewrite Hd).
  by destruct o; simpl; rewrite Hv.
Qed.

Lemma SaveMessageResult_same c e s : same view s (SaveMessageResult ds c e s).1.
Proof.
  unfold SaveMessageResult, go_bind at 1. pose proof (GetMessage_same c s) as Hg.
  destruct (GetMessage ds c s) as [s1 [mi| | |]]; try exact Hg. simpl in Hg.
  unfold go_bind, go_lift. destruct (Dump _); try exact Hg.
  etrans; [exact Hg|apply put_message_same].
Qed.

#[export] Instance datastore_store_laws :
  StoreLaws (datastore_store ds uuid emptyAddr) view emptyAddr.
Proof.
  split; cbn [datastore_store st_ByChannelID st_ByAddress st_OutboundActiveByFromTo
    st_putChannelInfo st_RemoveChannel st_SaveNewMessage st_SaveMessageResult st_GetMessage]; try done.
  - intros id s s' r. unfold ByChannelID, go_bind, go_try, go_lift.
    destruct (on_ds _ s) as [s1 o] eqn:E. apply on_ds_eq in E as [E _].
    apply ds_get_law in E as [Hd Hg]. assert (view s1 = view s) as Hv
      by (apply view_contents; by rewrite Hd).
    destruct o as [b|e| |]; try (intros [= <- <-]; split; [intros k; by rewrite Hv|done]).
    + intros [= <- <-]. split; [intros k; by rewrite Hv|]. intros ci Hu.
      by rewrite view_id, Hg, Hu.
    + case_bool_decide; intros [= <- <-]; (split; [intros k; by rewrite Hv|done]).
  - intros a s s' r [Hv Hr]%findChan_sound. split; [intros k; by rewrite Hv|].
    intros ci [Hf Hk]%Hr. split; [|done]. unfold has_address in Hf.
    destruct (ci_Channel ci) as [a'|]; [|done]. by apply String.eqb_eq in Hf as ->.
  - intros f t s s' r [Hv Hr]%findChan_sound. split; [intros k; by rewrite Hv|].
    intros ci [Hf Hk]%Hr. split; [|done]. unfold active_from_to.
    destruct (Z.eqb_spec (ci_Direction ci) DirOutbound); [|done].
    destruct (ci_Settling ci); [done|]. simpl in Hf. apply andb_true_iff in Hf as [H1 H2].
    by apply String.eqb_eq in H1, H2.
  - intros ci s s' r H. pose proof (putChannelInfo_same _ _ _ _ H).
    apply putChannelInfo_sound in H. by destruct r.
  - intros id s s' r. unfold RemoveChannel. intros [E _]%on_ds_eq. apply ds_delete_law in E.
    destruct r; [|intros k; unfold view; by rewrite E..]. split.
    + by rewrite view_id, E, lookup_delete_eq.
    + intros j Hj. unfold view. rewrite E. by rewrite lookup_delete_ne.
  - intros s. split_and!.
    + intros id c. unfold SaveNewMessage, go_bind, go_lift.
      destruct (Dump _); [apply put_message_same|intros k; done..].
    + intros c e. apply SaveMessageResult_same.
    + intros c. apply GetMessage_same.
Qed.

End refinement.

(** ** Complete queries

    A datastore whose queries list every entry, none of them as an error. *)
Class DatastoreComplete {D} (ds : Datastore D) (contents : D → gmap dskey bytes) : Prop := {
  ds_query_complete : ∀ p d d' l, ds_Query ds p d = (d', Ok l) →
    (∀ e, inl e ∉ l) ∧ ∀ k v, head k = Some p → contents d !! k = Some v → inr (k, v) ∈ l;
  ds_query_error : ∀ p d d', ds_Query ds p d ≠ (d', Err ErrChannelNotTracked)
}.

Section complete.
Context {CB : CborLib} {LAWS : CborLaws} {EQ : CborEquals} {D : Type} (ds : Datastore D).
Context (contents : D → gmap dskey bytes) {DL : DatastoreLaws ds contents}.
Context {DC : DatastoreComplete ds contents} (uuid : nat → string) (emptyAddr : address).
(** Decoding reports its own errors. *)
Context (Hdec : ∀ b, unmarshallChannelInfo emptyAddr b ≠ Err ErrChannelNotTracked).

Lemma findChans_loop_none f l :
  (∀ e, inl e ∉ l) →
  match findChans_loop emptyAddr f 1 l [] with
  | Ok [] => ∀ k v ci, inr (k, v) ∈ l → unmarshallChannelInfo emptyAddr v = Ok ci → f ci = false
  | Err e => e ≠ ErrChannelNotTracked
  | _ => True
  end.
Proof.
  induction l as [|[e|[k v]] l IH]; intros Hl; simpl.
  - intros k v ci ?%elem_of_nil. done.
  - destruct (Hl e). by apply elem_of_cons; left.
  - assert (∀ e, inl e ∉ l) as Hl' by (intros e He; apply (Hl e); by apply elem_of_cons; right).
    destruct (unmarshallChannelInfo emptyAddr v) as [ci|e| |] eqn:E; simpl; try done.
    + destruct (f ci) eqn:Hf; simpl; [done|]. specialize (IH Hl').
      destruct (findChans_loop emptyAddr f 1 l []) as [[|c l0]| | |]; try done.
      intros k' v' ci' [[= -> ->]|Hin]%elem_of_cons Hu; [congruence|by eapply IH].
    + intros ->. by apply (Hdec v).
Qed.

#[export] Instance datastore_store_complete :
  StoreComplete (datastore_store ds uuid emptyAddr) (view contents emptyAddr).
Proof.
  split. intros a s s'. simpl. unfold ByAddress, findChan, findChans, go_bind, go_lift.
  destruct (on_ds _ s) as [s1 o] eqn:E. apply on_ds_eq in E as [E _].
  destruct o as [l|e| |]; try done.
  - pose proof (ds_query_complete _ _ _ _ E) as [Hne Hall].
    pose proof (findChans_loop_none (has_address a) l Hne) as Hnone.
    destruct (findChans_loop emptyAddr _ 1 l []) as [[|c l0]|e| |]; try done.
    + intros _ k ci. unfold view. case_bool_decide as Hk; [|done].
      destruct (contents (ss_ds s) !! k) as [b|] eqn:Hc; [|done].
      destruct (unmarshallChannelInfo emptyAddr b) as [c| | |] eqn:Hu; try done.
      intros [= <-] Hch. pose proof (Hnone _ _ _ (Hall _ _ Hk Hc) Hu) as Hf.
      unfold has_address in Hf. rewrite Hch, String.eqb_refl in Hf. done.
    + intros [= _ ->]. done.
  - intros [= <- ->]. by apply ds_query_error in E.
Qed.

End complete.

(** ** A datastore in memory *)

Definition map_ds : Datastore (gmap dskey bytes) :=
  MkDatastore
    (λ k d, match d !! k with Some v => (d, Ok v) | None => (d, Err ErrNotFound) end)
    (λ k v d, (<[k := v]> d, Ok tt))
    (λ k d, (delete k d, Ok tt))
    (λ p d, (d, Ok (map inr (filter (λ kv : dskey * bytes, head kv.1 = Some p) (map_to_list d))))).

#[export] Instance map_ds_laws : DatastoreLaws map_ds (λ d, d).
Proof.
  split; simpl.
  - intros k d d' r. destruct (d !! k) eqn:E; by intros [= <- <-].
  - by intros k v d d' r [= <- <-].
  - by intros k d d' r [= <- <-].
  - intros p d d' r [= <- <-]. split; [done|]. intros l [= <-] k v Hin.
    apply list_elem_of_fmap in Hin as ([k' v'] & [= <- <-] & Hin).
    apply list_elem_of_filter in Hin as [? Hin]. split; [done|]. by apply elem_of_map_to_list.
Qed.

(** A store holding one outbound channel. *)
Definition sample_store : sstate (gmap dskey bytes) :=
  (putChannelInfo map_ds (λ _, "uuid") "empty" sample_info (MkSstate ∅ 0)).1.

Lemma sample_store_view k ci :
  view (λ d, d) "empty" sample_store k = Some ci →
  k = dskeyForChannel "id" ∧ ci = set_ci_SettlingAt 0 sample_info.
Proof.
  unfold view. case_bool_decide; [|done].
  destruct (decide (k = dskeyForChannel "id")) as [->|Hne].
  - vm_compute. by intros [= <-].
  - unfold sample_store, putChannelInfo, go_bind, go_try, go_lift, on_ds. simpl.
    rewrite lookup_insert_ne by done. by rewrite lookup_empty.
Qed.

Lemma sample_store_wf : store_wf (view (λ d, d) "empty") "empty" sample_store.
Proof.
  split.
  - intros k ci [-> ->]%sample_store_view. done.
  - intros k ci [-> ->]%sample_store_view. vm_compute. intuition congruence.
  - intros i j ci cj a [-> ->]%sample_store_view [-> ->]%sample_store_view. done.
  - intros k ci [-> ->]%sample_store_view. done.
Qed.

(** ** Properties *)

(** C7: the store over a key-value datastore implements its contract: lookups
    by identifier, address and parties answer persisted channels that match,
    writing a channel makes it the one read back under its identifier and leaves
    the others alone, removing a channel removes only it, and message records
    never disturb channels. *)
Theorem store_refines_contract {CB : CborLib} {LAWS : CborLaws} {EQ : CborEquals} {D : Type}
    (ds : Datastore D) (contents : D → gmap dskey bytes) (uuid : nat → string)
    (emptyAddr : address) :
  DatastoreLaws ds contents →
  StoreLaws (datastore_store ds uuid emptyAddr) (view contents emptyAddr) emptyAddr.
Proof. intros DL. exact (datastore_store_laws ds contents uuid emptyAddr). Qed.

Lemma store_refines_contract_witness :
  StoreLaws (datastore_store map_ds (λ _, "uuid") "empty") (view (λ d, d) "empty") "empty".
Proof.
  exact (store_refines_contract map_ds (λ d, d) (λ _, "uuid") "empty" map_ds_laws).
Defined.

(** Lanes are allocated in sequence: two allocations on the same channel
    answer two consecutive, distinct lanes, whatever else the store holds. *)
Theorem AllocateLane_sequence {CB : CborLib} {LAWS : CborLaws} {EQ : CborEquals} {D : Type}
    (ds : Datastore D) (contents : D → gmap dskey bytes) (uuid : nat → string)
    (emptyAddr a : address) {DL : DatastoreLaws ds contents} (s s1 s2 : sstate D) (l1 l2 : Z) :
  store_wf (view contents emptyAddr) emptyAddr s →
  AllocateLane ds uuid emptyAddr a s = (s1, Ok l1) →
  AllocateLane ds uuid emptyAddr a s1 = (s2, Ok l2) →
  l2 = u64 (l1 + 1) ∧ l1 ≠ l2 ∧ store_wf (view contents emptyAddr) emptyAddr s2.
Proof.
  intros Hwf H1 H2.
  pose proof (datastore_store_laws ds contents uuid emptyAddr) as L.
  apply (allocate_step (datastore_store ds uuid emptyAddr) (view contents emptyAddr) emptyAddr)
    in H1 as (k1 & c1 & Hk1 & Ha1 & -> & Hv1 & _ & Hwf1); [|done].
  apply (allocate_step (datastore_store ds uuid emptyAddr) (view contents emptyAddr) emptyAddr)
    in H2 as (k2 & c2 & Hk2 & Ha2 & -> & _ & _ & Hwf2); [|done].
  destruct (wf_unique _ _ _ _ _ _ _ a Hwf1 Hv1 Hk2) as [-> <-]; [done|done|].
  split_and!; [done| |done]. simpl.
  destruct (wf_words _ _ _ Hwf _ _ Hk1) as [_ [? ?]]. unfold u64, two64 in *.
  Z.div_mod_to_equations. lia.
Qed.

Lemma AllocateLane_sequence_witness :
  4 = u64 (3 + 1) ∧ 3 ≠ 4 ∧
  store_wf (view (λ d, d) "empty") "empty"
    (AllocateLane map_ds (λ _, "uuid") "empty" "ch"
       (AllocateLane map_ds (λ _, "uuid") "empty" "ch" sample_store).1).1.
Proof.
  apply (AllocateLane_sequence map_ds (λ d, d) (λ _, "uuid") "empty" "ch" sample_store
    (AllocateLane map_ds (λ _, "uuid") "empty" "ch" sample_store).1
    (AllocateLane map_ds (λ _, "uuid") "empty" "ch"
       (AllocateLane map_ds (λ _, "uuid") "empty" "ch" sample_store).1).1 3 4).
  - exact sample_store_wf.
  - vm_eq.
  - vm_eq.
Defined.

(** The settlement epoch does not survive a write: after it was set on a
    channel, the channel read back from the store has epoch zero. *)
Theorem SetChannelSettlingAt_lost {CB : CborLib} {LAWS : CborLaws} {EQ : CborEquals} {D : Type}
    (ds : Datastore D) (contents : D → gmap dskey bytes) (uuid : nat → string)
    (emptyAddr : address) {DL : DatastoreLaws ds contents} (s s1 s2 : sstate D)
    (ci ci' r : ChannelInfo) (ep : Z) :
  ci_words ci → SetChannelSettlingAt ds uuid emptyAddr ci ep s = (s1, Ok ci') →
  ByChannelID ds emptyAddr (ci_ChannelID ci') s1 = (s2, Ok r) →
  ci_SettlingAt ci' = ep ∧ ci_SettlingAt r = 0.
Proof.
  intros Hw H1 H2. pose proof (datastore_store_laws ds contents uuid emptyAddr) as L.
  apply (putChannelInfo_sound ds contents uuid emptyAddr) in H1 as (id & -> & _ & Hst & _).
  apply (by_id_law (st := datastore_store ds uuid emptyAddr)) in H2 as [_ Hr].
  specialize (Hr r eq_refl). specialize (Hst Hw).
  assert (ci_ChannelID (written emptyAddr (set_ci_ChannelID id (set_ci_SettlingAt ep ci))) = id)
    as Hid by (unfold written; by destruct ci as [? [] ? ? ? ? ? ? ? ? ? ? ?]).
  rewrite Hid in Hr. split; [unfold written; by destruct ci as [? [] ? ? ? ? ? ? ? ? ? ? ?]|].
  rewrite Hst in Hr. by injection Hr as <-.
Qed.

Lemma SetChannelSettlingAt_lost_witness :
  let s1 := SetChannelSettlingAt map_ds (λ _, "uuid") "empty" sample_info 500 (MkSstate ∅ 0) in
  ci_SettlingAt (set_ci_SettlingAt 500 sample_info) = 500 ∧
  ci_SettlingAt (set_ci_SettlingAt 0 sample_info) = 0.
Proof.
  intros s1.
  apply (SetChannelSettlingAt_lost map_ds (λ d, d) (λ _, "uuid") "empty" (MkSstate ∅ 0)
           s1.1 s1.1 sample_info (set_ci_SettlingAt 500 sample_info)
           (set_ci_SettlingAt 0 sample_info) 500).
  - vm_compute. intuition congruence.
  - vm_eq.
  - vm_eq.
Defined.

#[export] Instance map_ds_complete : DatastoreComplete map_ds (λ d, d).
Proof.
  split; simpl; [|done]. intros p d d' l [= <- <-]. split.
  - intros e (x & ? & ?)%list_elem_of_fmap. done.
  - intros k v Hk Hv. apply list_elem_of_fmap. exists (k, v). split; [done|].
    apply list_elem_of_filter. split; [done|]. by apply elem_of_map_to_list.
Qed.

(** Readers of the in-memory library never answer the error of the store. *)
Definition own_errors {A} (m : go bytes error A) : Prop :=
  ∀ s s', m s ≠ (s', Err ErrChannelNotTracked).

Lemma own_errors_bind {A B} (m : go bytes error A) (k : A → go bytes error B) :
  own_errors m → (∀ a, own_errors (k a)) → own_errors (go_bind m k).
Proof.
  intros Hm Hk s s'. unfold go_bind. specialize (Hm s). destruct (m s) as [s1 [a|e| |]]; try done.
  - apply Hk.
  - intros [= -> ->]. by apply (Hm s').
Qed.

Lemma own_errors_value {A} `{Wire A} : own_errors (read_value (A:=A)).
Proof. intros s s'. unfold read_value. repeat case_match; discriminate. Qed.

Lemma own_errors_wrapped {A} w (m : go bytes error A) : own_errors (ReadWrapped w m).
Proof.
  intros s s'. unfold ReadWrapped, go_bind, go_try. destruct (m s) as [s1 [a|e| |]]; simpl; discriminate.
Qed.

Lemma own_errors_nullable {A} w (m : go bytes error A) : own_errors (ReadNullable w m).
Proof.
  intros s s'. unfold ReadNullable, go_bind, go_try, ReadNull, go_ret, go_err.
  destruct s as [|c s]; simpl; [by intros [=]|]. destruct (Ascii.eqb c cborNullByte); [done|].
  by destruct (m (String c s)) as [s1 [a|e| |]].
Qed.

Lemma own_errors_full n : own_errors (ReadFull n).
Proof. intros s s'. unfold ReadFull. repeat case_match; discriminate. Qed.

Lemma own_errors_if {A} (b : bool) (m1 m2 : go bytes error A) :
  own_errors m1 → own_errors m2 → own_errors (if b then m1 else m2).
Proof. by destruct b. Qed.

Lemma own_errors_msg {A} t : own_errors (go_err (A:=A) (ErrMsg t)).
Proof. intros s s'. unfold go_err. congruence. Qed.

Lemma own_errors_ret {A} (a : A) : own_errors (go_ret a).
Proof. intros s s'. unfold go_ret. congruence. Qed.

Ltac own_errors_tac :=
  repeat first
    [ progress intros
    | apply own_errors_value | apply own_errors_wrapped | apply own_errors_nullable
    | apply own_errors_full | apply own_errors_msg | apply own_errors_ret
    | apply own_errors_bind | apply own_errors_if ].

Lemma own_errors_vouchers n : own_errors (ReadVouchers n).
Proof.
  induction n as [|n IH]; simpl; [apply own_errors_ret|].
  apply own_errors_bind; [|intros v; apply own_errors_bind; [exact IH|intros; apply own_errors_ret]].
  unfold VoucherInfo_UnmarshalCBOR, ReadFields, ReadBool. simpl. own_errors_tac.
Qed.

Lemma unmarshall_own_errors e b : unmarshallChannelInfo e b ≠ Err ErrChannelNotTracked.
Proof.
  assert (own_errors ChannelInfo_UnmarshalCBOR) as H.
  { unfold ChannelInfo_UnmarshalCBOR, ReadFields, ReadUint64, ReadBool. simpl.
    own_errors_tac. apply own_errors_vouchers. }
  unfold unmarshallChannelInfo. specialize (H b).
  destruct (ChannelInfo_UnmarshalCBOR b) as [s [c|err| |]]; simpl; try done.
  intros [= ->]. by apply (H s).
Qed.

(** The store over the in-memory datastore. *)
Definition map_store : Store (sstate (gmap dskey bytes)) :=
  datastore_store map_ds (λ n, "uuid" +:+ pretty n) "empty".

#[export] Instance map_store_laws : StoreLaws map_store (view (λ d, d) "empty") "empty".
Proof. unfold map_store. apply datastore_store_laws, _. Qed.

#[export] Instance map_store_complete : StoreComplete map_store (view (λ d, d) "empty").
Proof.
  unfold map_store. apply (datastore_store_complete map_ds (λ d, d)).
  apply unmarshall_own_errors.
Qed.
