(* ===== verification/PayChain.v ===== *)
(** * Messages to the chain (filecoin/types.go, payments/message.go)

    The messages the payment system sends, how they are built, identified,
    signed and pushed to the message pool ([mpoolPush] and [increaseGas] of
    payments/channel.go).  The chain is reached through the [filecoin.API]
    interface, whose calls read and change an external state [X]; serialisation,
    hashing, signing and the actor codecs are libraries and appear as parameters
    of the same record. *)
From S2P Require Import Prelude Deal PayTypes.

Record Message : Type := MkMessage {
  msg_Version : Z;
  msg_To : address;
  msg_From : address;
  msg_Nonce : Z;
  msg_Value : Z;
  msg_GasLimit : Z;
  msg_GasFeeCap : Z;
  msg_GasPremium : Z;
  msg_Method : Z;
  msg_Params : bytes
}.

Definition set_msg_Nonce (v : Z) (m : Message) : Message :=
  MkMessage (msg_Version m) (msg_To m) (msg_From m) v (msg_Value m) (msg_GasLimit m)
    (msg_GasFeeCap m) (msg_GasPremium m) (msg_Method m) (msg_Params m).
Definition set_msg_GasPremium (v : Z) (m : Message) : Message :=
  MkMessage (msg_Version m) (msg_To m) (msg_From m) (msg_Nonce m) (msg_Value m)
    (msg_GasLimit m) (msg_GasFeeCap m) v (msg_Method m) (msg_Params m).

Definition signature : Type := Z * bytes.

Record SignedMessage : Type := MkSignedMessage {
  sm_Message : Message;
  sm_Signature : signature
}.

(** The fields of an actor the code reads. *)
Record Actor : Type := MkActor {
  act_Nonce : Z;
  act_Balance : Z
}.

(** The receipt of an executed message. *)
Record MsgLookup : Type := MkMsgLookup {
  ml_ExitCode : Z;
  ml_Return : bytes
}.

(** The state of a payment channel actor; the lanes are an array stored apart,
    under [as_LaneStates]. *)
Record ActorState : Type := MkActorState {
  as_From : address;
  as_To : address;
  as_ToSend : Z;
  as_SettlingAt : Z;
  as_LaneStates : cid
}.

Record LaneState : Type := MkLaneState {
  Redeemed : Z;
  Nonce : Z
}.

#[export] Instance LaneState_eq_dec : EqDecision LaneState.
Proof. solve_decision. Defined.

(** The services and libraries behind a payment channel. *)
Record Env (X : Type) : Type := MkEnv {
  (* filecoin.API *)
  api_GasEstimateMessageGas : Message → go X error Message;
  api_StateGetActor : address → go X error Actor;
  api_MpoolPush : SignedMessage → go X error cid;
  api_StateWaitMsg : cid → go X error MsgLookup;
  api_StateReadState : address → go X error bytes;
  api_ChainReadObj : cid → go X error bytes;
  api_StateAccountKey : address → go X error address;
  api_StateCall : Message → go X error Z;
  api_ChainHead : go X error Z;
  (* the block store the lane states are copied to *)
  blocks_Put : cid → bytes → go X error unit;
  lanes_AsArray : cid → go X error (list (Z * LaneState));
  (* wallet.Driver and the voucher's signing bytes *)
  wal_Sign : address → bytes → go X error signature;
  wal_SigTypeSig : Z → option error;
  wal_Verify : signature → address → bytes → option error;
  sv_SigningBytes : SignedVoucher → error + bytes;
  (* codecs and hashing *)
  json_ActorState : bytes → error + ActorState;
  block_check : bytes → cid → option error;
  msg_Serialize : Message → error + bytes;
  smsg_Serialize : SignedMessage → error + bytes;
  cid_Sum : bytes → error + cid;
  cid_Bytes : cid → bytes;
  params_Create : address → address → error + bytes;
  params_Update : SignedVoucher → bytes → error + bytes;
  exec_Return : bytes → error + address
}.
Arguments MkEnv {X}.
Arguments api_GasEstimateMessageGas {X}.
Arguments api_StateGetActor {X}.
Arguments api_MpoolPush {X}.
Arguments api_StateWaitMsg {X}.
Arguments api_StateReadState {X}.
Arguments api_ChainReadObj {X}.
Arguments api_StateAccountKey {X}.
Arguments api_StateCall {X}.
Arguments api_ChainHead {X}.
Arguments blocks_Put {X}.
Arguments lanes_AsArray {X}.
Arguments wal_Sign {X}.
Arguments wal_SigTypeSig {X}.
Arguments wal_Verify {X}.
Arguments sv_SigningBytes {X}.
Arguments json_ActorState {X}.
Arguments block_check {X}.
Arguments msg_Serialize {X}.
Arguments smsg_Serialize {X}.
Arguments cid_Sum {X}.
Arguments cid_Bytes {X}.
Arguments params_Create {X}.
Arguments params_Update {X}.
Arguments exec_Return {X}.

(** ** strings.Contains and the regular expression of [increaseGas] *)

Fixpoint Contains (s sub : string) : bool :=
  String.prefix sub s ||
  match s with
  | EmptyString => false
  | String _ s' => Contains s' sub
  end.

Definition digit (c : Ascii.ascii) : option Z :=
  let n := Z.of_nat (Ascii.nat_of_ascii c) in
  if (48 <=? n) && (n <=? 57) then Some (n - 48) else None.

(** The longest run of digits at the head of a string, as a number. *)
Fixpoint digits (s : string) (acc : Z) : Z :=
  match s with
  | EmptyString => acc
  | String c s' => match digit c with Some d => digits s' (10 * acc + d) | None => acc end
  end.

(** [to (\d+)]: the number after the leftmost occurrence of "to " followed by a digit. *)
Fixpoint match_premium (s : string) : option Z :=
  match s with
  | EmptyString => None
  | String _ s' =>
    if String.prefix "to " s
    then let rest := String.substring 3 (String.length s - 3) s in
         match rest with
         | String c _ => match digit c with Some _ => Some (digits rest 0) | None => match_premium s' end
         | EmptyString => match_premium s'
         end
    else match_premium s'
  end.

(** ** Message builders (payments/message.go)

    Numbers of the actor methods and the address of the init actor, from
    specs-actors. *)
Definition InitActorAddr : address := "f01".
Definition MethodsInit_Exec : Z := 2.
Definition MethodsPaych_UpdateChannelState : Z := 2.
Definition MethodsPaych_Settle : Z := 3.
Definition MethodsPaych_Collect : Z := 4.
Definition SigTypeBLS : Z := 2.

Section messages.
Context {X : Type} (env : Env X).

Definition plain_message (to from : address) (value method : Z) (params : bytes) : Message :=
  MkMessage 0 to from 0 value 0 0 0 method params.

Definition msg_encode_error : error := ErrMsg "failed to encode parameter".

Definition message_Create (from to : address) (initialAmount : Z) : outcome error Message :=
  match params_Create env from to with
  | inl _ => Err msg_encode_error
  | inr enc => Ok (plain_message InitActorAddr from initialAmount MethodsInit_Exec enc)
  end.

Definition message_Update (from ch : address) (sv : SignedVoucher) (secret : bytes)
    : outcome error Message :=
  match params_Update env sv secret with
  | inl _ => Err msg_encode_error
  | inr params => Ok (plain_message ch from 0 MethodsPaych_UpdateChannelState params)
  end.

Definition message_Settle (from ch : address) : outcome error Message :=
  Ok (plain_message ch from 0 MethodsPaych_Settle EmptyString).

Definition message_Collect (from ch : address) : outcome error Message :=
  Ok (plain_message ch from 0 MethodsPaych_Collect EmptyString).

(** ** Identifiers of messages (filecoin/types.go) *)

(** The identifier of the storage block of a message. *)
Definition Message_ToStorageBlock (m : Message) : error + cid :=
  match msg_Serialize env m with
  | inl e => inl e
  | inr data => cid_Sum env data
  end.

Definition Message_Cid (m : Message) : outcome error cid :=
  match Message_ToStorageBlock m with
  | inl _ => Panic
  | inr c => Ok c
  end.

Definition SignedMessage_ToStorageBlock (sm : SignedMessage) : error + cid :=
  if (sm_Signature sm).1 =? SigTypeBLS then Message_ToStorageBlock (sm_Message sm)
  else match smsg_Serialize env sm with
       | inl e => inl e
       | inr data => cid_Sum env data
       end.

Definition SignedMessage_Cid (sm : SignedMessage) : outcome error cid :=
  if (sm_Signature sm).1 =? SigTypeBLS then Message_Cid (sm_Message sm)
  else match SignedMessage_ToStorageBlock sm with
       | inl _ => Panic
       | inr c => Ok c
       end.

(** ** Pushing a message *)

Definition push_failed (e : error) : error := ErrWrap "MpoolPush failed with error" e.

(** Sign a message and push it. *)
Definition sign_message (msg : Message) : go X error SignedMessage :=
  let* c := go_sum (Message_ToStorageBlock msg) in
  let* sig := wal_Sign env (msg_From msg) (cid_Bytes env c) in
  go_ret (MkSignedMessage msg sig).

Definition increaseGas (msg : Message) (rec : string) : go X error SignedMessage :=
  match match_premium rec with
  | None => go_err (ErrMsg "failed to match new gas price")
  | Some prem =>
    let msg := set_msg_GasPremium prem msg in
    let* smsg := sign_message msg in
    let* r := go_try (api_MpoolPush env smsg) in
    match r with
    | inl err => go_err (push_failed err)
    | inr _ => go_ret smsg
    end
  end.

Definition mpoolPush (msg : Message) : go X error SignedMessage :=
  let* msg := api_GasEstimateMessageGas env msg in
  let* act := api_StateGetActor env (msg_From msg) in
  let msg := set_msg_Nonce (act_Nonce act) msg in
  let* smsg := sign_message msg in
  let* r := go_try (api_MpoolPush env smsg) in
  match r with
  | inl err =>
    if Contains (Error err) "already in mpool, increase GasPremium"
    then increaseGas msg (Error err)
    else go_err (push_failed err)
  | inr _ => go_ret smsg
  end.

End messages.

Example match_premium_example :
  match_premium "replace by fee has too low GasPremium, increase to 125 from 100" = Some 125.
Proof. reflexivity. Qed.

Example match_premium_none : match_premium "increase GasPremium to be" = None.
Proof. reflexivity. Qed.
