(* ===== verification/PayChannel.v ===== *)
(** * Payment channels (payments/channel.go)

    One accessor per pair of parties manages a payment channel: a queue of funds
    requests that are merged into one message, the messages in flight, and the
    vouchers created or received.

    Each operation runs under the lock of its channel, so it is one atomic
    computation over the shared [world].  A goroutine the source starts is a task
    appended to [w_tasks]; a value sent on a promise is appended to [w_replies]
    with the number of the request; completed messages are announced in
    [w_fired]. *)
From S2P Require Import Prelude Deal PayTypes PayInfo Cbor PayCodec PayStore PayChain.

(** ** Requests and accessors *)

(** A funds request; [fr_id] identifies its promise.  The merge parent only
    carries a context that is cancelled when every request is. *)
Record fundsReq : Type := MkFundsReq {
  fr_id : nat;
  fr_amt : Z;
  fr_active : bool
}.

Record paychFundsRes : Type := MkPaychFundsRes {
  res_channel : address;
  res_mcid : cid;
  res_err : option error
}.

(** An accessor: the parties and the queue. *)
Record channel : Type := MkChannel {
  ch_from : address;
  ch_to : address;
  ch_fundsReqQueue : list fundsReq
}.

Definition set_ch_queue (q : list fundsReq) (c : channel) : channel :=
  MkChannel (ch_from c) (ch_to c) q.

(** Goroutines that were started, and the second half of those that wait for a message:
    they release the lock of the channel between recording what the message did and
    completing it. *)
Inductive task : Type :=
| TProcessQueue (key : string)
| TWaitForPaychCreateMsg (key : string) (channelID : string) (mcid : cid)
| TWaitForAddFundsMsg (key : string) (channelID : string) (mcid : cid)
| TMsgWaitComplete (key : string) (mcid : cid) (err : option error).

Record world (S X : Type) : Type := MkWorld {
  w_store : S;
  w_ext : X;
  w_channels : gmap string channel;
  w_tasks : list task;
  w_replies : list (nat * paychFundsRes);
  w_fired : list (cid * option error);
  w_nextReq : nat
}.
Arguments MkWorld {S X}.
Arguments w_store {S X}.
Arguments w_ext {S X}.
Arguments w_channels {S X}.
Arguments w_tasks {S X}.
Arguments w_replies {S X}.
Arguments w_fired {S X}.
Arguments w_nextReq {S X}.

Section setters.
Context {S X : Type}.
Definition set_w_store (v : S) (w : world S X) : world S X :=
  MkWorld v (w_ext w) (w_channels w) (w_tasks w) (w_replies w) (w_fired w) (w_nextReq w).
Definition set_w_ext (v : X) (w : world S X) : world S X :=
  MkWorld (w_store w) v (w_channels w) (w_tasks w) (w_replies w) (w_fired w) (w_nextReq w).
Definition set_w_channels (v : gmap string channel) (w : world S X) : world S X :=
  MkWorld (w_store w) (w_ext w) v (w_tasks w) (w_replies w) (w_fired w) (w_nextReq w).
Definition set_w_tasks (v : list task) (w : world S X) : world S X :=
  MkWorld (w_store w) (w_ext w) (w_channels w) v (w_replies w) (w_fired w) (w_nextReq w).
Definition set_w_replies (v : list (nat * paychFundsRes)) (w : world S X) : world S X :=
  MkWorld (w_store w) (w_ext w) (w_channels w) (w_tasks w) v (w_fired w) (w_nextReq w).
Definition set_w_fired (v : list (cid * option error)) (w : world S X) : world S X :=
  MkWorld (w_store w) (w_ext w) (w_channels w) (w_tasks w) (w_replies w) v (w_nextReq w).
Definition set_w_nextReq (v : nat) (w : world S X) : world S X :=
  MkWorld (w_store w) (w_ext w) (w_channels w) (w_tasks w) (w_replies w) (w_fired w) v.
End setters.

(** ** Requests (fundsReq, mergedFundsReq) *)

Definition cancel (r : fundsReq) : fundsReq := MkFundsReq (fr_id r) (fr_amt r) false.

(** [mergedFundsReq.sum] *)
Definition merged_sum (reqs : list fundsReq) : Z :=
  foldl (λ sum r, if fr_active r then sum + fr_amt r else sum) 0 reqs.

(** [mergedFundsReq.onComplete]: the replies sent, in order. *)
Definition merged_onComplete (reqs : list fundsReq) (res : paychFundsRes)
    : list (nat * paychFundsRes) :=
  omap (λ r, if fr_active r then Some (fr_id r, res) else None) reqs.

(** [filterQueue]: the active requests, in order. *)
Definition filterQueue (q : list fundsReq) : list fundsReq :=
  filter (λ r, fr_active r = true) q.

Section channel.
Context {EQ : CborEquals} {S X : Type} (st : Store S) (env : Env X).
Local Abbreviation W := (world S X).

Definition on_store {A} (m : go S error A) : go W error A := λ w,
  let '(s, r) := m (w_store w) in (set_w_store s w, r).

Definition on_ext {A} (m : go X error A) : go W error A := λ w,
  let '(x, r) := m (w_ext w) in (set_w_ext x w, r).

Definition spawn (t : task) : go W error unit := go_modify (λ w, set_w_tasks (w_tasks w ++ [t]) w).

(** The accessor stored under a key of the cache; accessors are created before
    they are used. *)
Definition get_accessor (key : string) : go W error channel := λ w,
  match w_channels w !! key with
  | Some c => (w, Ok c)
  | None => (w, Panic)
  end.

Definition put_queue (key : string) (q : list fundsReq) : go W error unit :=
  let* c := get_accessor key in
  go_modify (λ w, set_w_channels (<[key := set_ch_queue q c]> (w_channels w)) w).

(** ** Reading the actor state *)

(** The error of [StateReadState] is overwritten before it is looked at, and
    its nil result is dereferenced. *)
Definition loadActorState (chAddr : address) : go W error ActorState :=
  let* actorState := go_try (on_ext (api_StateReadState env chAddr)) in
  match actorState with
  | inl _ => go_panic
  | inr stateEncod =>
    match json_ActorState env stateEncod with
    | inl err => go_err (ErrWrap "Error parsing actor state" err)
    | inr state =>
      let* raw := go_try (on_ext (api_ChainReadObj env (as_LaneStates state))) in
      match raw with
      | inl err => go_err (ErrWrap "Unable to read lane states from chain" err)
      | inr raw =>
        match block_check env raw (as_LaneStates state) with
        | Some err => go_err (ErrWrap "Unable to make a block with obj" err)
        | None =>
          let* r := go_try (on_ext (blocks_Put env (as_LaneStates state) raw)) in
          match r with
          | inl err => go_err (ErrWrap "Unable to set block in store" err)
          | inr _ => go_ret state
          end
        end
      end
    end
  end.

(** [ForEachLaneState], collecting the lanes. *)
Definition ForEachLaneState (state : ActorState) : go W error (list (Z * LaneState)) :=
  on_ext (lanes_AsArray env (as_LaneStates state)).

(** ** Lane states *)

(** The loop over the local vouchers. *)
Fixpoint apply_vouchers (vs : list VoucherInfo) (laneStates : gmap Z LaneState)
    : outcome error (gmap Z LaneState) :=
  match vs with
  | [] => Ok laneStates
  | vi :: vs' =>
    match vi_Voucher vi with
    | None => Panic
    | Some v =>
      match sv_Merges v with
      | _ :: _ => Err (ErrMsg "paych merges not handled yet")
      | [] =>
        let skip := match laneStates !! sv_Lane v with
                    | Some ls => sv_Nonce v <? Nonce ls
                    | None => false
                    end in
        if skip then apply_vouchers vs' laneStates
        else apply_vouchers vs' (<[sv_Lane v := MkLaneState (sv_Amount v) (sv_Nonce v)]> laneStates)
      end
    end
  end.

Definition laneState (state : ActorState) (chAddr : address) : go W error (gmap Z LaneState) :=
  let* lanes := ForEachLaneState state in
  let laneStates := foldl (λ m '(idx, ls), <[idx := ls]> m) ∅ lanes in
  let* vouchers := go_try (on_store (st_VouchersForPaych st chAddr)) in
  match vouchers with
  | inl err =>
    if bool_decide (err = ErrChannelNotTracked)
    then go_lift (apply_vouchers [] laneStates)
    else go_err err
  | inr vouchers => go_lift (apply_vouchers vouchers laneStates)
  end.

(** The sum over a map of lanes. *)
Definition total_redeemed (laneStates : gmap Z LaneState) : Z :=
  map_fold (λ _ ls total, total + Redeemed ls) 0 laneStates.

Definition merges_unsupported : error := ErrMsg "dont currently support paych lane merges".

Definition totalRedeemedWithVoucher (laneStates : gmap Z LaneState) (sv : SignedVoucher)
    : outcome error Z :=
  match sv_Merges sv with
  | _ :: _ => Err merges_unsupported
  | [] =>
    let total := total_redeemed laneStates in
    match laneStates !! sv_Lane sv with
    | Some lane =>
      if Nonce lane <? sv_Nonce sv
      then Ok (total + (sv_Amount sv - Redeemed lane))
      else Ok total
    | None => Ok (total + sv_Amount sv)
    end
  end.

(** ** Vouchers *)

(** A voucher without signature is a nil dereference. *)
Definition checkVoucherValidUnlocked (chAddr : address) (sv : SignedVoucher)
    : go W error (gmap Z LaneState * Z) :=
  if negb (String.eqb (sv_ChannelAddr sv) chAddr)
  then go_err (ErrMsg ("voucher ChannelAddr doesn't match channel address, got "
                       +:+ sv_ChannelAddr sv +:+ ", expected " +:+ chAddr))
  else
    let* act := on_ext (api_StateGetActor env chAddr) in
    let* pchState := go_try (loadActorState chAddr) in
    match pchState with
    | inl err => go_err (ErrWrap "loadActorState" err)
    | inr pchState =>
      let* from := on_ext (api_StateAccountKey env (as_From pchState)) in
      let* vb := go_sum (sv_SigningBytes env sv) in
      match sv_Signature sv with
      | None => go_panic
      | Some sig =>
        match (match wal_SigTypeSig env sig.1 with
               | Some err => Some err
               | None => wal_Verify env sig from vb
               end) with
        | Some err => go_err err
        | None =>
          let* laneStates := go_try (laneState pchState chAddr) in
          match laneStates with
          | inl err => go_err (ErrWrap "laneState" err)
          | inr laneStates =>
            let bad := match laneStates !! sv_Lane sv with
                       | Some ls =>
                         if sv_Nonce sv <=? Nonce ls then Some (ErrMsg "nonce too low")
                         else if sv_Amount sv <=? Redeemed ls
                         then Some (ErrMsg "voucher amount is lower than amount for voucher with lower nonce")
                         else None
                       | None => None
                       end in
            match bad with
            | Some err => go_err err
            | None =>
              match totalRedeemedWithVoucher laneStates sv with
              | Ok totalRedeemed =>
                if act_Balance act <? totalRedeemed
                then go_err (ErrInsufficientFunds (totalRedeemed - act_Balance act))
                else match sv_Merges sv with
                     | _ :: _ => go_err merges_unsupported
                     | [] => go_ret (laneStates, act_Balance act)
                     end
              | Err err => go_err (ErrWrap "totalRedeemedWithVoucher" err)
              | Panic => go_panic
              | Hang => go_hang
              end
            end
          end
        end
      end
    end.

(** The loop that looks for the voucher among those already added. *)
Fixpoint already_added (sv : option SignedVoucher) (l : list VoucherInfo) : outcome error bool :=
  match l with
  | [] => Ok false
  | v :: l' =>
    match Equals sv (vi_Voucher v) with
    | inl err => Err (ErrWrap "cborutil.Equals" err)
    | inr eq => if eq then Ok true else already_added sv l'
    end
  end.

(** The channel with the voucher added. *)
Definition with_voucher (ci : ChannelInfo) (sv : SignedVoucher) (balance : Z) : ChannelInfo :=
  let ci := set_ci_Vouchers (ci_Vouchers ci ++ [MkVoucherInfo (Some sv) EmptyString false]) ci in
  let ci := if ci_NextLane ci <=? sv_Lane sv then set_ci_NextLane (u64 (sv_Lane sv + 1)) ci else ci in
  if ci_Amount ci <? balance then set_ci_Amount balance ci else ci.

Definition addVoucherUnlocked (chAddr : address) (sv : SignedVoucher) (minDelta : Z)
    : go W error Z :=
  let* ci := go_try (on_store (st_ByAddress st chAddr)) in
  match ci with
  | inl err => go_err (ErrWrap "looking for channel" err)
  | inr ci =>
    let* dup := go_lift (already_added (Some sv) (ci_Vouchers ci)) in
    if dup : bool then go_ret 0
    else
      let* r := checkVoucherValidUnlocked chAddr sv in
      let '(laneStates, balance) := r in
      let redeemed := match laneStates !! sv_Lane sv with Some ls => Redeemed ls | None => 0 end in
      let delta := sv_Amount sv - redeemed in
      if delta <? minDelta
      then go_err (ErrMsg "addVoucher: supplied token amount too low")
      else
        do* on_store (st_putChannelInfo st (with_voucher ci sv balance)) then
        go_ret delta
  end.

(** A nil voucher is a nil dereference. *)
Fixpoint max_nonce (lane : Z) (l : list VoucherInfo) (maxnonce : Z) : outcome error Z :=
  match l with
  | [] => Ok maxnonce
  | v :: l' =>
    match vi_Voucher v with
    | None => Panic
    | Some w =>
      max_nonce lane l'
        (if (sv_Lane w =? lane) && (maxnonce <? sv_Nonce w) then sv_Nonce w else maxnonce)
    end
  end.

Definition nextNonceForLane (ci : ChannelInfo) (lane : Z) : outcome error Z :=
  outcome_bind (max_nonce lane (ci_Vouchers ci) 0) (λ maxnonce, Ok (u64 (maxnonce + 1))).

Definition createVoucher (chAddr : address) (voucher : SignedVoucher)
    : go W error VoucherCreateResult :=
  let* ci := go_try (on_store (st_ByAddress st chAddr)) in
  match ci with
  | inl err => go_err (ErrWrap "failed to get channel info by address" err)
  | inr ci =>
    let* nonce := go_lift (nextNonceForLane ci (sv_Lane voucher)) in
    let sv := MkVoucher chAddr (sv_Lane voucher) nonce (sv_Amount voucher) (sv_Merges voucher)
                (sv_Signature voucher) (sv_other voucher) in
    match sv_SigningBytes env sv with
    | inl err => go_err (ErrWrap "failed to get voucher signing bytes" err)
    | inr vb =>
      let* sig := go_try (on_ext (wal_Sign env (ci_Control ci) vb)) in
      match sig with
      | inl err => go_err (ErrWrap "failed to sign voucher" err)
      | inr sig =>
        let sv := MkVoucher chAddr (sv_Lane voucher) nonce (sv_Amount voucher) (sv_Merges voucher)
                    (Some sig) (sv_other voucher) in
        let* r := go_try (addVoucherUnlocked chAddr sv 0) in
        match r with
        | inl (ErrInsufficientFunds shortfall) => go_ret (MkVoucherCreateResult None shortfall)
        | inl err => go_err (ErrWrap "failed to persist voucher" err)
        | inr _ => go_ret (MkVoucherCreateResult (Some sv) 0)
        end
      end
    end
  end.

(** ** Pending messages *)

(** Errors of the store are logged. *)
Definition mutateChannelInfo (channelID : string) (mutate : ChannelInfo → ChannelInfo)
    : go W error unit :=
  let* channelInfo := go_try (on_store (st_ByChannelID st channelID)) in
  match channelInfo with
  | inl _ => go_ret tt
  | inr channelInfo =>
    do* go_try (on_store (st_putChannelInfo st (mutate channelInfo))) then
    go_ret tt
  end.

(** [messageBuilder] builds messages from the given address. *)
Definition create (key : string) (c : channel) (amt : Z) : go W error cid :=
  match message_Create env (ch_from c) (ch_to c) amt with
  | Err _ => go_panic
  | Ok msg =>
    let* smsg := on_ext (mpoolPush env msg) in
    let* mcid := go_lift (SignedMessage_Cid env smsg) in
    let* ci := go_try (on_store (st_CreateChannel st (ch_from c) (ch_to c) mcid amt)) in
    match ci with
    | inl err => go_err (ErrWrap "Unable to create channel in store" err)
    | inr ci =>
      do* spawn (TWaitForPaychCreateMsg key (ci_ChannelID ci) mcid) then
      go_ret mcid
    end
  | Panic => go_panic
  | Hang => go_hang
  end.

Definition addFunds (key : string) (channelInfo : ChannelInfo) (amt : Z) : go W error cid :=
  match ci_Channel channelInfo with
  | None => go_panic
  | Some to =>
    let msg := plain_message to (ci_Control channelInfo) amt 0 EmptyString in
    let* smsg := on_ext (mpoolPush env msg) in
    let* mcid := go_lift (SignedMessage_Cid env smsg) in
    do* mutateChannelInfo (ci_ChannelID channelInfo)
          (λ ci, set_ci_AddFundsMsg (Some mcid) (set_ci_PendingAmount amt ci)) then
    do* go_try (on_store (st_SaveNewMessage st (ci_ChannelID channelInfo) mcid)) then
    do* spawn (TWaitForAddFundsMsg key (ci_ChannelID channelInfo) mcid) then
    go_ret mcid
  end.

(** [None] when the task waits for an event on the chain. *)
Definition processTask (key : string) (c : channel) (amt : Z) : go W error (option paychFundsRes) :=
  let failed err := Some (MkPaychFundsRes Undef Undef (Some err)) in
  let* channelInfo := go_try (on_store (st_OutboundActiveByFromTo st (ch_from c) (ch_to c))) in
  match channelInfo with
  | inl err =>
    if bool_decide (err = ErrChannelNotTracked)
    then
      let* mcid := go_try (create key c amt) in
      match mcid with
      | inl err => go_ret (failed err)
      | inr mcid => go_ret (Some (MkPaychFundsRes Undef mcid None))
      end
    else go_ret (failed err)
  | inr channelInfo =>
    match ci_CreateMsg channelInfo, ci_AddFundsMsg channelInfo with
    | Some _, _ => go_ret None
    | None, Some _ => go_ret None
    | None, None =>
      let* mcid := go_try (addFunds key channelInfo amt) in
      match mcid with
      | inl err => go_ret (failed err)
      | inr mcid =>
        match ci_Channel channelInfo with
        | Some a => go_ret (Some (MkPaychFundsRes a mcid None))
        | None => go_panic
        end
      end
    end
  end.

(** ** Available funds *)

Definition currentAvailableFunds (channelID : string) (queuedAmt : Z)
    : go W error (option AvailableFunds) :=
  if String.eqb channelID EmptyString then go_ret None
  else
    let* channelInfo := on_store (st_ByChannelID st channelID) in
    let waitSentinel := match ci_CreateMsg channelInfo with
                        | Some c => Some c
                        | None => ci_AddFundsMsg channelInfo
                        end in
    let* totalRedeemed :=
      (match ci_Channel channelInfo with
       | None => go_ret 0
       | Some chAddr =>
         let* as_ := loadActorState chAddr in
         let* laneStates := laneState as_ chAddr in
         go_ret (total_redeemed laneStates)
       end) in
    go_ret (Some (MkAvailableFunds (ci_Channel channelInfo) (from channelInfo) (to channelInfo)
                    (ci_Amount channelInfo) (ci_PendingAmount channelInfo) waitSentinel
                    queuedAmt totalRedeemed)).

(** ** The queue *)

Definition processQueue (key : string) (channelID : string) : go W error (option AvailableFunds) :=
  let* c := get_accessor key in
  let q := filterQueue (ch_fundsReqQueue c) in
  do* put_queue key q then
  match q with
  | [] => currentAvailableFunds channelID 0
  | _ =>
    let amt := merged_sum q in
    if amt =? 0 then currentAvailableFunds channelID amt
    else
      let* res := processTask key c amt in
      match res with
      | None => currentAvailableFunds channelID amt
      | Some res =>
        do* put_queue key [] then
        do* go_modify (λ w, set_w_replies (w_replies w ++ merged_onComplete q res) w) then
        currentAvailableFunds channelID 0
      end
  end.

(** The first half of [get]: the request is queued and a goroutine will process
    the queue; the second half waits for the reply with the request's number. *)
Definition enqueue (key : string) (amt : Z) : go W error nat :=
  let* c := get_accessor key in
  let* w := go_get in
  let id := w_nextReq w in
  do* put_queue key (ch_fundsReqQueue c ++ [MkFundsReq id amt true]) then
  do* go_modify (λ w, set_w_nextReq (Datatypes.S id) w) then
  do* spawn (TProcessQueue key) then
  go_ret id.

Definition reply_of (id : nat) (w : W) : option paychFundsRes :=
  match list_find (λ r : nat * paychFundsRes, r.1 = id) (w_replies w) with
  | Some (_, r) => Some r.2
  | None => None
  end.

(** The context of a request is cancelled. *)
Definition cancel_req (key : string) (id : nat) : go W error unit :=
  let* c := get_accessor key in
  put_queue key (map (λ r, if bool_decide (fr_id r = id) then cancel r else r)
                   (ch_fundsReqQueue c)).

(** ** Completion of messages *)

Definition exit_error (what : string) (code : Z) : error :=
  ErrMsg (what +:+ " (exit code " +:+ pretty code +:+ ")").

Definition waitPaychCreateMsg (channelID : string) (mcid : cid) : go W error unit :=
  let* mwait := on_ext (api_StateWaitMsg env mcid) in
  if negb (ml_ExitCode mwait =? 0)
  then
    do* go_try (on_store (st_RemoveChannel st channelID)) then
    go_err (exit_error "payment channel creation failed" (ml_ExitCode mwait))
  else
    let* robust := go_sum (exec_Return env (ml_Return mwait)) in
    mutateChannelInfo channelID (λ ci,
      set_ci_CreateMsg None (set_ci_PendingAmount 0
        (set_ci_Amount (ci_PendingAmount ci) (set_ci_Channel (Some robust) ci)))).

Definition waitAddFundsMsg (channelID : string) (mcid : cid) : go W error unit :=
  let* mwait := on_ext (api_StateWaitMsg env mcid) in
  if negb (ml_ExitCode mwait =? 0)
  then
    do* mutateChannelInfo channelID (λ ci, set_ci_AddFundsMsg None (set_ci_PendingAmount 0 ci)) then
    go_err (exit_error "voucher channel creation failed: adding funds" (ml_ExitCode mwait))
  else
    mutateChannelInfo channelID (λ ci,
      set_ci_AddFundsMsg None (set_ci_PendingAmount 0
        (set_ci_Amount (ci_Amount ci + ci_PendingAmount ci) ci))).

Definition msgWaitComplete (key : string) (mcid : cid) (err : option error) : go W error unit :=
  do* go_try (on_store (st_SaveMessageResult st mcid err)) then
  do* go_modify (λ w, set_w_fired (w_fired w ++ [(mcid, err)]) w) then
  let* c := get_accessor key in
  match ch_fundsReqQueue c with
  | [] => go_ret tt
  | _ => spawn (TProcessQueue key)
  end.

Definition err_of {A} (r : error + A) : option error :=
  match r with inl e => Some e | inr _ => None end.

(** One locked section of a goroutine. *)
Definition run_task (t : task) : go W error unit :=
  match t with
  | TProcessQueue key => do* go_try (processQueue key EmptyString) then go_ret tt
  | TWaitForPaychCreateMsg key channelID mcid =>
    let* r := go_try (waitPaychCreateMsg channelID mcid) in
    spawn (TMsgWaitComplete key mcid (err_of r))
  | TWaitForAddFundsMsg key channelID mcid =>
    let* r := go_try (waitAddFundsMsg channelID mcid) in
    spawn (TMsgWaitComplete key mcid (err_of r))
  | TMsgWaitComplete key mcid err => msgWaitComplete key mcid err
  end.

(** [getWaitReady]: [None] when the message is still in flight and the caller
    waits for its completion; a completed message without channel address panics. *)
Definition getWaitReady (mcid : cid) : go W error (option address) :=
  let* msgInfo := on_store (st_GetMessage st mcid) in
  if negb (String.eqb (mi_Err msgInfo) EmptyString) then go_err (ErrMsg (mi_Err msgInfo))
  else if mi_Received msgInfo
  then
    let* ci := on_store (st_ByMessageCid st mcid) in
    match ci_Channel ci with
    | None => go_panic
    | Some a => go_ret (Some a)
    end
  else go_ret None.

(** What a waiter of [msgPromise] receives when the message completes. *)
Definition msgPromise_result (mcid : cid) (err : option error) : go W error address :=
  match err with
  | Some e => go_err e
  | None =>
    let* ci := on_store (st_ByMessageCid st mcid) in
    match ci_Channel ci with
    | None => go_panic
    | Some a => go_ret a
    end
  end.

(** ** Redeeming vouchers, settling and collecting *)

Definition allocateLane (chAddr : address) : go W error Z := on_store (st_AllocateLane st chAddr).

Definition submitVoucher (chAddr : address) (sv : SignedVoucher) (secret : bytes)
    : go W error cid :=
  let* ci := on_store (st_ByAddress st chAddr) in
  let* has := go_lift (hasVoucher ci sv) in
  let* submitted := (if has : bool then go_lift (wasVoucherSubmitted ci sv) else go_ret false) in
  if submitted : bool
  then go_err (ErrMsg "cannot submit voucher that has already been submitted")
  else
    let* msg := go_lift (message_Update env (ci_Control ci) chAddr sv secret) in
    let* smsg := on_ext (mpoolPush env msg) in
    let ci := if has then ci
              else set_ci_Vouchers (ci_Vouchers ci ++ [MkVoucherInfo (Some sv) EmptyString false]) ci in
    do* on_store (st_MarkVoucherSubmitted st ci sv) then
    go_lift (SignedMessage_Cid env smsg).

Definition listVouchers (chAddr : address) : go W error (list VoucherInfo) :=
  on_store (st_VouchersForPaych st chAddr).

(** The message is built from the address of the accessor's second party. *)
Definition checkVoucherSpendable (c : channel) (addr : address) (sv : SignedVoucher) (secret : bytes)
    : go W error bool :=
  let* ci := on_store (st_ByAddress st addr) in
  let* submitted := go_lift (wasVoucherSubmitted ci sv) in
  if submitted : bool then go_ret false
  else
    let* mes := go_lift (message_Update env (ch_to c) addr sv secret) in
    let* code := on_ext (api_StateCall env mes) in
    if negb (code =? 0) then go_ret false else go_ret true.

Definition settle (chAddr : address) : go W error cid :=
  let* ci := on_store (st_ByAddress st chAddr) in
  let* msg := go_lift (message_Settle (ci_Control ci) chAddr) in
  let* smsg := on_ext (mpoolPush env msg) in
  do* on_store (st_putChannelInfo st (set_ci_Settling true ci)) then
  go_lift (SignedMessage_Cid env smsg).

Definition collect (chAddr : address) : go W error cid :=
  let* ci := on_store (st_ByAddress st chAddr) in
  let* msg := go_lift (message_Collect (ci_Control ci) chAddr) in
  let* smsg := on_ext (mpoolPush env msg) in
  go_lift (SignedMessage_Cid env smsg).

Definition getChannelInfo (addr : address) : go W error ChannelInfo :=
  on_store (st_ByAddress st addr).

End channel.

(** ** Lane arithmetic *)

Lemma total_redeemed_insert_new (m : gmap Z LaneState) l x :
  m !! l = None → total_redeemed (<[l := x]> m) = total_redeemed m + Redeemed x.
Proof.
  intros Hl. unfold total_redeemed. rewrite map_fold_insert_L; [done| |done].
  intros. lia.
Qed.

Lemma total_redeemed_insert (m : gmap Z LaneState) l x y :
  m !! l = Some y →
  total_redeemed (<[l := x]> m) = total_redeemed m + (Redeemed x - Redeemed y).
Proof.
  intros Hl. rewrite <- (insert_delete_id m l y) at 2 by done.
  rewrite <- insert_delete_eq.
  rewrite !total_redeemed_insert_new by apply lookup_delete_eq. lia.
Qed.

(** The lane a voucher leads to. *)
Definition lane_of (sv : SignedVoucher) : LaneState := MkLaneState (sv_Amount sv) (sv_Nonce sv).

(** The voucher supersedes its lane. *)
Definition supersedes (sv : SignedVoucher) (m : gmap Z LaneState) : Prop :=
  ∀ ls, m !! sv_Lane sv = Some ls → Nonce ls < sv_Nonce sv.

Lemma totalRedeemed_supersedes (m : gmap Z LaneState) sv t :
  supersedes sv m → totalRedeemedWithVoucher m sv = Ok t →
  sv_Merges sv = [] ∧ t = total_redeemed (<[sv_Lane sv := lane_of sv]> m).
Proof.
  intros Hs. unfold totalRedeemedWithVoucher. destruct (sv_Merges sv); [|done].
  destruct (m !! sv_Lane sv) as [ls|] eqn:E.
  - rewrite (total_redeemed_insert _ _ _ ls) by done. specialize (Hs _ E).
    destruct (Z.ltb_spec (Nonce ls) (sv_Nonce sv)); [|lia]. by intros [= <-].
  - rewrite total_redeemed_insert_new by done. by intros [= <-].
Qed.

Lemma apply_vouchers_app vs1 vs2 m :
  apply_vouchers (vs1 ++ vs2) m = outcome_bind (apply_vouchers vs1 m) (apply_vouchers vs2).
Proof.
  revert m. induction vs1 as [|vi vs1 IH]; intros m; simpl; [done|].
  destruct (vi_Voucher vi) as [v|]; [|done]. destruct (sv_Merges v); [|done].
  by destruct (match m !! sv_Lane v with Some ls => sv_Nonce v <? Nonce ls | None => false end).
Qed.

(** Adding a voucher that supersedes its lane replaces the lane. *)
Lemma apply_vouchers_snoc vs m m' sv proof b :
  apply_vouchers vs m = Ok m' → sv_Merges sv = [] → supersedes sv m' →
  apply_vouchers (vs ++ [MkVoucherInfo (Some sv) proof b]) m
  = Ok (<[sv_Lane sv := lane_of sv]> m').
Proof.
  intros Hvs Hm Hs. rewrite apply_vouchers_app, Hvs. simpl. rewrite Hm.
  destruct (m' !! sv_Lane sv) as [ls|] eqn:E; [|done]. specialize (Hs _ E).
  destruct (Z.ltb_spec (sv_Nonce sv) (Nonce ls)); [lia|done].
Qed.

(** The nonce of a lane is the highest one known. *)
Lemma apply_vouchers_nonce vs m m' :
  apply_vouchers vs m = Ok m' →
  (∀ l ls, m !! l = Some ls → ∃ ls', m' !! l = Some ls' ∧ Nonce ls <= Nonce ls') ∧
  (∀ vi v, vi ∈ vs → vi_Voucher vi = Some v →
     ∃ ls', m' !! sv_Lane v = Some ls' ∧ sv_Nonce v <= Nonce ls').
Proof.
  revert m. induction vs as [|vi vs IH]; intros m; simpl.
  - intros [= <-]. split; [eauto with lia|]. by intros vi v ?%elem_of_nil.
  - destruct (vi_Voucher vi) as [v|] eqn:Hv; [|done]. destruct (sv_Merges v); [|done].
    destruct (match m !! sv_Lane v with Some ls => _ | None => _ end) eqn:Hskip;
      intros [IH1 IH2]%IH; (split; [|intros vi' v' [->|Hin]%elem_of_cons Hv'; [|by eapply IH2]]).
    + exact IH1.
    + simplify_eq. destruct (m !! sv_Lane v) as [ls|] eqn:E; [|done]. to_prop.
      destruct (IH1 _ _ E) as (ls' & ? & ?). eauto with lia.
    + intros l ls Hl. destruct (decide (l = sv_Lane v)) as [->|Hne].
      * rewrite Hl in Hskip. to_prop.
        destruct (IH1 (sv_Lane v) (MkLaneState (sv_Amount v) (sv_Nonce v))) as (ls' & ? & Hn);
          [apply lookup_insert_eq|]. simpl in Hn. eauto with lia.
      * apply IH1. by rewrite lookup_insert_ne.
    + simplify_eq.
      destruct (IH1 (sv_Lane v) (MkLaneState (sv_Amount v) (sv_Nonce v))) as (ls' & ? & Hn);
        [apply lookup_insert_eq|]. simpl in Hn. eauto.
Qed.

(** ** Nonces *)

Lemma max_nonce_spec lane l m r :
  max_nonce lane l m = Ok r →
  m <= r ∧ (∀ vi v, vi ∈ l → vi_Voucher vi = Some v → sv_Lane v = lane → sv_Nonce v <= r) ∧
  (r = m ∨ ∃ vi v, vi ∈ l ∧ vi_Voucher vi = Some v ∧ sv_Lane v = lane ∧ r = sv_Nonce v).
Proof.
  revert m. induction l as [|x l IH]; intros m; simpl.
  - intros [= <-]. split_and!; [lia| |by left]. by intros vi v ?%elem_of_nil.
  - destruct (vi_Voucher x) as [w|] eqn:Hx; [|done]. intros (H1 & H2 & H3)%IH.
    destruct (Z.eqb_spec (sv_Lane w) lane) as [Hl|Hl]; simpl in *;
      [destruct (Z.ltb_spec m (sv_Nonce w))|].
    all: split_and!; [lia| |].
    all: try (intros vi v [->|Hin]%elem_of_cons Hv Hlv; [simplify_eq; lia|by eapply H2]).
    all: destruct H3 as [->|(vi & v & ? & ? & ? & ?)];
      [|right; exists vi, v; split_and!; try done; by apply elem_of_cons; right].
    + right. exists x, w. split_and!; try done. by apply elem_of_cons; left.
    + by left.
    + by left.
Qed.

Lemma already_added_true {EQ : CborEquals} sv l :
  already_added sv l = Ok true → ∃ v, v ∈ l ∧ vi_Voucher v = sv.
Proof.
  induction l as [|v l IH]; simpl; [done|].
  destruct (Equals sv (vi_Voucher v)) as [e|b] eqn:E; [done|]. apply Equals_spec in E as ->.
  case_bool_decide as Hv.
  - intros _. exists v. split; [by apply elem_of_cons; left|done].
  - intros (w & ? & ?)%IH. exists w. split; [by apply elem_of_cons; right|done].
Qed.

(** The error for missing funds is a type of the payments package: no service or
    library answers with it. *)
Definition foreign {S A} (m : go S error A) : Prop :=
  ∀ s s' n, m s ≠ (s', Err (ErrInsufficientFunds n)).

Class ForeignErrors {S X} (st : Store S) (env : Env X) : Prop := {
  foreign_actor : ∀ a, foreign (api_StateGetActor env a);
  foreign_key : ∀ a, foreign (api_StateAccountKey env a);
  foreign_bytes : ∀ sv n, sv_SigningBytes env sv ≠ inl (ErrInsufficientFunds n);
  foreign_sigtype : ∀ t n, wal_SigTypeSig env t ≠ Some (ErrInsufficientFunds n);
  foreign_verify : ∀ s a b n, wal_Verify env s a b ≠ Some (ErrInsufficientFunds n);
  foreign_put : ∀ ci, foreign (st_putChannelInfo st ci)
}.

(** ** Frames *)

Section proofs.
Context {EQ : CborEquals} {S X : Type} (st : Store S) (env : Env X).
Context (view : S → dskey → option ChannelInfo) (emptyAddr : address).
Context {L : StoreLaws st view emptyAddr} {C : StoreComplete st view}.
Local Abbreviation W := (world S X).
Local Abbreviation chans w := (view (w_store w)).
Local Abbreviation wf w := (store_wf view emptyAddr (w_store w)).

(** Nothing but the external services has changed. *)
Definition quiet (w w' : W) : Prop :=
  same view (w_store w) (w_store w') ∧ w_channels w' = w_channels w ∧ w_tasks w' = w_tasks w ∧
  w_replies w' = w_replies w ∧ w_fired w' = w_fired w ∧ w_nextReq w' = w_nextReq w.

#[local] Instance quiet_preorder : PreOrder quiet.
Proof.
  split; [intros w; unfold quiet; by split_and!|].
  intros w1 w2 w3 (Hs & ? & ? & ? & ? & ?) (Hs' & ? & ? & ? & ? & ?).
  unfold quiet. split_and!; [by etrans|congruence..].
Qed.

Lemma quiet_wf w w' : quiet w w' → wf w → wf w'.
Proof. intros (Hs & _) Hwf. by rewrite <- Hs. Qed.

Lemma on_ext_quiet {A} (m : go X error A) : keeps quiet (on_ext (S:=S) m).
Proof. intros w. unfold on_ext. destruct (m (w_ext w)). unfold quiet. by split_and!. Qed.

Lemma on_store_quiet {A} (m : go S error A) :
  (∀ s, same view s (m s).1) → keeps quiet (on_store (X:=X) m).
Proof.
  intros Hm w. unfold on_store. specialize (Hm (w_store w)). destruct (m (w_store w)).
  unfold quiet. by split_and!.
Qed.

Lemma on_store_eq {A} (m : go S error A) (w w' : W) r :
  on_store m w = (w', r) → m (w_store w) = (w_store w', r) ∧ w' = set_w_store (w_store w') w.
Proof. unfold on_store. destruct (m (w_store w)) as [s o]. intros [= <- <-]. by destruct w. Qed.

Lemma by_address_quiet a : keeps quiet (on_store (X:=X) (st_ByAddress st a)).
Proof.
  apply on_store_quiet. intros s. destruct (st_ByAddress st a s) eqn:E.
  by apply by_address_law in E as [? _].
Qed.

Lemma by_id_quiet id : keeps quiet (on_store (X:=X) (st_ByChannelID st id)).
Proof.
  apply on_store_quiet. intros s. destruct (st_ByChannelID st id s) eqn:E.
  by apply by_id_law in E as [? _].
Qed.

Lemma vouchers_quiet a : keeps quiet (on_store (X:=X) (st_VouchersForPaych st a)).
Proof.
  apply on_store_quiet. intros s. rewrite vouchers_law. unfold go_bind.
  destruct (st_ByAddress st a s) as [s1 o] eqn:E. apply by_address_law in E as [? _].
  by destruct o.
Qed.

Hint Resolve on_ext_quiet by_address_quiet by_id_quiet vouchers_quiet quiet_preorder : pop.

Lemma loadActorState_quiet a : keeps quiet (loadActorState (S:=S) env a).
Proof. unfold loadActorState. keeps_tac. Qed.

Hint Resolve loadActorState_quiet : pop.

Lemma laneState_quiet state a : keeps quiet (laneState st env state a).
Proof. unfold laneState, ForEachLaneState. keeps_tac. Qed.

Hint Resolve laneState_quiet : pop.

Lemma check_quiet a sv : keeps quiet (checkVoucherValidUnlocked st env a sv).
Proof. unfold checkVoucherValidUnlocked. keeps_tac. Qed.

Lemma currentAvailableFunds_quiet id amt : keeps quiet (currentAvailableFunds st env id amt).
Proof. unfold currentAvailableFunds. keeps_tac. Qed.

(** The accessor of a channel address: the record found is the only one. *)
Lemma by_address_ok a (w w' : W) ci :
  on_store (st_ByAddress st a) w = (w', Ok ci) →
  quiet w w' ∧ ci_Channel ci = Some a ∧ ∃ k, chans w k = Some ci.
Proof.
  intros H. pose proof (by_address_quiet a w) as Hq. rewrite H in Hq. simpl in Hq.
  apply on_store_eq in H as [H _]. apply by_address_law in H as [_ Hr].
  by destruct (Hr _ eq_refl).
Qed.

(** What the chain reports about a channel during a call. *)
Definition chain_reports (chAddr : address) (chain : gmap Z LaneState) (balance : Z) : Prop :=
  (∃ x x' act, api_StateGetActor env chAddr x = (x', Ok act) ∧ balance = act_Balance act) ∧
  (∃ c x x' lanes, lanes_AsArray env c x = (x', Ok lanes) ∧
     chain = foldl (λ m '(idx, ls), <[idx := ls]> m) ∅ lanes).

(** The voucher carries a signature that verifies for some key. *)
Definition signed_voucher (sv : SignedVoucher) : Prop :=
  ∃ sig key vb, sv_Signature sv = Some sig ∧ sv_SigningBytes env sv = inr vb ∧
    wal_Verify env sig key vb = None.

Lemma on_ext_ok {A} (m : go X error A) (w w' : W) a :
  on_ext m w = (w', Ok a) → ∃ x', m (w_ext w) = (x', Ok a).
Proof. unfold on_ext. destruct (m (w_ext w)) as [x o]. intros [= _ ->]. eauto. Qed.

Lemma laneState_ok state chAddr (w w' : W) lanes k ci :
  wf w → chans w k = Some ci → ci_Channel ci = Some chAddr →
  laneState st env state chAddr w = (w', Ok lanes) →
  ∃ c x x' l, lanes_AsArray env c x = (x', Ok l) ∧
    apply_vouchers (ci_Vouchers ci) (foldl (λ m '(idx, ls), <[idx := ls]> m) ∅ l) = Ok lanes.
Proof.
  intros Hwf Hk Hch. unfold laneState. intros (w1 & l & Hl & H)%go_bind_ok.
  pose proof (keeps_run _ _ _ _ _ (on_ext_quiet _) Hl) as Hq1.
  apply on_ext_ok in Hl as [x' Hl].
  apply go_bind_ok in H as (w2 & vs & Hvs & H). apply go_try_ok in Hvs.
  destruct vs as [err|vs].
  - case_bool_decide as He; [|done]. subst err. exfalso.
    apply on_store_eq in Hvs as [Hvs _]. rewrite vouchers_law in Hvs. unfold go_bind in Hvs.
    destruct (st_ByAddress st chAddr (w_store w1)) as [s3 [ci'|e| |]] eqn:E; try done.
    injection Hvs as _ ->. destruct Hq1 as (Hs & _).
    apply (by_address_complete _ _ _ E k ci); [by rewrite Hs|done].
  - apply go_lift_ok in H as [-> H]. exists (as_LaneStates state), (w_ext w), x', l.
    split; [done|]. apply on_store_eq in Hvs as [Hvs _]. rewrite vouchers_law in Hvs.
    apply go_bind_ok in Hvs as (s3 & ci' & Hby & Hret). apply go_ret_ok in Hret as [_ ->].
    apply by_address_law in Hby as [_ Hr]. destruct (Hr _ eq_refl) as [Hch' [k' Hk']].
    destruct Hq1 as (Hs & _). rewrite Hs in Hk'.
    destruct (wf_unique view emptyAddr _ _ _ _ _ _ Hwf Hk Hk' Hch Hch') as [_ <-]. done.
Qed.

(** A voucher that passes the check. *)
Lemma check_ok chAddr sv (w w' : W) lanes balance k ci :
  wf w → chans w k = Some ci → ci_Channel ci = Some chAddr →
  checkVoucherValidUnlocked st env chAddr sv w = (w', Ok (lanes, balance)) →
  quiet w w' ∧ sv_ChannelAddr sv = chAddr ∧ signed_voucher sv ∧ sv_Merges sv = [] ∧
  (∃ chain, chain_reports chAddr chain balance ∧ apply_vouchers (ci_Vouchers ci) chain = Ok lanes) ∧
  (∀ ls, lanes !! sv_Lane sv = Some ls → Nonce ls < sv_Nonce sv ∧ Redeemed ls < sv_Amount sv) ∧
  total_redeemed (<[sv_Lane sv := lane_of sv]> lanes) <= balance.
Proof.
  intros Hwf Hk Hch H. pose proof (keeps_run _ _ _ _ _ (check_quiet chAddr sv) H) as Hq.
  split; [done|]. unfold checkVoucherValidUnlocked in H.
  destruct (String.eqb_spec (sv_ChannelAddr sv) chAddr) as [Ha|]; [|done]. split; [done|].
  apply go_bind_ok in H as (w1 & act & Hact & H).
  pose proof (keeps_run _ _ _ _ _ (on_ext_quiet _) Hact) as Hq1.
  apply on_ext_ok in Hact as [x1 Hact].
  apply go_bind_ok in H as (w2 & r & Hload & H). apply go_try_ok in Hload.
  destruct r as [e|pch]; [done|].
  pose proof (keeps_run _ _ _ _ _ (loadActorState_quiet chAddr) Hload) as Hq2.
  apply go_bind_ok in H as (w3 & from & Hfrom & H).
  pose proof (keeps_run _ _ _ _ _ (on_ext_quiet _) Hfrom) as Hq3.
  apply go_bind_ok in H as (w4 & vb & Hvb & H). apply go_sum_ok in Hvb as [-> Hvb].
  destruct (sv_Signature sv) as [sig|] eqn:Hsig; [|done].
  destruct (match wal_SigTypeSig env sig.1 with Some err => _ | None => _ end) eqn:Hver; [done|].
  destruct (wal_SigTypeSig env sig.1); [done|].
  split; [by exists sig, from, vb|].
  apply go_bind_ok in H as (w5 & r & Hls & H). apply go_try_ok in Hls.
  destruct r as [e|lanes']; [done|].
  assert (quiet w w3) as Hq03 by (etrans; [exact Hq1|etrans; [exact Hq2|exact Hq3]]).
  apply (laneState_ok _ _ w3 _ lanes' k ci) in Hls;
    [|by eapply quiet_wf|by destruct Hq03 as (-> & _)|done].
  destruct Hls as (c & x & x' & l & Hl & Happ).
  destruct (match lanes' !! sv_Lane sv with Some ls => _ | None => _ end) eqn:Hbad; [done|].
  assert (∀ ls, lanes' !! sv_Lane sv = Some ls →
            Nonce ls < sv_Nonce sv ∧ Redeemed ls < sv_Amount sv) as Hlane.
  { intros ls Hls. rewrite Hls in Hbad.
    destruct (Z.leb_spec (sv_Nonce sv) (Nonce ls)); [done|].
    destruct (Z.leb_spec (sv_Amount sv) (Redeemed ls)); [done|]. lia. }
  destruct (totalRedeemedWithVoucher lanes' sv) as [t| | |] eqn:Ht; try done.
  apply totalRedeemed_supersedes in Ht as [Hm ->]; [|intros ls Hls; by apply Hlane].
  destruct (Z.ltb_spec (act_Balance act)
              (total_redeemed (<[sv_Lane sv:=lane_of sv]> lanes'))); [done|].
  rewrite Hm in H. apply go_ret_ok in H as [_ [= -> ->]].
  split_and!; try done.
  exists (foldl (λ m '(idx, ls), <[idx:=ls]> m) ∅ l). split; [|done].
  split; [by exists (w_ext w), x1, act|by exists c, x, x', l].
Qed.

Lemma with_voucher_fields ci sv balance :
  ci_ChannelID (with_voucher ci sv balance) = ci_ChannelID ci ∧
  ci_Channel (with_voucher ci sv balance) = ci_Channel ci ∧
  ci_Direction (with_voucher ci sv balance) = ci_Direction ci ∧
  ci_Vouchers (with_voucher ci sv balance)
    = ci_Vouchers ci ++ [MkVoucherInfo (Some sv) EmptyString false] ∧
  ci_Amount (with_voucher ci sv balance) = Z.max (ci_Amount ci) balance ∧
  (is_u64 (ci_NextLane ci) → is_u64 (ci_NextLane (with_voucher ci sv balance))).
Proof.
  unfold with_voucher. destruct ci as [? ? ? ? ? ? lane amt ? ? ? ? ?]; simpl.
  destruct (lane <=? sv_Lane sv); simpl; (destruct (Z.ltb_spec amt balance); simpl);
    split_and!; try done; try lia; intros; auto with pop.
Qed.

(** What adding a voucher does when it succeeds. *)
Definition voucher_added (chAddr : address) (sv : SignedVoucher) (delta : Z) (w w' : W)
    (lanes : gmap Z LaneState) (balance : Z) : Prop :=
  ∃ k ci chain, chans w k = Some ci ∧ ci_Channel ci = Some chAddr ∧
    chain_reports chAddr chain balance ∧ apply_vouchers (ci_Vouchers ci) chain = Ok lanes ∧
    chans w' k = Some (set_ci_SettlingAt 0 (with_voucher ci sv balance)) ∧
    (∀ j, j ≠ k → chans w' j = chans w j) ∧
    apply_vouchers (ci_Vouchers (with_voucher ci sv balance)) chain
      = Ok (<[sv_Lane sv := lane_of sv]> lanes) ∧
    total_redeemed (<[sv_Lane sv := lane_of sv]> lanes) <= balance ∧
    (∀ ls, lanes !! sv_Lane sv = Some ls → Nonce ls < sv_Nonce sv ∧ Redeemed ls < sv_Amount sv) ∧
    delta = sv_Amount sv - from_option Redeemed 0 (lanes !! sv_Lane sv).

Lemma addVoucher_ok chAddr sv minDelta (w w' : W) delta :
  wf w → addVoucherUnlocked st env chAddr sv minDelta w = (w', Ok delta) →
  wf w' ∧
  ((∃ k ci v, chans w k = Some ci ∧ ci_Channel ci = Some chAddr ∧ v ∈ ci_Vouchers ci ∧
      vi_Voucher v = Some sv ∧ delta = 0 ∧ quiet w w') ∨
   (signed_voucher sv ∧ sv_ChannelAddr sv = chAddr ∧ minDelta <= delta ∧
    ∃ lanes balance, voucher_added chAddr sv delta w w' lanes balance)).
Proof.
  intros Hwf. unfold addVoucherUnlocked. intros (w1 & r & Hby & H)%go_bind_ok.
  apply go_try_ok in Hby. destruct r as [e|ci]; [done|].
  apply by_address_ok in Hby as (Hq1 & Hch & k & Hk).
  apply go_bind_ok in H as (w2 & dup & Hdup & H). apply go_lift_ok in Hdup as [-> Hdup].
  destruct dup.
  { apply go_ret_ok in H as [-> ->]. split; [by eapply quiet_wf|]. left.
    apply already_added_true in Hdup as (v & ? & ?). exists k, ci, v. by split_and!. }
  apply go_bind_ok in H as (w2 & [lanes balance] & Hck & H).
  assert (wf w1) as Hwf1 by (by eapply quiet_wf).
  assert (chans w1 k = Some ci) as Hk1 by (by destruct Hq1 as (-> & _)).
  apply (check_ok _ _ _ _ _ _ k ci) in Hck
    as (Hq2 & Haddr & Hsig & Hm & (chain & Hrep & Happ) & Hlane & Htot); try done.
  destruct (Z.ltb_spec (sv_Amount sv - match lanes !! sv_Lane sv with
    | Some ls => Redeemed ls | None => 0 end) minDelta); [done|].
  apply go_bind_ok in H as (w3 & r & Hput & H). apply go_ret_ok in H as [-> ->].
  apply on_store_eq in Hput as [Hput _].
  assert (chans w2 k = Some ci) as Hk2 by (by destruct Hq2 as (-> & _)).
  assert (wf w2) as Hwf2 by (by eapply quiet_wf).
  destruct (with_voucher_fields ci sv balance) as (Hid & Hc & Hd & Hv & _ & Hn).
  apply (update_put st view emptyAddr _ _ k ci) in Hput as (Hwf3 & _ & Hst & Hoth); try done;
    [|destruct (wf_words _ _ _ Hwf2 _ _ Hk2); split; [by rewrite Hd|auto]].
  split; [done|]. right. split_and!; try done. exists lanes, balance.
  exists k, ci, chain. split_and!; try done.
  - intros j Hj. rewrite Hoth by done. destruct Hq2 as (-> & _). by destruct Hq1 as (-> & _).
  - rewrite Hv. apply apply_vouchers_snoc; [done|done|]. intros ls Hls. by apply Hlane.
Qed.

Context {FE : ForeignErrors st env}.

Lemma on_ext_foreign {A} (m : go X error A) : foreign m → foreign (on_ext (S:=S) m).
Proof.
  intros Hm w w' n. unfold on_ext. specialize (Hm (w_ext w)).
  destruct (m (w_ext w)) as [x o]. intros [= _ ->]. by apply (Hm x n).
Qed.

Lemma on_store_foreign {A} (m : go S error A) : foreign m → foreign (on_store (X:=X) m).
Proof.
  intros Hm w w' n. unfold on_store. specialize (Hm (w_store w)).
  destruct (m (w_store w)) as [x o]. intros [= _ ->]. by apply (Hm x n).
Qed.

(** The check reports a shortfall exactly when the balance does not cover the
    lanes with the voucher. *)
Lemma check_insufficient chAddr sv (w w' : W) n k ci :
  wf w → chans w k = Some ci → ci_Channel ci = Some chAddr →
  checkVoucherValidUnlocked st env chAddr sv w = (w', Err (ErrInsufficientFunds n)) →
  quiet w w' ∧ 0 < n ∧ ∃ chain lanes balance, chain_reports chAddr chain balance ∧
    apply_vouchers (ci_Vouchers ci) chain = Ok lanes ∧
    n = total_redeemed (<[sv_Lane sv := lane_of sv]> lanes) - balance.
Proof.
  intros Hwf Hk Hch H. pose proof (keeps_run _ _ _ _ _ (check_quiet chAddr sv) H) as Hq.
  split; [done|]. unfold checkVoucherValidUnlocked in H.
  destruct (String.eqb_spec (sv_ChannelAddr sv) chAddr) as [Ha|]; [|done].
  apply go_bind_err in H as [H|(w1 & act & Hact & H)];
    [by apply on_ext_foreign in H; [|apply foreign_actor]|].
  pose proof (keeps_run _ _ _ _ _ (on_ext_quiet _) Hact) as Hq1.
  apply on_ext_ok in Hact as [x1 Hact].
  apply go_bind_err in H as [H|(w2 & r & Hload & H)]; [by apply go_try_err in H|].
  apply go_try_ok in Hload. destruct r as [e|pch]; [done|].
  pose proof (keeps_run _ _ _ _ _ (loadActorState_quiet chAddr) Hload) as Hq2.
  apply go_bind_err in H as [H|(w3 & from & Hfrom & H)];
    [by apply on_ext_foreign in H; [|apply foreign_key]|].
  pose proof (keeps_run _ _ _ _ _ (on_ext_quiet _) Hfrom) as Hq3.
  apply go_bind_err in H as [H|(w4 & vb & Hvb & H)].
  { unfold go_sum in H. destruct (sv_SigningBytes env sv) eqn:E; [|done].
    injection H as _ ->. by apply foreign_bytes in E. }
  apply go_sum_ok in Hvb as [-> Hvb].
  destruct (sv_Signature sv) as [sig|]; [|done].
  destruct (wal_SigTypeSig env sig.1) as [e|] eqn:Hty.
  { injection H as _ ->. by apply foreign_sigtype in Hty. }
  destruct (wal_Verify env sig from vb) as [e|] eqn:Hver.
  { injection H as _ ->. by apply foreign_verify in Hver. }
  apply go_bind_err in H as [H|(w5 & r & Hls & H)]; [by apply go_try_err in H|].
  apply go_try_ok in Hls. destruct r as [e|lanes']; [done|].
  assert (quiet w w3) as Hq03 by (etrans; [exact Hq1|etrans; [exact Hq2|exact Hq3]]).
  apply (laneState_ok _ _ w3 _ lanes' k ci) in Hls;
    [|by eapply quiet_wf|by destruct Hq03 as (-> & _)|done].
  destruct Hls as (c & x & x' & l & Hl & Happ).
  destruct (match lanes' !! sv_Lane sv with Some ls => _ | None => _ end) eqn:Hbad.
  { exfalso. repeat case_match; simplify_eq. }
  assert (supersedes sv lanes') as Hsup.
  { intros ls Hls. rewrite Hls in Hbad.
    destruct (Z.leb_spec (sv_Nonce sv) (Nonce ls)); [done|lia]. }
  destruct (totalRedeemedWithVoucher lanes' sv) as [t| | |] eqn:Ht; try done.
  apply totalRedeemed_supersedes in Ht as [Hm ->]; [|done].
  destruct (Z.ltb_spec (act_Balance act)
              (total_redeemed (<[sv_Lane sv:=lane_of sv]> lanes'))); [|by rewrite Hm in H].
  injection H as _ <-. split; [lia|].
  exists (foldl (λ m '(idx, ls), <[idx:=ls]> m) ∅ l), lanes', (act_Balance act).
  split_and!; [|done|done].
  split; [by exists (w_ext w), x1, act|by exists c, x, x', l].
Qed.

Lemma addVoucher_insufficient chAddr sv minDelta (w w' : W) n :
  wf w → addVoucherUnlocked st env chAddr sv minDelta w = (w', Err (ErrInsufficientFunds n)) →
  quiet w w' ∧ 0 < n ∧ ∃ k ci chain lanes balance, chans w k = Some ci ∧
    ci_Channel ci = Some chAddr ∧ chain_reports chAddr chain balance ∧
    apply_vouchers (ci_Vouchers ci) chain = Ok lanes ∧
    n = total_redeemed (<[sv_Lane sv := lane_of sv]> lanes) - balance.
Proof.
  intros Hwf. unfold addVoucherUnlocked. intros [H|(w1 & r & Hby & H)]%go_bind_err;
    [by apply go_try_err in H|]. apply go_try_ok in Hby. destruct r as [e|ci]; [done|].
  apply by_address_ok in Hby as (Hq1 & Hch & k & Hk).
  apply go_bind_err in H as [H|(w2 & dup & Hdup & H)].
  { exfalso. unfold go_lift in H. injection H as _ H. clear -H. induction (ci_Vouchers ci) as [|v l IH];
      simpl in H; [done|]. destruct (Equals (Some sv) (vi_Voucher v)) as [|[]]; auto; done. }
  apply go_lift_ok in Hdup as [-> Hdup]. destruct dup; [done|].
  assert (wf w1) as Hwf1 by (by eapply quiet_wf).
  assert (chans w1 k = Some ci) as Hk1 by (by destruct Hq1 as (-> & _)).
  apply go_bind_err in H as [H|(w2 & [lanes balance] & Hck & H)].
  - apply (check_insufficient _ _ _ _ _ k ci) in H
      as (Hq2 & Hn & chain & lanes & balance & ? & ? & ?); try done.
    split_and!; [by etrans|done|]. by exists k, ci, chain, lanes, balance.
  - destruct (_ <? minDelta); [done|].
    apply go_bind_err in H as [H|(? & ? & ? & H)]; [|done].
    by apply on_store_foreign in H; [|apply foreign_put].
Qed.

(** The nonces stored for a channel are not at the end of the 64-bit range. *)
Definition nonces_ok (ci : ChannelInfo) : Prop :=
  ∀ vi v, vi ∈ ci_Vouchers ci → vi_Voucher vi = Some v → 0 <= sv_Nonce v < two64 - 1.

Lemma nextNonce_fresh ci lane n :
  nonces_ok ci → nextNonceForLane ci lane = Ok n →
  0 < n < two64 ∧
  ∀ vi v, vi ∈ ci_Vouchers ci → vi_Voucher vi = Some v → sv_Lane v = lane → sv_Nonce v < n.
Proof.
  intros Hok. unfold nextNonceForLane.
  destruct (max_nonce lane (ci_Vouchers ci) 0) as [m| | |] eqn:E; simpl; try done.
  intros [= <-]. apply max_nonce_spec in E as (H0 & Hmax & Hr).
  assert (0 <= m < two64 - 1) as Hm.
  { destruct Hr as [->|(vi & v & Hin & Hv & _ & ->)]; [unfold two64; lia|by eapply Hok]. }
  rewrite u64_small by (unfold is_u64; lia). split; [lia|].
  intros vi v Hin Hv Hl. specialize (Hmax _ _ Hin Hv Hl). lia.
Qed.

Lemma createVoucher_ok chAddr voucher (w w' : W) res :
  wf w → (∀ k ci, chans w k = Some ci → ci_Channel ci = Some chAddr → nonces_ok ci) →
  createVoucher st env chAddr voucher w = (w', Ok res) →
  (∃ sv lanes balance delta, res = MkVoucherCreateResult (Some sv) 0 ∧ wf w' ∧
     sv_ChannelAddr sv = chAddr ∧ sv_Amount sv = sv_Amount voucher ∧
     sv_Lane sv = sv_Lane voucher ∧
     (∀ k ci vi v, chans w k = Some ci → ci_Channel ci = Some chAddr → vi ∈ ci_Vouchers ci →
        vi_Voucher vi = Some v → sv_Lane v = sv_Lane sv → sv_Nonce v < sv_Nonce sv) ∧
     signed_voucher sv ∧ voucher_added chAddr sv delta w w' lanes balance) ∨
  (∃ n k ci chain lanes balance nonce, res = MkVoucherCreateResult None n ∧ 0 < n ∧ quiet w w' ∧
     chans w k = Some ci ∧ ci_Channel ci = Some chAddr ∧ chain_reports chAddr chain balance ∧
     apply_vouchers (ci_Vouchers ci) chain = Ok lanes ∧
     n = total_redeemed (<[sv_Lane voucher := MkLaneState (sv_Amount voucher) nonce]> lanes)
         - balance).
Proof.
  intros Hwf Hnon. unfold createVoucher. intros (w1 & r & Hby & H)%go_bind_ok.
  apply go_try_ok in Hby. destruct r as [e|ci]; [done|].
  apply by_address_ok in Hby as (Hq1 & Hch & k & Hk).
  apply go_bind_ok in H as (w2 & nonce & Hn & H). apply go_lift_ok in Hn as [-> Hn].
  destruct (sv_SigningBytes env _) as [e|vb]; [done|].
  apply go_bind_ok in H as (w2 & r & Hs & H). apply go_try_ok in Hs. destruct r as [e|sig]; [done|].
  pose proof (keeps_run _ _ _ _ _ (on_ext_quiet _) Hs) as Hq2.
  assert (quiet w w2) as Hq by (by etrans). clear Hq1 Hq2 Hs.
  assert (wf w2) as Hwf2 by (by eapply quiet_wf).
  set (sv := MkVoucher chAddr (sv_Lane voucher) nonce _ _ (Some sig) _) in H.
  apply (nextNonce_fresh _ _ _ (Hnon _ _ Hk Hch)) in Hn as [_ Hfresh].
  assert (∀ k' ci', chans w2 k' = Some ci' → chans w k' = Some ci') as Hback
    by (intros k' ci'; by destruct Hq as (-> & _)).
  apply go_bind_ok in H as (w3 & r & Hadd & H). apply go_try_ok in Hadd.
  destruct r as [e|delta].
  - destruct e; try done. apply go_ret_ok in H as [-> ->]. right.
    apply addVoucher_insufficient in Hadd
      as (Hq3 & Hpos & k' & ci' & chain & lanes & balance & Hk' & Hch' & Hrep & Happ & Hsf); [|done].
    exists shortfall, k', ci', chain, lanes, balance, nonce.
    split_and!; try done; [by etrans|by apply Hback].
  - apply go_ret_ok in H as [-> ->]. left.
    apply addVoucher_ok in Hadd as [Hwf3 [Hdup|(Hsig & Haddr & _ & lanes & balance & Hva)]]; [| |done].
    + exfalso. destruct Hdup as (k' & ci' & v & Hk' & Hch' & Hin & Hv & _). apply Hback in Hk'.
      destruct (wf_unique view emptyAddr _ _ _ _ _ _ Hwf Hk Hk' Hch Hch') as [_ <-].
      specialize (Hfresh _ _ Hin Hv eq_refl). simpl in Hfresh. lia.
    + exists sv, lanes, balance, delta. split_and!; try done.
      * intros k' ci' vi v Hk' Hch' Hin Hv Hl.
        destruct (wf_unique view emptyAddr _ _ _ _ _ _ Hwf Hk Hk' Hch Hch') as [_ <-].
        by apply (Hfresh vi).
      * destruct Hva as (k' & ci' & chain & Hk' & ? & ? & ? & ? & Hoth & ?).
        exists k', ci', chain. split; [by apply Hback|]. do 4 (split; [done|]). split; [|done].
        intros j Hj. rewrite Hoth by done. by destruct Hq as (-> & _).
Qed.

End proofs.

(** ** The queue *)

Section queue.
Context {EQ : CborEquals} {S X : Type} (st : Store S) (env : Env X).
Local Abbreviation W := (world S X).

(** Queues, replies and request numbers are unchanged. *)
Definition calm (w w' : W) : Prop :=
  w_channels w' = w_channels w ∧ w_replies w' = w_replies w ∧ w_nextReq w' = w_nextReq w.

#[local] Instance calm_preorder : PreOrder calm.
Proof.
  split; [by intros w|]. intros w1 w2 w3 (? & ? & ?) (? & ? & ?). split_and!; congruence.
Qed.

Lemma on_ext_calm {A} (m : go X error A) : keeps calm (on_ext (S:=S) m).
Proof. intros w. unfold on_ext. by destruct (m (w_ext w)). Qed.
Lemma on_store_calm {A} (m : go S error A) : keeps calm (on_store (X:=X) m).
Proof. intros w. unfold on_store. by destruct (m (w_store w)). Qed.
Lemma spawn_calm t : keeps calm (spawn (S:=S) (X:=X) t).
Proof. by intros w. Qed.

Hint Resolve on_ext_calm on_store_calm spawn_calm calm_preorder : pop.

Lemma mutate_calm id f : keeps calm (mutateChannelInfo (X:=X) st id f).
Proof. unfold mutateChannelInfo. keeps_tac. Qed.
Hint Resolve mutate_calm : pop.

Lemma processTask_calm key c amt : keeps calm (processTask st env key c amt).
Proof. unfold processTask, create, addFunds. keeps_tac. Qed.

Lemma funds_calm id amt : keeps calm (currentAvailableFunds st env id amt).
Proof. unfold currentAvailableFunds, loadActorState, laneState, ForEachLaneState. keeps_tac. Qed.

Lemma wait_calm id c :
  keeps calm (waitPaychCreateMsg st env id c) ∧ keeps calm (waitAddFundsMsg st env id c).
Proof. split; [unfold waitPaychCreateMsg|unfold waitAddFundsMsg]; keeps_tac. Qed.

Lemma put_queue_run key q (w : W) c :
  w_channels w !! key = Some c →
  put_queue key q w
  = (set_w_channels (<[key := set_ch_queue q c]> (w_channels w)) w, Ok tt).
Proof. intros Hc. unfold put_queue, get_accessor, go_bind. by rewrite Hc. Qed.

Lemma merged_sum_active q :
  Forall (λ r, fr_active r = true) q → merged_sum q = sumZ fr_amt q.
Proof.
  intros Hq. unfold merged_sum. enough (∀ a, foldl (λ sum r, if fr_active r then sum + fr_amt r else sum)
    a q = a + sumZ fr_amt q) as H by (rewrite H; lia).
  induction Hq as [|r q Hr _ IH]; intros a; simpl; [lia|]. rewrite Hr, IH. lia.
Qed.

Lemma merged_onComplete_active q res :
  Forall (λ r, fr_active r = true) q → merged_onComplete q res = map (λ r, (fr_id r, res)) q.
Proof. induction 1 as [|r q Hr _ IH]; simpl; [done|]. by rewrite Hr, IH. Qed.

Lemma filterQueue_active q : Forall (λ r, fr_active r = true) (filterQueue q).
Proof. apply Forall_forall. intros r [? _]%list_elem_of_filter. done. Qed.

(** The ways a run of the queue ends: the active requests stay queued, or one
    task was run for their total and all of them get its result. *)
Definition queue_run (key : string) (c : channel) (w w' : W) : Prop :=
  let q := filterQueue (ch_fundsReqQueue c) in
  w_nextReq w' = w_nextReq w ∧
  ((w_channels w' = <[key := set_ch_queue q c]> (w_channels w) ∧ w_replies w' = w_replies w) ∨
   (q ≠ [] ∧ w_channels w' = <[key := set_ch_queue [] c]> (w_channels w) ∧
    ∃ w1 w2 res, processTask st env key c (sumZ fr_amt q) w1 = (w2, Ok (Some res)) ∧
      w_replies w' = w_replies w ++ map (λ r, (fr_id r, res)) q)).

Lemma processQueue_run key id c (w w' : W) r :
  w_channels w !! key = Some c → processQueue st env key id w = (w', r) →
  (∃ a, r = Ok a) ∨ (∃ e, r = Err e) → queue_run key c w w'.
Proof.
  intros Hc. unfold processQueue, queue_run. unfold go_bind at 1, get_accessor at 1.
  rewrite Hc. pose proof (filterQueue_active (ch_fundsReqQueue c)) as Hact.
  remember (filterQueue (ch_fundsReqQueue c)) as q eqn:Hq.
  unfold go_bind at 1. rewrite (put_queue_run _ _ _ c) by done.
  set (w1 := set_w_channels _ w).
  assert (∀ amt, currentAvailableFunds st env id amt w1 = (w', r) →
            w_nextReq w' = w_nextReq w ∧ w_channels w' = <[key := set_ch_queue q c]> (w_channels w) ∧
            w_replies w' = w_replies w) as Hstay.
  { intros amt H. apply (keeps_run _ _ _ _ _ (funds_calm id amt)) in H as (-> & -> & ->). done. }
  destruct q as [|q0 q']; [intros H%Hstay _; intuition|].
  rewrite (merged_sum_active (q0 :: q')) by done. set (q := q0 :: q') in *.
  destruct (sumZ fr_amt q =? 0); [intros H%Hstay _; intuition|].
  unfold go_bind at 1.
  destruct (processTask st env key c (sumZ fr_amt q) w1) as [w2 o] eqn:Htask.
  pose proof (keeps_run _ _ _ _ _ (processTask_calm _ _ _) Htask) as (Hc2 & Hr2 & Hn2).
  destruct o as [[res|]|e| |].
  - unfold go_bind at 1. rewrite (put_queue_run _ _ _ (set_ch_queue q c))
      by (rewrite Hc2; simpl; apply lookup_insert_eq).
    unfold go_bind, go_modify. intros H _.
    apply (keeps_run _ _ _ _ _ (funds_calm id 0)) in H as (Hc3 & Hr3 & Hn3).
    rewrite merged_onComplete_active in Hr3 by done. simpl in Hc3, Hr3, Hn3.
    rewrite Hc2 in Hc3. simpl in Hc3. rewrite insert_insert_eq in Hc3.
    split; [by rewrite Hn3, Hn2|]. right. split; [done|]. split; [by rewrite Hc3|].
    exists w1, w2, res. split; [done|]. by rewrite Hr3, Hr2.
  - intros H _. apply (keeps_run _ _ _ _ _ (funds_calm id _)) in H as (Hc3 & Hr3 & Hn3).
    split; [by rewrite Hn3, Hn2|]. left. by rewrite Hc3, Hr3, Hc2, Hr2.
  - intros [= <- <-] _. split; [by rewrite Hn2|]. left. by rewrite Hc2, Hr2.
  - intros [= <- <-] [[? [=]]|[? [=]]].
  - intros [= <- <-] [[? [=]]|[? [=]]].
Qed.

(** ** Requests are answered at most once *)

(** One step of the payment system, as seen by the requests: a request is queued
    or cancelled, a queue is processed, a goroutine runs, an accessor is created,
    or an operation runs that leaves the queues alone. *)
Inductive pay_step : W → W → Prop :=
| step_enqueue key amt w w' id : enqueue key amt w = (w', Ok id) → pay_step w w'
| step_cancel key id w w' : cancel_req key id w = (w', Ok tt) → pay_step w w'
| step_process key id w w' r :
    processQueue st env key id w = (w', r) → (∃ a, r = Ok a) ∨ (∃ e, r = Err e) → pay_step w w'
| step_task t l1 l2 w w' :
    w_tasks w = l1 ++ t :: l2 → run_task st env t (set_w_tasks (l1 ++ l2) w) = (w', Ok tt) →
    pay_step w w'
| step_accessor key f t w :
    w_channels w !! key = None →
    pay_step w (set_w_channels (<[key := MkChannel f t []]> (w_channels w)) w)
| step_calm w w' : calm w w' → pay_step w w'.

Definition ids (q : list fundsReq) : list nat := fr_id <$> q.

Record reqs_ok (w : W) : Prop := {
  replies_once : NoDup (w_replies w).*1;
  replies_lt : ∀ id, id ∈ (w_replies w).*1 → (id < w_nextReq w)%nat;
  queue_once : ∀ key c, w_channels w !! key = Some c → NoDup (ids (ch_fundsReqQueue c));
  queue_fresh : ∀ key c id, w_channels w !! key = Some c → id ∈ ids (ch_fundsReqQueue c) →
    (id < w_nextReq w)%nat ∧ id ∉ (w_replies w).*1;
  queues_disjoint : ∀ k1 k2 c1 c2 id, k1 ≠ k2 → w_channels w !! k1 = Some c1 →
    w_channels w !! k2 = Some c2 → id ∈ ids (ch_fundsReqQueue c1) →
    id ∉ ids (ch_fundsReqQueue c2)
}.

Lemma reqs_calm w w' : calm w w' → reqs_ok w → reqs_ok w'.
Proof. intros (Hc & Hr & Hn) [? ? ? ? ?]. by split; rewrite ?Hc, ?Hr, ?Hn. Qed.

(** Part of a queue stays and part of it is answered. *)
Lemma reqs_update key c q rs (w w' : W) :
  reqs_ok w → w_channels w !! key = Some c →
  w_channels w' = <[key := set_ch_queue q c]> (w_channels w) →
  w_replies w' = w_replies w ++ rs → w_nextReq w' = w_nextReq w →
  NoDup (ids q ++ rs.*1) → (∀ id, id ∈ ids q ++ rs.*1 → id ∈ ids (ch_fundsReqQueue c)) →
  reqs_ok w'.
Proof.
  intros [H1 H2 H3 H4 H5] Hc Hch Hr Hn Hnd Hsub. apply NoDup_app in Hnd as (Hq & Hqr & Hrs).
  assert (∀ id, id ∈ ids q → id ∈ ids (ch_fundsReqQueue c)) as Hsq by set_solver.
  assert (∀ id, id ∈ rs.*1 → id ∈ ids (ch_fundsReqQueue c)) as Hsr by set_solver.
  split; rewrite ?Hr, ?Hn, ?Hch, ?fmap_app.
  - apply NoDup_app. split_and!; [done| |done]. intros id Hid Hid'.
    by apply (H4 key c id) in Hc as [_ ?]; [|apply Hsr].
  - intros id [Hid|Hid]%elem_of_app; [by apply H2|]. by apply (H4 key c id Hc), Hsr.
  - intros key' c' Hk. destruct (decide (key' = key)) as [->|Hne].
    + rewrite lookup_insert_eq in Hk. by injection Hk as <-.
    + rewrite lookup_insert_ne in Hk by done. by eapply H3.
  - intros key' c' id Hk Hid. destruct (decide (key' = key)) as [->|Hne].
    + rewrite lookup_insert_eq in Hk. injection Hk as <-. simpl in Hid.
      destruct (H4 key c id Hc) as [? ?]; [by apply Hsq|]. split; [done|].
      rewrite elem_of_app. intros [?|?]; [done|]. by apply (Hqr id).
    + rewrite lookup_insert_ne in Hk by done. destruct (H4 key' c' id Hk Hid) as [? ?].
      split; [done|]. rewrite elem_of_app. intros [?|?%Hsr]; [done|].
      by apply (H5 key' key c' c id).
  - intros k1 k2 c1 c2 id Hne Hk1 Hk2 Hid Hid2.
    destruct (decide (k1 = key)) as [->|Hn1]; destruct (decide (k2 = key)) as [->|Hn2]; try done.
    + rewrite lookup_insert_eq in Hk1. injection Hk1 as <-.
      rewrite lookup_insert_ne in Hk2 by done. apply (H5 key k2 c c2 id); try done. by apply Hsq.
    + rewrite lookup_insert_eq in Hk2. injection Hk2 as <-.
      rewrite lookup_insert_ne in Hk1 by done. apply (H5 k1 key c1 c id); try done. by apply Hsq.
    + rewrite lookup_insert_ne in Hk1, Hk2 by done. by apply (H5 k1 k2 c1 c2 id).
Qed.

Lemma ids_filter q id : id ∈ ids (filterQueue q) → id ∈ ids q.
Proof.
  intros (r & -> & [_ Hr]%list_elem_of_filter)%list_elem_of_fmap. apply list_elem_of_fmap. eauto.
Qed.

Lemma ids_filter_NoDup q : NoDup (ids q) → NoDup (ids (filterQueue q)).
Proof.
  intros Hq. eapply sublist_NoDup; [exact Hq|]. apply fmap_sublist, sublist_filter.
Qed.

Lemma process_reqs key c (w w' : W) :
  reqs_ok w → w_channels w !! key = Some c → queue_run key c w w' → reqs_ok w'.
Proof.
  intros Hok Hc [Hn [[Hch Hr]|(_ & Hch & _ & _ & res & _ & Hr)]].
  - apply (reqs_update key c (filterQueue (ch_fundsReqQueue c)) [] w w'); try done.
    + by rewrite app_nil_r.
    + rewrite app_nil_r. by apply ids_filter_NoDup, (queue_once _ Hok key).
    + intros id. rewrite app_nil_r. apply ids_filter.
  - eapply (reqs_update key c []); try done.
    + simpl. rewrite <- list_fmap_compose. by apply ids_filter_NoDup, (queue_once _ Hok key).
    + simpl. intros id. rewrite <- list_fmap_compose. apply ids_filter.
Qed.

Lemma enqueue_reqs key amt (w w' : W) id :
  reqs_ok w → enqueue key amt w = (w', Ok id) → reqs_ok w'.
Proof.
  intros [H1 H2 H3 H4 H5]. unfold enqueue. unfold go_bind at 1, get_accessor at 1.
  destruct (w_channels w !! key) as [c|] eqn:Hc; [|done].
  unfold go_bind at 1, go_get. unfold go_bind at 1. rewrite (put_queue_run _ _ _ c) by done.
  unfold go_bind, go_modify, spawn, go_ret. intros [= <- <-].
  set (q := ch_fundsReqQueue c ++ _).
  assert (ids q = ids (ch_fundsReqQueue c) ++ [w_nextReq w]) as Hq
    by (unfold ids, q; by rewrite fmap_app).
  split; simpl.
  - done.
  - intros id Hid%H2. lia.
  - intros key' c' Hk. destruct (decide (key' = key)) as [->|Hne].
    + rewrite lookup_insert_eq in Hk. injection Hk as <-. cbn [ch_fundsReqQueue set_ch_queue].
      rewrite Hq. apply NoDup_app. split_and!; [by eapply H3| |apply NoDup_singleton].
      intros id Hid Hid'%list_elem_of_singleton. subst id. apply (H4 key c) in Hid as [? _]; [lia|done].
    + rewrite lookup_insert_ne in Hk by done. by eapply H3.
  - intros key' c' id Hk Hid. destruct (decide (key' = key)) as [->|Hne].
    + rewrite lookup_insert_eq in Hk. injection Hk as <-. cbn [ch_fundsReqQueue set_ch_queue] in Hid.
      rewrite Hq in Hid. apply elem_of_app in Hid as [Hid|Hid%list_elem_of_singleton].
      * apply (H4 key c) in Hid as [? ?]; [|done]. split; [lia|done].
      * subst id. split; [lia|]. intros ?%H2. lia.
    + rewrite lookup_insert_ne in Hk by done. destruct (H4 key' c' id Hk Hid). split; [lia|done].
  - assert (∀ k c' id, w_channels w !! k = Some c' → id ∈ ids (ch_fundsReqQueue c') →
              id ≠ w_nextReq w) as Hnew by (intros k c' id Hk Hid ->; destruct (H4 k c' _ Hk Hid); lia).
    intros k1 k2 c1 c2 id Hne Hk1 Hk2 Hid Hid2.
    destruct (decide (k1 = key)) as [->|Hn1]; destruct (decide (k2 = key)) as [->|Hn2]; try done.
    + rewrite lookup_insert_eq in Hk1. injection Hk1 as <-. cbn [ch_fundsReqQueue set_ch_queue] in Hid.
      rewrite lookup_insert_ne in Hk2 by done. rewrite Hq in Hid.
      apply elem_of_app in Hid as [Hid|Hid%list_elem_of_singleton]; [by apply (H5 key k2 c c2 id)|].
      by apply (Hnew k2 c2 id).
    + rewrite lookup_insert_eq in Hk2. injection Hk2 as <-. cbn [ch_fundsReqQueue set_ch_queue] in Hid2.
      rewrite lookup_insert_ne in Hk1 by done. rewrite Hq in Hid2.
      apply elem_of_app in Hid2 as [Hid2|Hid2%list_elem_of_singleton]; [by apply (H5 k1 key c1 c id)|].
      by apply (Hnew k1 c1 id).
    + rewrite lookup_insert_ne in Hk1, Hk2 by done. by apply (H5 k1 k2 c1 c2 id).
Qed.

Lemma cancel_reqs key id (w w' : W) :
  reqs_ok w → cancel_req key id w = (w', Ok tt) → reqs_ok w'.
Proof.
  intros Hok. unfold cancel_req. unfold go_bind at 1, get_accessor at 1.
  destruct (w_channels w !! key) as [c|] eqn:Hc; [|done]. rewrite (put_queue_run _ _ _ c) by done.
  intros [= <-]. set (q := map _ _).
  assert (ids q = ids (ch_fundsReqQueue c)) as Hq.
  { unfold ids, q. induction (ch_fundsReqQueue c) as [|r l IH]; simpl; [done|].
    f_equal; [by case_bool_decide|exact IH]. }
  apply (reqs_update key c q [] w); try done; rewrite ?app_nil_r; try done; rewrite Hq; try done.
  by apply (queue_once _ Hok key).
Qed.

Lemma msgWaitComplete_calm key mcid err : keeps calm (msgWaitComplete (X:=X) st key mcid err).
Proof.
  unfold msgWaitComplete. keeps_tac; intros w; try done. unfold get_accessor. by case_match.
Qed.

Lemma step_reqs w w' : reqs_ok w → pay_step w w' → reqs_ok w'.
Proof.
  intros Hok. destruct 1 as [key amt w w' id H|key id w w' H|key id w w' r H Hr|t l1 l2 w w' Ht H
                            |key f t w Hc|w w' H].
  - by eapply enqueue_reqs.
  - by eapply cancel_reqs.
  - destruct (w_channels w !! key) as [c|] eqn:Hc.
    + eapply process_reqs; [done|done|]. by eapply processQueue_run.
    + unfold processQueue, go_bind at 1, get_accessor in H. rewrite Hc in H.
      injection H as <- <-. destruct Hr as [[? [=]]|[? [=]]].
  - assert (reqs_ok (set_w_tasks (l1 ++ l2) w)) as Hok1 by (by apply (reqs_calm w)).
    revert H. generalize dependent (set_w_tasks (l1 ++ l2) w). clear Ht Hok. intros w1 Hok.
    destruct t as [key|key id mcid|key id mcid|key mcid err]; simpl;
      [intros (w2 & r & Hrun & Hend)%go_bind_ok..|].
    + apply go_ret_ok in Hend as [-> _]. apply go_try_ok in Hrun.
      assert (∃ o, processQueue st env key EmptyString w1 = (w2, o) ∧
                   ((∃ a, o = Ok a) ∨ (∃ e, o = Err e))) as (o & Hrun' & Ho).
      { destruct r as [e|a]; eexists; (split; [exact Hrun|]); eauto. }
      clear Hrun. destruct (w_channels w1 !! key) as [c|] eqn:Hc.
      * eapply process_reqs; [done|done|]. by eapply processQueue_run.
      * unfold processQueue, go_bind at 1, get_accessor in Hrun'. rewrite Hc in Hrun'.
        injection Hrun' as <- <-. destruct Ho as [[? [=]]|[? [=]]].
    + apply (keeps_run calm) in Hrun; [|apply keeps_try, wait_calm].
      apply (keeps_run calm) in Hend; [|by intros ?].
      apply (reqs_calm w1); [by etrans|done].
    + apply (keeps_run calm) in Hrun; [|apply keeps_try, wait_calm].
      apply (keeps_run calm) in Hend; [|by intros ?].
      apply (reqs_calm w1); [by etrans|done].
    + intros Hrun. apply (keeps_run calm) in Hrun; [by apply (reqs_calm w1)|apply msgWaitComplete_calm].
  - destruct Hok as [H1 H2 H3 H4 H5]. split; simpl; try done.
    + intros k c Hk. destruct (decide (k = key)) as [->|?];
        [rewrite lookup_insert_eq in Hk; injection Hk as <-; constructor|].
      rewrite lookup_insert_ne in Hk by done. by eapply H3.
    + intros k c id Hk Hid. destruct (decide (k = key)) as [->|?];
        [rewrite lookup_insert_eq in Hk; injection Hk as <-; by apply elem_of_nil in Hid|].
      rewrite lookup_insert_ne in Hk by done. by eapply H4.
    + intros k1 k2 c1 c2 id Hne Hk1 Hk2 Hid Hid2.
      destruct (decide (k1 = key)) as [->|?];
        [rewrite lookup_insert_eq in Hk1; injection Hk1 as <-; by apply elem_of_nil in Hid|].
      destruct (decide (k2 = key)) as [->|?];
        [rewrite lookup_insert_eq in Hk2; injection Hk2 as <-; by apply elem_of_nil in Hid2|].
      rewrite lookup_insert_ne in Hk1, Hk2 by done. by apply (H5 k1 k2 c1 c2 id).
  - by apply (reqs_calm w).
Qed.

End queue.

(** ** Pending funds *)

Section ledger.
Context {EQ : CborEquals} {S X : Type} (st : Store S) (env : Env X).
Context (view : S → dskey → option ChannelInfo) (emptyAddr : address).
Context {L : StoreLaws st view emptyAddr}.
Local Abbreviation W := (world S X).

(** Either nothing changed or the record of the channel was replaced. *)
Definition mutated (id : string) (ci' : ChannelInfo) (w w' : W) (r : outcome error unit) : Prop :=
  same view (w_store w) (w_store w') ∨
  (r = Ok tt ∧ view (w_store w') (dskeyForChannel id) = Some (stored emptyAddr ci') ∧
   ∀ j, j ≠ dskeyForChannel id → view (w_store w') j = view (w_store w) j).

Lemma mutate_mutated id f ci (w w' : W) r :
  store_wf view emptyAddr (w_store w) → view (w_store w) (dskeyForChannel id) = Some ci →
  ci_ChannelID (f ci) = ci_ChannelID ci → ci_words (f ci) →
  mutateChannelInfo st id f w = (w', r) → mutated id (f ci) w w' r.
Proof.
  intros Hwf Hci Hid Hw. unfold mutateChannelInfo, go_bind, go_try, go_ret.
  destruct (on_store (st_ByChannelID st id) w) as [w1 o] eqn:E. apply on_store_eq in E as [E _].
  apply by_id_law in E as [Hs Hr].
  destruct o as [ci0|e| |]; try (intros [= <- <-]; by left).
  specialize (Hr _ eq_refl). assert (ci0 = ci) as -> by congruence.
  destruct (on_store (st_putChannelInfo st (f ci)) w1) as [w2 o] eqn:E.
  apply on_store_eq in E as [E _]. apply put_law in E.
  destruct (wf_id _ _ _ Hwf _ _ Hci) as [Hk Hne].
  assert (id = ci_ChannelID ci) as -> by (unfold dskeyForChannel in Hk; congruence).
  destruct o as [ci1|e| |]; intros [= <- <-]; try (left; by etrans).
  destruct E as (id & -> & Hid' & Hst & Hoth). rewrite Hid in Hid'. specialize (Hid' Hne). subst id.
  right. split; [done|]. split; [|intros j Hj; rewrite Hoth by done; apply Hs]. rewrite Hst by done.
  f_equal. f_equal. unfold set_ci_ChannelID. destruct (f ci); simpl in *. congruence.
Qed.

Lemma stored_fields ci :
  ci_Amount (stored emptyAddr ci) = ci_Amount ci ∧
  ci_PendingAmount (stored emptyAddr ci) = ci_PendingAmount ci ∧
  ci_CreateMsg (stored emptyAddr ci) = ci_CreateMsg ci ∧
  ci_AddFundsMsg (stored emptyAddr ci) = ci_AddFundsMsg ci.
Proof.
  unfold stored. destruct (ci_Channel ci) as [a|]; [destruct (String.eqb a emptyAddr)|]; done.
Qed.

(** The record of a channel after a pending amount was dropped or confirmed. *)
Definition funds_settled (id : string) (ci : ChannelInfo) (confirmed : Z) (w w' : W) : Prop :=
  ∃ ci', view (w_store w') (dskeyForChannel id) = Some ci' ∧
    (ci' = ci ∨ (ci_PendingAmount ci' = 0 ∧ ci_AddFundsMsg ci' = None ∧ ci_Amount ci' = confirmed)) ∧
    (∀ j, j ≠ dskeyForChannel id → view (w_store w') j = view (w_store w) j).

Lemma settled_mutated id ci ci' (w w' : W) r :
  view (w_store w) (dskeyForChannel id) = Some ci → mutated id ci' w w' r →
  ci_PendingAmount ci' = 0 → ci_AddFundsMsg ci' = None →
  funds_settled id ci (ci_Amount ci') w w'.
Proof.
  intros Hci Hm Hp Ha. destruct (stored_fields ci') as (E1 & E2 & _ & E4).
  destruct Hm as [Hs|(_ & Hst & Hoth)].
  - exists ci. split_and!; [by rewrite Hs|by left|]. intros j _. by rewrite Hs.
  - exists (stored emptyAddr ci'). split_and!; [done| |done]. right. rewrite E1, E2, E4. done.
Qed.

(** No second message is sent while one is pending. *)
Lemma processTask_pending key c amt (w w' : W) r :
  (∀ s' ci, st_OutboundActiveByFromTo st (ch_from c) (ch_to c) (w_store w) = (s', Ok ci) →
     is_Some (ci_CreateMsg ci) ∨ is_Some (ci_AddFundsMsg ci)) →
  (∃ s' ci, st_OutboundActiveByFromTo st (ch_from c) (ch_to c) (w_store w) = (s', Ok ci)) →
  processTask st env key c amt w = (w', r) → r = Ok None ∧ w_ext w' = w_ext w.
Proof.
  intros Hpend (s' & ci & Hst). unfold processTask, go_bind, go_try, on_store. rewrite Hst.
  specialize (Hpend _ _ Hst).
  destruct (ci_CreateMsg ci), (ci_AddFundsMsg ci); try (intros [= <- <-]; done).
  by destruct Hpend as [[? [=]]|[? [=]]].
Qed.

End ledger.

(** ** A chain for the witnesses

    A channel actor with the given balance and lanes; every message is accepted,
    signatures verify, and every wait succeeds with exit code [code]. *)
Definition sample_env (balance : Z) (lanes : list (Z * LaneState)) (code : Z) : Env unit :=
  MkEnv go_ret (λ _, go_ret (MkActor 7 balance)) (λ _, go_ret "pushed")
    (λ _, go_ret (MkMsgLookup code "robust")) (λ _, go_ret "state") (λ _, go_ret "lanes")
    go_ret (λ _, go_ret 0) (go_ret 10) (λ _ _, go_ret tt) (λ _, go_ret lanes)
    (λ _ _, go_ret (1, "sig")) (λ _, None) (λ _ _ _, None) (λ _, inr "bytes")
    (λ _, inr (MkActorState "a" "b" 0 0 "lanecid")) (λ _ _, None) (λ _, inr "msg")
    (λ _, inr "smsg") (λ b, inr ("cid:" +:+ b)) (λ c, c) (λ _ _, inr "create")
    (λ _ _, inr "update") (λ r, inr r).

Definition sample_world : world (sstate (gmap dskey bytes)) unit :=
  MkWorld sample_store tt {["a->b" := MkChannel "a" "b" []]} [] [] [] 0.

#[export] Instance sample_foreign balance lanes code :
  ForeignErrors map_store (sample_env balance lanes code).
Proof.
  split; simpl; try (intros; congruence); try (by intros ? ? ? ? [=]).
  intros ci s s' n. unfold putChannelInfo, go_bind, go_try, go_lift, on_ds, new_uuid, go_ret, go_err.
  repeat (case_match; simplify_eq/=); congruence.
Qed.

(** ** Properties *)

(** C3: a voucher is only added to a channel when the channel can pay for it.
    Either it was there already and nothing changes, or it is signed, its nonce
    and amount exceed those of its lane, it is stored with the channel, its value
    is the increase over the lane and at least the minimum asked for, and the
    lanes recomputed from the chain and all stored vouchers, the new one
    included, redeem no more than the balance of the channel. *)
Theorem addVoucher_solvent {EQ : CborEquals} {S X : Type} (st : Store S) (env : Env X)
    (view : S → dskey → option ChannelInfo) (emptyAddr : address)
    {L : StoreLaws st view emptyAddr} {C : StoreComplete st view}
    (chAddr : address) (sv : SignedVoucher) (minDelta : Z) (w w' : world S X) (delta : Z) :
  store_wf view emptyAddr (w_store w) →
  addVoucherUnlocked st env chAddr sv minDelta w = (w', Ok delta) →
  store_wf view emptyAddr (w_store w') ∧
  ((∃ k ci v, view (w_store w) k = Some ci ∧ ci_Channel ci = Some chAddr ∧ v ∈ ci_Vouchers ci ∧
      vi_Voucher v = Some sv ∧ delta = 0 ∧ quiet view w w') ∨
   (signed_voucher env sv ∧ sv_ChannelAddr sv = chAddr ∧ minDelta <= delta ∧
    ∃ lanes balance, voucher_added env view chAddr sv delta w w' lanes balance)).
Proof. by apply (addVoucher_ok st env view emptyAddr). Qed.

Lemma addVoucher_solvent_witness :
  let sv := MkVoucher "ch" 1 3 50 [] (Some (1, "sig")) EmptyString in
  let env := sample_env 100 [(1, MkLaneState 20 1); (2, MkLaneState 5 1)] 0 in
  let w' := (addVoucherUnlocked map_store env "ch" sv 0 sample_world).1 in
  store_wf (view (λ d, d) "empty") "empty" (w_store w') ∧
  ((∃ k ci v, view (λ d, d) "empty" (w_store sample_world) k = Some ci ∧
      ci_Channel ci = Some "ch" ∧ v ∈ ci_Vouchers ci ∧
      vi_Voucher v = Some sv ∧ 20 = 0 ∧ quiet (view (λ d, d) "empty") sample_world w') ∨
   (signed_voucher env sv ∧ sv_ChannelAddr sv = "ch" ∧ 0 <= 20 ∧
    ∃ lanes balance, voucher_added env (view (λ d, d) "empty") "ch" sv 20 sample_world w'
                       lanes balance)).
Proof.
  intros sv env w'.
  apply (addVoucher_solvent map_store env (view (λ d, d) "empty") "empty" "ch" sv 0).
  - exact sample_store_wf.
  - run_eq.
Defined.

(** The lane states used for accounting never lose a voucher: for every lane
    of the chain and every stored voucher, the resulting lane has a nonce at
    least as high. *)
Theorem apply_vouchers_highest (vs : list VoucherInfo) (m m' : gmap Z LaneState) :
  apply_vouchers vs m = Ok m' →
  (∀ l ls, m !! l = Some ls → ∃ ls', m' !! l = Some ls' ∧ Nonce ls <= Nonce ls') ∧
  (∀ vi v, vi ∈ vs → vi_Voucher vi = Some v →
     ∃ ls', m' !! sv_Lane v = Some ls' ∧ sv_Nonce v <= Nonce ls').
Proof. apply apply_vouchers_nonce. Qed.

Lemma apply_vouchers_highest_witness :
  let m : gmap Z LaneState := {[1 := MkLaneState 20 5]} in
  (∀ l ls, m !! l = Some ls →
     ∃ ls', (<[1 := MkLaneState 30 6]> m) !! l = Some ls' ∧ Nonce ls <= Nonce ls') ∧
  (∀ vi v, vi ∈ [MkVoucherInfo (Some (MkVoucher "ch" 1 6 30 [] None EmptyString)) EmptyString false] →
     vi_Voucher vi = Some v →
     ∃ ls', (<[1 := MkLaneState 30 6]> m) !! sv_Lane v = Some ls' ∧ sv_Nonce v <= Nonce ls').
Proof.
  intros m.
  apply (apply_vouchers_highest
    [MkVoucherInfo (Some (MkVoucher "ch" 1 6 30 [] None EmptyString)) EmptyString false] m
    (<[1 := MkLaneState 30 6]> m)). reflexivity.
Defined.

(** C6: creating a voucher either answers a signed voucher for the requested
    channel, lane and amount, whose nonce is above every nonce stored for that
    lane and which is stored as a solvent addition; or no voucher and the exact
    amount missing, which is positive, and the channel is unchanged. *)
Theorem createVoucher_spec {EQ : CborEquals} {S X : Type} (st : Store S) (env : Env X)
    (view : S → dskey → option ChannelInfo) (emptyAddr : address)
    {L : StoreLaws st view emptyAddr} {C : StoreComplete st view} {FE : ForeignErrors st env}
    (chAddr : address) (voucher : SignedVoucher) (w w' : world S X) (res : VoucherCreateResult) :
  store_wf view emptyAddr (w_store w) →
  (∀ k ci, view (w_store w) k = Some ci → ci_Channel ci = Some chAddr → nonces_ok ci) →
  createVoucher st env chAddr voucher w = (w', Ok res) →
  (∃ sv lanes balance delta, res = MkVoucherCreateResult (Some sv) 0 ∧
     store_wf view emptyAddr (w_store w') ∧
     sv_ChannelAddr sv = chAddr ∧ sv_Amount sv = sv_Amount voucher ∧
     sv_Lane sv = sv_Lane voucher ∧
     (∀ k ci vi v, view (w_store w) k = Some ci → ci_Channel ci = Some chAddr →
        vi ∈ ci_Vouchers ci → vi_Voucher vi = Some v → sv_Lane v = sv_Lane sv →
        sv_Nonce v < sv_Nonce sv) ∧
     signed_voucher env sv ∧ voucher_added env view chAddr sv delta w w' lanes balance) ∨
  (∃ n k ci chain lanes balance nonce, res = MkVoucherCreateResult None n ∧ 0 < n ∧
     quiet view w w' ∧
     view (w_store w) k = Some ci ∧ ci_Channel ci = Some chAddr ∧
     chain_reports env chAddr chain balance ∧
     apply_vouchers (ci_Vouchers ci) chain = Ok lanes ∧
     n = total_redeemed (<[sv_Lane voucher := MkLaneState (sv_Amount voucher) nonce]> lanes)
         - balance).
Proof. by apply createVoucher_ok. Qed.

(** The request of the witness: [amt] tokens on lane 1. *)
Definition sample_request (amt : Z) : SignedVoucher :=
  MkVoucher Undef 1 0 amt [] None EmptyString.

Lemma createVoucher_spec_witness :
  let env := sample_env 100 [] 0 in
  let w' := (createVoucher map_store env "ch" (sample_request 170) sample_world).1 in
  (∃ sv lanes balance delta, MkVoucherCreateResult None 70 = MkVoucherCreateResult (Some sv) 0 ∧
     store_wf (view (λ d, d) "empty") "empty" (w_store w') ∧
     sv_ChannelAddr sv = "ch" ∧ sv_Amount sv = 170 ∧ sv_Lane sv = 1 ∧
     (∀ k ci vi v, view (λ d, d) "empty" (w_store sample_world) k = Some ci →
        ci_Channel ci = Some "ch" → vi ∈ ci_Vouchers ci → vi_Voucher vi = Some v →
        sv_Lane v = sv_Lane sv → sv_Nonce v < sv_Nonce sv) ∧
     signed_voucher env sv ∧
     voucher_added env (view (λ d, d) "empty") "ch" sv delta sample_world w' lanes balance) ∨
  (∃ n k ci chain lanes balance nonce,
     MkVoucherCreateResult None 70 = MkVoucherCreateResult None n ∧ 0 < n ∧
     quiet (view (λ d, d) "empty") sample_world w' ∧
     view (λ d, d) "empty" (w_store sample_world) k = Some ci ∧ ci_Channel ci = Some "ch" ∧
     chain_reports env "ch" chain balance ∧
     apply_vouchers (ci_Vouchers ci) chain = Ok lanes ∧
     n = total_redeemed (<[1 := MkLaneState 170 nonce]> lanes) - balance).
Proof.
  intros env w'.
  apply (createVoucher_spec map_store env (view (λ d, d) "empty") "empty" "ch"
           (sample_request 170) sample_world).
  - exact sample_store_wf.
  - intros k ci [_ ->]%sample_store_view _ vi v Hin. simpl in Hin.
    apply list_elem_of_singleton in Hin as ->. intros [= <-]. vm_compute. intuition congruence.
  - run_eq.
Defined.

(** C18: processing the queue of a channel drops the cancelled requests and then
    either keeps the others queued, answering nobody, or runs one task for the
    sum of their amounts and gives its result to each of them, once, in order,
    leaving the queue empty. *)
Theorem processQueue_serves_all {EQ : CborEquals} {S X : Type} (st : Store S) (env : Env X)
    (key id : string) (c : channel) (w w' : world S X) (r : option AvailableFunds) :
  w_channels w !! key = Some c → processQueue st env key id w = (w', Ok r) →
  queue_run st env key c w w'.
Proof. intros Hc H. eapply processQueue_run; eauto. Qed.

(** Two requests wait for 3 and 4 tokens, between them a cancelled one. *)
Definition queued_world : world (sstate (gmap dskey bytes)) unit :=
  MkWorld (MkSstate ∅ 0) tt
    {["a->b" := MkChannel "a" "b" [MkFundsReq 0 3 true; MkFundsReq 1 9 false; MkFundsReq 2 4 true]]}
    [] [] [] 3.

Lemma processQueue_serves_all_witness :
  let env := sample_env 100 [] 0 in
  let c := MkChannel "a" "b" [MkFundsReq 0 3 true; MkFundsReq 1 9 false; MkFundsReq 2 4 true] in
  queue_run map_store env "a->b" c queued_world
    (processQueue map_store env "a->b" EmptyString queued_world).1.
Proof.
  intros env c. apply (processQueue_serves_all map_store env "a->b" EmptyString c queued_world _ None).
  - reflexivity.
  - run_eq.
Defined.

(** C8: in every run of the payment system from a state without requests, each
    funds request is answered at most once, and a request that is still queued
    has not been answered. *)
Theorem requests_answered_once {EQ : CborEquals} {S X : Type} (st : Store S) (env : Env X)
    (w0 w : world S X) :
  w_channels w0 = ∅ → w_replies w0 = [] → rtc (pay_step st env) w0 w →
  NoDup (w_replies w).*1 ∧
  ∀ key c r, w_channels w !! key = Some c → r ∈ ch_fundsReqQueue c → fr_id r ∉ (w_replies w).*1.
Proof.
  intros Hc Hr Hrun. assert (reqs_ok w0) as Hok.
  { split; rewrite ?Hc, ?Hr; simpl; [constructor|set_solver| | |]; intros *; rewrite lookup_empty; done. }
  assert (reqs_ok w) as [? ? ? Hq ?].
  { clear Hc Hr. induction Hrun as [|w0 w1 w Hstep _ IH]; [done|]. apply IH. by eapply step_reqs. }
  split; [done|]. intros key c r Hk Hin. apply (Hq key c); [done|]. by apply list_elem_of_fmap_2.
Qed.

Lemma requests_answered_once_witness :
  let env := sample_env 100 [] 0 in
  let w0 := MkWorld (MkSstate ∅ 0) tt ∅ [] [] [] 0 in
  let w1 := set_w_channels {["a->b" := MkChannel "a" "b" []]} w0 in
  let w2 := (enqueue "a->b" 3 w1).1 in
  let w3 := (processQueue map_store env "a->b" EmptyString w2).1 in
  NoDup (w_replies w3).*1 ∧
  ∀ key c r, w_channels w3 !! key = Some c → r ∈ ch_fundsReqQueue c → fr_id r ∉ (w_replies w3).*1.
Proof.
  intros env w0 w1 w2 w3.
  apply (requests_answered_once map_store env w0 w3); [reflexivity|reflexivity|].
  apply (rtc_l _ _ w1); [apply (step_accessor map_store env "a->b" "a" "b" w0); reflexivity|].
  apply (rtc_l _ _ w2); [apply (step_enqueue map_store env "a->b" 3 w1 w2 0); reflexivity|].
  apply (rtc_l _ _ w3); [|apply rtc_refl].
  apply (step_process map_store env "a->b" EmptyString w2 w3 (Ok None));
    [run_eq|left; by exists None].
Defined.

(** When a message that adds funds completes, the pending amount moves to
    the confirmed amount if it succeeded and is dropped if it failed; the record
    stays as it was if the store cannot be read or written.  No other channel
    changes. *)
Theorem waitAddFundsMsg_ledger {EQ : CborEquals} {S X : Type} (st : Store S) (env : Env X)
    (view : S → dskey → option ChannelInfo) (emptyAddr : address)
    {L : StoreLaws st view emptyAddr} (id : string) (mcid : cid) (ci : ChannelInfo)
    (ml : MsgLookup) (x : X) (w w' : world S X) (r : outcome error unit) :
  store_wf view emptyAddr (w_store w) → view (w_store w) (dskeyForChannel id) = Some ci →
  api_StateWaitMsg env mcid (w_ext w) = (x, Ok ml) →
  waitAddFundsMsg st env id mcid w = (w', r) →
  funds_settled view id ci
    (if ml_ExitCode ml =? 0 then ci_Amount ci + ci_PendingAmount ci else ci_Amount ci) w w'.
Proof.
  intros Hwf Hci Hml. unfold waitAddFundsMsg. unfold go_bind at 1, on_ext. rewrite Hml.
  pose proof (wf_words _ _ _ Hwf _ _ Hci) as Hwords.
  destruct (ml_ExitCode ml =? 0); cbn [negb].
  - intros Hm. apply (mutate_mutated st view emptyAddr id _ ci) in Hm; try done.
    by eapply (settled_mutated view emptyAddr) in Hm.
  - unfold go_bind, go_err. destruct (mutateChannelInfo st id _ _) as [w2 o] eqn:Hm.
    apply (mutate_mutated st view emptyAddr id _ ci) in Hm; try done.
    intros Hw. assert (w' = w2) as -> by (destruct o; by injection Hw).
    by eapply (settled_mutated view emptyAddr) in Hm.
Qed.

Lemma waitAddFundsMsg_ledger_witness :
  let env := sample_env 100 [] 0 in
  let ci := set_ci_SettlingAt 0 sample_info in
  funds_settled (view (λ d, d) "empty") "id" ci 100 sample_world
    (waitAddFundsMsg map_store env "id" "msg" sample_world).1.
Proof.
  intros env ci.
  apply (waitAddFundsMsg_ledger map_store env (view (λ d, d) "empty") "empty" "id" "msg" ci
           (MkMsgLookup 0 "robust") tt sample_world _ (Ok tt)).
  - exact sample_store_wf.
  - vm_eq.
  - reflexivity.
  - run_eq.
Defined.

(** While a create or add-funds message of the channel is pending, a request
    is not executed: nothing reaches the chain and the queue waits. *)
Theorem processTask_waits {EQ : CborEquals} {S X : Type} (st : Store S) (env : Env X)
    (key : string) (c : channel) (amt : Z) (ci : ChannelInfo) (s' : S) (w w' : world S X)
    (r : outcome error (option paychFundsRes)) :
  st_OutboundActiveByFromTo st (ch_from c) (ch_to c) (w_store w) = (s', Ok ci) →
  is_Some (ci_CreateMsg ci) ∨ is_Some (ci_AddFundsMsg ci) →
  processTask st env key c amt w = (w', r) → r = Ok None ∧ w_ext w' = w_ext w.
Proof.
  intros Hst Hp. apply processTask_pending; [|by exists s', ci]. intros s'' ci' Hst'.
  rewrite Hst in Hst'. by simplify_eq.
Qed.

(** The sample channel, no longer settling, with its message still pending. *)
Definition pending_world : world (sstate (gmap dskey bytes)) unit :=
  MkWorld (putChannelInfo map_ds (λ _, "uuid") "empty" (set_ci_Settling false sample_info)
             (MkSstate ∅ 0)).1 tt {["a->b" := MkChannel "a" "b" []]} [] [] [] 0.

Lemma processTask_waits_witness :
  let r := processTask map_store (sample_env 100 [] 0) "a->b" (MkChannel "a" "b" []) 5 pending_world in
  r.2 = Ok None ∧ w_ext r.1 = w_ext pending_world.
Proof.
  intros r. apply (processTask_waits map_store (sample_env 100 [] 0) "a->b" (MkChannel "a" "b" []) 5
    (set_ci_SettlingAt 0 (set_ci_Settling false sample_info))
    (st_OutboundActiveByFromTo map_store "a" "b" (w_store pending_world)).1
    pending_world r.1 r.2).
  - run_eq.
  - right. by exists "msg".
  - run_eq.
Defined.

(** A voucher without signature is not refused but crashes the node: when
    the chain answers, checking it dereferences the nil signature. *)
Theorem nil_signature_panics {EQ : CborEquals} {S X : Type} (st : Store S) (env : Env X)
    (chAddr : address) (sv : SignedVoucher) (w : world S X) (vb : bytes) :
  sv_Signature sv = None → sv_ChannelAddr sv = chAddr → sv_SigningBytes env sv = inr vb →
  (∀ x, ∃ x' act, api_StateGetActor env chAddr x = (x', Ok act)) →
  (∀ w, ∃ w' pch, loadActorState (S:=S) env chAddr w = (w', Ok pch)) →
  (∀ a x, ∃ x' key, api_StateAccountKey env a x = (x', Ok key)) →
  ∃ w', checkVoucherValidUnlocked st env chAddr sv w = (w', Panic).
Proof.
  intros Hsig Ha Hvb Hact Hload Hkey. unfold checkVoucherValidUnlocked.
  rewrite Ha, String.eqb_refl. cbn [negb]. unfold go_bind at 1, on_ext at 1.
  destruct (Hact (w_ext w)) as (x1 & act & ->). unfold go_bind at 1, go_try.
  destruct (Hload (set_w_ext x1 w)) as (w2 & pch & ->). unfold go_bind at 1, on_ext at 1.
  destruct (Hkey (as_From pch) (w_ext w2)) as (x3 & from & ->).
  unfold go_bind, go_sum. rewrite Hvb, Hsig. eexists. reflexivity.
Qed.

Lemma nil_signature_panics_witness :
  ∃ w', checkVoucherValidUnlocked map_store (sample_env 100 [] 0) "ch"
          (MkVoucher "ch" 1 3 50 [] None EmptyString) sample_world = (w', Panic).
Proof.
  apply (nil_signature_panics map_store (sample_env 100 [] 0) "ch"
    (MkVoucher "ch" 1 3 50 [] None EmptyString) sample_world "bytes"); try reflexivity;
    intros; eexists _, _; reflexivity.
Defined.
