(* ===== verification/PayManager.v ===== *)
(** * The payment manager (payments/manager.go)

    The manager keeps a cache of channel accessors, finds the accessor of a
    channel by its parties or address, and forwards each operation to it.  It also
    redeems, settles and collects channels. *)
From S2P Require Import Prelude Deal PayTypes PayInfo Cbor PayCodec PayStore PayChain PayChannel.

Section manager.
Context {EQ : CborEquals} {S X : Type} (st : Store S) (env : Env X).
Local Abbreviation W := (world S X).

(** ** Accessors *)

Definition channelCacheKey (from to : address) : string := from +:+ "->" +:+ to.

Definition addChannelToCache (from to : address) : go W error string :=
  let key := channelCacheKey from to in
  do* go_modify (λ w, set_w_channels (<[key := MkChannel from to []]> (w_channels w)) w) then
  go_ret key.

(** An accessor is named by its key in the cache. *)
Definition channelByFromTo (from to : address) : go W error string := λ w,
  let key := channelCacheKey from to in
  match w_channels w !! key with
  | Some _ => (w, Ok key)
  | None => addChannelToCache from to w
  end.

Definition channelByAddress (chAddr : address) : go W error string :=
  let* channelInfo := on_store (st_ByAddress st chAddr) in
  channelByFromTo (ci_Control channelInfo) (ci_Target channelInfo).

(** ** Inbound channels *)

Definition nextLaneFromState (state : ActorState) : go W error Z :=
  let* lanes := ForEachLaneState env state in
  match lanes with
  | [] => go_ret 0
  | _ =>
    let maxID := foldl (λ maxID '(idx, _), if maxID <? idx then idx else maxID) 0
                   (lanes : list (Z * LaneState)) in
    go_ret (u64 (maxID + 1))
  end.

Definition loadStateChannelInfo (chAddr : address) (dir : Z) : go W error ChannelInfo :=
  let* as_ := loadActorState env chAddr in
  let* from := go_try (on_ext (api_StateAccountKey env (as_From as_))) in
  match from with
  | inl err => go_err (ErrWrap "Unable to get account key for From actor state" err)
  | inr from =>
    let* to := go_try (on_ext (api_StateAccountKey env (as_To as_))) in
    match to with
    | inl err => go_err (ErrWrap "Unable to get account key for To actor state" err)
    | inr to =>
      let* nextLane := go_try (nextLaneFromState as_) in
      match nextLane with
      | inl err => go_err (ErrWrap "Unable to get next lane from state" err)
      | inr nextLane =>
        let '(control, target) := if dir =? DirOutbound then (from, to) else (to, from) in
        go_ret (MkChannelInfo EmptyString (Some chAddr) control target dir [] nextLane 0 0
                  None None false 0)
      end
    end
  end.

Definition trackInboundChannel (chAddr : address) : go W error ChannelInfo :=
  let* ci := go_try (on_store (st_ByAddress st chAddr)) in
  match ci with
  | inr ci => go_ret ci
  | inl err =>
    if bool_decide (err = ErrChannelNotTracked)
    then
      let* stateCi := loadStateChannelInfo chAddr DirInbound in
      on_store (st_TrackChannel st stateCi)
    else go_err err
  end.

Definition inboundChannel (chAddr : address) : go W error string :=
  let* ci := trackInboundChannel chAddr in
  channelByFromTo (ci_Target ci) (ci_Control ci).

(** [addVoucherUnlocked] for a nil voucher: unless the channel holds a nil voucher
    too, checking its validity dereferences it. *)
Definition add_nil_voucher (chAddr : address) : go W error Z :=
  let* ci := go_try (on_store (st_ByAddress st chAddr)) in
  match ci with
  | inl err => go_err (ErrWrap "looking for channel" err)
  | inr ci =>
    let* dup := go_lift (already_added None (ci_Vouchers ci)) in
    if dup : bool then go_ret 0 else go_panic
  end.

Definition AddVoucherInbound (chAddr : address) (sv : option SignedVoucher) (proof : bytes)
    (minDelta : Z) : go W error Z :=
  if negb (String.eqb proof EmptyString) then go_err (ErrMsg "err proof not supported")
  else
    do* inboundChannel chAddr then
    match sv with
    | None => add_nil_voucher chAddr
    | Some sv => addVoucherUnlocked st env chAddr sv minDelta
    end.

(** ** Outbound channels *)

(** [GetChannel] up to the point where it waits: the answer, or the number of the
    request that was queued. *)
Definition GetChannel_start (from to : address) (amt : Z) : go W error (ChannelResponse + nat) :=
  let* key := channelByFromTo from to in
  let* ci := go_try (on_store (st_OutboundActiveByFromTo st from to)) in
  match ci with
  | inr ci =>
    let* afunds := go_try (processQueue st env key (ci_ChannelID ci)) in
    match afunds with
    | inl err => go_err (ErrWrap "unable to get channel available funds" err)
    | inr None => go_panic
    | inr (Some afunds) =>
      let available := af_ConfirmedAmt afunds - af_VoucherRedeemedAmt afunds in
      if amt <? available
      then match ci_Channel ci with
           | Some a => go_ret (inl (MkChannelResponse a Undef))
           | None => go_panic
           end
      else let* id := enqueue key amt in go_ret (inr id)
    end
  | inl _ => let* id := enqueue key amt in go_ret (inr id)
  end.

(** The rest of [GetChannel] once the reply is there. *)
Definition GetChannel_finish (res : paychFundsRes) : outcome error ChannelResponse :=
  match res_err res with
  | Some err => Err (ErrWrap "Unable to get or create pay channel from accessor" err)
  | None => Ok (MkChannelResponse (res_channel res) (res_mcid res))
  end.

(** [GetChannel] when the goroutine it starts runs next; it blocks while the
    channel has a message pending. *)
Definition GetChannel (from to : address) (amt : Z) : go W error ChannelResponse :=
  let* r := GetChannel_start from to amt in
  match r with
  | inl resp => go_ret resp
  | inr id =>
    do* go_try (processQueue st env (channelCacheKey from to) EmptyString) then
    let* w := go_get in
    match reply_of id w with
    | Some res => go_lift (GetChannel_finish res)
    | None => go_hang
    end
  end.

(** Blocks while the message is in flight. *)
Definition WaitForChannel (mcid : cid) : go W error address :=
  let* ci := go_try (on_store (st_ByMessageCid st mcid)) in
  match ci with
  | inl err =>
    if bool_decide (err = ErrNotFound)
    then go_err (ErrMsg ("Could not find wait msg cid " +:+ mcid))
    else go_err err
  | inr ci =>
    do* channelByFromTo (ci_Control ci) (ci_Target ci) then
    let* r := getWaitReady st mcid in
    match r with
    | Some a => go_ret a
    | None => go_hang
    end
  end.

Definition CreateVoucher (chAddr : address) (amt lane : Z) : go W error VoucherCreateResult :=
  let vouch := MkVoucher Undef lane 0 amt [] None EmptyString in
  let* ch := go_try (channelByAddress chAddr) in
  match ch with
  | inl err => go_err (ErrWrap "Unable to find channel to create voucher for" err)
  | inr _ => createVoucher st env chAddr vouch
  end.

Definition AllocateLane (chAddr : address) : go W error Z :=
  let* ch := go_try (channelByAddress chAddr) in
  match ch with
  | inl err => go_err (ErrWrap "Unable to find channel to allocate lane" err)
  | inr _ => allocateLane st chAddr
  end.

(** The accessor answers funds for a channel identifier that is not empty. *)
Definition ChannelAvailableFunds (chAddr : address) : go W error AvailableFunds :=
  let* key := channelByAddress chAddr in
  let* ci := getChannelInfo st chAddr in
  let* afunds := processQueue st env key (ci_ChannelID ci) in
  match afunds with
  | Some afunds => go_ret afunds
  | None => go_panic
  end.

Definition ListChannels : go W error (list address) := on_store (st_ListChannels st).

Definition ListVouchers (chAddr : address) : go W error (list VoucherInfo) :=
  do* channelByAddress chAddr then
  listVouchers st chAddr.

Definition GetChannelInfo (chAddr : address) : go W error ChannelInfo :=
  do* channelByAddress chAddr then
  getChannelInfo st chAddr.

(** ** Redeeming *)

Definition SubmitVoucher (addr : address) (sv : SignedVoucher) (secret proof : bytes)
    : go W error cid :=
  if negb (String.eqb proof EmptyString) then go_err (ErrMsg "err proof not supported")
  else
    do* channelByAddress addr then
    submitVoucher st env addr sv secret.

Definition CheckVoucherSpendable (addr : address) (sv : SignedVoucher) (secret proof : bytes)
    : go W error bool :=
  if negb (String.eqb proof EmptyString) then go_err (ErrMsg "proof not supported yet")
  else
    let* key := channelByAddress addr in
    let* c := get_accessor key in
    checkVoucherSpendable st env c addr sv secret.

(** Whether a voucher replaces the best one known for its lane. *)
Definition better (best : gmap Z SignedVoucher) (v : SignedVoucher) : bool :=
  match best !! sv_Lane v with
  | None => true
  | Some b => sv_Amount b <? sv_Amount v
  end.

(** A nil voucher, which no operation stores, is a nil dereference. *)
Fixpoint best_loop (ch : address) (l : list VoucherInfo) (best : gmap Z SignedVoucher)
    : go W error (gmap Z SignedVoucher) :=
  match l with
  | [] => go_ret best
  | vi :: l' =>
    match vi_Voucher vi with
    | None => go_panic
    | Some v =>
      let* spendable := CheckVoucherSpendable ch v EmptyString EmptyString in
      best_loop ch l' (if spendable && better best v then <[sv_Lane v := v]> best else best)
    end
  end.

Definition bestSpendableByLane (ch : address) : go W error (gmap Z SignedVoucher) :=
  let* vouchers := ListVouchers ch in
  best_loop ch vouchers ∅.

(** The loop of [SubmitAllVouchers]: the messages sent and how many vouchers
    could not be submitted. *)
Fixpoint submit_loop (addr : address) (l : list SignedVoucher) : go W error (list cid * nat) :=
  match l with
  | [] => go_ret ([], O)
  | v :: l' =>
    let* r := go_try (submitVoucher st env addr v EmptyString) in
    let* rest := submit_loop addr l' in
    match r with
    | inl _ => go_ret (rest.1, Datatypes.S rest.2)
    | inr mcid => go_ret (mcid :: rest.1, rest.2)
    end
  end.

(** The goroutines started by the loop; whatever the answer, each of them
    signals the wait group. *)
Fixpoint wait_all (l : list cid) : go W error unit :=
  match l with
  | [] => go_ret tt
  | c :: l' =>
    do* go_try (on_ext (api_StateWaitMsg env c)) then
    wait_all l'
  end.

(** The wait group counts every voucher, but a voucher that could not be
    submitted never signals it. *)
Definition SubmitAllVouchers (addr : address) : go W error unit :=
  do* channelByAddress addr then
  let* best := bestSpendableByLane addr in
  match map_to_list best with
  | [] => go_err (ErrMsg "no vouchers to redeem")
  | l =>
    let* r := submit_loop addr l.*2 in
    do* wait_all r.1 then
    match r.2 with
    | O => go_ret tt
    | Datatypes.S _ => go_hang
    end
  end.

(** ** Settling and collecting *)

Definition Settle (addr : address) : go W error unit :=
  do* channelByAddress addr then
  let* mcid := settle st env addr in
  let* lookup := on_ext (api_StateWaitMsg env mcid) in
  if negb (ml_ExitCode lookup =? 0) then go_err (ErrMsg "payment execution failed")
  else
    let* state := loadActorState env addr in
    let* ci := on_store (st_ByAddress st addr) in
    do* on_store (st_SetChannelSettlingAt st ci (as_SettlingAt state)) then
    go_ret tt.

Fixpoint collect_loop (epoch : Z) (l : list ChannelInfo) : go W error unit :=
  match l with
  | [] => go_ret tt
  | sci :: l' =>
    if ci_SettlingAt sci <? epoch
    then
      do* channelByFromTo (ci_Control sci) (ci_Target sci) then
      match ci_Channel sci with
      | None => go_panic
      | Some a =>
        let* mcid := collect st env a in
        let* lookup := go_try (on_ext (api_StateWaitMsg env mcid)) in
        match lookup with
        | inl err => go_err (ErrWrap ("waiting to collect channel " +:+ a) err)
        | inr lookup =>
          if negb (ml_ExitCode lookup =? 0)
          then go_err (ErrMsg ("collecting channel " +:+ a +:+ " failed with code "
                               +:+ pretty (ml_ExitCode lookup)))
          else
            do* mutateChannelInfo st (ci_ChannelID sci) (set_ci_Settling false) then
            collect_loop epoch l'
        end
      end
    else collect_loop epoch l'
  end.

Definition collectForEpoch (epoch : Z) : go W error unit :=
  let* settling := on_store (st_ListSettlingChannels st) in
  collect_loop epoch settling.

(** One tick of [collectLoop]: the epoch after it. *)
Definition collect_tick (epoch : Z) : go W error Z :=
  let epoch := epoch + 1 in
  do* go_try (collectForEpoch epoch) then
  let* head := go_try (on_ext (api_ChainHead env)) in
  match head with
  | inl _ => go_ret epoch
  | inr h => go_ret h
  end.

(** The manager as retrievals use it. *)
Definition payments_manager : Manager W :=
  MkManager GetChannel WaitForChannel AllocateLane CreateVoucher ChannelAvailableFunds
    AddVoucherInbound.

(** ** Settlement after a retrieval (retrieval/manager.go)

    The reaction of [SettlePaymentChannels] to the state of a provider deal;
    errors are logged. *)
Definition settle_deal (state : ProviderState) : go W error unit :=
  match ps_Status state, ps_PayCh state with
  | (StatusCompleted | StatusCancelled | StatusErrored), Some payCh =>
    let* funds := go_try (ChannelAvailableFunds payCh) in
    match funds with
    | inl _ => go_ret tt
    | inr funds =>
      let* r := go_try (SubmitAllVouchers payCh) in
      match r with
      | inl _ => go_ret tt
      | inr _ =>
        if af_ConfirmedAmt funds - af_VoucherRedeemedAmt funds <=? 0
        then do* go_try (Settle payCh) then go_ret tt
        else go_ret tt
      end
    end
  | _, _ => go_ret tt
  end.

End manager.

(** ** Lemmas *)

Section lemmas.
Context {EQ : CborEquals} {S X : Type} (st : Store S) (env : Env X).
Local Abbreviation W := (world S X).

(** The value of an accepted voucher is at least the minimum when it is not a
    duplicate, so it is never negative when the minimum is zero. *)
Lemma addVoucher_nonneg chAddr sv (w w' : W) delta :
  addVoucherUnlocked st env chAddr sv 0 w = (w', Ok delta) → 0 <= delta.
Proof.
  unfold addVoucherUnlocked. intros (w1 & r & _ & H)%go_bind_ok. destruct r as [e|ci]; [done|].
  apply go_bind_ok in H as (w2 & dup & _ & H). destruct dup; [apply go_ret_ok in H as [_ ->]; lia|].
  apply go_bind_ok in H as (w3 & [lanes balance] & _ & H).
  destruct (Z.ltb_spec (sv_Amount sv - match lanes !! sv_Lane sv with
    | Some ls => Redeemed ls | None => 0 end) 0); [done|].
  apply go_bind_ok in H as (w4 & r & _ & H). by apply go_ret_ok in H as [_ ->].
Qed.

(** A reported shortfall is positive, whatever the store holds. *)
Lemma check_shortfall_pos {FE : ForeignErrors st env} chAddr sv (w w' : W) n :
  checkVoucherValidUnlocked st env chAddr sv w = (w', Err (ErrInsufficientFunds n)) → 0 < n.
Proof.
  unfold checkVoucherValidUnlocked. destruct (String.eqb _ _); [|done].
  intros [H|(w1 & act & _ & H)]%go_bind_err; [by apply on_ext_foreign in H; [|apply foreign_actor]|].
  apply go_bind_err in H as [H|(w2 & r & _ & H)]; [by apply go_try_err in H|].
  destruct r as [e|pch]; [done|].
  apply go_bind_err in H as [H|(w3 & from & _ & H)];
    [by apply on_ext_foreign in H; [|apply foreign_key]|].
  apply go_bind_err in H as [H|(w4 & vb & _ & H)].
  { unfold go_sum in H. destruct (sv_SigningBytes env sv) eqn:E; [|done].
    injection H as _ ->. by apply foreign_bytes in E. }
  destruct (sv_Signature sv) as [sig|]; [|done].
  destruct (wal_SigTypeSig env sig.1) as [e|] eqn:Hty.
  { injection H as _ ->. by apply foreign_sigtype in Hty. }
  destruct (wal_Verify env sig from vb) as [e|] eqn:Hver.
  { injection H as _ ->. by apply foreign_verify in Hver. }
  apply go_bind_err in H as [H|(w5 & r & _ & H)]; [by apply go_try_err in H|].
  destruct r as [e|lanes]; [done|].
  destruct (match lanes !! sv_Lane sv with Some ls => _ | None => _ end) eqn:Hbad.
  { exfalso. repeat case_match; simplify_eq. }
  destruct (totalRedeemedWithVoucher lanes sv) as [t| | |]; try done.
  destruct (Z.ltb_spec (act_Balance act) t); [injection H as _ <-; lia|by destruct (sv_Merges sv)].
Qed.

Lemma addVoucher_shortfall_pos {FE : ForeignErrors st env} chAddr sv minDelta (w w' : W) n :
  addVoucherUnlocked st env chAddr sv minDelta w = (w', Err (ErrInsufficientFunds n)) → 0 < n.
Proof.
  unfold addVoucherUnlocked. intros [H|(w1 & r & _ & H)]%go_bind_err; [by apply go_try_err in H|].
  destruct r as [e|ci]; [done|]. apply go_bind_err in H as [H|(w2 & dup & _ & H)].
  { exfalso. unfold go_lift in H. injection H as _ H. clear -H.
    induction (ci_Vouchers ci) as [|v l IH]; simpl in H; [done|].
    destruct (Equals (Some sv) (vi_Voucher v)) as [|[]]; auto; done. }
  destruct dup; [done|].
  apply go_bind_err in H as [H|(w3 & [lanes balance] & _ & H)]; [by eapply check_shortfall_pos|].
  destruct (_ <? minDelta); [done|]. apply go_bind_err in H as [H|(? & ? & ? & H)]; [|done].
  by apply on_store_foreign in H; [|apply foreign_put].
Qed.

(** The manager keeps the promise retrieval clients rely on. *)
#[export] Instance payments_voucher_contract {FE : ForeignErrors st env} :
  VoucherContract (payments_manager st env).
Proof.
  split. intros ch amt lane w w' res. cbn [payments_manager mgr_CreateVoucher].
  unfold CreateVoucher. intros (w1 & r & _ & H)%go_bind_ok. destruct r as [e|key]; [done|].
  unfold createVoucher in H. apply go_bind_ok in H as (w2 & r & _ & H). destruct r as [e|ci]; [done|].
  apply go_bind_ok in H as (w3 & nonce & _ & H). destruct (sv_SigningBytes env _) as [e|vb]; [done|].
  apply go_bind_ok in H as (w4 & r & _ & H). destruct r as [e|sig]; [done|].
  apply go_bind_ok in H as (w5 & r & Hadd & H). apply go_try_ok in Hadd. destruct r as [e|delta].
  - destruct e; try done. apply go_ret_ok in H as [-> ->]. right. split; [done|].
    by eapply addVoucher_shortfall_pos.
  - apply go_ret_ok in H as [-> ->]. left. by eexists.
Qed.

(** The accessor found by address and the one used for inbound vouchers. *)
Lemma channelByFromTo_key f t (w w' : W) key :
  channelByFromTo f t w = (w', Ok key) → key = channelCacheKey f t.
Proof.
  unfold channelByFromTo, addChannelToCache, go_bind, go_modify, go_ret.
  destruct (w_channels w !! channelCacheKey f t); by intros [= _ <-].
Qed.

Lemma append_inj_length (a b c d : string) :
  String.length a = String.length b → a +:+ c = b +:+ d → a = b ∧ c = d.
Proof.
  revert b. induction a as [|x a IH]; intros [|y b]; try done.
  intros [= Hl] H. change (String x (a +:+ c) = String y (b +:+ d)) in H.
  injection H as -> H. destruct (IH b Hl H) as [-> ->]. done.
Qed.

(** ** Choosing the vouchers to redeem *)

(** [best] against the vouchers judged so far, each with its verdict. *)
Definition best_of (seen : list (SignedVoucher * bool)) (best : gmap Z SignedVoucher) : Prop :=
  (∀ l v, best !! l = Some v → sv_Lane v = l ∧ (v, true) ∈ seen) ∧
  (∀ v, (v, true) ∈ seen → ∃ b, best !! sv_Lane v = Some b ∧ sv_Amount v <= sv_Amount b).

Lemma best_of_step seen best v (ok : bool) :
  best_of seen best →
  best_of (seen ++ [(v, ok)]) (if ok && better best v then <[sv_Lane v := v]> best else best).
Proof.
  intros [H1 H2]. unfold better. destruct ok; simpl.
  - destruct (best !! sv_Lane v) as [b|] eqn:Hb; [destruct (Z.ltb_spec (sv_Amount b) (sv_Amount v))|].
    2: { split.
      - intros l u Hu. destruct (H1 _ _ Hu). set_solver.
      - intros u [Hu|[= ->]%list_elem_of_singleton]%elem_of_app; [by apply H2|]. exists b. split; [done|lia]. }
    all: split;
      [intros l u; destruct (decide (l = sv_Lane v)) as [->|Hne];
        [rewrite lookup_insert_eq; intros [= <-]; set_solver
        |rewrite lookup_insert_ne by done; intros Hu; destruct (H1 _ _ Hu); set_solver]
      |intros u [Hu|[= ->]%list_elem_of_singleton]%elem_of_app;
        [|exists v; rewrite lookup_insert_eq; split; [done|lia]]].
    all: destruct (H2 _ Hu) as (b' & Hb' & Hle); destruct (decide (sv_Lane u = sv_Lane v)) as [E|Hne];
      [rewrite E in *; exists v; rewrite lookup_insert_eq; split; [done|simplify_eq; lia]
      |exists b'; by rewrite lookup_insert_ne].
  - split.
    + intros l u Hu. destruct (H1 _ _ Hu). set_solver.
    + intros u [Hu|[=]%list_elem_of_singleton]%elem_of_app. by apply H2.
Qed.

Lemma best_loop_ok ch l seen best (w w' : W) res :
  best_of seen best → best_loop st env ch l best w = (w', Ok res) →
  ∃ verdicts, length verdicts = length l ∧
    best_of (seen ++ zip (omap vi_Voucher l) verdicts) res ∧
    Forall (λ vi, is_Some (vi_Voucher vi)) l.
Proof.
  revert seen best w. induction l as [|vi l IH]; intros seen best w Hb; simpl.
  - intros [-> ->]%go_ret_ok. exists []. by rewrite app_nil_r.
  - destruct (vi_Voucher vi) as [v|] eqn:Hv; [|done].
    intros (w1 & ok & _ & H)%go_bind_ok. apply (best_of_step _ _ v ok) in Hb.
    destruct (IH _ _ _ Hb H) as (vs & Hl & Hbest & Hall). exists (ok :: vs).
    split_and!; [simpl; lia| |constructor; [by exists v|done]].
    simpl. by rewrite <- app_assoc in Hbest.
Qed.

(** ** Submitting the vouchers *)

Lemma submit_loop_fail addr l (w w' : W) r :
  submit_loop st env addr l w = (w', Ok r) → (length r.1 + r.2 = length l)%nat.
Proof.
  revert w w' r. induction l as [|v l IH]; intros w w' r; simpl.
  - by intros [-> ->]%go_ret_ok.
  - intros (w1 & res & _ & H)%go_bind_ok. apply go_bind_ok in H as (w2 & rest & Hrest & H).
    apply IH in Hrest. destruct res; apply go_ret_ok in H as [-> ->]; simpl; lia.
Qed.

End lemmas.

(** The channels listed from the store carry no settlement epoch. *)
Lemma unmarshall_epoch {CB : CborLib} (emptyAddr : address) (v : bytes) (ci : ChannelInfo) :
  unmarshallChannelInfo emptyAddr v = Ok ci → ci_SettlingAt ci = 0.
Proof.
  unfold unmarshallChannelInfo.
  destruct (ChannelInfo_UnmarshalCBOR v) as [rest [c| | |]] eqn:E; simpl; try done.
  intros [= <-]. assert (ci_SettlingAt c = 0) as Hc.
  { unfold ChannelInfo_UnmarshalCBOR in E.
    repeat (apply go_bind_ok in E as (? & ? & _ & E)).
    case_match; [done|]. case_match; [done|].
    repeat (apply go_bind_ok in E as (? & ? & _ & E)). by apply go_ret_ok in E as [_ ->]. }
  unfold unmarshall_restore. destruct (ci_Channel c) as [a|]; [|done].
  by destruct (String.eqb a emptyAddr).
Qed.

Lemma findChans_epoch {CB : CborLib} (emptyAddr : address) (filter : ChannelInfo → bool)
    (max : nat) (res : list (error + dskey * bytes)) (acc l : list ChannelInfo) :
  Forall (λ ci, ci_SettlingAt ci = 0) acc →
  findChans_loop emptyAddr filter max res acc = Ok l → Forall (λ ci, ci_SettlingAt ci = 0) l.
Proof.
  revert acc. induction res as [|[e|[k v]] res IH]; intros acc Hacc; simpl.
  - by intros [= <-].
  - by intros [= <-].
  - destruct (unmarshallChannelInfo emptyAddr v) as [ci| | |] eqn:E; simpl; try done.
    apply unmarshall_epoch in E. destruct (filter ci); simpl; [|by apply IH].
    assert (Forall (λ ci, ci_SettlingAt ci = 0) (acc ++ [ci])) as Hacc'
      by (apply Forall_app; by rewrite Forall_singleton).
    case_match; [by intros [= <-]|by apply IH].
Qed.

Lemma settling_epoch {CB : CborLib} {D : Type} (ds : Datastore D) (emptyAddr : address)
    (s s' : sstate D) (l : list ChannelInfo) :
  ListSettlingChannels ds emptyAddr s = (s', Ok l) → Forall (λ ci, ci_SettlingAt ci = 0) l.
Proof.
  unfold ListSettlingChannels, findChans. intros (s1 & res & _ & H)%go_bind_ok.
  apply go_lift_ok in H as [_ H]. by apply findChans_epoch in H.
Qed.

Lemma collect_loop_epoch {EQ : CborEquals} {S X : Type} (st : Store S) (env : Env X)
    (e1 e2 : Z) (l : list ChannelInfo) (w : world S X) :
  0 < e1 → 0 < e2 → Forall (λ ci, ci_SettlingAt ci = 0) l →
  collect_loop st env e1 l w = collect_loop st env e2 l w.
Proof.
  intros H1 H2 Hl. revert w. induction Hl as [|sci l Hz _ IH]; intros w; simpl; [done|].
  rewrite Hz. apply Z.ltb_lt in H1 as ->, H2 as ->.
  unfold go_bind. destruct (channelByFromTo _ _ w) as [w1 [k| | |]]; try done.
  destruct (ci_Channel sci); [|done].
  destruct (collect _ _ _ _) as [w2 [mcid| | |]]; try done.
  destruct (go_try _ w2) as [w3 [[e|lookup]| | |]]; try done.
  destruct (negb _); [done|]. destruct (mutateChannelInfo _ _ _ w3) as [w4 [[]| | |]]; [|done..].
  apply IH.
Qed.

(** ** Properties *)

(** C21: the payment manager implements the contract its clients are verified
    against: a created voucher is for the requested channel, amount and lane, and
    when there is none the shortfall is positive. *)
Theorem payments_manager_contract {EQ : CborEquals} {S X : Type} (st : Store S) (env : Env X) :
  ForeignErrors st env → VoucherContract (payments_manager st env).
Proof. intros FE. by apply (payments_voucher_contract st env). Qed.

Lemma payments_manager_contract_witness :
  VoucherContract (payments_manager map_store (sample_env 100 [] 0)).
Proof.
  apply (payments_manager_contract map_store (sample_env 100 [] 0)).
  exact (sample_foreign 100 [] 0).
Defined.

(** For each lane the manager redeems the spendable voucher of the highest
    amount: the chosen voucher was judged spendable, and every voucher judged
    spendable has a chosen one of its lane worth at least as much. *)
Theorem bestSpendableByLane_best {EQ : CborEquals} {S X : Type} (st : Store S) (env : Env X)
    (ch : address) (w w' : world S X) (best : gmap Z SignedVoucher) :
  bestSpendableByLane st env ch w = (w', Ok best) →
  ∃ w1 vouchers verdicts, ListVouchers st ch w = (w1, Ok vouchers) ∧
    length verdicts = length vouchers ∧ best_of (zip (omap vi_Voucher vouchers) verdicts) best.
Proof.
  unfold bestSpendableByLane. intros (w1 & vouchers & Hl & H)%go_bind_ok.
  apply (best_loop_ok _ _ _ _ []) in H as (verdicts & Hlen & Hb & _).
  - by exists w1, vouchers, verdicts.
  - split; [by intros l v; rewrite lookup_empty|]. by intros v ?%elem_of_nil.
Qed.

(** The sample channel with two vouchers on lane 1, neither submitted. *)
Definition redeemable_world : world (sstate (gmap dskey bytes)) unit :=
  let v n amt := MkVoucherInfo (Some (MkVoucher "ch" 1 n amt [] (Some (1, "sig")) EmptyString))
                   EmptyString false in
  MkWorld (putChannelInfo map_ds (λ _, "uuid") "empty"
             (set_ci_Vouchers [v 1 10; v 2 30] sample_info) (MkSstate ∅ 0)).1
    tt ∅ [] [] [] 0.

Lemma bestSpendableByLane_best_witness :
  let env := sample_env 100 [] 0 in
  let best : gmap Z SignedVoucher :=
    {[1 := MkVoucher "ch" 1 2 30 [] (Some (1, "sig")) EmptyString]} in
  ∃ w1 vouchers verdicts, ListVouchers map_store "ch" redeemable_world = (w1, Ok vouchers) ∧
    length verdicts = length vouchers ∧ best_of (zip (omap vi_Voucher vouchers) verdicts) best.
Proof.
  intros env best.
  apply (bestSpendableByLane_best map_store env "ch" redeemable_world
           (bestSpendableByLane map_store env "ch" redeemable_world).1 best).
  run_eq.
Defined.

(** Redeeming all vouchers only returns successfully when every chosen
    voucher was submitted; a single voucher that cannot be submitted makes the
    call wait for ever, because the wait group counts it and nothing signals it. *)
Theorem SubmitAllVouchers_all_or_hang {EQ : CborEquals} {S X : Type} (st : Store S) (env : Env X)
    (addr : address) (w w1 w2 w3 w4 : world S X) (key : string) (best : gmap Z SignedVoucher)
    (mcids : list cid) (failed : nat) :
  best ≠ ∅ → channelByAddress st addr w = (w1, Ok key) →
  bestSpendableByLane st env addr w1 = (w2, Ok best) →
  submit_loop st env addr (map_to_list best).*2 w2 = (w3, Ok (mcids, failed)) →
  wait_all env mcids w3 = (w4, Ok tt) →
  (length mcids + failed = size best)%nat ∧
  SubmitAllVouchers st env addr w = (w4, if Nat.eqb failed 0 then Ok tt else Hang).
Proof.
  intros Hne Hkey Hbest Hsub Hwait. split.
  - apply submit_loop_fail in Hsub. by rewrite length_fmap, length_map_to_list in Hsub.
  - unfold SubmitAllVouchers, go_bind. rewrite Hkey, Hbest.
    destruct (map_to_list best) as [|p l] eqn:El; [by apply map_to_list_empty_iff in El|].
    rewrite Hsub. simpl. rewrite Hwait. by destruct failed.
Qed.

(** A chain that accepts calls but refuses every pushed message. *)
Definition refusing_env : Env unit :=
  MkEnv go_ret (λ _, go_ret (MkActor 7 100)) (λ _, go_err (ErrExternal "mpool full"))
    (λ _, go_ret (MkMsgLookup 0 "robust")) (λ _, go_ret "state") (λ _, go_ret "lanes")
    go_ret (λ _, go_ret 0) (go_ret 10) (λ _ _, go_ret tt) (λ _, go_ret [])
    (λ _ _, go_ret (1, "sig")) (λ _, None) (λ _ _ _, None) (λ _, inr "bytes")
    (λ _, inr (MkActorState "a" "b" 0 0 "lanecid")) (λ _ _, None) (λ _, inr "msg")
    (λ _, inr "smsg") (λ b, inr ("cid:" +:+ b)) (λ c, c) (λ _ _, inr "create")
    (λ _ _, inr "update") (λ r, inr r).

Lemma SubmitAllVouchers_all_or_hang_witness :
  let w1 := (channelByAddress map_store "ch" redeemable_world).1 in
  let w2 := (bestSpendableByLane map_store refusing_env "ch" w1).1 in
  let best : gmap Z SignedVoucher :=
    {[1 := MkVoucher "ch" 1 2 30 [] (Some (1, "sig")) EmptyString]} in
  let w3 := (submit_loop map_store refusing_env "ch" (map_to_list best).*2 w2).1 in
  (length (@nil cid) + 1 = size best)%nat ∧
  SubmitAllVouchers map_store refusing_env "ch" redeemable_world
  = (w3, if Nat.eqb 1 0 then Ok tt else Hang).
Proof.
  intros w1 w2 best w3.
  apply (SubmitAllVouchers_all_or_hang map_store refusing_env "ch" redeemable_world w1 w2 w3 w3
           "a->b" best [] 1); [done|run_eq|run_eq|run_eq|reflexivity].
Defined.

(** An inbound channel is reached through two different accessors: the one
    that adds its vouchers is cached under (target, control) and the one that
    redeems them under (control, target).  Since each accessor has its own lock,
    the two do not exclude each other. *)
Theorem inbound_accessors_differ {EQ : CborEquals} {S X : Type} (st : Store S) (env : Env X)
    (view : S → dskey → option ChannelInfo) (emptyAddr : address)
    {L : StoreLaws st view emptyAddr} {C : StoreComplete st view}
    (chAddr : address) (k : dskey) (ci : ChannelInfo) (w w1 w2 : world S X) (k1 k2 : string) :
  store_wf view emptyAddr (w_store w) → view (w_store w) k = Some ci →
  ci_Channel ci = Some chAddr → ci_Control ci ≠ ci_Target ci →
  String.length (ci_Control ci) = String.length (ci_Target ci) →
  inboundChannel st env chAddr w = (w1, Ok k1) → channelByAddress st chAddr w = (w2, Ok k2) →
  k1 ≠ k2.
Proof.
  intros Hwf Hk Hch Hne Hlen H1 H2.
  assert (∀ w' ci', on_store (st_ByAddress st chAddr) w = (w', Ok ci') → ci' = ci) as Huniq.
  { intros w' ci' Hby. apply on_store_eq in Hby as [Hby _].
    apply by_address_law in Hby as [_ Hr]. destruct (Hr _ eq_refl) as [Hch' [k' Hk']].
    by destruct (wf_unique view emptyAddr _ _ _ _ _ _ Hwf Hk Hk' Hch Hch') as [_ <-]. }
  unfold inboundChannel in H1. apply go_bind_ok in H1 as (w3 & ci1 & Ht & H1).
  unfold trackInboundChannel in Ht. apply go_bind_ok in Ht as (w4 & r & Hby & Ht).
  apply go_try_ok in Hby. destruct r as [e|ci'].
  - case_bool_decide; [|done]. subst e. exfalso. apply on_store_eq in Hby as [Hby _].
    by apply (by_address_complete _ _ _ Hby k ci).
  - apply Huniq in Hby as ->. apply go_ret_ok in Ht as [-> ->].
    apply channelByFromTo_key in H1 as ->.
    unfold channelByAddress in H2. apply go_bind_ok in H2 as (w5 & ci2 & Hby & H2).
    apply Huniq in Hby as ->. apply channelByFromTo_key in H2 as ->.
    unfold channelCacheKey. intros Heq. symmetry in Heq.
    by apply append_inj_length in Heq as [? _].
Qed.

Lemma inbound_accessors_differ_witness : channelCacheKey "b" "a" ≠ channelCacheKey "a" "b".
Proof.
  apply (inbound_accessors_differ map_store (sample_env 100 [] 0) (view (λ d, d) "empty") "empty"
    "ch" (dskeyForChannel "id") (set_ci_SettlingAt 0 sample_info) sample_world
    (inboundChannel map_store (sample_env 100 [] 0) "ch" sample_world).1
    (channelByAddress map_store "ch" sample_world).1).
  - exact sample_store_wf.
  - vm_eq.
  - reflexivity.
  - done.
  - reflexivity.
  - run_eq.
  - run_eq.
Defined.

(** Collecting does not depend on the epoch at which a channel settles:
    over the real store every epoch but zero collects the same channels in the
    same way, because the channels it lists have lost their settlement epoch. *)
Theorem settling_epoch_ignored {CB : CborLib} {EQ : CborEquals} {D X : Type} (ds : Datastore D)
    (uuid : nat → string) (emptyAddr : address) (env : Env X) (e1 e2 : Z) (w : world (sstate D) X) :
  0 < e1 → 0 < e2 →
  collectForEpoch (datastore_store ds uuid emptyAddr) env e1 w
  = collectForEpoch (datastore_store ds uuid emptyAddr) env e2 w.
Proof.
  intros H1 H2. unfold collectForEpoch, go_bind, on_store. simpl.
  destruct (ListSettlingChannels ds emptyAddr (w_store w)) as [s [l| | |]] eqn:E; try done.
  apply collect_loop_epoch; [done|done|by eapply settling_epoch].
Qed.

Lemma settling_epoch_ignored_witness :
  collectForEpoch map_store (sample_env 100 [] 0) 5 sample_world
  = collectForEpoch map_store (sample_env 100 [] 0) 500 sample_world.
Proof.
  refine (settling_epoch_ignored map_ds (λ n, "uuid" +:+ pretty n) "empty" (sample_env 100 [] 0) 5 500
            sample_world _ _); reflexivity.
Defined.

(** The first lane given to a channel learnt from the chain is above every
    lane the chain knows. *)
Theorem nextLaneFromState_fresh {S X : Type} (env : Env X) (state : ActorState)
    (w w' : world S X) (x : X) (lanes : list (Z * LaneState)) (next : Z) :
  lanes_AsArray env (as_LaneStates state) (w_ext w) = (x, Ok lanes) →
  Forall (λ l, 0 <= l.1 < two64 - 1) lanes →
  nextLaneFromState env state w = (w', Ok next) →
  Forall (λ l, l.1 < next) lanes.
Proof.
  intros Hl Hr. unfold nextLaneFromState, ForEachLaneState, go_bind, on_ext. rewrite Hl.
  destruct lanes as [|l0 ls]; [by constructor|]. set (lanes := l0 :: ls) in *.
  intros [= _ <-].
  set (step := λ (maxID : Z) '(idx, _), if maxID <? idx then idx else maxID).
  assert (∀ l m, 0 <= m < two64 - 1 → Forall (λ l, 0 <= l.1 < two64 - 1) l →
            m <= foldl step m l < two64 - 1 ∧ Forall (λ x : Z * LaneState, x.1 <= foldl step m l) l)
    as Hfold.
  { clear. intros l. induction l as [|[i a] l IH]; intros m Hm Hall; simpl; [split; [lia|constructor]|].
    inversion_clear Hall as [|? ? Hi Hall']. simpl in Hi.
    destruct (IH (if m <? i then i else m)) as [Hb Hf]; [by destruct (m <? i)|done|].
    revert Hb Hf. destruct (Z.ltb_spec m i); intros Hb Hf;
      (split; [lia|constructor; [simpl; lia|done]]). }
  destruct (Hfold lanes 0) as [Hb Hf]; [unfold two64; lia|done|].
  change (foldl step _ ls) with (foldl step 0 lanes).
  rewrite u64_small by (unfold is_u64; lia).
  eapply Forall_impl; [exact Hf|]. intros [i a]. simpl. lia.
Qed.

Lemma nextLaneFromState_fresh_witness :
  Forall (λ l : Z * LaneState, l.1 < 8) [(7, MkLaneState 1 1); (2, MkLaneState 1 1)].
Proof.
  apply (nextLaneFromState_fresh (S:=sstate (gmap dskey bytes))
    (sample_env 100 [(7, MkLaneState 1 1); (2, MkLaneState 1 1)] 0)
    (MkActorState "a" "b" 0 0 "lanecid") sample_world sample_world tt);
    [reflexivity|repeat constructor; unfold two64; simpl; lia|reflexivity].
Defined.
