(* ===== verification/Locks.v ===== *)
(** * The locks of the payment system (payments/manager.go, payments/channel.go)

    Every operation of the manager as the sequence of locks it takes and releases, of the
    shared fields it reads and writes, of the goroutines it starts and of the points where
    it waits for the chain, a timer or another goroutine.  Threads run these programs step
    by step, in any order.  The locks are those of Go's sync package: a mutex has one
    holder, and a thread that waits for the exclusive global lock keeps new readers out.
    Calls to the chain, the wallet and the datastore made inside a locked section return;
    so does handing the answer to a request (under the lock of its accessor), since its
    receiver takes no lock before it listens and both ends give up with the context of
    the request. *)
From S2P Require Import Prelude Deal PayManager.

(** What a thread can hold: the mutex of a channel accessor, a share of the global lock,
    a claim to it that keeps readers out, all of it, the mutex of a request, and the
    mutex around [stop]. *)
Inductive token : Type :=
| Chan (key : string)
| GlobR
| Pending
| GlobW
| Req (id : nat)
| Stop.

#[export] Instance token_eq_dec : EqDecision token.
Proof. solve_decision. Defined.

(** [x] cannot be taken while [y] is held. *)
Definition blocks (x y : token) : bool :=
  match x, y with
  | Chan k, Chan k' => String.eqb k k'
  | GlobR, (Pending | GlobW) => true
  | Pending, (Pending | GlobW) => true
  | GlobW, (GlobR | GlobW) => true
  | Req i, Req j => Nat.eqb i j
  | Stop, Stop => true
  | _, _ => false
  end.

(** Shared data: [fundsReqQueue] of an accessor and the array behind it, [channels] of the
    manager, [active] and [merge] of a request, and what the store has of a channel. *)
Inductive cell : Type :=
| Queue (key : string)
| Slots (key : string)
| Cache
| Active (id : nat)
| Info (ci : string).

(** A channel: its identifier and its ends, as the store has them. *)
Record chan : Type := { c_ID : string; c_Control : address; c_Target : address }.

Definition key_of (c : chan) : string := channelCacheKey (c_Control c) (c_Target c).
Definition inbound_key (c : chan) : string := channelCacheKey (c_Target c) (c_Control c).

(** The methods of the manager. *)
Inductive op : Type :=
| OGetChannel (c : chan) (id : nat)
| OWaitForChannel (c : chan)
| OCreateVoucher (c : chan)
| OAllocateLane (c : chan)
| OChannelAvailableFunds (c : chan)
| OListChannels
| OListVouchers (c : chan)
| OGetChannelInfo (c : chan)
| OAddVoucherInbound (c : chan)
| OSubmitVoucher (c : chan)
| OSubmitAllVouchers (c : chan)
| OSettle (c : chan)
| OStartAutoCollect
| OCheckVoucherSpendable (c : chan).

(** The goroutines they start. *)
Inductive routine : Type :=
| RProcessQueue (key ci : string)
| RWaitForPaychCreateMsg (key ci : string)
| RWaitForAddFundsMsg (key ci : string)
| RMsgComplete (ci : string)
| RUnsubscribe
| RAwaitVoucher
| RCollectLoop.

(** What arguments, state, store and chain decide: a branch, the requests of a queue, the
    channels of a list, how often a loop runs. *)
Record choice : Type := {
  first : bool;
  requests : list nat;
  channels : list chan;
  times : nat
}.

(** What is left of an operation. *)
Inductive prog : Type :=
| Halt
| Acquire (x : token) (k : prog)
| Release (x : token) (k : prog)
| Access (write : bool) (c : cell) (k : prog)
| Wait (k : prog)
| Go (r : routine) (k : prog)
| Decide (k : choice → prog)
| TestStop (running stopped : prog)
| MakeStop (k : prog).

Definition either (p q : prog) : prog := Decide (λ c, if first c then p else q).
Definition read (c : cell) (k : prog) : prog := Access false c k.
Definition write (c : cell) (k : prog) : prog := Access true c k.

(** A loop over a list, and one that runs a number of times. *)
Definition each {A} (body : A → prog → prog) (k : prog) (l : list A) : prog := foldr body k l.
Definition repeatedly (body k : prog → prog) (done : prog) : prog :=
  Decide (λ c, Nat.iter (times c) body (k done)).

(** ** Locks *)

(** [multiLock]. *)
Definition Lock (key : string) (k : prog) : prog := Acquire (Chan key) (Acquire GlobR k).
Definition Unlock (key : string) (k : prog) : prog := Release GlobR (Release (Chan key) k).

(** [Lock] and [Unlock] of the global lock. *)
Definition WLock (k : prog) : prog := Acquire Pending (Acquire GlobW k).
Definition WUnlock (k : prog) : prog := Release GlobW (Release Pending k).

(** ** Requests *)

Definition isActive_steps (id : nat) (k : prog) : prog :=
  Acquire (Req id) (read (Active id) (Release (Req id) k)).
Definition setMergeParent_steps (id : nat) (k : prog) : prog :=
  Acquire (Req id) (write (Active id) (Release (Req id) k)).

(** Up to the first request of the merged ones that is active. *)
Definition checkActive_steps (key : string) (k : prog) : prog :=
  Decide (λ c, each (λ id k, read (Slots key) (isActive_steps id k)) k (requests c)).

Definition cancel_steps (key : string) (id : nat) (k : prog) : prog :=
  Acquire (Req id) (write (Active id) (Release (Req id) (either k (checkActive_steps key k)))).

(** ** Accessors *)

Definition channelByFromTo_steps (k : prog) : prog :=
  Acquire GlobR (read Cache (Release GlobR
    (either k (WLock (read Cache (either (WUnlock k) (write Cache (WUnlock k)))))))).

Definition channelByAddress_steps (c : chan) (k : prog) : prog :=
  Acquire GlobR (read (Info (c_ID c)) (Release GlobR
    (either Halt (channelByFromTo_steps k)))).

(** Found in the store; an error; not found, read from the chain and tracked. *)
Definition trackInboundChannel_steps (c : chan) (k : prog) : prog :=
  WLock (read (Info (c_ID c)) (either (WUnlock k) (either (WUnlock Halt)
    (read (Info (c_ID c)) (either (WUnlock Halt)
      (write (Info (c_ID c)) (read (Info (c_ID c)) (either (WUnlock k) (WUnlock Halt))))))))).

Definition inboundChannel_steps (c : chan) (k : prog) : prog :=
  trackInboundChannel_steps c (channelByFromTo_steps k).

(** ** The queue of an accessor *)

Definition mutateChannelInfo_steps (ci : string) (k : prog) : prog :=
  read (Info ci) (either k (write (Info ci) k)).

Definition currentAvailableFunds_steps (ci : string) (k : prog) : prog :=
  either k (read (Info ci) (either k (read (Info ci) k))).

Definition create_steps (key ci : string) (k : prog) : prog :=
  either k (write (Info ci) (either k (Go (RWaitForPaychCreateMsg key ci) k))).

Definition addFunds_steps (key ci : string) (k : prog) : prog :=
  either k (mutateChannelInfo_steps ci (write (Info ci) (Go (RWaitForAddFundsMsg key ci) k))).

(** Failing or waiting, creating the channel, or adding funds. *)
Definition processTask_steps (key ci : string) (k : prog) : prog :=
  read (Info ci) (either k (either (create_steps key ci k) (addFunds_steps key ci k))).

Definition filterQueue_steps (key : string) (k : prog) : prog :=
  read (Queue key) (either k (Decide (λ c,
    each (λ id k, read (Slots key) (isActive_steps id (either (write (Slots key) k) k)))
      (either (write (Slots key) (write (Queue key) k)) (write (Queue key) k)) (requests c)))).

(** [isActive] of the merged requests, to sum them up or to answer them. *)
Definition active_of (key : string) (reqs : list nat) (k : prog) : prog :=
  each (λ id k, read (Slots key) (isActive_steps id k)) k reqs.

(** The section ends with an empty queue; with nothing to add; with a task that waits;
    with the answers given. *)
Definition processQueue_steps (key ci : string) (k : prog) : prog :=
  let leave := currentAvailableFunds_steps ci (Unlock key k) in
  Lock key (filterQueue_steps key (read (Queue key) (either leave
    (Decide (λ c, each (λ id k, read (Slots key) (setMergeParent_steps id k))
      (checkActive_steps key (active_of key (requests c) (either leave
        (processTask_steps key ci (either leave
          (write (Queue key) (active_of key (requests c) leave))))))) (requests c)))))).

Definition enqueue_steps (key ci : string) (k : prog) : prog :=
  Lock key (read (Queue key) (write (Slots key) (write (Queue key)
    (Go (RProcessQueue key ci) (Unlock key k))))).

(** Answered, or given up. *)
Definition get_steps (key ci : string) (id : nat) (k : prog) : prog :=
  enqueue_steps key ci (Wait (either k (cancel_steps key id k))).

Definition msgWaitComplete_steps (key ci : string) (k : prog) : prog :=
  Lock key (write (Info ci) (repeatedly (Go (RMsgComplete ci)) (read (Queue key))
    (either (Go (RProcessQueue key ci) (Unlock key k)) (Unlock key k)))).

Definition waitPaychCreateMsg_steps (key ci : string) (k : prog) : prog :=
  Wait (either k (either (Lock key (write (Info ci) (Unlock key k)))
    (either k (Lock key (mutateChannelInfo_steps ci (Unlock key k)))))).

Definition waitAddFundsMsg_steps (key ci : string) (k : prog) : prog :=
  Wait (either k (Lock key (mutateChannelInfo_steps ci (Unlock key k)))).

(** ** Sections on the record of a channel *)

(** No record of the message; failed; received; in flight. *)
Definition getWaitReady_steps (key ci : string) (k : prog) : prog :=
  Lock key (read (Info ci) (either (Unlock key k) (either (Unlock key k)
    (either (Unlock key (read (Info ci) k)) (Go RUnsubscribe (Unlock key (Wait k))))))).

(** [listVouchers], [getChannelInfo], [checkVoucherSpendable] and [collect]. *)
Definition reading_steps (key ci : string) (k : prog) : prog :=
  Lock key (read (Info ci) (Unlock key k)).

(** [allocateLane], [submitVoucher] and [settle]. *)
Definition updating_steps (key ci : string) (k : prog) : prog :=
  Lock key (read (Info ci) (either (Unlock key k) (write (Info ci) (Unlock key k)))).

Definition addVoucherUnlocked_steps (ci : string) (k : prog) : prog :=
  read (Info ci) (either k (read (Info ci) (either k (write (Info ci) k)))).

Definition createVoucher_steps (key ci : string) (k : prog) : prog :=
  Lock key (read (Info ci) (either (Unlock key k) (addVoucherUnlocked_steps ci (Unlock key k)))).

(** ** Methods of the manager *)

Definition GetChannel_steps (c : chan) (id : nat) : prog :=
  let get := get_steps (key_of c) (c_ID c) id Halt in
  channelByFromTo_steps (read (Info (c_ID c))
    (either (processQueue_steps (key_of c) (c_ID c) (either Halt get)) get)).

Definition WaitForChannel_steps (c : chan) : prog :=
  WLock (read (Info (c_ID c)) (WUnlock
    (either Halt (channelByFromTo_steps (getWaitReady_steps (key_of c) (c_ID c) Halt))))).

Definition CreateVoucher_steps (c : chan) : prog :=
  channelByAddress_steps c (createVoucher_steps (key_of c) (c_ID c) Halt).

(** [AllocateLane]. *)
Definition AllocateLane_steps (c : chan) : prog :=
  channelByAddress_steps c (updating_steps (key_of c) (c_ID c) Halt).

Definition ChannelAvailableFunds_steps (c : chan) : prog :=
  channelByAddress_steps c (reading_steps (key_of c) (c_ID c)
    (either Halt (processQueue_steps (key_of c) (c_ID c) Halt))).

Definition ListChannels_steps : prog :=
  WLock (Decide (λ c, each (λ c, read (Info (c_ID c))) (WUnlock Halt) (channels c))).

(** [ListVouchers] and [GetChannelInfo]. *)
Definition lookup_steps (c : chan) : prog :=
  channelByAddress_steps c (reading_steps (key_of c) (c_ID c) Halt).

Definition AddVoucherInbound_steps (c : chan) : prog :=
  either Halt (inboundChannel_steps c (Lock (inbound_key c)
    (addVoucherUnlocked_steps (c_ID c) (Unlock (inbound_key c) Halt)))).

Definition SubmitVoucher_steps (c : chan) : prog :=
  either Halt (channelByAddress_steps c (updating_steps (key_of c) (c_ID c) Halt)).

Definition CheckVoucherSpendable_steps (c : chan) (k : prog) : prog :=
  either Halt (channelByAddress_steps c (reading_steps (key_of c) (c_ID c) k)).

(** The vouchers are listed and checked one by one, then the best are submitted one by
    one, and their messages awaited. *)
Definition SubmitAllVouchers_steps (c : chan) : prog :=
  channelByAddress_steps c (channelByAddress_steps c (reading_steps (key_of c) (c_ID c)
    (either Halt
      (repeatedly (λ k, CheckVoucherSpendable_steps c (either Halt k)) (either Halt)
        (repeatedly (λ k, updating_steps (key_of c) (c_ID c) (either k (Go RAwaitVoucher k)))
          Wait Halt))))).

(** The record is read and written again after the section, without a lock. *)
Definition Settle_steps (c : chan) : prog :=
  channelByAddress_steps c (updating_steps (key_of c) (c_ID c) (either Halt
    (Wait (either Halt (read (Info (c_ID c)) (either Halt (write (Info (c_ID c)) Halt))))))).

(** Each channel is skipped, or collected; an error ends the round.  The record of a
    channel that was collected is updated without a lock. *)
Definition collectForEpoch_steps (k : prog) : prog :=
  Decide (λ c, each (λ c, read (Info (c_ID c)))
    (each (λ c k', either k' (channelByFromTo_steps (reading_steps (key_of c) (c_ID c)
      (either k (Wait (either k (mutateChannelInfo_steps (c_ID c) k'))))))) k (channels c))
    (channels c)).

(** Returning while the loop runs does not release the mutex. *)
Definition collectLoop_steps : prog :=
  Acquire Stop (TestStop Halt (MakeStop (Release Stop (either Halt
    (repeatedly (λ k, Wait (collectForEpoch_steps k)) Wait Halt))))).

Definition call (o : op) : prog :=
  match o with
  | OGetChannel c id => GetChannel_steps c id
  | OWaitForChannel c => WaitForChannel_steps c
  | OCreateVoucher c => CreateVoucher_steps c
  | OAllocateLane c => AllocateLane_steps c
  | OChannelAvailableFunds c => ChannelAvailableFunds_steps c
  | OListChannels => ListChannels_steps
  | OListVouchers c | OGetChannelInfo c => lookup_steps c
  | OAddVoucherInbound c => AddVoucherInbound_steps c
  | OSubmitVoucher c => SubmitVoucher_steps c
  | OSubmitAllVouchers c => SubmitAllVouchers_steps c
  | OSettle c => Settle_steps c
  | OStartAutoCollect => either Halt (Go RCollectLoop Halt)
  | OCheckVoucherSpendable c => CheckVoucherSpendable_steps c Halt
  end.

(** The waiters of a message are told what became of it by a goroutine each. *)
Definition body (r : routine) : prog :=
  match r with
  | RProcessQueue key ci => processQueue_steps key ci Halt
  | RWaitForPaychCreateMsg key ci => waitPaychCreateMsg_steps key ci (msgWaitComplete_steps key ci Halt)
  | RWaitForAddFundsMsg key ci => waitAddFundsMsg_steps key ci (msgWaitComplete_steps key ci Halt)
  | RMsgComplete ci => either (Wait Halt) (read (Info ci) (Wait Halt))
  | RUnsubscribe | RAwaitVoucher => Wait Halt
  | RCollectLoop => collectLoop_steps
  end.

(** ** Threads *)

(** A thread: what it holds and what it has still to do. *)
Record thread : Type := Thread { held : list token; code : prog }.

(** The threads, and whether [stop] is set. *)
Record system : Type := System { pool : list thread; stop : bool }.

Definition start (p : prog) : thread := Thread [] p.
Definition init : system := System [] false.

(** Nobody holds what keeps [x] from being taken. *)
Definition free (s : system) (x : token) : bool :=
  bool_decide (Forall (λ th, Forall (λ y, blocks x y = false) (held th)) (pool s)).

(** What is held when [x] has been given back; giving back what is not held is fatal. *)
Fixpoint give_back (x : token) (h : list token) : option (list token) :=
  match h with
  | [] => None
  | y :: h' => if decide (x = y) then Some h' else (y ::.) <$> give_back x h'
  end.

(** The next step of a thread, if it has one and need not wait: what it holds then, what
    it has still to do, the goroutine it starts, and [stop]. *)
Definition act (s : system) (th : thread) (c : choice) : option (thread * list routine * bool) :=
  let on h p := Some (Thread h p, [], stop s) in
  match code th with
  | Halt | Wait _ => None
  | Acquire x k => if free s x then on (x :: held th) k else None
  | Release x k => h ← give_back x (held th); on h k
  | Access _ _ k => on (held th) k
  | Go r k => Some (Thread (held th) k, [r], stop s)
  | Decide k => on (held th) (k c)
  | TestStop running stopped => on (held th) (if stop s then running else stopped)
  | MakeStop k => Some (Thread (held th) k, [], true)
  end.

(** A thread goes on by itself; what a thread waits for happens; a method is called. *)
Inductive event : Type :=
| Work (t : nat) (c : choice)
| Happen (t : nat)
| Begin (o : op).

Definition step (s : system) (e : event) : option system :=
  match e with
  | Work t c =>
      th ← pool s !! t;
      '(th', rs, b) ← act s th c;
      Some (System (<[t := th']> (pool s) ++ (start ∘ body <$> rs)) b)
  | Happen t =>
      th ← pool s !! t;
      match code th with
      | Wait k => Some (System (<[t := Thread (held th) k]> (pool s)) (stop s))
      | _ => None
      end
  | Begin o => Some (System (pool s ++ [start (call o)]) (stop s))
  end.

Fixpoint run (s : system) (es : list event) : option system :=
  match es with [] => Some s | e :: es' => s' ← step s e; run s' es' end.

Definition works (s s' : system) : Prop := ∃ t c, step s (Work t c) = Some s'.
Definition reached (s : system) : Prop := ∃ es, run init es = Some s.

(** ** Discipline *)

Definition is_chan (x : token) : bool := match x with Chan _ => true | _ => false end.
Definition is_leaf (x : token) : bool := match x with Req _ | Stop => true | _ => false end.

(** Channel before global, global before requests; the global lock is claimed, and [stop]
    locked, with nothing held. *)
Definition allowed (h : list token) (x : token) : bool :=
  match x with
  | Chan _ | Pending | Stop => bool_decide (h = [])
  | GlobR => forallb is_chan h
  | GlobW => bool_decide (h = [Pending])
  | Req _ => negb (existsb is_leaf h)
  end.

(** The data a lock is for.  The records of channels are in the datastore and the array of
    a queue is read by [cancel]: no lock covers them. *)
Definition guarded (c : cell) : bool := match c with Slots _ | Info _ => false | _ => true end.

Definition covered (h : list token) (w : bool) (c : cell) : bool :=
  match c with
  | Queue key => bool_decide (Chan key ∈ h)
  | Cache => bool_decide (GlobW ∈ h) || negb w && bool_decide (GlobR ∈ h)
  | Active id => bool_decide (Req id ∈ h)
  | Slots _ | Info _ => true
  end.

(** Locks are taken in order, released in reverse and none is left at the end, but for
    the one of [collectLoop]; data is accessed under its lock, and nothing is held in a
    wait. *)
Fixpoint ok (h : list token) (p : prog) : Prop :=
  match p with
  | Halt => h = [] ∨ h = [Stop]
  | Acquire x k => allowed h x = true ∧ (x = Stop → p = collectLoop_steps) ∧ ok (x :: h) k
  | Release x k => ∃ h', h = x :: h' ∧ ok h' k
  | Access w c k => covered h w c = true ∧ ok h k
  | Wait k => h = [] ∧ ok [] k
  | Go _ k | MakeStop k => ok h k
  | Decide k => ∀ c, ok h (k c)
  | TestStop running stopped => ok h running ∧ ok h stopped
  end.

Lemma ok_either h p q : ok h p → ok h q → ok h (either p q).
Proof. intros Hp Hq c. by destruct (first c). Qed.

Lemma ok_each {A} h (body : A → prog → prog) k l :
  (∀ a k, ok h k → ok h (body a k)) → ok h k → ok h (each body k l).
Proof. intros Hb Hk. induction l as [|a l IH]; [done|]. by apply Hb. Qed.

Lemma ok_repeatedly h body k done :
  (∀ k, ok h k → ok h (body k)) → ok h (k done) → ok h (repeatedly body k done).
Proof. intros Hb Hk c. simpl. induction (times c) as [|n IH]; [done|]. by apply Hb. Qed.

Lemma ok_Lock key k : ok [GlobR; Chan key] k → ok [] (Lock key k).
Proof. intros Hk. by repeat split. Qed.
Lemma ok_Unlock key k : ok [] k → ok [GlobR; Chan key] (Unlock key k).
Proof. intros Hk. eexists. split; [done|]. by eexists. Qed.
Lemma ok_WLock k : ok [GlobW; Pending] k → ok [] (WLock k).
Proof. intros Hk. by repeat split. Qed.
Lemma ok_WUnlock k : ok [] k → ok [GlobW; Pending] (WUnlock k).
Proof. intros Hk. eexists. split; [done|]. by eexists. Qed.

(** The records of channels may be accessed at any time, goroutines started too. *)
Lemma ok_Info h w ci k : ok h k → ok h (Access w (Info ci) k).
Proof. done. Qed.
Lemma ok_Slots h w key k : ok h k → ok h (Access w (Slots key) k).
Proof. done. Qed.
Lemma ok_Go h r k : ok h k → ok h (Go r k).
Proof. done. Qed.
Lemma ok_Halt : ok [] Halt.
Proof. by left. Qed.
Lemma ok_Wait k : ok [] k → ok [] (Wait k).
Proof. done. Qed.
Lemma ok_Queue key w k : ok [GlobR; Chan key] k → ok [GlobR; Chan key] (Access w (Queue key) k).
Proof. intros Hk. split; [|done]. simpl. apply bool_decide_eq_true. set_solver. Qed.

(** A section of a request can be anywhere but in another one. *)
Lemma ok_isActive h id k : existsb is_leaf h = false → ok h k → ok h (isActive_steps id k).
Proof.
  intros Hh Hk. simpl. rewrite Hh. repeat split; try done.
  - by rewrite bool_decide_eq_true_2 by set_solver.
  - by eexists.
Qed.

Lemma ok_setMergeParent h id k : existsb is_leaf h = false → ok h k → ok h (setMergeParent_steps id k).
Proof.
  intros Hh Hk. simpl. rewrite Hh. repeat split; try done.
  - by rewrite bool_decide_eq_true_2 by set_solver.
  - by eexists.
Qed.

Lemma ok_active_of h key reqs k : existsb is_leaf h = false → ok h k → ok h (active_of key reqs k).
Proof. intros Hh Hk. apply ok_each; [|done]. intros id k' Hk'. apply ok_Slots. by apply ok_isActive. Qed.

Lemma ok_checkActive h key k : existsb is_leaf h = false → ok h k → ok h (checkActive_steps key k).
Proof. intros Hh Hk c. by apply ok_active_of. Qed.

Lemma ok_cancel key id k : ok [] k → ok [] (cancel_steps key id k).
Proof.
  intros Hk. simpl. repeat split; try done.
  - by rewrite bool_decide_eq_true_2 by set_solver.
  - eexists. split; [done|]. apply ok_either; [done|]. by apply ok_checkActive.
Qed.

(** Takes a program apart up to the rest of the operation. *)
Ltac lock_step :=
  lazymatch goal with
  | |- ok _ Halt => apply ok_Halt
  | |- ok _ (read (Queue _) _) => apply ok_Queue
  | |- ok _ (write (Queue _) _) => apply ok_Queue
  | |- ok _ (read (Slots _) _) => apply ok_Slots
  | |- ok _ (write (Slots _) _) => apply ok_Slots
  | |- ok _ (read (Info _) _) => apply ok_Info
  | |- ok _ (write (Info _) _) => apply ok_Info
  | |- ok _ (Go _ _) => apply ok_Go
  | |- ok _ (Wait _) => apply ok_Wait
  | |- ok _ (Lock _ _) => apply ok_Lock
  | |- ok _ (Unlock _ _) => apply ok_Unlock
  | |- ok _ (WLock _) => apply ok_WLock
  | |- ok _ (WUnlock _) => apply ok_WUnlock
  | |- ok _ (either _ _) => apply ok_either
  | |- ok _ (Decide _) => intros ?
  | |- ok _ (each _ _ _) => apply ok_each; [intros ? ? ?|]
  | |- ok _ (repeatedly _ _ _) => apply ok_repeatedly; [intros ? ?|]
  | |- ok _ (isActive_steps _ _) => apply ok_isActive; [done|]
  | |- ok _ (setMergeParent_steps _ _) => apply ok_setMergeParent; [done|]
  | |- ok _ (active_of _ _ _) => apply ok_active_of; [done|]
  | |- ok _ (checkActive_steps _ _) => apply ok_checkActive; [done|]
  | |- ok _ (cancel_steps _ _ _) => apply ok_cancel
  end.
Ltac lock_steps := cbv zeta; repeat (first [assumption | lock_step]; cbv beta zeta).

Lemma ok_channelByFromTo k : ok [] k → ok [] (channelByFromTo_steps k).
Proof.
  intros Hk. unfold channelByFromTo_steps. repeat split; try done.
  eexists. split; [done|]. apply ok_either; [done|]. apply ok_WLock.
  repeat split; try done. apply ok_either; [by apply ok_WUnlock|]. repeat split; try done. by apply ok_WUnlock.
Qed.

Lemma ok_channelByAddress c k : ok [] k → ok [] (channelByAddress_steps c k).
Proof.
  intros Hk. unfold channelByAddress_steps. repeat split; try done.
  eexists. split; [done|]. apply ok_either; [apply ok_Halt|]. by apply ok_channelByFromTo.
Qed.

Lemma ok_inboundChannel c k : ok [] k → ok [] (inboundChannel_steps c k).
Proof.
  intros Hk. assert (ok [] (channelByFromTo_steps k)) by by apply ok_channelByFromTo.
  unfold inboundChannel_steps, trackInboundChannel_steps. lock_steps.
Qed.

Lemma ok_processQueue key ci k : ok [] k → ok [] (processQueue_steps key ci k).
Proof.
  intros Hk. unfold processQueue_steps, currentAvailableFunds_steps, filterQueue_steps, processTask_steps,
    create_steps, addFunds_steps, mutateChannelInfo_steps.
  lock_steps.
Qed.

Lemma ok_get key ci id k : ok [] k → ok [] (get_steps key ci id k).
Proof. intros Hk. unfold get_steps, enqueue_steps. lock_steps. Qed.

Lemma ok_msgWaitComplete key ci k : ok [] k → ok [] (msgWaitComplete_steps key ci k).
Proof. intros Hk. unfold msgWaitComplete_steps. lock_steps. Qed.

Lemma ok_getWaitReady key ci k : ok [] k → ok [] (getWaitReady_steps key ci k).
Proof. intros Hk. unfold getWaitReady_steps. lock_steps. Qed.

Lemma ok_reading key ci k : ok [] k → ok [] (reading_steps key ci k).
Proof. intros Hk. unfold reading_steps. lock_steps. Qed.

Lemma ok_updating key ci k : ok [] k → ok [] (updating_steps key ci k).
Proof. intros Hk. unfold updating_steps. lock_steps. Qed.

Lemma ok_addVoucherUnlocked h ci k : ok h k → ok h (addVoucherUnlocked_steps ci k).
Proof. intros Hk. unfold addVoucherUnlocked_steps. lock_steps. Qed.

Lemma ok_CheckVoucherSpendable c k : ok [] k → ok [] (CheckVoucherSpendable_steps c k).
Proof. intros Hk. apply ok_either; [apply ok_Halt|]. by apply ok_channelByAddress, ok_reading. Qed.

Ltac operation_step :=
  lazymatch goal with
  | |- ok _ (channelByFromTo_steps _) => apply ok_channelByFromTo
  | |- ok _ (channelByAddress_steps _ _) => apply ok_channelByAddress
  | |- ok _ (inboundChannel_steps _ _) => apply ok_inboundChannel
  | |- ok _ (processQueue_steps _ _ _) => apply ok_processQueue
  | |- ok _ (get_steps _ _ _ _) => apply ok_get
  | |- ok _ (getWaitReady_steps _ _ _) => apply ok_getWaitReady
  | |- ok _ (msgWaitComplete_steps _ _ _) => apply ok_msgWaitComplete
  | |- ok _ (reading_steps _ _ _) => apply ok_reading
  | |- ok _ (updating_steps _ _ _) => apply ok_updating
  | |- ok _ (addVoucherUnlocked_steps _ _) => apply ok_addVoucherUnlocked
  | |- ok _ (CheckVoucherSpendable_steps _ _) => apply ok_CheckVoucherSpendable
  end.
Ltac operation_steps := cbv zeta; repeat (first [assumption | lock_step | operation_step]; cbv beta zeta).

Lemma ok_call o : ok [] (call o).
Proof.
  destruct o; unfold call, GetChannel_steps, WaitForChannel_steps, CreateVoucher_steps, createVoucher_steps,
    AllocateLane_steps, ChannelAvailableFunds_steps, lookup_steps,
    AddVoucherInbound_steps, SubmitVoucher_steps, SubmitAllVouchers_steps, Settle_steps,
    ListChannels_steps; operation_steps.
Qed.

Lemma ok_collectForEpoch k : ok [] k → ok [] (collectForEpoch_steps k).
Proof. intros Hk c. unfold mutateChannelInfo_steps. operation_steps. Qed.

Lemma ok_body r : ok [] (body r).
Proof.
  destruct r; unfold body, waitPaychCreateMsg_steps, waitAddFundsMsg_steps, mutateChannelInfo_steps;
    operation_steps.
  repeat split; [by right|]. eexists. split; [done|]. apply ok_either; [apply ok_Halt|].
  lock_steps. by apply ok_collectForEpoch.
Qed.

(** ** Invariant *)

Definition excludes (x y : token) : bool := blocks x y && blocks y x.

(** Two tokens of different threads never stand in each other's way. *)
Record disciplined (s : system) : Prop := {
  all_ok : ∀ t th, pool s !! t = Some th → ok (held th) (code th);
  apart : ∀ t1 t2 th1 th2 x y, t1 ≠ t2 → pool s !! t1 = Some th1 → pool s !! t2 = Some th2 →
    x ∈ held th1 → y ∈ held th2 → excludes x y = false
}.

Lemma free_spec s x t th y : free s x = true → pool s !! t = Some th → y ∈ held th → blocks x y = false.
Proof.
  intros Hf Hp Hy. apply bool_decide_eq_true in Hf. eapply Forall_lookup_1 in Hf; [|done].
  by eapply Forall_forall in Hf.
Qed.

Lemma not_free_spec s x : free s x = false → ∃ t th y, pool s !! t = Some th ∧ y ∈ held th ∧ blocks x y = true.
Proof.
  intros Hf%bool_decide_eq_false. apply not_Forall_Exists, Exists_exists in Hf as (th & Hin & Hf); [|intros ?; apply _].
  apply not_Forall_Exists, Exists_exists in Hf as (y & Hy & Hb); [|intros ?; apply _].
  apply list_elem_of_lookup_1 in Hin as [t Ht]. exists t, th, y.
  split_and!; [done..|]. by apply not_false_iff_true.
Qed.

Lemma excludes_sym x y : excludes x y = excludes y x.
Proof. unfold excludes. apply andb_comm. Qed.

(** What a step of a thread leaves it with, and what it newly holds was free. *)
Lemma act_ok s th c th' rs b :
  ok (held th) (code th) → act s th c = Some (th', rs, b) →
  ok (held th') (code th') ∧ ∀ x, x ∈ held th' → x ∈ held th ∨ free s x = true.
Proof.
  destruct th as [h p]. simpl. intros Hok Ha. unfold act in Ha. simpl in Ha.
  destruct p as [|x k|x k|w d k|k|r k|k|p q|k]; simplify_option_eq; simpl in *; try (by intuition).
  - destruct (free s x) eqn:Hf; simplify_eq/=. split; [tauto|]. intros y [->|Hy]%elem_of_cons; auto.
  - destruct Hok as (h' & -> & Hok). simpl in *. rewrite decide_True in * by done. simplify_eq.
    split; [done|]. set_solver.
  - destruct Hok. destruct (stop s); split; auto.
Qed.

(** A thread changes and others start, holding nothing. *)
Lemma disciplined_update s t th th' ps b :
  disciplined s → pool s !! t = Some th → ok (held th') (code th') → (∀ p, p ∈ ps → ok [] p) →
  (∀ x, x ∈ held th' → x ∈ held th ∨ free s x = true) →
  disciplined (System (<[t := th']> (pool s) ++ (start <$> ps)) b).
Proof.
  intros [Hok Hap] Ht Hok' Hps Hnew.
  assert (Hlk : ∀ i u, (<[t := th']> (pool s) ++ (start <$> ps)) !! i = Some u →
    i = t ∧ u = th' ∨ i ≠ t ∧ pool s !! i = Some u ∨ held u = [] ∧ ok [] (code u)).
  { intros i u Hi. apply lookup_app_Some in Hi as [Hi|[_ Hi]].
    - apply list_lookup_insert_Some in Hi as [(-> & -> & _)|[Hne Hi]]; eauto.
    - apply list_lookup_fmap_Some in Hi as (p & -> & Hp%list_elem_of_lookup_2). right; right. by split; [|apply Hps]. }
  assert (Hex : ∀ i u x y, i ≠ t → pool s !! i = Some u → x ∈ held th' → y ∈ held u → excludes x y = false).
  { intros i u x y Hi Hu Hx Hy. destruct (Hnew x Hx) as [Hx'|Hf]; [by eapply (Hap t i)|].
    unfold excludes. by rewrite (free_spec _ _ _ _ _ Hf Hu Hy). }
  split.
  - intros i u [[-> ->]|[[_ Hu]|[-> Hu]]]%Hlk; eauto.
  - intros i j u v x y Hij Hi Hj Hx Hy.
    apply Hlk in Hi as [[-> ->]|[[Hi Hu]|[Hu _]]]; [| |by rewrite Hu in Hx; apply elem_of_nil in Hx].
    + apply Hlk in Hj as [[-> ->]|[[Hj Hv]|[Hv _]]]; [done|eauto|by rewrite Hv in Hy; apply elem_of_nil in Hy].
    + apply Hlk in Hj as [[-> ->]|[[Hj Hv]|[Hv _]]]; [|eauto|by rewrite Hv in Hy; apply elem_of_nil in Hy].
      rewrite excludes_sym. eauto.
Qed.

Lemma step_disciplined s e s' : disciplined s → step s e = Some s' → disciplined s'.
Proof.
  intros Hd Hs. pose proof Hd as [Hok Hap]. destruct e as [t c|t|o]; simpl in Hs.
  - destruct (pool s !! t) as [th|] eqn:Ht; [|done]. simpl in Hs.
    destruct (act s th c) as [[[th' rs] b]|] eqn:Ha; [|done]. simplify_eq/=.
    destruct (act_ok _ _ _ _ _ _ (Hok _ _ Ht) Ha) as [Hok' Hnew].
    rewrite list_fmap_compose. eapply disciplined_update; eauto.
    intros q (r & -> & _)%list_elem_of_fmap. apply ok_body.
  - destruct (pool s !! t) as [th|] eqn:Ht; [|done]. simpl in Hs. destruct (code th) eqn:Hc; simplify_eq.
    pose proof (Hok _ _ Ht) as Hw. rewrite Hc in Hw. destruct Hw as [Hh Hw].
    rewrite <- (app_nil_r (<[t:=_]> _)). apply (disciplined_update s t th _ [] (stop s)); simpl; rewrite ?Hh; try done.
    all: intros q Hq; by apply elem_of_nil in Hq.
  - simplify_eq. split; simpl.
    + intros t th [Ht|[_ Ht]]%lookup_app_Some; [eauto|].
      apply list_lookup_singleton_Some in Ht as [_ <-]. apply ok_call.
    + intros i j u v x y Hij [Hi|[Hi0 Hi]]%lookup_app_Some [Hj|[Hj0 Hj]]%lookup_app_Some Hx Hy; [eauto|..].
      all: repeat match goal with H : [_] !! _ = Some _ |- _ => apply list_lookup_singleton_Some in H as [? <-] end.
      all: simpl in *; by (apply elem_of_nil in Hx || apply elem_of_nil in Hy).
Qed.

Lemma reached_disciplined s : reached s → disciplined s.
Proof.
  intros [es Hes]. assert (Hi : disciplined init) by (split; simpl; intros; by rewrite lookup_nil in *).
  revert Hi Hes. generalize init. induction es as [|e es IH]; intros s0 Hd Hr; simpl in Hr; [by simplify_eq|].
  destruct (step s0 e) as [s1|] eqn:Hs; [|done]. simpl in Hr. eauto using step_disciplined.
Qed.

(** What covers two accesses to the same guarded data, one of them a write, excludes. *)
Lemma covered_conflict h1 h2 w1 w2 c :
  guarded c = true → covered h1 w1 c = true → covered h2 w2 c = true → w1 || w2 = true →
  ∃ x y, x ∈ h1 ∧ y ∈ h2 ∧ excludes x y = true.
Proof.
  intros Hg H1 H2 Hw. destruct c as [key|key| |id|ci]; try done; simpl in *.
  - exists (Chan key), (Chan key). unfold excludes. simpl. rewrite String.eqb_refl. by case_bool_decide; case_bool_decide.
  - destruct w1, w2; simpl in *; try done; repeat case_bool_decide; try done; eauto.
  - exists (Req id), (Req id). unfold excludes. simpl. rewrite Nat.eqb_refl. by case_bool_decide; case_bool_decide.
Qed.

(** ** Termination *)

(** What a thread leads to by itself: the rest of it, and the goroutine it starts. *)
Definition leads (q p : prog) : Prop :=
  ∃ s h c th rs b, act s (Thread h p) c = Some (th, rs, b) ∧ (q = code th ∨ ∃ r, r ∈ rs ∧ q = body r).

Definition ends : prog → Prop := Acc leads.

(** The goroutines started up to a wait are below [n]. *)
Definition rank (r : routine) : nat := match r with RProcessQueue _ _ => 1 | _ => 0 end.

Fixpoint below (n : nat) (p : prog) : Prop :=
  match p with
  | Halt | Wait _ => True
  | Acquire _ k | Release _ k | Access _ _ k | MakeStop k => below n k
  | Go r k => rank r < n ∧ below n k
  | Decide k => ∀ c, below n (k c)
  | TestStop p q => below n p ∧ below n q
  end%nat.

Lemma below_ends n p : (∀ r, (rank r < n)%nat → ends (body r)) → below n p → ends p.
Proof.
  intros Hr. induction p as [|x k IH|x k IH|w d k IH|k IH|r k IH|k IH|p IHp q IHq|k IH]; intros Hb;
    constructor; intros p' (s & h & c & th & rs & b & Ha & Hp'); unfold act in Ha; simplify_option_eq;
    try (destruct Hp' as [->|(r' & Hr' & _)]; [by apply IH|by apply elem_of_nil in Hr']).
  - destruct (free s x); simplify_eq. destruct Hp' as [->|(r' & Hr' & _)]; [by apply IH|by apply elem_of_nil in Hr'].
  - destruct Hb as [Hlt Hb]. destruct Hp' as [->|(r' & Hr' & ->)]; [by apply IH|].
    apply list_elem_of_singleton in Hr' as ->. by apply Hr.
  - destruct Hp' as [->|(r' & Hr' & _)]; [|by apply elem_of_nil in Hr'].
    destruct Hb. simpl. destruct (stop s); [by apply IHp|by apply IHq].
Qed.

Lemma below_either n p q : below n p → below n q → below n (either p q).
Proof. intros Hp Hq c. by destruct (first c). Qed.

Lemma below_each {A} n (f : A → prog → prog) k l :
  (∀ a k, below n k → below n (f a k)) → below n k → below n (each f k l).
Proof. intros Hf Hk. induction l as [|a l IH]; [done|]. by apply Hf. Qed.

Lemma below_repeatedly n f k done :
  (∀ k, below n k → below n (f k)) → below n (k done) → below n (repeatedly f k done).
Proof. intros Hf Hk c. simpl. induction (times c) as [|m IH]; [done|]. by apply Hf. Qed.

Ltac below_step :=
  lazymatch goal with
  | |- below _ (either _ _) => apply below_either
  | |- below _ (each _ _ _) => apply below_each; [intros ? ? ?|]
  | |- below _ (active_of _ _ _) => apply below_each; [intros ? ? ?|]
  | |- below _ (repeatedly _ _ _) => apply below_repeatedly; [intros ? ?|]
  | |- below _ (Decide _) => intros ?
  | |- below ?n (read _ ?k) => change (below n k)
  | |- below ?n (write _ ?k) => change (below n k)
  | |- below _ (Wait _) => exact I
  | |- below _ Halt => exact I
  | |- below _ (Go _ _) => split; [simpl; lia|]
  | |- below _ (TestStop _ _) => split
  | |- below ?n (Acquire _ ?k) => change (below n k)
  | |- below ?n (Release _ ?k) => change (below n k)
  | |- below ?n (MakeStop ?k) => change (below n k)
  | |- below _ ?p => let f := get_head p in unfold f
  end.
Ltac below_steps := repeat (cbv beta zeta; first [assumption | below_step]).

Lemma below_body r : below (rank r) (body r).
Proof. destruct r; cbn [rank body]; below_steps. Qed.

Lemma body_ends r : ends (body r).
Proof.
  assert (H : ∀ n r, (rank r < n)%nat → ends (body r)) by
    (induction n as [|n IH]; [lia|]; intros r' Hr; apply (below_ends (rank r')); [intros; apply IH; lia|apply below_body]).
  apply (H (S (rank r))). lia.
Qed.

Lemma prog_ends p : ends p.
Proof.
  apply (below_ends 2); [intros r _; apply body_ends|].
  induction p as [|x k IH|x k IH|w d k IH|k IH|r k IH|k IH|p IHp q IHq|k IH]; simpl; auto.
  split; [destruct r; simpl; lia|done].
Qed.

(** A pool in which one program at a time is replaced by what it leads to. *)
Definition advances (l' l : list prog) : Prop :=
  ∃ p ps rest, l ≡ₚ p :: rest ∧ l' ≡ₚ ps ++ rest ∧ ∀ q, q ∈ ps → leads q p.

Lemma advances_Permutation l1 l2 : l1 ≡ₚ l2 → Acc advances l1 → Acc advances l2.
Proof.
  intros Hl Ha. constructor. intros l' (p & ps & rest & Hp & Hl' & Hq). apply Ha. exists p, ps, rest. by rewrite Hl.
Qed.

Lemma advances_nil : Acc advances [].
Proof. constructor. intros l' (p & ps & rest & Hp & _). by apply Permutation_nil_cons in Hp. Qed.

(** A program that ends can be added. *)
Lemma advances_cons p : ends p → ∀ l, Acc advances l → Acc advances (p :: l).
Proof.
  induction 1 as [p _ IHp]. intros l Hl. pose proof Hl as Hl0. induction Hl as [l _ IHl]. constructor.
  intros l' (q & qs & rest & Hq & Hl' & Hqs).
  assert (Hin : q ∈ p :: l) by (rewrite Hq; set_solver). apply elem_of_cons in Hin as [->|Hin].
  - apply Permutation_cons_inv in Hq. apply (advances_Permutation (qs ++ l)); [by rewrite Hl', Hq|].
    clear Hl'. induction qs as [|q qs IH]; [done|]. simpl. apply IHp; [apply Hqs; set_solver|].
    apply IH. set_solver.
  - apply elem_of_Permutation in Hin as [l2 Hl2].
    assert (Hrest : rest ≡ₚ p :: l2).
    { apply (Permutation_cons_inv (a:=q)). rewrite <- Hq, Hl2. apply Permutation_swap. }
    apply (advances_Permutation (p :: qs ++ l2)).
    { rewrite Hl', Hrest. by rewrite Permutation_middle. }
    assert (Ha : advances (qs ++ l2) l) by (exists q, qs, l2; by rewrite Hl2).
    apply IHl; [done|]. by apply Acc_inv with l.
Qed.

Lemma pool_ends l : Acc advances l.
Proof. induction l as [|p l IH]; [apply advances_nil|]. apply advances_cons; [apply prog_ends|done]. Qed.

Lemma works_advances s s' : works s s' → advances (code <$> pool s') (code <$> pool s).
Proof.
  intros (t & c & Hs). simpl in Hs. destruct (pool s !! t) as [th|] eqn:Ht; [|done]. simpl in Hs.
  destruct (act s th c) as [[[th' rs] b]|] eqn:Ha; [|done]. simplify_eq/=.
  apply take_drop_middle in Ht as Hsplit.
  exists (code th), (code th' :: (body <$> rs)), (code <$> (take t (pool s) ++ drop (S t) (pool s))).
  split_and!.
  - rewrite <- Hsplit at 1. by rewrite !fmap_app, fmap_cons, Permutation_middle.
  - rewrite insert_take_drop by by eapply lookup_lt_Some. rewrite !fmap_app, fmap_cons. simpl.
    rewrite <- list_fmap_compose. change (code ∘ (start ∘ body) <$> rs) with (body <$> rs). solve_Permutation.
  - intros q Hq. exists s, (held th), c, th', rs, b. split; [by destruct th|].
    apply elem_of_cons in Hq as [->|(r & -> & Hr)%list_elem_of_fmap]; eauto.
Qed.

Lemma works_end s : Acc (λ s1 s2, works s2 s1) s.
Proof.
  generalize (pool_ends (code <$> pool s)). remember (code <$> pool s) as l eqn:Hl. intros Ha. revert s Hl.
  induction Ha as [l _ IH]. intros s ->. constructor. intros s' Hw. by eapply IH; [apply works_advances|].
Qed.

(** ** Progress *)

Definition stuck (s : system) : Prop := ∀ s', ¬ works s s'.
Definition wants (s : system) (x : token) : Prop := ∃ t th k, pool s !! t = Some th ∧ code th = Acquire x k.

(** What can be waited for while [y] is held. *)
Definition after (y x : token) : bool :=
  match x with
  | GlobR => is_chan y
  | GlobW => bool_decide (y = Pending)
  | Req _ => negb (is_leaf y)
  | _ => false
  end.

Lemma allowed_after h x y : allowed h x = true → y ∈ h → after y x = true.
Proof.
  destruct x as [k| | | |i|]; simpl; intros Ha Hy;
    try (apply bool_decide_eq_true in Ha as ->; by apply elem_of_nil in Hy).
  - rewrite forallb_forall in Ha. by apply Ha, list_elem_of_In.
  - apply bool_decide_eq_true in Ha as ->. apply list_elem_of_singleton in Hy as ->. done.
  - apply negb_true_iff. apply negb_true_iff, not_true_iff_false in Ha. apply not_true_iff_false.
    intros Hl. apply Ha, existsb_exists. exists y. by rewrite <- list_elem_of_In.
Qed.

(** Where a thread of a stuck system is. *)
Lemma stuck_thread s t th :
  disciplined s → stuck s → pool s !! t = Some th →
  (code th = Halt ∧ (held th = [] ∨ held th = [Stop])) ∨ ((∃ k, code th = Wait k) ∧ held th = []) ∨
  ∃ x k, code th = Acquire x k ∧ free s x = false ∧ allowed (held th) x = true.
Proof.
  intros Hd Hs Ht. pose proof (all_ok _ Hd _ _ Ht) as Hok.
  assert (Hact : ∀ th' rs b, act s th (Build_choice true [] [] 0) = Some (th', rs, b) → False).
  { intros th' rs b Ha. eapply (Hs (System (<[t := th']> (pool s) ++ (start ∘ body <$> rs)) b)).
    exists t, (Build_choice true [] [] 0). simpl. rewrite Ht. simpl. by rewrite Ha. }
  unfold act in Hact. destruct (code th) as [|x k|x k|w d k|k|r k|k|p q|k] eqn:Hc; simpl in *; try (by edestruct Hact).
  - auto.
  - destruct Hok as (Ha & _ & _). right; right. exists x, k. destruct (free s x); [by edestruct Hact|done].
  - destruct Hok as (h & Hh & _). rewrite Hh in Hact. simpl in Hact. rewrite decide_True in Hact by done.
    by edestruct Hact.
  - destruct Hok. right; left. eauto.
Qed.

(** A holder of [y] waits for something that comes after it, or has kept [stop]. *)
Lemma stuck_holder s t th y :
  disciplined s → stuck s → pool s !! t = Some th → y ∈ held th →
  (y = Stop ∧ th = Thread [Stop] Halt) ∨ ∃ x, wants s x ∧ after y x = true.
Proof.
  intros Hd Hs Ht Hy. destruct (stuck_thread _ _ _ Hd Hs Ht) as [[Hc [Hh|Hh]]|[[_ Hh]|(x & k & Hc & _ & Ha)]].
  - rewrite Hh in Hy. by apply elem_of_nil in Hy.
  - left. rewrite Hh in Hy. apply list_elem_of_singleton in Hy as ->. by destruct th; simplify_eq/=.
  - rewrite Hh in Hy. by apply elem_of_nil in Hy.
  - right. exists x. split; [by exists t, th, k|]. by eapply allowed_after.
Qed.

Lemma stuck_wants s x :
  disciplined s → stuck s → wants s x →
  (∃ t, pool s !! t = Some (Thread [Stop] Halt) ∧ x = Stop) ∨
  ∃ y z, blocks x y = true ∧ wants s z ∧ after y z = true.
Proof.
  intros Hd Hs (t & th & k & Ht & Hc).
  destruct (stuck_thread _ _ _ Hd Hs Ht) as [[Hc' _]|[[[k' Hc'] _]|(x' & k' & Hc' & Hf & _)]];
    rewrite Hc in Hc'; simplify_eq.
  apply not_free_spec in Hf as (t' & th' & y & Ht' & Hy & Hb).
  destruct (stuck_holder _ _ _ _ Hd Hs Ht' Hy) as [[-> ->]|(z & Hz & Ha)]; [|by right; exists y, z].
  left. exists t'. by destruct x'.
Qed.

(** So only [stop] can be waited for, and only if it was kept. *)
Lemma stuck_stop s x :
  disciplined s → stuck s → wants s x → x = Stop ∧ ∃ t, pool s !! t = Some (Thread [Stop] Halt).
Proof.
  intros Hd Hs.
  assert (Hreq : ∀ i, ¬ wants s (Req i)).
  { intros i Hw. destruct (stuck_wants _ _ Hd Hs Hw) as [(t & _ & [=])|(y & z & Hb & Hz & Ha)].
    destruct y, z; simpl in *; done. }
  assert (Hw : ¬ wants s GlobW).
  { intros Hw. destruct (stuck_wants _ _ Hd Hs Hw) as [(t & _ & [=])|(y & z & Hb & Hz & Ha)].
    destruct y, z; simpl in *; try done; by eapply Hreq. }
  assert (Hr : ∀ y, y = GlobR ∨ y = Pending → ¬ wants s y).
  { intros x' Hx Hw'. destruct (stuck_wants _ _ Hd Hs Hw') as [(t & _ & ->)|(y & z & Hb & Hz & Ha)]; [by destruct Hx|].
    destruct Hx as [-> | ->], y, z; simpl in *; try done; by (eapply Hreq || apply Hw). }
  intros Hx. destruct (stuck_wants _ _ Hd Hs Hx) as [(t & Ht & ->)|(y & z & Hb & Hz & Ha)]; [eauto|].
  exfalso. destruct z; simpl in Ha; try done.
  - eapply Hr; [|exact Hz]. auto.
  - by eapply Hreq.
Qed.

(** ** Properties *)

(** C16: However calls and goroutines are interleaved, no two threads are ever about to
    access the same queue, the cache of accessors or the same request, one of them to
    write: each of these is accessed under its lock by every operation. *)
Theorem accesses_exclude s t1 t2 h1 h2 w1 w2 c k1 k2 :
  reached s → t1 ≠ t2 → guarded c = true →
  pool s !! t1 = Some (Thread h1 (Access w1 c k1)) → pool s !! t2 = Some (Thread h2 (Access w2 c k2)) →
  w1 = false ∧ w2 = false.
Proof.
  intros Hr Hne Hg H1 H2. apply reached_disciplined in Hr as [Hok Hap]. apply orb_false_iff, not_true_iff_false.
  intros Hw. destruct (Hok _ _ H1) as [Hc1 _], (Hok _ _ H2) as [Hc2 _].
  destruct (covered_conflict _ _ _ _ _ Hg Hc1 Hc2 Hw) as (x & y & Hx & Hy & He).
  by rewrite (Hap _ _ _ _ _ _ Hne H1 H2 Hx Hy) in He.
Qed.

(** C17: The locks never deadlock, but for the one [collectLoop] keeps.  From any reachable
    state, threads go on for finitely many steps without waiting for anything but locks;
    when none can go on, each has finished, or waits for the chain, a timer or an answer
    with no lock held, or is a collection loop that waits for the lock which another one
    kept when it returned because the loop was running. *)
Theorem locks_finish s :
  reached s →
  Acc (λ s1 s2, works s2 s1) s ∧
  ((∀ s', ¬ works s s') → Forall (λ th,
     th = Thread [] Halt ∨ th = Thread [Stop] Halt ∨ (∃ k, th = Thread [] (Wait k)) ∨
     th = start (body RCollectLoop) ∧ Thread [Stop] Halt ∈ pool s) (pool s)).
Proof.
  intros Hr%reached_disciplined. split; [apply works_end|]. intros Hs. apply Forall_lookup_2. intros t th Ht.
  destruct (stuck_thread _ _ _ Hr Hs Ht) as [[Hc [Hh|Hh]]|[[[k Hc] Hh]|(x & k & Hc & Hf & Ha)]];
    [destruct th; simplify_eq/=; eauto..|].
  destruct (stuck_stop s x Hr Hs) as [-> [t' Ht']]; [by exists t, th, k|].
  right; right; right. pose proof (all_ok _ Hr _ _ Ht) as Hok. rewrite Hc in Hok. destruct Hok as (_ & Hp & _).
  apply bool_decide_eq_true in Ha. split; [|by eapply list_elem_of_lookup_2].
  destruct th as [h p]; simpl in *. rewrite Ha, Hc, (Hp eq_refl). done.
Qed.

(** ** Examples *)

Definition pick (b : bool) (reqs : list nat) (n : nat) : choice := Build_choice b reqs [] n.
Definition yes : choice := pick true [] 0.
Definition no : choice := pick false [] 0.

Definition sample_chan : chan := {| c_ID := "ci"; c_Control := "a"; c_Target := "b" |}.

Definition after_events (es : list event) : system := default init (run init es).

(** Two calls about to look at the cache. *)
Definition reading_events : list event :=
  [Begin (OGetChannel sample_chan 0); Begin (OGetChannel sample_chan 1); Work 0 yes; Work 1 yes].

Lemma accesses_exclude_witness : ∃ k1 k2,
  pool (after_events reading_events) !! 0%nat = Some (Thread [GlobR] (Access false Cache k1)) ∧
  pool (after_events reading_events) !! 1%nat = Some (Thread [GlobR] (Access false Cache k2)) ∧
  false = false ∧ false = false.
Proof.
  eexists _, _. split; [reflexivity|]. split; [reflexivity|].
  eapply (accesses_exclude (after_events reading_events) 0 1 _ _ _ _ Cache);
    [by exists reading_events|done|done|reflexivity|reflexivity].
Defined.

(** Three collection loops: the first runs, the second has returned with the lock, the
    third waits for it. *)
Definition leaking_events : list event :=
  [Begin OStartAutoCollect; Begin OStartAutoCollect; Begin OStartAutoCollect;
   Work 0 no; Work 0 no; Work 1 no; Work 1 no; Work 2 no; Work 2 no] ++
  replicate 6 (Work 3 no) ++ replicate 2 (Work 4 no).

Lemma leaking_stuck s' : ¬ works (after_events leaking_events) s'.
Proof. intros (t & c & Hs). do 6 (destruct t as [|t]; [by vm_compute in Hs|]). by vm_compute in Hs. Qed.

Lemma locks_finish_witness :
  Acc (λ s1 s2, works s2 s1) (after_events leaking_events) ∧
  Forall (λ th, th = Thread [] Halt ∨ th = Thread [Stop] Halt ∨ (∃ k, th = Thread [] (Wait k)) ∨
    th = start (body RCollectLoop) ∧ Thread [Stop] Halt ∈ pool (after_events leaking_events))
    (pool (after_events leaking_events)) ∧
  pool (after_events leaking_events) !! 5%nat = Some (start (body RCollectLoop)).
Proof.
  destruct (locks_finish (after_events leaking_events)) as [Ha Hf]; [by exists leaking_events|].
  split; [done|]. split; [|reflexivity]. apply Hf. exact leaking_stuck.
Defined.

(** A call from its start to the wait for the answer. *)
Definition asking (t : nat) : list event := replicate 5 (Work t yes) ++ [Work t no] ++ replicate 8 (Work t yes).

(** A request is merged by a task that waits; a second one starts the next round of the
    queue, which filters the array of the queue under the lock, while the first is given up
    and reads that array without it. *)
Definition giving_up_events : list event :=
  let one := pick false [0%nat] 0 in
  [Begin (OGetChannel sample_chan 0)] ++ asking 0 ++ replicate 30 (Work 1 one) ++ replicate 5 (Work 1 yes) ++
  [Begin (OGetChannel sample_chan 1)] ++ asking 2 ++ replicate 9 (Work 3 one) ++ [Work 3 yes] ++
  [Happen 0] ++ replicate 6 (Work 0 one).

Example cancel_race : ∃ k1 k2,
  pool (after_events giving_up_events) !! 0%nat = Some (Thread [] (Access false (Slots "a->b") k1)) ∧
  pool (after_events giving_up_events) !! 3%nat =
    Some (Thread [GlobR; Chan "a->b"] (Access true (Slots "a->b") k2)).
Proof. eexists _, _. split; reflexivity. Qed.

(** Three writes to one record: [Settle] without a lock, a voucher being added under the
    lock of one accessor of an inbound channel, and one being submitted under the other. *)
Definition updating_events : list event :=
  [Begin (OSettle sample_chan)] ++ replicate 23 (Work 0 no) ++ [Happen 0] ++ replicate 3 (Work 0 no) ++
  [Begin (OAddVoucherInbound sample_chan); Work 1 no] ++ replicate 13 (Work 1 yes) ++ replicate 3 (Work 1 no) ++
  [Begin (OSubmitVoucher sample_chan)] ++ replicate 8 (Work 2 no) ++ [Work 2 yes] ++ replicate 4 (Work 2 no).

Example record_race : ∃ k1 k2 k3,
  pool (after_events updating_events) !! 0%nat = Some (Thread [] (Access true (Info "ci") k1)) ∧
  pool (after_events updating_events) !! 1%nat = Some (Thread [GlobR; Chan "b->a"] (Access true (Info "ci") k2)) ∧
  pool (after_events updating_events) !! 2%nat = Some (Thread [GlobR; Chan "a->b"] (Access true (Info "ci") k3)).
Proof. eexists _, _, _. repeat split; reflexivity. Qed.
