(* ===== verification/Session.v ===== *)
(** * The retrieval session worker (exchange/tx.go, sessionWorker)

    A goroutine that collects the offers answered to a query and executes them
    one after the other until one transfer succeeds.  It waits on five channels;
    [worker_handle] is what it does with a message of each, and [worker_step]
    lets the messages come in any order. *)
From S2P Require Import Prelude Deal.

(** The outcome of a transaction. *)
Record TxResult : Type := MkTxResult {
  tr_Err : option error;
  tr_Size : Z;
  tr_Spent : Z;
  tr_PayCh : address
}.

Definition ErrUserDeniedOffer : error := ErrMsg "user denied offer".

(** The thresholds of a strategy; -1 stands for none. *)
Record sessionWorker : Type := MkSessionWorker {
  sw_numThreshold : Z;
  sw_timeThreshold : Z;
  sw_priceCeiling : Z
}.

Definition SelectFirst : sessionWorker := MkSessionWorker (-1) (-1) (-1).
Definition SelectCheapest (after t : Z) : sessionWorker := MkSessionWorker after t (-1).
Definition SelectFirstLowerThan (amount : Z) : sessionWorker := MkSessionWorker (-1) (-1) amount.

(** [execDone]: nil, waiting for the result of an execution, or drained.  Once
    assigned it is never nil again. *)
Inductive exec_state : Type :=
| NotStarted
| Executing (o : Offer)
| Drained.

(** The goroutine runs, ended, or waits for ever to hand over its queue. *)
Inductive worker_status : Type := Running | Ended | Blocked.

Inductive worker_action : Type :=
| Exec (o : Offer)
| Finish (r : TxResult).

(** [w_delay]: the timer was started and has not fired. *)
Record worker : Type := MkWorker {
  w_q : list Offer;
  w_exec : exec_state;
  w_delay : bool;
  w_status : worker_status;
  w_actions : list worker_action
}.

Definition set_w_q (v : list Offer) (w : worker) : worker :=
  MkWorker v (w_exec w) (w_delay w) (w_status w) (w_actions w).
Definition set_w_exec (v : exec_state) (w : worker) : worker :=
  MkWorker (w_q w) v (w_delay w) (w_status w) (w_actions w).
Definition set_w_delay (v : bool) (w : worker) : worker :=
  MkWorker (w_q w) (w_exec w) v (w_status w) (w_actions w).
Definition set_w_status (v : worker_status) (w : worker) : worker :=
  MkWorker (w_q w) (w_exec w) (w_delay w) v (w_actions w).
Definition add_action (a : worker_action) (w : worker) : worker :=
  MkWorker (w_q w) (w_exec w) (w_delay w) (w_status w) (w_actions w ++ [a]).

Inductive worker_event : Type :=
| OfferBack (o : Offer)
| OfferFront (o : Offer)
| DelayElapsed
| ExecDone (r : TxResult)
| Closing (met : bool).

(** [sort.Slice] orders the offers by price; equal prices come in any order. *)
Class SortSlice (sort : list Offer → list Offer) : Prop := {
  sort_perm : ∀ l, sort l ≡ₚ l;
  sort_sorted : ∀ l, StronglySorted (λ a b, o_MinPricePerByte a <= o_MinPricePerByte b) (sort l)
}.

Section worker.
Context (sortOffers : list Offer → list Offer) (s : sessionWorker).
Local Abbreviation W := (go worker error).

Definition useCeiling : bool := negb (sw_priceCeiling s =? -1).

(** What the worker holds when its goroutine starts. *)
Definition worker_start : worker := MkWorker [] NotStarted (0 <=? sw_timeThreshold s) Running [].

Definition is_nil (e : exec_state) : bool :=
  match e with NotStarted => true | _ => false end.

(** [go s.exec(offer, execDone)] with a new channel. *)
Definition start_exec (o : Offer) : W unit :=
  do* go_modify (set_w_exec (Executing o)) then
  go_modify (add_action (Exec o)).

(** [go s.exec(q[0], execDone)] and [q = q[1:]]. *)
Definition exec_head : W unit :=
  let* w := go_get in
  match w_q w with
  | [] => go_panic
  | o :: q =>
    do* start_exec o then
    go_modify (set_w_q q)
  end.

Definition receive_back (o : Offer) : W unit :=
  let* w := go_get in
  if useCeiling && (o_MinPricePerByte o <? sw_priceCeiling s) then go_ret tt
  else if (sw_numThreshold s <? 0) && (sw_timeThreshold s <? 0) && is_nil (w_exec w)
  then start_exec o
  else
    do* go_modify (set_w_q (w_q w ++ [o])) then
    if negb (is_nil (w_exec w)) then go_ret tt
    else if Z.of_nat (length (w_q w ++ [o])) =? sw_numThreshold s
    then
      do* go_modify (set_w_q (sortOffers (w_q w ++ [o]))) then
      exec_head
    else go_ret tt.

Definition receive_front (o : Offer) : W unit :=
  let* w := go_get in
  if is_nil (w_exec w) then start_exec o
  else go_modify (set_w_q (o :: w_q w)).

Definition delay_elapsed : W unit :=
  do* go_modify (set_w_delay false) then
  let* w := go_get in
  if negb (is_nil (w_exec w)) then go_ret tt
  else
    do* go_modify (set_w_q (sortOffers (w_q w))) then
    exec_head.

Definition exec_done (r : TxResult) : W unit :=
  do* go_modify (set_w_exec Drained) then
  let* w := go_get in
  match tr_Err r, w_q w with
  | Some _, _ :: _ => exec_head
  | _, _ => go_modify (add_action (Finish r))
  end.

(** [Close] sends a channel and receives from it without waiting; [met] tells
    whether the worker was already sending. *)
Definition closing (met : bool) : W unit :=
  go_modify (set_w_status (if met then Ended else Blocked)).

(** What [Close] returns. *)
Definition Close (met : bool) (w : worker) : list Offer := if met then w_q w else [].

Definition worker_handle (e : worker_event) : W unit :=
  match e with
  | OfferBack o => receive_back o
  | OfferFront o => receive_front o
  | DelayElapsed => delay_elapsed
  | ExecDone r => exec_done r
  | Closing met => closing met
  end.

(** Which messages can come: the timer fires once, a result follows an execution. *)
Definition enabled (w : worker) (e : worker_event) : Prop :=
  w_status w = Running ∧
  match e with
  | DelayElapsed => w_delay w = true
  | ExecDone _ => ∃ o, w_exec w = Executing o
  | _ => True
  end.

(** The runs of a worker from its start, with the messages received so far. *)
Inductive worker_run : list worker_event → worker → Prop :=
| run_start : worker_run [] worker_start
| run_step evs w e w' :
    worker_run evs w → enabled w e → worker_handle e w = (w', Ok tt) →
    worker_run (evs ++ [e]) w'.

(** ** The history of a run *)

(** Offers received and not ignored for their price. *)
Definition taken (e : worker_event) : list Offer :=
  match e with
  | OfferBack o => if useCeiling && (o_MinPricePerByte o <? sw_priceCeiling s) then [] else [o]
  | OfferFront o => [o]
  | _ => []
  end.

Definition executed (w : worker) : list Offer :=
  omap (λ a, match a with Exec o => Some o | Finish _ => None end) (w_actions w).

Definition finished (w : worker) : list TxResult :=
  omap (λ a, match a with Finish r => Some r | Exec _ => None end) (w_actions w).

Definition results (evs : list worker_event) : list TxResult :=
  omap (λ e, match e with ExecDone r => Some r | _ => None end) evs.

Context {SORT : SortSlice sortOffers}.

Lemma executed_add a w :
  executed (add_action a w) = executed w ++ match a with Exec o => [o] | Finish _ => [] end.
Proof. unfold executed. simpl. rewrite omap_app. by destruct a. Qed.

Lemma finished_add a w :
  finished (add_action a w) = finished w ++ match a with Finish r => [r] | Exec _ => [] end.
Proof. unfold finished. simpl. rewrite omap_app. by destruct a. Qed.

(** Executing the head of a queue. *)
Lemma exec_head_run w o q :
  w_q w = o :: q →
  exec_head w = (set_w_q q (add_action (Exec o) (set_w_exec (Executing o) w)), Ok tt).
Proof. intros H. unfold exec_head, go_bind, go_get. by rewrite H. Qed.

Lemma exec_head_panics w : w_q w = [] → exec_head w = (w, Panic).
Proof. intros H. unfold exec_head, go_bind, go_get. by rewrite H. Qed.

Lemma sort_head q : q ≠ [] → ∃ o q', sortOffers q = o :: q' ∧ o :: q' ≡ₚ q ∧
  Forall (λ x, o_MinPricePerByte o <= o_MinPricePerByte x) q.
Proof.
  intros Hq. pose proof (sort_perm q) as Hp. pose proof (sort_sorted q) as Hs.
  destruct (sortOffers q) as [|o q'] eqn:E.
  - apply Permutation_nil_l in Hp. by subst.
  - exists o, q'. split; [done|]. split; [done|]. rewrite <- Hp. apply StronglySorted_inv in Hs as [_ Hs].
    constructor; [lia|done].
Qed.

(** What one message does: it takes its offer, and executes at most one of the
    offers held, which it does only when no execution is going on. *)
Record handled (e : worker_event) (w w' : worker) (l : list Offer) : Prop := {
  hd_offers : l ++ w_q w' ≡ₚ w_q w ++ taken e;
  hd_executed : executed w' = executed w ++ l;
  hd_exec : (l = [] ∧ w_exec w' = match e with ExecDone _ => Drained | _ => w_exec w end) ∨
            (∃ o, l = [o] ∧ w_exec w' = Executing o ∧
                  (w_exec w = NotStarted ∨ ∃ r, e = ExecDone r ∧ tr_Err r ≠ None));
  hd_finished : finished w' = finished w ∨
    ∃ r, e = ExecDone r ∧ finished w' = finished w ++ [r] ∧ l = [] ∧ (tr_Err r = None ∨ w_q w = [])
}.

Lemma handle_ok e w w' : worker_handle e w = (w', Ok tt) → ∃ l, handled e w w' l.
Proof.
  destruct e as [o|o| |r|met]; simpl.
  - unfold receive_back, go_bind, go_get. destruct (useCeiling && _) eqn:Ec.
    { intros [= <-]. exists []. split; try by auto; simpl; by rewrite ?Ec, ?app_nil_r. }
    destruct (_ && _ && is_nil _) eqn:En.
    { intros [= <-]. exists [o]. apply andb_true_iff in En as [_ En]. split.
      - simpl. rewrite Ec. by rewrite Permutation_app_comm.
      - by rewrite executed_add.
      - right. exists o. split_and!; [done..|]. left. by destruct (w_exec w).
      - left. rewrite finished_add. by rewrite app_nil_r. }
    unfold go_modify. destruct (is_nil (w_exec w)) eqn:Ei; simpl.
    2: { intros [= <-]. exists []. split; try by auto; simpl; by rewrite ?Ec, ?app_nil_r. }
    case_match; [|intros [= <-]; exists []; split; try by auto; simpl; by rewrite ?Ec, ?app_nil_r].
    destruct (sort_head (w_q w ++ [o])) as (o' & q & Hs & Hp & _); [by destruct (w_q w)|].
    rewrite Hs. rewrite (exec_head_run _ o' q) by done. intros [= <-]. exists [o']. split.
    + simpl. by rewrite Ec.
    + simpl. unfold executed at 1. simpl. by rewrite omap_app.
    + right. exists o'. split_and!; [done..|]. left. by destruct (w_exec w).
    + left. unfold finished. simpl. rewrite omap_app. by rewrite app_nil_r.
  - unfold receive_front, go_bind, go_get. destruct (is_nil (w_exec w)) eqn:Ei.
    + intros [= <-]. exists [o]. split.
      * simpl. by rewrite Permutation_app_comm.
      * by rewrite executed_add.
      * right. exists o. split_and!; [done..|]. left. by destruct (w_exec w).
      * left. rewrite finished_add. by rewrite app_nil_r.
    + intros [= <-]. exists []. split; try by auto; simpl; rewrite ?app_nil_r; try done.
      apply Permutation_cons_append.
  - unfold delay_elapsed, go_bind, go_get, go_modify. simpl. destruct (is_nil (w_exec w)) eqn:Ei; simpl.
    2: { intros [= <-]. exists []. split; try by auto; simpl; by rewrite app_nil_r. }
    destruct (w_q w) as [|x q0] eqn:Eq.
    { assert (sortOffers [] = []) as -> by (apply Permutation_nil_r, sort_perm).
      by rewrite exec_head_panics. }
    destruct (sort_head (x :: q0)) as (o' & q & Hs & Hp & _); [done|].
    rewrite Hs. rewrite (exec_head_run _ o' q) by done. intros [= <-]. exists [o']. split.
    + simpl. by rewrite Eq, app_nil_r.
    + simpl. unfold executed at 1. simpl. by rewrite omap_app.
    + right. exists o'. split_and!; [done..|]. left. by destruct (w_exec w).
    + left. unfold finished. simpl. rewrite omap_app. by rewrite app_nil_r.
  - unfold exec_done, go_bind, go_get. simpl. destruct (tr_Err r) as [err|] eqn:Er.
    + destruct (w_q w) as [|x q] eqn:Eq.
      * intros [= <-]. exists []. split.
        -- simpl. by rewrite Eq.
        -- by rewrite executed_add, !app_nil_r.
        -- by left.
        -- right. exists r. rewrite finished_add. split_and!; auto.
      * rewrite (exec_head_run _ x q) by done. intros [= <-]. exists [x]. split.
        -- simpl. by rewrite Eq, app_nil_r.
        -- unfold executed. simpl. by rewrite omap_app.
        -- right. exists x. split_and!; [done..|]. right. exists r. by rewrite Er.
        -- left. unfold finished. simpl. rewrite omap_app. by rewrite app_nil_r.
    + intros [= <-]. exists []. split.
      * simpl. by rewrite app_nil_r.
      * by rewrite executed_add, !app_nil_r.
      * by left.
      * right. exists r. rewrite finished_add. split_and!; auto.
  - intros [= <-]. exists []. split; try by auto; simpl; by rewrite app_nil_r.
Qed.

(** The invariant of a run. *)
Record run_ok (evs : list worker_event) (w : worker) : Prop := {
  ro_offers : executed w ++ w_q w ≡ₚ evs ≫= taken;
  ro_exec : match w_exec w with
            | NotStarted => executed w = [] ∧ results evs = []
            | Executing _ => length (executed w) = S (length (results evs))
            | Drained => length (executed w) = length (results evs) ∧ executed w ≠ []
            end;
  ro_finished : match w_exec w with Drained => length (finished w) = 1%nat | _ => finished w = [] end
}.

Lemma results_app evs e :
  results (evs ++ [e]) = results evs ++ match e with ExecDone r => [r] | _ => [] end.
Proof. unfold results. rewrite omap_app. by destruct e. Qed.

Lemma run_step_ok evs w e w' :
  run_ok evs w → enabled w e → worker_handle e w = (w', Ok tt) → run_ok (evs ++ [e]) w'.
Proof.
  intros [H1 H2 H3] [_ Hen] Hh.
  assert (∀ r, e = ExecDone r → tr_Err r = None ∨ w_q w = [] →
               finished w' = finished w ++ [r]) as Hfin.
  { intros r ->. simpl in Hh. unfold exec_done, go_bind, go_get in Hh. simpl in Hh. intros Hr.
    destruct (tr_Err r), (w_q w) eqn:Eq; destruct Hr; simplify_eq; simpl in Hh; simplify_eq;
      unfold go_modify in Hh; simplify_eq; by rewrite finished_add. }
  assert (∀ r, e = ExecDone r → tr_Err r ≠ None → w_q w ≠ [] → ∃ o, w_exec w' = Executing o) as Hnext.
  { intros r -> Hr Hq. simpl in Hh. unfold exec_done, go_bind, go_get in Hh. simpl in Hh.
    destruct (tr_Err r); [|done]. destruct (w_q w) as [|x q] eqn:Eq; [done|].
    rewrite (exec_head_run _ x q) in Hh by done. simplify_eq. by eexists. }
  apply handle_ok in Hh as (l & [G1 G2 G3 G4]). split.
  - rewrite bind_app, G2, <- app_assoc, G1, app_assoc, H1. simpl. by rewrite app_nil_r.
  - rewrite results_app, G2. destruct G3 as [[-> Hx]|(o & -> & Hx & Hfrom)]; rewrite Hx.
    + rewrite app_nil_r. destruct e as [o|o| |r|met]; rewrite ?app_nil_r; try done.
      destruct Hen as [o Ho]. rewrite Ho in H2. rewrite length_app. simpl.
      split; [lia|]. by destruct (executed w).
    + rewrite !length_app. simpl. destruct Hfrom as [Hw|(r & -> & _)].
      * rewrite Hw in H2. destruct H2 as [-> ->].
        destruct e as [?|?| |r|?]; simpl; try done. destruct Hen as [? Hen]. congruence.
      * destruct Hen as [o' Ho]. rewrite Ho in H2. simpl. lia.
  - destruct G3 as [[-> Hx]|(o & -> & Hx & Hfrom)]; rewrite Hx.
    + destruct e as [o|o| |r|met];
        try (destruct G4 as [->|(? & [=] & _)]; done).
      destruct Hen as [o Ho]. rewrite Ho in H3.
      destruct (tr_Err r) as [err|] eqn:Er; [destruct (w_q w) as [|x q] eqn:Eq|].
      * rewrite (Hfin r) by auto. by rewrite H3.
      * destruct (Hnext r) as [o' Ho']; [done|by rewrite Er|done|]. congruence.
      * rewrite (Hfin r) by auto. by rewrite H3.
    + destruct G4 as [->|(r & -> & _ & [=] & _)]. destruct Hfrom as [Hw|(r & -> & _)].
      * by rewrite Hw in H3.
      * destruct Hen as [o' Ho]. by rewrite Ho in H3.
Qed.

Lemma run_run_ok evs w : worker_run evs w → run_ok evs w.
Proof. induction 1; [by split|]. by eapply run_step_ok. Qed.

(** What one message adds to the actions. *)
Lemma handle_trace e w w' :
  worker_handle e w = (w', Ok tt) →
  (w_actions w' = w_actions w ∧ w_exec w' = w_exec w ∧ ∀ r, e ≠ ExecDone r) ∨
  (∃ o, w_actions w' = w_actions w ++ [Exec o] ∧ w_exec w' = Executing o ∧
        (w_exec w = NotStarted ∧ (∀ r, e ≠ ExecDone r) ∨ ∃ r, e = ExecDone r ∧ tr_Err r ≠ None)) ∨
  (∃ r, e = ExecDone r ∧ w_actions w' = w_actions w ++ [Finish r] ∧ w_exec w' = Drained).
Proof.
  assert (∀ w1 w2, exec_head w1 = (w2, Ok tt) → ∃ o, w_actions w2 = w_actions w1 ++ [Exec o] ∧ w_exec w2 = Executing o) as Hx.
  { intros w1 w2 Hr. destruct (w_q w1) as [|o q] eqn:Eq; [by rewrite exec_head_panics in Hr|].
    rewrite (exec_head_run _ o q) in Hr by done. injection Hr as <-. by exists o. }
  assert (is_nil (w_exec w) = true → w_exec w = NotStarted) as Hn by (by destruct (w_exec w)).
  destruct e as [o|o| |r|met]; simpl.
  - unfold receive_back, go_bind, go_get. destruct (useCeiling && _); [intros [= <-]; by left|].
    destruct (_ && _ && is_nil _) eqn:En.
    { intros [= <-]. right. left. exists o. split_and!; [done..|]. left. apply andb_true_iff in En as [_ En]. by split; [apply Hn|]. }
    unfold go_modify. destruct (is_nil (w_exec w)) eqn:Ei; simpl; [|intros [= <-]; by left].
    case_match; [|intros [= <-]; by left]. intros (x & Ha & Hw)%Hx. right. left. exists x. split_and!; [done..|]. left. by split; [apply Hn|].
  - unfold receive_front, go_bind, go_get. destruct (is_nil (w_exec w)) eqn:Ei; intros [= <-]; [|by left].
    right. left. exists o. split_and!; [done..|]. left. by split; [apply Hn|].
  - unfold delay_elapsed, go_bind, go_get, go_modify. simpl. destruct (is_nil (w_exec w)) eqn:Ei; simpl;
      [|intros [= <-]; by left].
    intros (x & Ha & Hw)%Hx. right. left. exists x. split_and!; [done..|]. left. by split; [apply Hn|].
  - unfold exec_done, go_bind, go_get. simpl. destruct (tr_Err r) as [err|] eqn:Er.
    + destruct (w_q w) as [|x q] eqn:Eq; [intros [= <-]; right; right; by exists r|].
      intros (y & Ha & Hw)%Hx. right. left. exists y. split_and!; [done..|]. right. exists r. by rewrite Er.
    + intros [= <-]. right. right. by exists r.
  - intros [= <-]. by left.
Qed.

Definition unsuccessful (r : TxResult) : Prop := tr_Err r ≠ None.

(** The actions of a run, in order, against the results that came. *)
Definition in_order (evs : list worker_event) (w : worker) : Prop :=
  match w_exec w with
  | NotStarted => w_actions w = [] ∧ results evs = []
  | Executing o =>
    ∃ os, w_actions w = map Exec (os ++ [o]) ∧ length os = length (results evs) ∧ Forall unsuccessful (results evs)
  | Drained =>
    ∃ os rs r, w_actions w = map Exec os ++ [Finish r] ∧ results evs = rs ++ [r] ∧
      length os = S (length rs) ∧ Forall unsuccessful rs
  end.

Lemma run_in_order evs w : worker_run evs w → in_order evs w.
Proof.
  induction 1 as [|evs w e w' _ IH [_ Hen] Hh]; [by split|]. unfold in_order in *. rewrite results_app.
  apply handle_trace in Hh as [(-> & -> & Hne)|[(o & -> & -> & [[Hw Hne]|(r & -> & Hr)])|(r & -> & -> & ->)]].
  - destruct e as [| | |r|]; rewrite ?app_nil_r; try done. by destruct (Hne r).
  - rewrite Hw in IH. destruct IH as [-> ->]. exists []. destruct e as [| | |r|]; try done. by destruct (Hne r).
  - destruct Hen as [o' Ho]. rewrite Ho in IH. destruct IH as (os & -> & Hl & Hf). exists (os ++ [o']).
    split; [by rewrite !map_app|]. rewrite !length_app, Forall_app. simpl. split; [lia|]. auto.
  - destruct Hen as [o' Ho]. rewrite Ho in IH. destruct IH as (os & -> & Hl & Hf).
    exists (os ++ [o']), (results evs), r. rewrite length_app. simpl. split_and!; [done..|lia|done].
Qed.

(** ** Properties *)

(** C20: along any run of the session worker, whatever the order of its messages,
    the offers executed and the offers queued are exactly the offers taken, each
    as often as it was received; an offer is executed only after the one before it
    failed, and the transaction is told one result only, which is that of the last
    execution. *)
Theorem worker_conserves_offers evs w :
  worker_run evs w →
  executed w ++ w_q w ≡ₚ evs ≫= taken ∧
  match w_exec w with
  | NotStarted => w_actions w = [] ∧ results evs = []
  | Executing o =>
    ∃ os, w_actions w = map Exec (os ++ [o]) ∧ length os = length (results evs) ∧ Forall unsuccessful (results evs)
  | Drained =>
    ∃ os rs r, w_actions w = map Exec os ++ [Finish r] ∧ results evs = rs ++ [r] ∧
      length os = S (length rs) ∧ Forall unsuccessful rs
  end.
Proof.
  intros Hrun. split; [|by apply run_in_order]. by apply run_run_ok in Hrun as [H1 _ _].
Qed.

(** A transaction is told the end at most once: the success of an execution,
    or its failure once every offer taken so far was executed. *)
Theorem worker_finishes_last evs w e w' r :
  worker_run evs w → enabled w e → worker_handle e w = (w', Ok tt) →
  finished w' = finished w ++ [r] →
  finished w = [] ∧ e = ExecDone r ∧ (tr_Err r = None ∨ executed w' ≡ₚ evs ≫= taken).
Proof.
  intros Hrun Hen Hh Hf. pose proof (run_run_ok _ _ Hrun) as [H1 _ H3].
  apply handle_ok in Hh as (l & [_ G2 _ G4]). destruct G4 as [G4|(r' & -> & G4 & -> & Hr)].
  - exfalso. rewrite G4 in Hf. apply (f_equal length) in Hf. rewrite length_app in Hf. simpl in Hf. lia.
  - rewrite G4 in Hf. apply app_inv_head in Hf as [= <-]. destruct Hen as [_ [o Ho]].
    rewrite Ho in H3. split_and!; [done..|]. destruct Hr as [Hr|Hq]; [by left|right].
    rewrite G2, app_nil_r. by rewrite Hq, app_nil_r in H1.
Qed.

(** After a transaction was told the end, the worker never executes another
    offer pushed by the network, it only queues them: a failed transaction does
    not recover when new offers arrive. *)
Theorem worker_ends_for_good evs w e w' :
  worker_run evs w → finished w ≠ [] → enabled w e → worker_handle e w = (w', Ok tt) →
  executed w' = executed w ∧ finished w' = finished w.
Proof.
  intros Hrun Hf Hen Hh. pose proof (run_run_ok _ _ Hrun) as [_ _ H3].
  assert (w_exec w = Drained) as Hx by (destruct (w_exec w); [done|done|done]).
  apply handle_ok in Hh as (l & [_ G2 G3 G4]). destruct Hen as [_ Hen].
  assert (∀ r, e ≠ ExecDone r) as Hne by (intros r ->; destruct Hen as [o Ho]; congruence).
  destruct G3 as [[-> _]|(o & _ & _ & [Hw|(r & -> & _)])]; [|congruence|by destruct (Hne r)].
  rewrite app_nil_r in G2. split; [done|]. destruct G4 as [->|(r & -> & _)]; [done|by destruct (Hne r)].
Qed.

(** Offers pushed to the front are executed at once. *)
Definition no_front (e : worker_event) : Prop := match e with OfferFront _ => False | _ => True end.

Lemma no_ceiling : sw_priceCeiling s = -1 → useCeiling = false.
Proof. intros H. unfold useCeiling. by rewrite H. Qed.

(** When a strategy waits for offers, the first offer it executes is the
    cheapest of all those received so far. *)
Theorem first_is_cheapest evs w e w' o :
  sw_priceCeiling s = -1 → 0 <= sw_numThreshold s ∨ 0 <= sw_timeThreshold s →
  worker_run evs w → enabled w e → executed w = [] → no_front e →
  worker_handle e w = (w', Ok tt) → executed w' = [o] →
  ∀ o', OfferBack o' ∈ evs ++ [e] → o_MinPricePerByte o <= o_MinPricePerByte o'.
Proof.
  intros Hc Hth Hrun Hen Hx0 Hnf Hh Hx1 o' Hin.
  pose proof (run_run_ok _ _ Hrun) as [H1 H2 _]. rewrite Hx0 in H1. simpl in H1.
  assert (w_exec w = NotStarted) as Hw.
  { destruct (w_exec w); [done|rewrite Hx0 in H2; done|by destruct H2]. }
  assert (∀ x, OfferBack x ∈ evs → x ∈ w_q w) as Hq.
  { intros x Hx. rewrite H1. apply list_elem_of_bind. exists (OfferBack x). split; [|done].
    simpl. rewrite no_ceiling by done. set_solver. }
  assert (∀ q w1, exec_head (set_w_q (sortOffers q) w1) = (w', Ok tt) → executed w1 = [] → o' ∈ q →
    o_MinPricePerByte o <= o_MinPricePerByte o') as Hsort.
  { intros q w1 Hrun1 Hx Ho'. destruct (sort_head q) as (o1 & q1 & Hs & _ & Hall); [by intros ->; set_solver|].
    rewrite Hs, (exec_head_run _ o1 q1) in Hrun1 by done. injection Hrun1 as <-.
    unfold executed in Hx, Hx1. simpl in Hx1. rewrite omap_app, Hx in Hx1. injection Hx1 as ->.
    rewrite Forall_forall in Hall. by apply Hall. }
  destruct e as [x|x| |r|met]; simpl in Hh; [|by destruct Hnf| | |].
  - unfold receive_back, go_bind, go_get in Hh. rewrite no_ceiling in Hh by done. simpl in Hh.
    assert ((sw_numThreshold s <? 0) && (sw_timeThreshold s <? 0) = false) as Hn.
    { apply andb_false_iff. destruct Hth; [left|right]; by apply Z.ltb_ge. }
    rewrite Hn, Hw in Hh. simpl in Hh. unfold go_modify in Hh.
    assert (o' ∈ w_q w ++ [x]) as Ho'.
    { apply elem_of_app in Hin as [Hin|Hin]; apply elem_of_app; [left; by apply Hq|right; set_solver]. }
    destruct (_ =? _); [by eapply Hsort|]. injection Hh as <-. unfold executed in *. simpl in Hx1. congruence.
  - unfold delay_elapsed, go_bind, go_get, go_modify in Hh. simpl in Hh. rewrite Hw in Hh. simpl in Hh.
    eapply Hsort; [exact Hh|done|]. apply Hq. set_solver.
  - destruct Hen as [_ [x Hen]]. congruence.
  - injection Hh as <-. unfold executed in *. simpl in Hx1. congruence.
Qed.

(** [SelectFirstLowerThan] keeps the offers it was meant to refuse: every
    offer it executes that the network pushed costs at least the given amount. *)
Theorem ceiling_is_floor evs w :
  sw_priceCeiling s ≠ -1 → worker_run evs w → Forall no_front evs →
  Forall (λ o, sw_priceCeiling s <= o_MinPricePerByte o) (executed w).
Proof.
  intros Hc [H1 _ _]%run_run_ok Hnf. apply Forall_forall. intros o Ho.
  assert (o ∈ evs ≫= taken) as Hin by (rewrite <- H1; set_solver).
  apply list_elem_of_bind in Hin as (e & Ht & He). rewrite Forall_forall in Hnf. specialize (Hnf _ He).
  destruct e as [x|x| |r|met]; simpl in Ht; [|by destruct Hnf|set_solver..].
  assert (useCeiling = true) as Hu by (unfold useCeiling; apply negb_true_iff; by apply Z.eqb_neq).
  rewrite Hu in Ht. simpl in Ht. destruct (Z.ltb_spec (o_MinPricePerByte x) (sw_priceCeiling s)); [set_solver|].
  apply list_elem_of_singleton in Ht as ->. done.
Qed.

(** When the delay of a strategy elapses before any offer came, the worker
    indexes an empty queue, which is a panic. *)
Theorem no_offer_panics evs w :
  worker_run evs w → enabled w DelayElapsed → evs ≫= taken = [] →
  (worker_handle DelayElapsed w).2 = Panic.
Proof.
  intros Hrun _ Ht. pose proof (run_run_ok _ _ Hrun) as [H1 H2 _]. rewrite Ht in H1.
  apply Permutation_nil_r in H1. apply app_eq_nil in H1 as [Hx Hq].
  assert (w_exec w = NotStarted) as Hw.
  { destruct (w_exec w); [done|rewrite Hx in H2; done|by destruct H2]. }
  simpl. unfold delay_elapsed, go_bind, go_get, go_modify. simpl. rewrite Hw, Hq. simpl.
  assert (sortOffers [] = []) as -> by (apply Permutation_nil_r, sort_perm).
  by rewrite exec_head_panics.
Qed.

End worker.

(** ** Concrete runs *)

Definition price_le (a b : Offer) : Prop := o_MinPricePerByte a <= o_MinPricePerByte b.
#[export] Instance price_le_dec a b : Decision (price_le a b).
Proof. unfold price_le. apply _. Defined.
#[export] Instance price_le_trans : Transitive price_le.
Proof. intros a b c. unfold price_le. lia. Qed.
#[export] Instance price_le_total : Total price_le.
Proof. intros a b. unfold price_le. lia. Qed.

#[export] Instance merge_sort_slice : SortSlice (merge_sort price_le).
Proof.
  split; intros l; [apply merge_sort_Permutation|].
  apply (StronglySorted_merge_sort price_le).
Qed.

Definition offer_at (id : string) (price : Z) : Offer := MkOffer id "addr" "root" 10 "pay" price 100 10 0.
Definition failure : TxResult := MkTxResult (Some (ErrMsg "deal failed")) 0 0 Undef.

Fixpoint replay (s : sessionWorker) (w : worker) (evs : list worker_event) : worker :=
  match evs with
  | [] => w
  | e :: evs' => replay s (worker_handle (merge_sort price_le) s e w).1 evs'
  end.

(** Three offers with a threshold of two; the first execution fails. *)
Definition cheapest : sessionWorker := SelectCheapest 2 1000.
Definition sample_evs : list worker_event := [OfferBack (offer_at "x" 7); OfferBack (offer_at "y" 3)].
Definition worker_2 : worker := replay cheapest (worker_start cheapest) sample_evs.

Lemma sample_run : worker_run (merge_sort price_le) cheapest sample_evs worker_2.
Proof.
  eapply (run_step _ _ [OfferBack (offer_at "x" 7)]);
    [eapply (run_step _ _ [] _ (OfferBack (offer_at "x" 7))); [constructor| |]| |].
  - by split.
  - reflexivity.
  - by split.
  - vm_eq.
Qed.

Definition worker_3 : worker := replay cheapest worker_2 [ExecDone failure].

Lemma sample_run_3 : worker_run (merge_sort price_le) cheapest (sample_evs ++ [ExecDone failure]) worker_3.
Proof.
  eapply run_step; [apply sample_run|by split; [|exists (offer_at "y" 3)]|]. vm_eq.
Qed.

Lemma worker_conserves_offers_witness :
  w_actions worker_3 = [Exec (offer_at "y" 3); Exec (offer_at "x" 7)] ∧
  executed worker_3 ++ w_q worker_3 ≡ₚ [offer_at "x" 7; offer_at "y" 3] ∧
  ∃ os, w_actions worker_3 = map Exec (os ++ [offer_at "x" 7]) ∧ length os = 1%nat ∧ Forall unsuccessful [failure].
Proof.
  split; [vm_eq|].
  apply (worker_conserves_offers (merge_sort price_le) cheapest (sample_evs ++ [ExecDone failure]) worker_3 sample_run_3).
Defined.

Definition worker_4 : worker := replay cheapest worker_3 [ExecDone failure].

Lemma sample_enabled_3 : enabled worker_3 (ExecDone failure).
Proof. split; [done|]. by exists (offer_at "x" 7). Qed.

Lemma worker_finishes_last_witness : finished worker_3 = [] ∧ executed worker_4 = [offer_at "y" 3; offer_at "x" 7].
Proof.
  split; [|done].
  apply (worker_finishes_last (merge_sort price_le) cheapest _ worker_3 (ExecDone failure) worker_4 failure
           sample_run_3 sample_enabled_3); [vm_eq|done].
Defined.

Lemma sample_run_4 :
  worker_run (merge_sort price_le) cheapest ((sample_evs ++ [ExecDone failure]) ++ [ExecDone failure]) worker_4.
Proof. eapply run_step; [apply sample_run_3|apply sample_enabled_3|]. vm_eq. Qed.

Definition worker_5 : worker := replay cheapest worker_4 [OfferBack (offer_at "z" 1)].

Lemma worker_ends_for_good_witness : executed worker_5 = executed worker_4.
Proof.
  apply (worker_ends_for_good (merge_sort price_le) cheapest _ worker_4 (OfferBack (offer_at "z" 1)) worker_5
           sample_run_4); [done|by split|vm_eq].
Defined.

Lemma first_is_cheapest_witness :
  o_MinPricePerByte (offer_at "y" 3) <= o_MinPricePerByte (offer_at "x" 7).
Proof.
  apply (first_is_cheapest (merge_sort price_le) cheapest [OfferBack (offer_at "x" 7)]
           (replay cheapest (worker_start cheapest) [OfferBack (offer_at "x" 7)])
           (OfferBack (offer_at "y" 3)) worker_2 (offer_at "y" 3)) with (o' := offer_at "x" 7).
  - done.
  - by left.
  - eapply (run_step _ _ [] _ (OfferBack (offer_at "x" 7))); [constructor|by split|reflexivity].
  - by split.
  - done.
  - done.
  - vm_eq.
  - done.
  - apply list_elem_of_In. simpl. tauto.
Defined.

Lemma ceiling_is_floor_witness :
  Forall (λ o, 5 <= o_MinPricePerByte o)
    (executed (replay (SelectFirstLowerThan 5) (worker_start (SelectFirstLowerThan 5))
                 [OfferBack (offer_at "x" 7)])).
Proof.
  apply (ceiling_is_floor (merge_sort price_le) (SelectFirstLowerThan 5) [OfferBack (offer_at "x" 7)]); [done| |].
  - eapply (run_step _ _ [] _ (OfferBack (offer_at "x" 7))); [constructor|by split|reflexivity].
  - by repeat constructor.
Defined.

Lemma no_offer_panics_witness :
  (worker_handle (merge_sort price_le) cheapest DelayElapsed (worker_start cheapest)).2 = Panic.
Proof.
  apply (no_offer_panics (merge_sort price_le) cheapest []); [constructor|by split|done].
Defined.
