(* ===== verification/PeerMgr.v ===== *)
(** * Regions and peers (exchange/regions.go, exchange/peermgr.go)

    The preset regions, the greeting peers exchange on connecting, its generated
    codec, and the table of peers that share a region with this node. *)
From S2P Require Import Prelude Deal PayTypes Cbor.

(** ** Regions *)

Definition GlobalRegion : Z := 0.
Definition AsiaRegion : Z := 1.
Definition AfricaRegion : Z := 2.
Definition SouthAmericaRegion : Z := 3.
Definition NorthAmericaRegion : Z := 4.
Definition EuropeRegion : Z := 5.
Definition OceaniaRegion : Z := 6.
Definition CustomRegion : Z := two64 - 1.

(** The price may be nil.  The list of storage miners of a region is only shown to
    users. *)
Record Region : Type := MkRegion {
  rg_Name : string;
  rg_Code : Z;
  rg_PPB : option Z
}.

#[export] Instance Region_eq_dec : EqDecision Region.
Proof. solve_decision. Defined.

Definition Regions : list (string * Region) :=
  [("Global", MkRegion "Global" GlobalRegion (Some 0));
   ("Asia", MkRegion "Asia" AsiaRegion (Some 1));
   ("Africa", MkRegion "Africa" AfricaRegion (Some 1));
   ("SouthAmerica", MkRegion "SouthAmerica" SouthAmericaRegion (Some 1));
   ("NorthAmerica", MkRegion "NorthAmerica" NorthAmericaRegion (Some 1));
   ("Europe", MkRegion "Europe" EuropeRegion (Some 1));
   ("Oceania", MkRegion "Oceania" OceaniaRegion (Some 1))].

Fixpoint region_named (name : string) (l : list (string * Region)) : option Region :=
  match l with
  | [] => None
  | (n, r) :: l' => if String.eqb n name then Some r else region_named name l'
  end.

(** A name that is not preset is a region of the user's own, without a price. *)
Definition ParseRegion (name : string) : Region :=
  match region_named name Regions with
  | Some r => r
  | None => MkRegion name CustomRegion None
  end.

Definition ParseRegions (l : list string) : list Region := map ParseRegion l.

(** [path.Split]: what follows the last slash. *)
Fixpoint after_slash (t acc : string) : string :=
  match t with
  | EmptyString => acc
  | String c t' =>
    if Ascii.eqb c (Ascii.ascii_of_nat 47) then after_slash t' EmptyString
    else after_slash t' (acc +:+ String c EmptyString)
  end.

Definition RegionFromTopic (topic : string) : Region :=
  let name := after_slash topic EmptyString in
  match region_named name Regions with
  | Some r => r
  | None => MkRegion name CustomRegion (Some 0)
  end.

(** ** Greetings *)

Record Hey : Type := MkHey {
  hey_Regions : list Z;
  hey_IndexRoot : option cid
}.

Record HeyEvt : Type := MkHeyEvt {
  he_Peer : peer_id;
  he_IndexRoot : option cid
}.

Record Peer : Type := MkPeer {
  pe_Regions : list Z;
  pe_Latency : Z
}.

Section codec.
Context {CB : CborLib}.

Fixpoint WriteRegions (l : list Z) : go bytes error unit :=
  match l with
  | [] => go_ret tt
  | v :: l' =>
    do* Write (MajorTypeHeader MajUnsignedInt v) then
    WriteRegions l'
  end.

Fixpoint ReadRegions (n : nat) : go bytes error (list Z) :=
  match n with
  | O => go_ret []
  | S n' =>
    let* h := ReadWrapped "failed to read uint64 for t.Regions slice" CborReadHeader in
    if negb (h.1 =? MajUnsignedInt)
    then go_err (ErrMsg ("value read for array t.Regions was not a uint, instead got " +:+ pretty h.1))
    else
      let* l := ReadRegions n' in
      go_ret (h.2 :: l)
  end.

Definition ReadRegionsField : go bytes error (list Z) :=
  let* h := CborReadHeader in
  if MaxLength <? h.2
  then go_err (ErrMsg ("t.Regions: array too large (" +:+ pretty h.2 +:+ ")"))
  else if negb (h.1 =? MajArray) then go_err (ErrMsg "expected cbor array")
  else ReadRegions (Z.to_nat h.2).

Definition Hey_MarshalCBOR (t : Hey) : go bytes error unit :=
  do* Write (MajorTypeHeader MajArray 2) then
  do* (if MaxLength <? Z.of_nat (length (hey_Regions t))
       then go_err (ErrMsg "Slice value in field t.Regions was too long")
       else
         do* Write (MajorTypeHeader MajArray (Z.of_nat (length (hey_Regions t)))) then
         WriteRegions (hey_Regions t)) then
  WriteCidOrNull "failed to write cid field t.IndexRoot" (hey_IndexRoot t).

Definition Hey_UnmarshalCBOR : go bytes error Hey :=
  do* ReadFields 2 then
  let* regions := ReadRegionsField in
  let* root := ReadNullable "failed to read cid field t.IndexRoot" ReadCid in
  go_ret (MkHey regions root).

Context {LAWS : CborLaws}.

Lemma Regions_codec l : Forall is_u64 l → codec (WriteRegions l) (ReadRegions (length l)) l.
Proof.
  induction 1 as [|v l Hv _ IH]; simpl; [apply codec_ret|].
  eapply (codec_bind _ _ _ _ (MajUnsignedInt, v)).
  { apply codec_write. intros rest. unfold ReadWrapped, go_bind, go_try.
    by rewrite header_rt by (done || (unfold MajUnsignedInt; lia)). }
  cbn [fst snd]. by apply (codec_end _ _ (cons v)).
Qed.

Lemma RegionsField_codec l e :
  Forall is_u64 l →
  codec (if MaxLength <? Z.of_nat (length l) then go_err (ErrMsg e)
         else do* Write (MajorTypeHeader MajArray (Z.of_nat (length l))) then WriteRegions l)
    ReadRegionsField l.
Proof.
  intros Hv. apply codec_guard. intros Hl. to_prop. pose proof lengths_u64 as [[? ?] _].
  unfold ReadRegionsField. eapply (codec_bind _ _ _ _ (MajArray, Z.of_nat (length l))).
  { apply codec_write. intros rest. apply header_rt; [unfold MajArray; lia|].
    unfold is_u64 in *; lia. }
  cbn [fst snd]. destruct (Z.ltb_spec MaxLength (Z.of_nat (length l))); [lia|].
  cbn iota beta. rewrite Nat2Z.id. by apply Regions_codec.
Qed.

Lemma Hey_codec h : Forall is_u64 (hey_Regions h) → codec (Hey_MarshalCBOR h) Hey_UnmarshalCBOR h.
Proof.
  intros Hr. destruct h as [rs root].
  field ltac:(apply codec_fields; unfold is_u64, two64; lia).
  field ltac:(by apply RegionsField_codec).
  apply (codec_end _ _ (MkHey rs)). apply codec_cid_or_null.
Qed.

End codec.

(** ** The peer manager *)

(** [pm_events] and [pm_tags] are what was emitted and tagged, in order. *)
Record PeerMgr : Type := MkPeerMgr {
  pm_regions : gmap Z Region;
  pm_peers : gmap peer_id Peer;
  pm_events : list HeyEvt;
  pm_tags : list (peer_id * string)
}.

Definition set_pm_peers (v : gmap peer_id Peer) (s : PeerMgr) : PeerMgr :=
  MkPeerMgr (pm_regions s) v (pm_events s) (pm_tags s).

Definition NewPeerMgr (regions : list Region) : PeerMgr :=
  MkPeerMgr (foldl (λ m r, <[rg_Code r := r]> m) ∅ regions) ∅ [] [].

(** The callback on disconnection. *)
Definition disconnected (p : peer_id) : go PeerMgr error unit :=
  go_modify (λ s, set_pm_peers (delete p (pm_peers s)) s).

(** Emitting and tagging are fire and forget: errors are logged. *)
Fixpoint hey_regions (p : peer_id) (h : Hey) (l : list Z) : go PeerMgr error unit :=
  match l with
  | [] => go_ret tt
  | r :: l' =>
    let* s := go_get in
    do* match pm_regions s !! r with
        | None => go_ret tt
        | Some reg =>
          go_put (MkPeerMgr (pm_regions s) (<[p := MkPeer (hey_Regions h) 0]> (pm_peers s))
            (pm_events s ++ [MkHeyEvt p (hey_IndexRoot h)]) (pm_tags s ++ [(p, rg_Name reg)]))
        end then
    hey_regions p h l'
  end.

Definition handleHey (p : peer_id) (h : Hey) : go PeerMgr error unit := hey_regions p h (hey_Regions h).

Definition recordLatency (p : peer_id) (now start : Z) : go PeerMgr error unit :=
  let* s := go_get in
  match pm_peers s !! p with
  | None => go_err (ErrMsg "no peer given ID")
  | Some pe => go_put (set_pm_peers (<[p := MkPeer (pe_Regions pe) (now - start)]> (pm_peers s)) s)
  end.

(** Maps are enumerated in some order, which can differ from one loop to the next. *)
Class MapOrder (order : Region → gmap peer_id Peer → list (peer_id * Peer)) : Prop :=
  map_order : ∀ r m, order r m ≡ₚ map_to_list m.

Section peers.
Context (order : Region → gmap peer_id Peer → list (peer_id * Peer)).

(** A peer is added once for each of its regions that matches. *)
Definition matches (code : Z) (v : Peer) : nat := length (filter (λ rc, rc = code) (pe_Regions v)).

Fixpoint peers_in (n code : Z) (ignore : peer_id → bool) (l : list (peer_id * Peer))
    (peers : list peer_id) : list peer_id * bool :=
  match l with
  | [] => (peers, false)
  | (p, v) :: l' =>
    if ignore p then peers_in n code ignore l' peers
    else
      let peers := peers ++ replicate (matches code v) p in
      if Z.of_nat (length peers) =? n then (peers, true) else peers_in n code ignore l' peers
  end.

Fixpoint peers_loop (n : Z) (rl : list Region) (m : gmap peer_id Peer) (ignore : peer_id → bool)
    (peers : list peer_id) : list peer_id :=
  match rl with
  | [] => peers
  | r :: rl' =>
    let '(peers, full) := peers_in n (rg_Code r) ignore (order r m) peers in
    if full then peers else peers_loop n rl' m ignore peers
  end.

Definition Peers (n : Z) (rl : list Region) (ignore : peer_id → bool) (s : PeerMgr) : list peer_id :=
  if n =? 0 then [] else peers_loop n rl (pm_peers s) ignore [].

(** The regions are sent in the order the map is enumerated. *)
Definition getHey (region_order : gmap Z Region → list Region) (root : cid) (s : PeerMgr) : Hey :=
  MkHey (map rg_Code (region_order (pm_regions s)))
    (if bool_decide (root = Undef) then None else Some root).

Context {ORDER : MapOrder order}.

Lemma elem_order r m p v : (p, v) ∈ order r m ↔ m !! p = Some v.
Proof. by rewrite map_order, elem_of_map_to_list. Qed.

Lemma matches_pos code v : (0 < matches code v)%nat ↔ code ∈ pe_Regions v.
Proof.
  unfold matches. split.
  - intros H. destruct (filter _ _) as [|rc l] eqn:E; [simpl in H; lia|].
    assert (rc ∈ filter (λ rc, rc = code) (pe_Regions v)) as Hin by (rewrite E; set_solver).
    by apply list_elem_of_filter in Hin as [-> Hin].
  - intros H. assert (code ∈ filter (λ rc, rc = code) (pe_Regions v)) as Hin by (by apply list_elem_of_filter).
    destruct (filter _ _); [set_solver|simpl; lia].
Qed.

Lemma matches_NoDup code v : NoDup (pe_Regions v) → (matches code v ≤ 1)%nat.
Proof.
  intros Hnd. unfold matches. apply (NoDup_filter (λ rc, rc = code)) in Hnd.
  assert (∀ x, x ∈ filter (λ rc, rc = code) (pe_Regions v) → x = code) as Hall
    by (intros x [-> _]%list_elem_of_filter; done).
  destruct (filter _ _) as [|a [|b l]]; simpl; [lia..|]. exfalso.
  apply NoDup_cons in Hnd as [Hnd _]. apply Hnd.
  rewrite (Hall a), (Hall b) by set_solver. set_solver.
Qed.

(** A peer that may be chosen. *)
Definition eligible (rl : list Region) (ignore : peer_id → bool) (m : gmap peer_id Peer) (p : peer_id) : Prop :=
  ∃ v r, m !! p = Some v ∧ ignore p = false ∧ r ∈ rl ∧ rg_Code r ∈ pe_Regions v.

Lemma peers_in_ok n code ignore l : ∀ peers res full,
  0 < n → (∀ p v, (p, v) ∈ l → NoDup (pe_Regions v)) →
  Z.of_nat (length peers) < n → peers_in n code ignore l peers = (res, full) →
  (∀ p, p ∈ res → p ∈ peers ∨ ∃ v, (p, v) ∈ l ∧ ignore p = false ∧ code ∈ pe_Regions v) ∧
  (∀ p, p ∈ peers → p ∈ res) ∧
  if full then Z.of_nat (length res) = n
  else Z.of_nat (length res) < n ∧
       ∀ p v, (p, v) ∈ l → ignore p = false → code ∈ pe_Regions v → p ∈ res.
Proof.
  induction l as [|[p v] l IH]; intros peers res full Hn Hnd Hlen; simpl.
  - intros [= <- <-]. split_and!; [by left|done|done|]. by intros p v ?%not_elem_of_nil.
  - assert (∀ q w, (q, w) ∈ l → (q, w) ∈ (p, v) :: l) as Hsub by (intros; by apply list_elem_of_further).
    assert (∀ q w, (q, w) ∈ l → NoDup (pe_Regions w)) as Hnd' by (intros; eapply Hnd, Hsub; done).
    destruct (ignore p) eqn:Ei.
    { intros (H1 & H2 & H3)%IH; [|done..]. split_and!; [|done|].
      - intros q [?|(w & ? & ? & ?)]%H1; [by left|right]. exists w. auto.
      - destruct full; [done|]. destruct H3 as [? H3]. split; [done|].
        intros q w [[= -> ->]|Hq]%elem_of_cons Hig; [congruence|by eapply H3]. }
    pose proof (matches_NoDup code v (Hnd p v (list_elem_of_here _ _))) as Hm.
    assert (∀ q, q ∈ replicate (matches code v) p ↔ q = p ∧ code ∈ pe_Regions v) as Hrep.
    { intros q. rewrite elem_of_replicate, <- matches_pos. destruct (matches code v); naive_solver lia. }
    set (k := matches code v) in *.
    assert (∀ q, q ∈ peers ++ replicate k p → q ∈ peers ∨
              ∃ w, (q, w) ∈ (p, v) :: l ∧ ignore q = false ∧ code ∈ pe_Regions w) as Hadd.
    { intros q [?|[-> ?]%Hrep]%elem_of_app; [by left|right]. exists v. split; [apply list_elem_of_here|done]. }
    destruct (Z.eqb_spec (Z.of_nat (length (peers ++ replicate k p))) n) as [E|E].
    + intros [= <- <-]. split_and!; [done|set_solver|done].
    + intros (H1 & H2 & H3)%IH; [|done..|].
      2: { rewrite length_app, length_replicate in *. lia. }
      split_and!; [|set_solver|].
      * intros q [?|(w & ? & ? & ?)]%H1; [by apply Hadd|right]. exists w. auto.
      * destruct full; [done|]. destruct H3 as [? H3]. split; [done|].
        intros q w [[= -> ->]|Hq]%elem_of_cons Hig Hc; [|by eapply H3].
        apply H2. rewrite elem_of_app, Hrep. auto.
Qed.

Lemma peers_loop_ok n rl m ignore : ∀ peers,
  0 < n → (∀ p v, m !! p = Some v → NoDup (pe_Regions v)) → Z.of_nat (length peers) < n →
  let res := peers_loop n rl m ignore peers in
  (∀ p, p ∈ res → p ∈ peers ∨ eligible rl ignore m p) ∧ (∀ p, p ∈ peers → p ∈ res) ∧
  (Z.of_nat (length res) = n ∨
   Z.of_nat (length res) < n ∧ ∀ p, eligible rl ignore m p → p ∈ res).
Proof.
  induction rl as [|r rl IH]; intros peers Hn Hnd Hlen; simpl.
  - split; [auto|]. split; [done|]. right. split; [done|]. intros p (v & r & _ & _ & Hr & _). set_solver.
  - destruct (peers_in n (rg_Code r) ignore (order r m) peers) as [res full] eqn:E.
    apply peers_in_ok in E as (H1 & H2 & H3); [|done|intros p v Hp%elem_order; by eapply Hnd|done].
    assert (∀ p, p ∈ res → p ∈ peers ∨ eligible (r :: rl) ignore m p) as Hres.
    { intros p [?|(v & Hv%elem_order & Hi & Hc)]%H1; [by left|right].
      exists v, r. set_solver. }
    destruct full; [split_and!; [done|done|by left]|]. destruct H3 as [Hl H3].
    destruct (IH res Hn Hnd Hl) as (G1 & G2 & G3). split_and!.
    + intros p [Hp|(v & r' & ? & ? & ? & ?)]%G1; [by apply Hres|right]. exists v, r'. set_solver.
    + auto.
    + destruct G3 as [?|[? G3]]; [by left|right]. split; [done|].
      intros p (v & r' & Hv & Hi & [->|Hr]%elem_of_cons & Hc).
      * apply G2. eapply H3; [by apply elem_order|done|done].
      * apply G3. by exists v, r'.
Qed.

End peers.

(** ** Properties *)

(** What a greeting does: the peer is registered when it shares a region, and
    each region shared emits one event and one tag. *)
Definition shared (s : PeerMgr) (h : Hey) : list Region :=
  omap (λ r, pm_regions s !! r) (hey_Regions h).

Lemma hey_regions_run p h l : ∀ s,
  hey_regions p h l s = (
    let rs := omap (λ r, pm_regions s !! r) l in
    MkPeerMgr (pm_regions s)
      (match rs with [] => pm_peers s | _ => <[p := MkPeer (hey_Regions h) 0]> (pm_peers s) end)
      (pm_events s ++ map (λ _, MkHeyEvt p (hey_IndexRoot h)) rs)
      (pm_tags s ++ map (λ r, (p, rg_Name r)) rs), Ok tt).
Proof.
  induction l as [|r l IH]; intros s; simpl.
  - rewrite !app_nil_r. by destruct s.
  - unfold go_bind at 1, go_get. destruct (pm_regions s !! r) as [reg|] eqn:Er.
    + unfold go_bind, go_put. rewrite IH. simpl. rewrite <- !app_assoc.
      change (list_omap Z Region) with (omap (M:=list) (A:=Z) (B:=Region)). destruct (omap _ l); simpl; by rewrite ?insert_insert_eq.
    + unfold go_bind, go_ret. by rewrite IH.
Qed.

Lemma hey_registers p h s :
  ∃ s', handleHey p h s = (s', Ok tt) ∧
    pm_peers s' = (if bool_decide (shared s h = []) then pm_peers s
                   else <[p := MkPeer (hey_Regions h) 0]> (pm_peers s)).
Proof.
  unfold handleHey. rewrite hey_regions_run. eexists. split; [reflexivity|]. simpl. fold (shared s h).
  by destruct (shared s h).
Qed.

(** A greeting registers the peer exactly when it announces a region of this
    node, with the regions it announced and no latency yet, emits one event per
    region shared, and touches no other peer. *)
Theorem handleHey_registers p h s :
  ∃ s', handleHey p h s = (s', Ok tt) ∧
    pm_peers s' = (if bool_decide (shared s h = []) then pm_peers s
                   else <[p := MkPeer (hey_Regions h) 0]> (pm_peers s)) ∧
    pm_events s' = pm_events s ++ replicate (length (shared s h)) (MkHeyEvt p (hey_IndexRoot h)) ∧
    pm_regions s' = pm_regions s.
Proof.
  unfold handleHey. rewrite hey_regions_run. eexists. split; [reflexivity|]. simpl. fold (shared s h).
  split_and!; [by destruct (shared s h)| |done]. f_equal. by induction (shared s h); simpl; f_equal.
Qed.

(** Asking for [n] peers answers at most [n], all of them known, not to be
    ignored and in one of the regions asked for, and all such peers when fewer
    than [n] are answered, provided that no peer announced a region twice. *)
Theorem Peers_bounded order `{!MapOrder order} n rl ignore s :
  0 < n → (∀ p v, pm_peers s !! p = Some v → NoDup (pe_Regions v)) →
  let res := Peers order n rl ignore s in
  Z.of_nat (length res) <= n ∧
  (∀ p, p ∈ res → eligible rl ignore (pm_peers s) p) ∧
  (Z.of_nat (length res) < n → ∀ p, eligible rl ignore (pm_peers s) p → p ∈ res).
Proof.
  intros Hn Hnd. unfold Peers. destruct (Z.eqb_spec n 0); [lia|].
  destruct (peers_loop_ok order n rl (pm_peers s) ignore [] Hn Hnd) as (H1 & _ & H3); [done|].
  split_and!; [destruct H3; lia|intros p Hp; by destruct (H1 p Hp) as [?%not_elem_of_nil|]|].
  intros Hl. destruct H3 as [?|[_ H3]]; [lia|done].
Qed.

(** A greeting is read back as it was written. *)
Theorem Hey_roundtrip {CB : CborLib} {LAWS : CborLaws} (h : Hey) (b rest : bytes) :
  Forall is_u64 (hey_Regions h) → Hey_MarshalCBOR h EmptyString = (b, Ok tt) →
  Hey_UnmarshalCBOR (b +:+ rest) = (rest, Ok h).
Proof. intros Hr Hw. by destruct (Hey_codec h Hr _ _ Hw) as (b' & -> & H). Qed.

(** ** A concrete peer manager *)

Definition plain_order (r : Region) (m : gmap peer_id Peer) : list (peer_id * Peer) := map_to_list m.
#[export] Instance plain_map_order : MapOrder plain_order.
Proof. by intros r m. Qed.

Definition two_regions : PeerMgr := NewPeerMgr (ParseRegions ["Asia"; "Europe"]).
Definition met : PeerMgr := (handleHey "alice" (MkHey [1; 5] (Some "root")) two_regions).1.

Lemma Peers_bounded_witness :
  Z.of_nat (length (Peers plain_order 1 (ParseRegions ["Asia"; "Europe"]) (λ _, false) met)) <= 1.
Proof.
  apply (Peers_bounded plain_order 1 (ParseRegions ["Asia"; "Europe"]) (λ _, false) met); [lia|].
  assert (pm_peers met = {["alice" := MkPeer [1; 5] 0]}) as -> by vm_eq.
  intros p v [_ <-]%lookup_singleton_Some. simpl.
  apply NoDup_cons. split; [|by apply NoDup_singleton]. by intros ?%list_elem_of_singleton.
Defined.
