(* ===== verification/Greet.v ===== *)
(** * Greetings between nodes (exchange/peermgr.go)

    When a connection is identified each side opens a stream, writes its greeting and
    measures how long the answer takes; the other side reads the greeting, registers the
    peer and answers with a buffer of zeros. *)
From S2P Require Import Prelude Deal PayTypes Cbor PeerMgr.

Definition pong : bytes := Nat.iter 32 (String Ascii.zero) EmptyString.

Section streams.
Context {CB : CborLib}.

(** The answer written to the stream; a greeting that cannot be read closes the
    connection. *)
Definition handleStream (p : peer_id) (input : bytes) : go PeerMgr error (option bytes) :=
  match Hey_UnmarshalCBOR input with
  | (_, Ok hmsg) => do* handleHey p hmsg then go_ret (Some pong)
  | (_, Err _) => go_ret None
  | (_, Panic) => go_panic
  | (_, Hang) => go_hang
  end.

(** [NewStream] is the error of opening the stream, if any. *)
Definition sendHey (region_order : gmap Z Region → list Region) (root : cid) (NewStream : option error)
    : go PeerMgr error bytes :=
  match NewStream with
  | Some err => go_err err
  | None =>
    let* s := go_get in
    go_lift (Dump (Hey_MarshalCBOR (getHey region_order root s)))
  end.

(** The rest of [sendHey], once the answer came or the deadline passed: an answer that is
    too short is logged and the latency recorded all the same. *)
Definition got_pong (p : peer_id) (now start : Z) : go PeerMgr error unit :=
  do* go_try (recordLatency p now start) then
  go_ret tt.

End streams.

(** The regions of a node are kept under their codes. *)
Definition regions_ok (m : gmap Z Region) : Prop := map_Forall (λ c r, rg_Code r = c ∧ is_u64 c) m.

Definition RegionOrder (region_order : gmap Z Region → list Region) : Prop :=
  ∀ m, region_order m ≡ₚ (map_to_list m).*2.

Lemma NewPeerMgr_regions l :
  Forall (λ r, is_u64 (rg_Code r)) l → regions_ok (pm_regions (NewPeerMgr l)).
Proof.
  unfold NewPeerMgr. simpl. assert (regions_ok ∅) as H0 by apply map_Forall_empty. revert H0.
  generalize (∅ : gmap Z Region). induction l as [|r l IH]; intros m Hm Hl; simpl; [done|].
  apply Forall_cons in Hl as [Hr Hl]. apply IH; [|done]. by apply map_Forall_insert_2.
Qed.

Section greeting.
Context {CB : CborLib} {LAWS : CborLaws} (region_order : gmap Z Region → list Region).
Context (HO : RegionOrder region_order).

Lemma elem_codes m c : regions_ok m → c ∈ map rg_Code (region_order m) ↔ is_Some (m !! c).
Proof.
  intros Hm. rewrite (list_elem_of_fmap rg_Code). split.
  - intros (r & -> & Hr). rewrite (HO m), list_elem_of_fmap in Hr. destruct Hr as ([c r'] & -> & Hr).
    apply elem_of_map_to_list in Hr. simpl. destruct (Hm _ _ Hr) as [-> _]. eauto.
  - intros [r Hr]. exists r. destruct (Hm _ _ Hr) as [<- _]. split; [done|].
    rewrite (HO m), list_elem_of_fmap. exists (rg_Code r, r). split; [done|]. by apply elem_of_map_to_list.
Qed.

Lemma region_codes_u64 m : regions_ok m → Forall is_u64 (map rg_Code (region_order m)).
Proof.
  intros Hm. apply Forall_forall. intros c [r Hr]%elem_codes; [|done]. by apply (Hm _ _ Hr).
Qed.

(** A greeting that was sent is handled by the node that gets it. *)
Lemma greeting_handled root p (a b : PeerMgr) bs rest :
  regions_ok (pm_regions a) → sendHey region_order root None a = (a, Ok bs) →
  handleStream p (bs +:+ rest) b
  = (do* handleHey p (getHey region_order root a) then go_ret (Some pong)) b.
Proof.
  intros Ha. unfold sendHey, go_bind at 1, go_get, go_lift, Dump.
  destruct (Hey_MarshalCBOR (getHey region_order root a) EmptyString) as [w [[]| | |]] eqn:E; try done.
  intros [= <-]. apply Hey_codec in E as (b' & -> & Hr); [|by apply region_codes_u64].
  unfold handleStream. change (EmptyString +:+ b') with b'. by rewrite Hr.
Qed.

Lemma shared_none (b : PeerMgr) h : shared b h = [] ↔ ∀ c, c ∈ hey_Regions h → pm_regions b !! c = None.
Proof.
  unfold shared. induction (hey_Regions h) as [|c l IH]; simpl.
  - split; [intros _ c ?%elem_of_nil; done|done].
  - destruct (pm_regions b !! c) as [r|] eqn:E.
    + split; [done|]. intros H. rewrite H in E; [done|by left].
    + etrans; [exact IH|]. split.
      * intros H c' [->|Hc]%elem_of_cons; auto.
      * intros H c' Hc. apply H. by right.
Qed.

Lemma shared_disjoint root (a b : PeerMgr) :
  regions_ok (pm_regions a) →
  shared b (getHey region_order root a) = [] ↔ dom (pm_regions a) ∩ dom (pm_regions b) = ∅.
Proof.
  intros Ha. rewrite shared_none. simpl. split.
  - intros H. apply set_eq. intros c. rewrite elem_of_intersection, !elem_of_dom. split; [|set_solver].
    intros [Hc [r Hr]]. rewrite H in Hr; [done|]. by apply elem_codes.
  - intros H c Hc%elem_codes; [|done]. apply not_elem_of_dom. apply elem_of_dom in Hc. set_solver.
Qed.

End greeting.

(** ** Regions by name *)

(** A node has a preset region in common with another, or each has one of its own:
    those all have the code [CustomRegion]. *)
Definition preset (n : string) : bool := match region_named n Regions with Some _ => true | None => false end.
Definition same_code (n m : string) : bool := if preset n then String.eqb n m else negb (preset m).
Definition in_common (la lb : list string) : bool := existsb (λ n, existsb (same_code n) lb) la.

Lemma region_named_name n r : region_named n Regions = Some r → rg_Name r = n ∧ r ∈ Regions.*2.
Proof.
  unfold Regions. cbn [region_named].
  repeat match goal with |- context [String.eqb ?x n] =>
    destruct (String.eqb_spec x n) as [<-|]; cbn iota; [intros [= <-]; split; [done|vm_compute; set_solver]|] end.
  discriminate.
Qed.

(** The presets are told apart by their codes, none of which is that of the others. *)
Lemma preset_codes :
  Forall (λ r, region_named (rg_Name r) Regions = Some r ∧ rg_Code r ≠ CustomRegion ∧ is_u64 (rg_Code r) ∧
               Forall (λ r', rg_Code r = rg_Code r' ↔ rg_Name r = rg_Name r') Regions.*2) Regions.*2.
Proof. by apply (bool_decide_unpack _). Qed.

Lemma same_code_spec n m : same_code n m = true ↔ rg_Code (ParseRegion n) = rg_Code (ParseRegion m).
Proof.
  pose proof preset_codes as Hp. rewrite Forall_forall in Hp. unfold same_code, preset, ParseRegion.
  destruct (region_named n Regions) as [r|] eqn:En.
  - apply region_named_name in En as [<- Hr]. destruct (Hp r Hr) as (Hn & Hc & _ & Hu). rewrite String.eqb_eq.
    destruct (region_named m Regions) as [r'|] eqn:Em.
    + apply region_named_name in Em as [<- Hr']. rewrite Forall_forall in Hu. symmetry. by apply Hu.
    + simpl. split; congruence.
  - destruct (region_named m Regions) as [r'|] eqn:Em; simpl; [|done]. apply region_named_name in Em as [_ Hr'].
    destruct (Hp r' Hr') as (_ & Hc & _). split; [done|congruence].
Qed.

Lemma dom_regions l c :
  c ∈ dom (pm_regions (NewPeerMgr (ParseRegions l))) ↔ ∃ n, n ∈ l ∧ rg_Code (ParseRegion n) = c.
Proof.
  unfold NewPeerMgr, ParseRegions. simpl.
  assert (∀ m : gmap Z Region, c ∈ dom (foldl (λ m r, <[rg_Code r := r]> m) m (map ParseRegion l)) ↔
    c ∈ dom m ∨ ∃ n, n ∈ l ∧ rg_Code (ParseRegion n) = c) as Hg; [|rewrite Hg; set_solver].
  induction l as [|n l IH]; intros m; simpl; [set_solver|]. rewrite IH, dom_insert_L. set_solver.
Qed.

Lemma ParseRegions_ok l : regions_ok (pm_regions (NewPeerMgr (ParseRegions l))).
Proof.
  apply NewPeerMgr_regions. apply Forall_forall. intros r (n & -> & _)%list_elem_of_fmap.
  unfold ParseRegion. destruct (region_named n Regions) as [r|] eqn:E; [|by vm_compute].
  apply region_named_name in E as [_ Hr]. pose proof preset_codes as Hp. rewrite Forall_forall in Hp. by apply (Hp r).
Qed.

Lemma in_common_dom la lb :
  in_common la lb = false ↔
  dom (pm_regions (NewPeerMgr (ParseRegions la))) ∩ dom (pm_regions (NewPeerMgr (ParseRegions lb))) = ∅.
Proof.
  rewrite <- not_true_iff_false. unfold in_common. rewrite existsb_exists. setoid_rewrite existsb_exists.
  setoid_rewrite same_code_spec. setoid_rewrite <- list_elem_of_In. split.
  - intros Hn. apply set_eq. intros c. rewrite elem_of_intersection, !dom_regions. split; [|set_solver].
    intros [(n & Hn1 & <-) (m & Hm & E)]. destruct Hn. eauto.
  - intros He (n & Hn & m & Hm & E).
    assert (rg_Code (ParseRegion n) ∈ (∅ : gset Z)) as []%not_elem_of_empty.
    rewrite <- He. apply elem_of_intersection. rewrite !dom_regions. split; eauto.
Qed.

(** ** Properties *)

(** C23: Greetings are mutual.  When two nodes greet each other, both greetings are read and
    answered.  Regions are compared by their codes: if the nodes have a preset region in
    common, or each has some region of its own, each knows the other with all its region
    codes, and otherwise neither has registered the other. *)
Theorem greetings_mutual {CB : CborLib} {LAWS : CborLaws} (region_order : gmap Z Region → list Region)
    (ida idb : peer_id) (ra rb : cid) (la lb : list string) (a b : PeerMgr) (ba bb resta restb : bytes) :
  RegionOrder region_order →
  pm_regions a = pm_regions (NewPeerMgr (ParseRegions la)) →
  pm_regions b = pm_regions (NewPeerMgr (ParseRegions lb)) →
  sendHey region_order ra None a = (a, Ok ba) → sendHey region_order rb None b = (b, Ok bb) →
  ∃ a' b', handleStream ida (ba +:+ resta) b = (b', Ok (Some pong)) ∧
    handleStream idb (bb +:+ restb) a = (a', Ok (Some pong)) ∧
    if in_common la lb
    then pm_peers b' = <[ida := MkPeer (map rg_Code (region_order (pm_regions a))) 0]> (pm_peers b) ∧
         pm_peers a' = <[idb := MkPeer (map rg_Code (region_order (pm_regions b))) 0]> (pm_peers a)
    else pm_peers a' = pm_peers a ∧ pm_peers b' = pm_peers b.
Proof.
  intros HO Era Erb Hsa Hsb.
  assert (regions_ok (pm_regions a)) as Ha by (rewrite Era; apply ParseRegions_ok).
  assert (regions_ok (pm_regions b)) as Hb by (rewrite Erb; apply ParseRegions_ok).
  pose proof (in_common_dom la lb) as Hc. rewrite <- Era, <- Erb in Hc.
  destruct (hey_registers ida (getHey region_order ra a) b) as (b' & Hrb & Hpb).
  destruct (hey_registers idb (getHey region_order rb b) a) as (a' & Hra & Hpa).
  exists a', b'.
  rewrite (greeting_handled region_order HO _ _ _ _ _ _ Ha Hsa), (greeting_handled region_order HO _ _ _ _ _ _ Hb Hsb).
  unfold go_bind. rewrite Hra, Hrb. split; [done|]. split; [done|]. rewrite Hpa, Hpb.
  pose proof (shared_disjoint region_order HO ra a b Ha) as Ea.
  pose proof (shared_disjoint region_order HO rb b a Hb) as Eb. rewrite (intersection_comm_L (dom (pm_regions b))) in Eb.
  rewrite <- Hc in Ea, Eb.
  destruct (in_common la lb); repeat case_bool_decide; try done; exfalso; naive_solver.
Qed.

(** Two nodes with different regions of their own register each other. *)
Example custom_regions_collide : in_common ["Atlantis"] ["Mu"] = true ∧ in_common ["Asia"] ["Mu"] = false.
Proof. done. Qed.

Definition values_order (m : gmap Z Region) : list Region := (map_to_list m).*2.

Definition in_asia : PeerMgr := NewPeerMgr (ParseRegions ["Asia"]).

Definition asia_hey := Eval vm_compute in (sendHey values_order "root" None in_asia).
Definition asia_bytes : bytes := Eval vm_compute in match asia_hey.2 with Ok b => b | _ => EmptyString end.
Definition two_hey := Eval vm_compute in (sendHey values_order Undef None two_regions).
Definition two_bytes : bytes := Eval vm_compute in match two_hey.2 with Ok b => b | _ => EmptyString end.

Lemma greetings_mutual_witness :
  ∃ a' b', handleStream "alice" (asia_bytes +:+ EmptyString) two_regions = (b', Ok (Some pong)) ∧
    handleStream "bob" (two_bytes +:+ EmptyString) in_asia = (a', Ok (Some pong)) ∧
    pm_peers b' = <["alice" := MkPeer (map rg_Code (values_order (pm_regions in_asia))) 0]> (pm_peers two_regions) ∧
    pm_peers a' = <["bob" := MkPeer (map rg_Code (values_order (pm_regions two_regions))) 0]> (pm_peers in_asia).
Proof.
  apply (greetings_mutual values_order "alice" "bob" "root" Undef ["Asia"] ["Asia"; "Europe"] in_asia two_regions asia_bytes two_bytes).
  - by intros m.
  - done.
  - done.
  - vm_eq.
  - vm_eq.
Defined.
