(* ===== verification/Replication.v ===== *)
(** * Replication of content (exchange/replication.go, replication_cbor_gen.go)

    Content is dispatched to peers, which pull it with an authorization of the
    publisher; nodes also pull each other's indexes to learn what is popular.
    The requests and their codec, the authorizations, the goroutines that
    dispatch content and fetch indexes, and the handler of incoming requests. *)
From S2P Require Import Prelude Deal PayTypes DataTransfer Cbor DataRef Index IndexLfu IndexSpec PeerMgr.

(** ** Requests *)

Definition Dispatch : Z := 0.
Definition FetchIndex : Z := 1.

Record Request : Type := MkRequest {
  rq_Method : Z;
  rq_PayloadCID : cid;
  rq_Size : Z
}.

Section codec.
Context {CB : CborLib}.

Definition Request_MarshalCBOR (t : Request) : go bytes error unit :=
  do* Write (MajorTypeHeader MajArray 3) then
  do* Write (MajorTypeHeader MajUnsignedInt (rq_Method t)) then
  do* WriteCid "failed to write cid field t.PayloadCID" (rq_PayloadCID t) then
  Write (MajorTypeHeader MajUnsignedInt (rq_Size t)).

Definition Request_UnmarshalCBOR : go bytes error Request :=
  do* ReadFields 3 then
  let* method := ReadUint64 in
  let* c := ReadWrapped "failed to read cid field t.PayloadCID" ReadCid in
  let* size := ReadUint64 in
  go_ret (MkRequest method c size).

Context {LAWS : CborLaws}.

Lemma Request_codec r :
  is_u64 (rq_Method r) → is_u64 (rq_Size r) → codec (Request_MarshalCBOR r) Request_UnmarshalCBOR r.
Proof.
  intros Hm Hs. destruct r as [m c z]. simpl in *.
  field ltac:(apply codec_fields; unfold is_u64, two64; lia).
  field ltac:(by apply codec_uint64). field ltac:(apply codec_cid).
  apply (codec_end _ _ (MkRequest m c)). by apply codec_uint64.
Qed.

End codec.

(** ** Authorizations *)

Abbreviation pulls := (gmap cid (gset peer_id)) (only parsing).

Definition authorized (ps : pulls) (k : cid) (p : peer_id) : Prop :=
  p ∈ default ∅ (ps !! k).

Definition AuthorizePull (k : cid) (p : peer_id) (ps : pulls) : pulls :=
  match ps !! k with
  | Some set => <[k := {[p]} ∪ set]> ps
  | None => <[k := {[p]}]> ps
  end.

(** [voucher] is the request, [None] for a voucher of another type. *)
Definition ValidatePull (ps : pulls) (receiver : peer_id) (voucher : option Request) (baseCid : cid)
    : outcome error unit :=
  match voucher with
  | None => Err (ErrMsg "bad voucher")
  | Some request =>
    if rq_Method request =? FetchIndex then Ok tt
    else
      match ps !! baseCid with
      | None => Err (ErrMsg "unknown CID")
      | Some set => if bool_decide (receiver ∈ set) then Ok tt else Err (ErrMsg "not authorized")
      end
  end.

Definition ValidatePush : outcome error unit := Err (ErrMsg "no pushed accepted").

(** Which store the transport uses for a transfer. *)
Inductive transport_store : Type :=
| RootStore (k : cid)
| IndexBlockstore
| DefaultStore.

Definition TransportConfigurer (self initiator : peer_id) (voucher : option Request) : transport_store :=
  match voucher with
  | None => DefaultStore
  | Some request =>
    if (rq_Method request =? FetchIndex) && bool_decide (initiator = self) || (rq_Method request =? Dispatch)
    then RootStore (rq_PayloadCID request)
    else if rq_Method request =? FetchIndex then IndexBlockstore
    else DefaultStore
  end.

Lemma AuthorizePull_spec k p ps k' p' :
  authorized (AuthorizePull k p ps) k' p' ↔ authorized ps k' p' ∨ k' = k ∧ p' = p.
Proof.
  unfold authorized, AuthorizePull. destruct (decide (k' = k)) as [->|Hne].
  - destruct (ps !! k); rewrite lookup_insert_eq; simpl; set_solver.
  - destruct (ps !! k); rewrite lookup_insert_ne by done; set_solver.
Qed.

Lemma ValidatePull_spec ps receiver voucher baseCid :
  ValidatePull ps receiver voucher baseCid = Ok tt ↔
  ∃ r, voucher = Some r ∧ (rq_Method r = FetchIndex ∨ authorized ps baseCid receiver).
Proof.
  unfold ValidatePull, authorized. split.
  - destruct voucher as [r|]; [|done]. destruct (Z.eqb_spec (rq_Method r) FetchIndex); [eauto|].
    destruct (ps !! baseCid) eqn:E; [|done]. case_bool_decide; [|done]. intros _. exists r. auto.
  - intros (r & -> & [->|H]); [done|]. destruct (_ =? _); [done|].
    destruct (ps !! baseCid); simpl in H; [|set_solver]. by rewrite bool_decide_eq_true_2.
Qed.

(** ** Dispatching content

    A goroutine that asks peers to pull some content and waits for their
    confirmations.  It sends a round of requests each time its timer fires, with
    a growing delay, and stops after enough confirmations or too many rounds. *)

Record PRecord : Type := MkPRecord {
  pr_Provider : peer_id;
  pr_PayloadCID : cid
}.

Record DispatchOptions : Type := MkDispatchOptions {
  do_BackoffAttemps : Z;
  do_RF : Z;
  do_StoreID : Z
}.

Definition DefaultDispatchOptions : DispatchOptions := MkDispatchOptions 4 6 0.

(** [dp_asked] are the peers requests were sent to, in order; [dp_attempt] counts
    the rounds. *)
Record dispatch : Type := MkDispatch {
  dp_pulls : pulls;
  dp_rcv : gset peer_id;
  dp_attempt : Z;
  dp_n : Z;
  dp_out : list PRecord;
  dp_asked : list peer_id;
  dp_open : bool
}.

Section dispatching.
Context (order : Region → gmap peer_id Peer → list (peer_id * Peer)).
Context (root : cid) (opt : DispatchOptions) (rgs : list Region).

Definition dispatch_start (ps : pulls) : dispatch := MkDispatch ps ∅ 0 0 [] [] true.

(** One round, with the peers known at that time. *)
Definition dispatch_round (pm : PeerMgr) (d : dispatch) : dispatch :=
  if do_BackoffAttemps opt <? dp_attempt d
  then MkDispatch (dp_pulls d) (dp_rcv d) (dp_attempt d) (dp_n d) (dp_out d) (dp_asked d) false
  else
    let providers := Peers order (do_RF opt - dp_n d) rgs (λ p, bool_decide (p ∈ dp_rcv d)) pm in
    MkDispatch (foldl (λ ps p, AuthorizePull root p ps) (dp_pulls d) providers)
      (dp_rcv d ∪ list_to_set providers) (dp_attempt d + 1) (dp_n d) (dp_out d)
      (dp_asked d ++ providers) true.

(** A transfer of the content was completed: the event listener forwards it. *)
Definition dispatch_confirm (rec : PRecord) (d : dispatch) : dispatch :=
  MkDispatch (dp_pulls d) (dp_rcv d) (dp_attempt d) (dp_n d + 1) (dp_out d ++ [rec]) (dp_asked d)
    (negb (dp_n d + 1 =? do_RF opt)).

(** What the event listener does with the state of a transfer. *)
Definition dispatch_listener (baseCid : cid) (status : DtStatus) (recipient : peer_id) : option PRecord :=
  if negb (String.eqb baseCid root) then None
  else match status with
       | DtCompleted => Some (MkPRecord recipient root)
       | _ => None
       end.

(** The first round is immediate; then timers and confirmations come in any
    order, while the tables of peers and of authorizations may change. *)
Inductive dispatch_run : dispatch → Prop :=
| dispatch_first ps pm : dispatch_run (dispatch_round pm (dispatch_start ps))
| dispatch_timer d pm : dispatch_run d → dp_open d = true → dispatch_run (dispatch_round pm d)
| dispatch_confirmed d rec : dispatch_run d → dp_open d = true → dispatch_run (dispatch_confirm rec d)
| dispatch_authorize d k p : dispatch_run d →
    dispatch_run (MkDispatch (AuthorizePull k p (dp_pulls d)) (dp_rcv d) (dp_attempt d) (dp_n d)
                    (dp_out d) (dp_asked d) (dp_open d)).

Lemma authorize_all providers : ∀ ps k p,
  authorized (foldl (λ ps p, AuthorizePull root p ps) ps providers) k p ↔
  authorized ps k p ∨ k = root ∧ p ∈ providers.
Proof.
  induction providers as [|x l IH]; intros ps k p; simpl; [set_solver|].
  rewrite IH, AuthorizePull_spec. set_solver.
Qed.

(** The invariant of a dispatch. *)
Record dispatch_ok (d : dispatch) : Prop := {
  dk_n : dp_n d = Z.of_nat (length (dp_out d)) ∧ dp_n d <= do_RF opt ∧
         (dp_open d = true → dp_n d < do_RF opt);
  dk_attempt : 0 <= dp_attempt d <= do_BackoffAttemps opt + 1;
  dk_asked : ∀ p, p ∈ dp_asked d ↔ p ∈ dp_rcv d;
  dk_authorized : ∀ p, p ∈ dp_asked d → authorized (dp_pulls d) root p
}.

Lemma dispatch_round_ok pm d :
  0 <= do_BackoffAttemps opt → dp_open d = true → dispatch_ok d → dispatch_ok (dispatch_round pm d).
Proof.
  intros Hb Ho [(H1 & H2 & H3) H4 H5 H6]. unfold dispatch_round.
  destruct (Z.ltb_spec (do_BackoffAttemps opt) (dp_attempt d)); [by split|].
  split; simpl; [by auto|lia| |].
  - intros p. rewrite elem_of_app, elem_of_union, elem_of_list_to_set, H5. done.
  - intros p Hp. rewrite authorize_all. apply elem_of_app in Hp as [Hp|Hp]; [left; by apply H6|by right].
Qed.

Lemma dispatch_run_ok d :
  0 < do_RF opt → 0 <= do_BackoffAttemps opt → dispatch_run d → dispatch_ok d.
Proof.
  intros Hrf Hb. induction 1 as [ps pm|d pm _ IH Ho|d rec _ [(H1 & H2 & H3) H4 H5 H6] Ho|d k p _ [H1 H4 H5 H6]].
  - apply dispatch_round_ok; [done..|]. split; simpl; [lia|lia|set_solver|set_solver].
  - by apply dispatch_round_ok.
  - specialize (H3 Ho). split; simpl; [|done..]. rewrite length_app. simpl.
    split_and!; [lia|lia|]. intros ?%negb_true_iff. to_prop. lia.
  - split; simpl; [done..|]. intros q Hq. apply AuthorizePull_spec. left. by apply H6.
Qed.

End dispatching.

(** ** Fetching indexes

    [pumpIndexes] fetches the indexes announced in greetings one at a time.
    [fetchDone] is nil, the channel of a fetch going on, or a channel whose
    result was received: it is not set back to nil. *)

Inductive fetch_state : Type :=
| NoFetch
| Fetching (h : HeyEvt)
| FetchDrained.

(** [pu_fetched] are the fetches started and [pu_loads] the indexes loaded. *)
Record pump : Type := MkPump {
  pu_q : list HeyEvt;
  pu_fetch : fetch_state;
  pu_fetched : list HeyEvt;
  pu_loads : list cid
}.

Definition pump_start : pump := MkPump [] NoFetch [] [].

Definition has_root (h : HeyEvt) : bool :=
  match he_IndexRoot h with Some _ => true | None => false end.

Definition pump_hey (hevt : HeyEvt) (s : pump) : pump :=
  if negb (has_root hevt) then s
  else match pu_fetch s with
       | NoFetch => MkPump (pu_q s) (Fetching hevt) (pu_fetched s ++ [hevt]) (pu_loads s)
       | _ => MkPump (pu_q s ++ [hevt]) (pu_fetch s) (pu_fetched s) (pu_loads s)
       end.

Definition pump_result (h : HeyEvt) (err : option error) (s : pump) : pump :=
  let loads := match err, he_IndexRoot h with
               | None, Some root => pu_loads s ++ [root]
               | _, _ => pu_loads s
               end in
  match pu_q s with
  | hvt :: q => MkPump q (Fetching hvt) (pu_fetched s ++ [hvt]) loads
  | [] => MkPump [] FetchDrained (pu_fetched s) loads
  end.

(** The greetings received so far, in order. *)
Inductive pump_run : list HeyEvt → pump → Prop :=
| pump_init : pump_run [] pump_start
| pump_greeted heys s h : pump_run heys s → pump_run (heys ++ [h]) (pump_hey h s)
| pump_fetched heys s h err : pump_run heys s → pu_fetch s = Fetching h →
    pump_run heys (pump_result h err s).

Lemma pump_run_ok heys s :
  pump_run heys s →
  filter (λ h, has_root h = true) heys = pu_fetched s ++ pu_q s ∧
  match pu_fetch s with NoFetch => pu_q s = [] ∧ pu_fetched s = [] | _ => pu_fetched s ≠ [] end.
Proof.
  induction 1 as [|heys s h _ [IH1 IH2]|heys s h err _ [IH1 IH2] Hf]; [done| |].
  - rewrite filter_app, IH1. unfold pump_hey. rewrite filter_cons, filter_nil.
    destruct (has_root h) eqn:Er; simpl; [|by rewrite app_nil_r].
    destruct (pu_fetch s) eqn:Ef; simpl.
    + destruct IH2 as [-> ->]. done.
    + by rewrite app_assoc.
    + by rewrite app_assoc.
  - rewrite Hf in IH2. rewrite IH1. unfold pump_result. destruct (pu_q s) as [|hvt q] eqn:Eq; simpl; [done|].
    split; [by rewrite <- app_assoc|]. by destruct (pu_fetched s).
Qed.

(** ** Transfers

    The data transfer manager, the stores and the network, over the external
    state of the index. *)

Record TransferState : Type := MkTransferState {
  ts_Status : DtStatus;
  ts_Message : string;
  ts_BaseCID : cid
}.

Record ReplEnv (X : Type) : Type := MkReplEnv {
  re_Next : go X error Z;
  re_Get : Z → go X error unit;
  re_Delete : Z → go X error unit;
  re_OpenPullDataChannel : peer_id → Request → cid → go X error ChannelID;
  re_ChannelState : ChannelID → go X error TransferState;
  re_MapLoadableKeys : cid → Z → go X error (list bytes);
  re_MigrateBlocks : Z → go X error unit;
  re_Emit : cid → go X error unit
}.
Arguments re_Next {X}.
Arguments re_Get {X}.
Arguments re_Delete {X}.
Arguments re_OpenPullDataChannel {X}.
Arguments re_ChannelState {X}.
Arguments re_MapLoadableKeys {X}.
Arguments re_MigrateBlocks {X}.
Arguments re_Emit {X}.

Record Replication (X : Type) : Type := MkReplication {
  rp_idx : Index X;
  rp_stores : gmap cid Z
}.
Arguments MkReplication {X}.
Arguments rp_idx {X}.
Arguments rp_stores {X}.

Section transfers.
Context {CB : CborLib} {X : Type} (ienv : IndexEnv X) (renv : ReplEnv X).
Context (range : gset ptr → list ptr).
Local Abbreviation R := (go (Replication X) error).

Definition on_idx {A} (m : go (Index X) error A) : R A := λ s,
  let '(i, r) := m (rp_idx s) in (MkReplication i (rp_stores s), r).

Definition on_x {A} (m : go X error A) : R A := on_idx (on_ext m).

Definition AddStore (k : cid) (sid : Z) : R unit :=
  do* on_x (re_Get renv sid) then
  go_modify (λ s, MkReplication (rp_idx s) (<[k := sid]> (rp_stores s))).

Definition GetStore (k : cid) (s : Replication X) : option Z := rp_stores s !! k.

Definition RmStore (k : cid) : R unit :=
  go_modify (λ s, MkReplication (rp_idx s) (delete k (rp_stores s))).

(** Polls the state of a transfer until it is over; [fuel] bounds the polls. *)
Fixpoint wait_transfer (fuel : nat) (chid : ChannelID) : R TransferState :=
  match fuel with
  | O => go_hang
  | S fuel' =>
    let* st := on_x (re_ChannelState renv chid) in
    match ts_Status st with
    | DtOngoing => wait_transfer fuel' chid
    | _ => go_ret st
    end
  end.

Definition fetchIndex (fuel : nat) (hvt : HeyEvt) : R unit :=
  match he_IndexRoot hvt with
  | None => go_panic
  | Some rcid =>
    let* sid := on_x (re_Next renv) in
    do* AddStore rcid sid then
    let* chid := on_x (re_OpenPullDataChannel renv (he_Peer hvt) (MkRequest FetchIndex rcid 0) rcid) in
    let* st := wait_transfer fuel chid in
    match ts_Status st with
    | DtFailed => go_err (ErrMsg ("data transfer failed: " +:+ ts_Message st))
    | DtCancelled => go_err (ErrMsg ("data transfer cancelled: " +:+ ts_Message st))
    | _ => go_ret tt
    end
  end.

(** What [pumpIndexes] starts once an index was fetched. *)
Definition load_fetched (rt : cid) : R unit :=
  let* s := go_get in
  match GetStore rt s with
  | None => go_panic
  | Some _ => do* go_try (on_idx (LoadInterest ienv rt)) then go_ret tt
  end.

(** After a dispatched content was received. *)
Definition content_received (req : Request) (sid : Z) : R unit :=
  let* s := go_get in
  match GetStore (rq_PayloadCID req) s with
  | None => go_panic
  | Some store =>
    let* keys := go_try (on_x (re_MapLoadableKeys renv (rq_PayloadCID req) store)) in
    let ref := MkDataRef (rq_PayloadCID req) (i64 (rq_Size req))
                 (match keys with inr l => l | inl _ => [] end) 0 0 None in
    do* go_try (on_idx (let* p := alloc_ref ref in SetRef ienv range p)) then
    do* go_try (on_x (re_MigrateBlocks renv store)) then
    do* go_try (on_x (re_Delete renv sid)) then
    go_ret tt
  end.

(** Pulling a content this node was asked to store; what goes wrong is only logged. *)
Definition pull_dispatched (fuel : nat) (p : peer_id) (req : Request) : R unit :=
  let* sid := on_x (re_Next renv) in
  let* added := go_try (AddStore (rq_PayloadCID req) sid) in
  match added with
  | inl _ => go_ret tt
  | inr _ =>
    let* chid := go_try (on_x (re_OpenPullDataChannel renv p req (rq_PayloadCID req))) in
    match chid with
    | inl _ => go_ret tt
    | inr chid =>
      let* st := go_try (wait_transfer fuel chid) in
      match st with
      | inl _ => go_ret tt
      | inr st =>
        match ts_Status st with
        | DtCompleted => content_received req sid
        | _ => do* go_try (on_idx (DropRef ienv (ts_BaseCID st))) then go_ret tt
        end
      end
    end
  end.

(** [handleRequest] on a request it read. *)
Definition handleRequest (fuel : nat) (p : peer_id) (req : Request) : R unit :=
  if negb (rq_Method req =? Dispatch) then go_ret tt
  else
    let* known := go_try (on_idx (GetRef ienv (rq_PayloadCID req))) in
    match known with
    | inr _ => go_ret tt
    | inl _ => pull_dispatched fuel p req
    end.

(** One tick of [refreshIndex]; [FindAndRetrieve] belongs to the exchange, which
    adds what it retrieved to the same index. *)
Section refresh.
Context (FindAndRetrieve : cid → go (Index X) error unit).

Fixpoint refresh_refs (refs : list ptr) : R unit :=
  match refs with
  | [] => go_ret tt
  | p :: refs' =>
    let* ref := on_idx (deref p) in
    let* got := go_try (on_idx (FindAndRetrieve (dr_PayloadCID ref))) in
    do* match got with
        | inl _ => go_ret tt
        | inr _ =>
          do* go_try (on_idx (DropInterest ienv (dr_PayloadCID ref))) then
          do* go_try (on_x (re_Emit renv (dr_PayloadCID ref))) then
          go_ret tt
        end then
    refresh_refs refs'
  end.

Definition refresh_tick : R unit :=
  let* refs := go_try (on_idx (Interesting range)) in
  match refs with
  | inl _ => go_ret tt
  | inr refs => refresh_refs (range refs)
  end.

End refresh.

(** *** The index stays consistent *)

Context {RO : RangeOrder range}.

Definition repl_ok (s : Replication X) : Prop := index_ok ienv (rp_idx s).

Lemma on_idx_preserves {A} (m : go (Index X) error A) :
  preserves (index_ok ienv) m → preserves repl_ok (on_idx m).
Proof.
  intros Hm s s' Hs [res H]. unfold on_idx, go_try in H. unfold repl_ok in *.
  destruct (m (rp_idx s)) as [i [a|e| |]] eqn:E; simplify_eq; simpl; (eapply Hm; [exact Hs|]);
    [exists (inr a)|exists (inl e)]; unfold go_try; by rewrite E.
Qed.

Lemma on_x_preserves {A} (m : go X error A) : preserves repl_ok (on_x m).
Proof.
  apply on_idx_preserves, (preserves_keeps _ same_mem); [|apply on_ext_mem].
  intros s s' Hm Hok. by eapply index_ok_mem.
Qed.

Lemma AddStore_preserves k sid : preserves repl_ok (AddStore k sid).
Proof. apply preserves_bind; [apply on_x_preserves|]. intros _ s s' Hs [? [= <- _]]. exact Hs. Qed.

Lemma wait_transfer_preserves fuel chid : preserves repl_ok (wait_transfer fuel chid).
Proof.
  induction fuel as [|fuel IH]; simpl; [by apply preserves_pure|].
  apply preserves_bind; [apply on_x_preserves|intros st]. case_match; [by apply preserves_pure..|done].
Qed.

Lemma content_received_preserves req sid : preserves repl_ok (content_received req sid).
Proof.
  unfold content_received. apply preserves_bind; [by apply preserves_pure|intros s0].
  destruct (GetStore _ s0) as [store|]; [|by apply preserves_pure].
  apply preserves_bind; [apply preserves_try, on_x_preserves|intros keys].
  apply preserves_bind.
  { apply preserves_try, on_idx_preserves. intros s s' Hs Hret. eapply (SetNew_index_ok ienv range _ _ _ Hs); [|exact Hret]. done. }
  intros _. apply preserves_bind; [apply preserves_try, on_x_preserves|intros _].
  apply preserves_bind; [apply preserves_try, on_x_preserves|intros _]. by apply preserves_pure.
Qed.

Lemma pull_dispatched_preserves fuel p req : preserves repl_ok (pull_dispatched fuel p req).
Proof.
  unfold pull_dispatched. apply preserves_bind; [apply on_x_preserves|intros sid].
  apply preserves_bind; [apply preserves_try, AddStore_preserves|intros [?|?]]; [by apply preserves_pure|].
  apply preserves_bind; [apply preserves_try, on_x_preserves|intros [?|chid]]; [by apply preserves_pure|].
  apply preserves_bind; [apply preserves_try, wait_transfer_preserves|intros [?|st]]; [by apply preserves_pure|].
  assert (preserves repl_ok (do* go_try (on_idx (DropRef ienv (ts_BaseCID st))) then go_ret tt)) as Hdrop.
  { apply preserves_bind; [|intros _; by apply preserves_pure].
    apply preserves_try, on_idx_preserves. intros s s' Hs Hret. by eapply DropRef_index_ok. }
  destruct (ts_Status st); [apply content_received_preserves|exact Hdrop..].
Qed.

(** Handling a request of another peer, whatever the transfer ends with and
    wherever it fails, leaves the index consistent. *)
Theorem handleRequest_keeps_index fuel p req s s' :
  repl_ok s →
  (∀ q r, ix_Refs (rp_idx s) !! ie_String ienv (rq_PayloadCID req) = Some q →
          ix_heap (rp_idx s) !! q = Some r → is_i64 (dr_BucketID r + 1)) →
  returns (handleRequest fuel p req) s s' → repl_ok s'.
Proof.
  intros Hok Hid Hret. unfold handleRequest in Hret. destruct (negb _).
  { by destruct Hret as [? [= <- _]]. }
  apply returns_bind in Hret as [(s1 & known & Hk & Hret)|[e He]].
  2: { by destruct (go_try_err _ _ _ _ He). }
  assert (repl_ok s1) as Hok1.
  { unfold on_idx, go_try in Hk. destruct (GetRef ienv _ (rp_idx s)) as [i o] eqn:Eg.
    assert (returns (GetRef ienv (rq_PayloadCID req)) (rp_idx s) (rp_idx s1)) as Hg.
    { destruct o as [q|e| |]; simplify_eq; [exists (inr q)|exists (inl e)]; unfold go_try; by rewrite Eg. }
    by eapply GetRef_index_ok. }
  destruct known as [e|q]; [|by destruct Hret as [? [= <- _]]].
  by eapply pull_dispatched_preserves.
Qed.

End transfers.

(** ** Properties of authorizations, dispatches and fetches *)

(** A pull is accepted exactly when its voucher is a request and either
    fetches an index or comes from a peer authorized for the content pulled. *)
Theorem pull_authorized ps receiver voucher baseCid :
  ValidatePull ps receiver voucher baseCid = Ok tt ↔
  ∃ r, voucher = Some r ∧ (rq_Method r = FetchIndex ∨ authorized ps baseCid receiver).
Proof. apply ValidatePull_spec. Qed.

(** The request to fetch an index opens the whole block store: any peer may
    pull any content with it, without payment or authorization, and it is served
    from the store that holds the content sold. *)
Theorem fetch_index_opens_store self peer root baseCid size :
  peer ≠ self →
  ValidatePull ∅ peer (Some (MkRequest FetchIndex root size)) baseCid = Ok tt ∧
  TransportConfigurer self peer (Some (MkRequest FetchIndex root size)) = IndexBlockstore.
Proof.
  intros Hne. split; [done|]. unfold TransportConfigurer. simpl. by rewrite bool_decide_eq_false_2.
Qed.

(** C22: Along any dispatch, the confirmations passed on are counted and never
    exceed the replication factor, the rounds never exceed the attempts allowed
    by more than one, and every peer asked so far is authorized to pull. *)
Theorem dispatch_bounded order root opt rgs d size :
  0 < do_RF opt → 0 <= do_BackoffAttemps opt → dispatch_run order root opt rgs d →
  dp_n d = Z.of_nat (length (dp_out d)) ∧ dp_n d <= do_RF opt ∧
  dp_attempt d <= do_BackoffAttemps opt + 1 ∧
  ∀ p, p ∈ dp_asked d → ValidatePull (dp_pulls d) p (Some (MkRequest Dispatch root size)) root = Ok tt.
Proof.
  intros Hrf Hb Hrun. destruct (dispatch_run_ok _ _ _ _ _ Hrf Hb Hrun) as [(H1 & H2 & _) H4 _ H6].
  split_and!; [done|done|lia|]. intros p Hp. apply ValidatePull_spec. eexists. split; [done|right].
  by apply H6.
Qed.

(** Indexes are fetched in the order they were announced, one at a time; but
    once a fetch ended while none was queued, no index is ever fetched again. *)
Theorem pump_starves heys s :
  pump_run heys s →
  filter (λ h, has_root h = true) heys = pu_fetched s ++ pu_q s ∧
  (pu_fetch s = FetchDrained →
   ∀ h, pu_fetch (pump_hey h s) = FetchDrained ∧ pu_fetched (pump_hey h s) = pu_fetched s).
Proof.
  intros [H1 _]%pump_run_ok. split; [done|]. intros Hf h. unfold pump_hey. rewrite Hf.
  by destruct (negb _).
Qed.

(** A request is read back as it was written. *)
Theorem Request_roundtrip {CB : CborLib} {LAWS : CborLaws} (r : Request) (b rest : bytes) :
  is_u64 (rq_Method r) → is_u64 (rq_Size r) → Request_MarshalCBOR r EmptyString = (b, Ok tt) →
  Request_UnmarshalCBOR (b +:+ rest) = (rest, Ok r).
Proof. intros Hm Hs Hw. by destruct (Request_codec r Hm Hs _ _ Hw) as (b' & -> & H). Qed.

(** ** Concrete runs *)

Lemma fetch_index_opens_store_witness :
  ValidatePull ∅ "mallory" (Some (MkRequest FetchIndex "x" 0)) "secret" = Ok tt.
Proof. by apply (fetch_index_opens_store "me" "mallory" "x" "secret" 0). Defined.

Definition one_round : dispatch :=
  dispatch_round plain_order "root" DefaultDispatchOptions (ParseRegions ["Asia"]) met (dispatch_start ∅).

Lemma dispatch_bounded_witness :
  ValidatePull (dp_pulls one_round) "alice" (Some (MkRequest Dispatch "root" 9)) "root" = Ok tt.
Proof.
  apply (dispatch_bounded plain_order "root" DefaultDispatchOptions (ParseRegions ["Asia"]) one_round 9).
  - done.
  - done.
  - constructor.
  - assert (dp_asked one_round = ["alice"]) as -> by vm_eq. by apply list_elem_of_singleton.
Defined.

Definition announced : HeyEvt := MkHeyEvt "alice" (Some "idx").
Definition drained : pump := pump_result announced None (pump_hey announced pump_start).

Lemma pump_starves_witness : pu_fetched (pump_hey (MkHeyEvt "bob" (Some "idx2")) drained) = [announced].
Proof.
  apply (pump_starves [announced] drained); [|done].
  apply pump_fetched; [|done]. apply (pump_greeted [] pump_start). constructor.
Defined.

(** A transfer that completes at once, over the store of [IndexSpec]. *)
Definition instant_transfer : ReplEnv (gmap string bytes) := {|
  re_Next := go_ret 1;
  re_Get _ := go_ret tt;
  re_Delete _ := go_ret tt;
  re_OpenPullDataChannel p _ _ := go_ret (MkChannelID "me" p 1);
  re_ChannelState _ := go_ret (MkTransferState DtCompleted EmptyString "c");
  re_MapLoadableKeys _ _ := go_ret ["k"];
  re_MigrateBlocks _ := go_ret tt;
  re_Emit _ := go_ret tt
|}.

Definition handled_c : Replication (gmap string bytes) :=
  (handleRequest table_store instant_transfer elements 3 "alice" (MkRequest Dispatch "c" 10)
     (MkReplication index_3 ∅)).1.

Lemma handleRequest_keeps_index_witness : repl_ok table_store handled_c.
Proof.
  apply (handleRequest_keeps_index table_store instant_transfer elements 3 "alice"
           (MkRequest Dispatch "c" 10) (MkReplication index_3 ∅)).
  - apply index_3_ok.
  - assert (ix_Refs index_3 !! "c" = None) as E by vm_eq. simpl. intros q r Hq. by rewrite E in Hq.
  - apply (returned _ _ tt). vm_eq.
Defined.

Example handled_c_stored : bool_decide (is_Some (ix_Refs (rp_idx handled_c) !! "c")) = true.
Proof. vm_eq. Qed.
