(* ===== verification/DealCodec.v ===== *)
(** * CBOR encoding of the deal records (retrieval/deal/types_cbor_gen.go)

    The messages of the deal protocol and the deal states both parties persist,
    encoded as maps from field names: a reader starts from the zero record and
    accepts the fields in any order. *)
From S2P Require Import Prelude Deal PayTypes DataTransfer Cbor.

(** ** Enumerations

    A status is an integer, and a reader accepts every integer. *)

Definition QueryResponseStatus_code (s : QueryResponseStatus) : Z :=
  match s with
  | QueryResponseAvailable => 0
  | QueryResponseUnavailable => 1
  | QueryResponseError => 2
  | QueryResponseOther n => 3 + Z.of_N n
  end.

Definition QueryItemStatus_code (s : QueryItemStatus) : Z :=
  match s with
  | QueryItemAvailable => 0
  | QueryItemUnavailable => 1
  | QueryItemUnknown => 2
  | QueryItemOther n => 3 + Z.of_N n
  end.

Definition QueryResponseStatus_of (z : Z) : QueryResponseStatus :=
  match z with
  | 0 => QueryResponseAvailable
  | 1 => QueryResponseUnavailable
  | 2 => QueryResponseError
  | _ => QueryResponseOther (Z.to_N (z - 3))
  end.

Definition QueryItemStatus_of (z : Z) : QueryItemStatus :=
  match z with
  | 0 => QueryItemAvailable
  | 1 => QueryItemUnavailable
  | 2 => QueryItemUnknown
  | _ => QueryItemOther (Z.to_N (z - 3))
  end.

Section codec.
Context {CB : CborLib}.
(** The codec of the piece information, which no code of the repository sets. *)
Context (ReadPieceInfo : go bytes error unit).

(** ** QueryParams *)

Definition zero_QueryParams : QueryParams := MkQueryParams None None.

Definition QueryParams_MarshalCBOR (t : QueryParams) : go bytes error unit :=
  do* Write (MajorTypeHeader MajMap 2) then
  do* WriteKey "PieceCID" then
  do* WriteCidOrNull "failed to write cid field t.PieceCID" (qp_PieceCID t) then
  do* WriteKey "Selector" then
  WriteDeferred (qp_Selector t).

Definition QueryParams_field (name : string) (t : QueryParams) : option (go bytes error QueryParams) :=
  let 'MkQueryParams v1 v2 := t in
  if String.eqb name "PieceCID"
  then Some (let* x := ReadNullableOr "failed to read cid field t.PieceCID" ReadCid v1 in
             go_ret (MkQueryParams x v2))
  else if String.eqb name "Selector"
  then Some (let* x := ReadDeferredField in
             go_ret (MkQueryParams v1 x))
  else None.

Definition QueryParams_UnmarshalCBOR : go bytes error QueryParams :=
  ReadMap "QueryParams" QueryParams_field zero_QueryParams.

(** ** Query *)

Definition zero_Query : Query := MkQuery Undef zero_QueryParams.

Definition Query_MarshalCBOR (t : Query) : go bytes error unit :=
  do* Write (MajorTypeHeader MajMap 2) then
  do* WriteKey "PayloadCID" then
  do* WriteCid "failed to write cid field t.PayloadCID" (q_PayloadCID t) then
  do* WriteKey "QueryParams" then
  QueryParams_MarshalCBOR (q_QueryParams t).

Definition Query_field (name : string) (t : Query) : option (go bytes error Query) :=
  let 'MkQuery v1 v2 := t in
  if String.eqb name "PayloadCID"
  then Some (let* x := ReadWrapped "failed to read cid field t.PayloadCID" ReadCid in
             go_ret (MkQuery x v2))
  else if String.eqb name "QueryParams"
  then Some (let* x := ReadWrapped "unmarshaling t.QueryParams" QueryParams_UnmarshalCBOR in
             go_ret (MkQuery v1 x))
  else None.

Definition Query_UnmarshalCBOR : go bytes error Query :=
  ReadMap "Query" Query_field zero_Query.

(** ** QueryResponse *)

Definition zero_QueryResponse : QueryResponse := MkQueryResponse QueryResponseAvailable
           QueryItemAvailable 0 Undef 0 0 0 EmptyString 0.

Definition QueryResponse_MarshalCBOR (t : QueryResponse) : go bytes error unit :=
  do* Write (MajorTypeHeader MajMap 9) then
  do* WriteKey "Status" then
  do* Write (MajorTypeHeader MajUnsignedInt (QueryResponseStatus_code (qr_Status t))) then
  do* WriteKey "PieceCIDFound" then
  do* Write (MajorTypeHeader MajUnsignedInt (QueryItemStatus_code (qr_PieceCIDFound t))) then
  do* WriteKey "Size" then
  do* Write (MajorTypeHeader MajUnsignedInt (qr_Size t)) then
  do* WriteKey "PaymentAddress" then
  do* WriteEnc (AddressBytes (Some (qr_PaymentAddress t))) then
  do* WriteKey "MinPricePerByte" then
  do* WriteEnc (BigIntBytes (qr_MinPricePerByte t)) then
  do* WriteKey "MaxPaymentInterval" then
  do* Write (MajorTypeHeader MajUnsignedInt (qr_MaxPaymentInterval t)) then
  do* WriteKey "MaxPaymentIntervalIncrease" then
  do* Write (MajorTypeHeader MajUnsignedInt (qr_MaxPaymentIntervalIncrease t)) then
  do* WriteKey "Message" then
  do* WriteText "Value in field t.Message was too long" (qr_Message t) then
  do* WriteKey "UnsealPrice" then
  WriteEnc (BigIntBytes (qr_UnsealPrice t)).

Definition QueryResponse_field (name : string) (t : QueryResponse) : option (go bytes error QueryResponse) :=
  let 'MkQueryResponse v1 v2 v3 v4 v5 v6 v7 v8 v9 := t in
  if String.eqb name "Status"
  then Some (let* x := ReadUint64 in
             go_ret (MkQueryResponse (QueryResponseStatus_of x) v2 v3 v4 v5 v6 v7 v8 v9))
  else if String.eqb name "PieceCIDFound"
  then Some (let* x := ReadUint64 in
             go_ret (MkQueryResponse v1 (QueryItemStatus_of x) v3 v4 v5 v6 v7 v8 v9))
  else if String.eqb name "Size"
  then Some (let* x := ReadUint64 in
             go_ret (MkQueryResponse v1 v2 x v4 v5 v6 v7 v8 v9))
  else if String.eqb name "PaymentAddress"
  then Some (let* x := ReadWrapped "unmarshaling t.PaymentAddress" ReadAddress in
             go_ret (MkQueryResponse v1 v2 v3 x v5 v6 v7 v8 v9))
  else if String.eqb name "MinPricePerByte"
  then Some (let* x := ReadWrapped "unmarshaling t.MinPricePerByte" ReadBigInt in
             go_ret (MkQueryResponse v1 v2 v3 v4 x v6 v7 v8 v9))
  else if String.eqb name "MaxPaymentInterval"
  then Some (let* x := ReadUint64 in
             go_ret (MkQueryResponse v1 v2 v3 v4 v5 x v7 v8 v9))
  else if String.eqb name "MaxPaymentIntervalIncrease"
  then Some (let* x := ReadUint64 in
             go_ret (MkQueryResponse v1 v2 v3 v4 v5 v6 x v8 v9))
  else if String.eqb name "Message"
  then Some (let* x := ReadString in
             go_ret (MkQueryResponse v1 v2 v3 v4 v5 v6 v7 x v9))
  else if String.eqb name "UnsealPrice"
  then Some (let* x := ReadWrapped "unmarshaling t.UnsealPrice" ReadBigInt in
             go_ret (MkQueryResponse v1 v2 v3 v4 v5 v6 v7 v8 x))
  else None.

Definition QueryResponse_UnmarshalCBOR : go bytes error QueryResponse :=
  ReadMap "QueryResponse" QueryResponse_field zero_QueryResponse.

(** ** Params *)

Definition zero_Params : Params := MkParams None None 0 0 0 0.

Definition Params_MarshalCBOR (t : Params) : go bytes error unit :=
  do* Write (MajorTypeHeader MajMap 6) then
  do* WriteKey "Selector" then
  do* WriteDeferred (Selector t) then
  do* WriteKey "PieceCID" then
  do* WriteCidOrNull "failed to write cid field t.PieceCID" (PieceCID t) then
  do* WriteKey "PricePerByte" then
  do* WriteEnc (BigIntBytes (PricePerByte t)) then
  do* WriteKey "PaymentInterval" then
  do* Write (MajorTypeHeader MajUnsignedInt (PaymentInterval t)) then
  do* WriteKey "PaymentIntervalIncrease" then
  do* Write (MajorTypeHeader MajUnsignedInt (PaymentIntervalIncrease t)) then
  do* WriteKey "UnsealPrice" then
  WriteEnc (BigIntBytes (UnsealPrice t)).

Definition Params_field (name : string) (t : Params) : option (go bytes error Params) :=
  let 'MkParams v1 v2 v3 v4 v5 v6 := t in
  if String.eqb name "Selector"
  then Some (let* x := ReadDeferredField in
             go_ret (MkParams x v2 v3 v4 v5 v6))
  else if String.eqb name "PieceCID"
  then Some (let* x := ReadNullableOr "failed to read cid field t.PieceCID" ReadCid v2 in
             go_ret (MkParams v1 x v3 v4 v5 v6))
  else if String.eqb name "PricePerByte"
  then Some (let* x := ReadWrapped "unmarshaling t.PricePerByte" ReadBigInt in
             go_ret (MkParams v1 v2 x v4 v5 v6))
  else if String.eqb name "PaymentInterval"
  then Some (let* x := ReadUint64 in
             go_ret (MkParams v1 v2 v3 x v5 v6))
  else if String.eqb name "PaymentIntervalIncrease"
  then Some (let* x := ReadUint64 in
             go_ret (MkParams v1 v2 v3 v4 x v6))
  else if String.eqb name "UnsealPrice"
  then Some (let* x := ReadWrapped "unmarshaling t.UnsealPrice" ReadBigInt in
             go_ret (MkParams v1 v2 v3 v4 v5 x))
  else None.

Definition Params_UnmarshalCBOR : go bytes error Params :=
  ReadMap "Params" Params_field zero_Params.

(** ** Proposal *)

Definition zero_Proposal : Proposal := MkProposal Undef 0 zero_Params.

Definition Proposal_MarshalCBOR (t : Proposal) : go bytes error unit :=
  do* Write (MajorTypeHeader MajMap 3) then
  do* WriteKey "PayloadCID" then
  do* WriteCid "failed to write cid field t.PayloadCID" (PayloadCID t) then
  do* WriteKey "ID" then
  do* Write (MajorTypeHeader MajUnsignedInt (ID t)) then
  do* WriteKey "Params" then
  Params_MarshalCBOR (p_Params t).

Definition Proposal_field (name : string) (t : Proposal) : option (go bytes error Proposal) :=
  let 'MkProposal v1 v2 v3 := t in
  if String.eqb name "PayloadCID"
  then Some (let* x := ReadWrapped "failed to read cid field t.PayloadCID" ReadCid in
             go_ret (MkProposal x v2 v3))
  else if String.eqb name "ID"
  then Some (let* x := ReadUint64 in
             go_ret (MkProposal v1 x v3))
  else if String.eqb name "Params"
  then Some (let* x := ReadWrapped "unmarshaling t.Params" Params_UnmarshalCBOR in
             go_ret (MkProposal v1 v2 x))
  else None.

Definition Proposal_UnmarshalCBOR : go bytes error Proposal :=
  ReadMap "Proposal" Proposal_field zero_Proposal.

(** ** Response *)

Definition zero_Response : Response := MkResponse StatusNew 0 0 EmptyString.

Definition Response_MarshalCBOR (t : Response) : go bytes error unit :=
  do* Write (MajorTypeHeader MajMap 4) then
  do* WriteKey "Status" then
  do* Write (MajorTypeHeader MajUnsignedInt (Status_code (r_Status t))) then
  do* WriteKey "ID" then
  do* Write (MajorTypeHeader MajUnsignedInt (r_ID t)) then
  do* WriteKey "PaymentOwed" then
  do* WriteEnc (BigIntBytes (r_PaymentOwed t)) then
  do* WriteKey "Message" then
  WriteText "Value in field t.Message was too long" (r_Message t).

Definition Response_field (name : string) (t : Response) : option (go bytes error Response) :=
  let 'MkResponse v1 v2 v3 v4 := t in
  if String.eqb name "Status"
  then Some (let* x := ReadUint64 in
             go_ret (MkResponse (Status_of x) v2 v3 v4))
  else if String.eqb name "ID"
  then Some (let* x := ReadUint64 in
             go_ret (MkResponse v1 x v3 v4))
  else if String.eqb name "PaymentOwed"
  then Some (let* x := ReadWrapped "unmarshaling t.PaymentOwed" ReadBigInt in
             go_ret (MkResponse v1 v2 x v4))
  else if String.eqb name "Message"
  then Some (let* x := ReadString in
             go_ret (MkResponse v1 v2 v3 x))
  else None.

Definition Response_UnmarshalCBOR : go bytes error Response :=
  ReadMap "Response" Response_field zero_Response.

(** ** PaymentInfo *)

Definition zero_PaymentInfo : PaymentInfo := MkPaymentInfo Undef 0.

Definition PaymentInfo_MarshalCBOR (t : PaymentInfo) : go bytes error unit :=
  do* Write (MajorTypeHeader MajMap 2) then
  do* WriteKey "PayCh" then
  do* WriteEnc (AddressBytes (Some (PayCh t))) then
  do* WriteKey "Lane" then
  Write (MajorTypeHeader MajUnsignedInt (Lane t)).

Definition PaymentInfo_field (name : string) (t : PaymentInfo) : option (go bytes error PaymentInfo) :=
  let 'MkPaymentInfo v1 v2 := t in
  if String.eqb name "PayCh"
  then Some (let* x := ReadWrapped "unmarshaling t.PayCh" ReadAddress in
             go_ret (MkPaymentInfo x v2))
  else if String.eqb name "Lane"
  then Some (let* x := ReadUint64 in
             go_ret (MkPaymentInfo v1 x))
  else None.

Definition PaymentInfo_UnmarshalCBOR : go bytes error PaymentInfo :=
  ReadMap "PaymentInfo" PaymentInfo_field zero_PaymentInfo.

(** ** ClientState *)

Definition zero_ClientState : ClientState := MkClientState zero_Proposal None
           (MkChannelID EmptyString EmptyString 0) false false 0 Undef Undef None StatusNew
           EmptyString 0 EmptyString 0 0 0 0 0 None 0.

Definition ClientState_MarshalCBOR (t : ClientState) : go bytes error unit :=
  do* Write (MajorTypeHeader MajMap 20) then
  do* WriteKey "Proposal" then
  do* Proposal_MarshalCBOR (cs_Proposal t) then
  do* WriteKey "StoreID" then
  do* WriteUint64OrNull (cs_StoreID t) then
  do* WriteKey "ChannelID" then
  do* WriteEnc (ChannelIDBytes (cs_ChannelID t)) then
  do* WriteKey "LastPaymentRequested" then
  do* Write (BoolBytes (cs_LastPaymentRequested t)) then
  do* WriteKey "AllBlocksReceived" then
  do* Write (BoolBytes (cs_AllBlocksReceived t)) then
  do* WriteKey "TotalFunds" then
  do* WriteEnc (BigIntBytes (cs_TotalFunds t)) then
  do* WriteKey "ClientWallet" then
  do* WriteEnc (AddressBytes (Some (cs_ClientWallet t))) then
  do* WriteKey "MinerWallet" then
  do* WriteEnc (AddressBytes (Some (cs_MinerWallet t))) then
  do* WriteKey "PaymentInfo" then
  do* match cs_PaymentInfo t with
      | None => Write CborNull
      | Some p => PaymentInfo_MarshalCBOR p
      end then
  do* WriteKey "Status" then
  do* Write (MajorTypeHeader MajUnsignedInt (Status_code (cs_Status t))) then
  do* WriteKey "Sender" then
  do* WriteText "Value in field t.Sender was too long" (cs_Sender t) then
  do* WriteKey "TotalReceived" then
  do* Write (MajorTypeHeader MajUnsignedInt (cs_TotalReceived t)) then
  do* WriteKey "Message" then
  do* WriteText "Value in field t.Message was too long" (cs_Message t) then
  do* WriteKey "BytesPaidFor" then
  do* Write (MajorTypeHeader MajUnsignedInt (cs_BytesPaidFor t)) then
  do* WriteKey "CurrentInterval" then
  do* Write (MajorTypeHeader MajUnsignedInt (cs_CurrentInterval t)) then
  do* WriteKey "PaymentRequested" then
  do* WriteEnc (BigIntBytes (cs_PaymentRequested t)) then
  do* WriteKey "FundsSpent" then
  do* WriteEnc (BigIntBytes (cs_FundsSpent t)) then
  do* WriteKey "UnsealFundsPaid" then
  do* WriteEnc (BigIntBytes (cs_UnsealFundsPaid t)) then
  do* WriteKey "WaitMsgCID" then
  do* WriteCidOrNull "failed to write cid field t.WaitMsgCID" (cs_WaitMsgCID t) then
  do* WriteKey "VoucherShortfall" then
  WriteEnc (BigIntBytes (cs_VoucherShortfall t)).

Definition ClientState_field (name : string) (t : ClientState) : option (go bytes error ClientState) :=
  let 'MkClientState v1 v2 v3 v4 v5 v6 v7 v8 v9 v10 v11 v12 v13 v14 v15 v16 v17 v18 v19 v20 := t in
  if String.eqb name "Proposal"
  then Some (let* x := ReadWrapped "unmarshaling t.Proposal" Proposal_UnmarshalCBOR in
             go_ret (MkClientState x v2 v3 v4 v5 v6 v7 v8 v9 v10 v11 v12 v13 v14 v15 v16 v17 v18
           v19 v20))
  else if String.eqb name "StoreID"
  then Some (let* x := ReadUint64OrNull v2 in
             go_ret (MkClientState v1 x v3 v4 v5 v6 v7 v8 v9 v10 v11 v12 v13 v14 v15 v16 v17 v18
           v19 v20))
  else if String.eqb name "ChannelID"
  then Some (let* x := ReadWrapped "unmarshaling t.ChannelID" ReadChannelID in
             go_ret (MkClientState v1 v2 x v4 v5 v6 v7 v8 v9 v10 v11 v12 v13 v14 v15 v16 v17 v18
           v19 v20))
  else if String.eqb name "LastPaymentRequested"
  then Some (let* x := ReadBool in
             go_ret (MkClientState v1 v2 v3 x v5 v6 v7 v8 v9 v10 v11 v12 v13 v14 v15 v16 v17 v18
           v19 v20))
  else if String.eqb name "AllBlocksReceived"
  then Some (let* x := ReadBool in
             go_ret (MkClientState v1 v2 v3 v4 x v6 v7 v8 v9 v10 v11 v12 v13 v14 v15 v16 v17 v18
           v19 v20))
  else if String.eqb name "TotalFunds"
  then Some (let* x := ReadWrapped "unmarshaling t.TotalFunds" ReadBigInt in
             go_ret (MkClientState v1 v2 v3 v4 v5 x v7 v8 v9 v10 v11 v12 v13 v14 v15 v16 v17 v18
           v19 v20))
  else if String.eqb name "ClientWallet"
  then Some (let* x := ReadWrapped "unmarshaling t.ClientWallet" ReadAddress in
             go_ret (MkClientState v1 v2 v3 v4 v5 v6 x v8 v9 v10 v11 v12 v13 v14 v15 v16 v17 v18
           v19 v20))
  else if String.eqb name "MinerWallet"
  then Some (let* x := ReadWrapped "unmarshaling t.MinerWallet" ReadAddress in
             go_ret (MkClientState v1 v2 v3 v4 v5 v6 v7 x v9 v10 v11 v12 v13 v14 v15 v16 v17 v18
           v19 v20))
  else if String.eqb name "PaymentInfo"
  then Some (let* x := ReadNullableOr "unmarshaling t.PaymentInfo pointer" PaymentInfo_UnmarshalCBOR v9 in
             go_ret (MkClientState v1 v2 v3 v4 v5 v6 v7 v8 x v10 v11 v12 v13 v14 v15 v16 v17 v18
           v19 v20))
  else if String.eqb name "Status"
  then Some (let* x := ReadUint64 in
             go_ret (MkClientState v1 v2 v3 v4 v5 v6 v7 v8 v9 (Status_of x) v11 v12 v13 v14 v15
           v16 v17 v18 v19 v20))
  else if String.eqb name "Sender"
  then Some (let* x := ReadString in
             go_ret (MkClientState v1 v2 v3 v4 v5 v6 v7 v8 v9 v10 x v12 v13 v14 v15 v16 v17 v18
           v19 v20))
  else if String.eqb name "TotalReceived"
  then Some (let* x := ReadUint64 in
             go_ret (MkClientState v1 v2 v3 v4 v5 v6 v7 v8 v9 v10 v11 x v13 v14 v15 v16 v17 v18
           v19 v20))
  else if String.eqb name "Message"
  then Some (let* x := ReadString in
             go_ret (MkClientState v1 v2 v3 v4 v5 v6 v7 v8 v9 v10 v11 v12 x v14 v15 v16 v17 v18
           v19 v20))
  else if String.eqb name "BytesPaidFor"
  then Some (let* x := ReadUint64 in
             go_ret (MkClientState v1 v2 v3 v4 v5 v6 v7 v8 v9 v10 v11 v12 v13 x v15 v16 v17 v18
           v19 v20))
  else if String.eqb name "CurrentInterval"
  then Some (let* x := ReadUint64 in
             go_ret (MkClientState v1 v2 v3 v4 v5 v6 v7 v8 v9 v10 v11 v12 v13 v14 x v16 v17 v18
           v19 v20))
  else if String.eqb name "PaymentRequested"
  then Some (let* x := ReadWrapped "unmarshaling t.PaymentRequested" ReadBigInt in
             go_ret (MkClientState v1 v2 v3 v4 v5 v6 v7 v8 v9 v10 v11 v12 v13 v14 v15 x v17 v18
           v19 v20))
  else if String.eqb name "FundsSpent"
  then Some (let* x := ReadWrapped "unmarshaling t.FundsSpent" ReadBigInt in
             go_ret (MkClientState v1 v2 v3 v4 v5 v6 v7 v8 v9 v10 v11 v12 v13 v14 v15 v16 x v18
           v19 v20))
  else if String.eqb name "UnsealFundsPaid"
  then Some (let* x := ReadWrapped "unmarshaling t.UnsealFundsPaid" ReadBigInt in
             go_ret (MkClientState v1 v2 v3 v4 v5 v6 v7 v8 v9 v10 v11 v12 v13 v14 v15 v16 v17 x
           v19 v20))
  else if String.eqb name "WaitMsgCID"
  then Some (let* x := ReadNullableOr "failed to read cid field t.WaitMsgCID" ReadCid v19 in
             go_ret (MkClientState v1 v2 v3 v4 v5 v6 v7 v8 v9 v10 v11 v12 v13 v14 v15 v16 v17
           v18 x v20))
  else if String.eqb name "VoucherShortfall"
  then Some (let* x := ReadWrapped "unmarshaling t.VoucherShortfall" ReadBigInt in
             go_ret (MkClientState v1 v2 v3 v4 v5 v6 v7 v8 v9 v10 v11 v12 v13 v14 v15 v16 v17
           v18 v19 x))
  else None.

Definition ClientState_UnmarshalCBOR : go bytes error ClientState :=
  ReadMap "ClientState" ClientState_field zero_ClientState.

(** ** ProviderState *)

Definition zero_ProviderState : ProviderState := MkProviderState zero_Proposal 0
           (MkChannelID EmptyString EmptyString 0) StatusNew EmptyString 0 0 EmptyString 0 None.

(** The piece information is a nil pointer, written as null. *)
Definition ProviderState_MarshalCBOR (t : ProviderState) : go bytes error unit :=
  do* Write (MajorTypeHeader MajMap 11) then
  do* WriteKey "Proposal" then
  do* Proposal_MarshalCBOR (ps_Proposal t) then
  do* WriteKey "StoreID" then
  do* Write (MajorTypeHeader MajUnsignedInt (ps_StoreID t)) then
  do* WriteKey "ChannelID" then
  do* WriteEnc (ChannelIDBytes (ps_ChannelID t)) then
  do* WriteKey "PieceInfo" then
  do* Write CborNull then
  do* WriteKey "Status" then
  do* Write (MajorTypeHeader MajUnsignedInt (Status_code (ps_Status t))) then
  do* WriteKey "Receiver" then
  do* WriteText "Value in field t.Receiver was too long" (ps_Receiver t) then
  do* WriteKey "TotalSent" then
  do* Write (MajorTypeHeader MajUnsignedInt (ps_TotalSent t)) then
  do* WriteKey "FundsReceived" then
  do* WriteEnc (BigIntBytes (ps_FundsReceived t)) then
  do* WriteKey "Message" then
  do* WriteText "Value in field t.Message was too long" (ps_Message t) then
  do* WriteKey "CurrentInterval" then
  do* Write (MajorTypeHeader MajUnsignedInt (ps_CurrentInterval t)) then
  do* WriteKey "PayCh" then
  WriteEnc (AddressBytes (ps_PayCh t)).

Definition ProviderState_field (name : string) (t : ProviderState) : option (go bytes error ProviderState) :=
  let 'MkProviderState v1 v2 v3 v4 v5 v6 v7 v8 v9 v10 := t in
  if String.eqb name "Proposal"
  then Some (let* x := ReadWrapped "unmarshaling t.Proposal" Proposal_UnmarshalCBOR in
             go_ret (MkProviderState x v2 v3 v4 v5 v6 v7 v8 v9 v10))
  else if String.eqb name "StoreID"
  then Some (let* x := ReadUint64 in
             go_ret (MkProviderState v1 x v3 v4 v5 v6 v7 v8 v9 v10))
  else if String.eqb name "ChannelID"
  then Some (let* x := ReadWrapped "unmarshaling t.ChannelID" ReadChannelID in
             go_ret (MkProviderState v1 v2 x v4 v5 v6 v7 v8 v9 v10))
  else if String.eqb name "PieceInfo"
  then Some (let* _ := ReadNullable "unmarshaling t.PieceInfo pointer" ReadPieceInfo in go_ret t)
  else if String.eqb name "Status"
  then Some (let* x := ReadUint64 in
             go_ret (MkProviderState v1 v2 v3 (Status_of x) v5 v6 v7 v8 v9 v10))
  else if String.eqb name "Receiver"
  then Some (let* x := ReadString in
             go_ret (MkProviderState v1 v2 v3 v4 x v6 v7 v8 v9 v10))
  else if String.eqb name "TotalSent"
  then Some (let* x := ReadUint64 in
             go_ret (MkProviderState v1 v2 v3 v4 v5 x v7 v8 v9 v10))
  else if String.eqb name "FundsReceived"
  then Some (let* x := ReadWrapped "unmarshaling t.FundsReceived" ReadBigInt in
             go_ret (MkProviderState v1 v2 v3 v4 v5 v6 x v8 v9 v10))
  else if String.eqb name "Message"
  then Some (let* x := ReadString in
             go_ret (MkProviderState v1 v2 v3 v4 v5 v6 v7 x v9 v10))
  else if String.eqb name "CurrentInterval"
  then Some (let* x := ReadUint64 in
             go_ret (MkProviderState v1 v2 v3 v4 v5 v6 v7 v8 x v10))
  else if String.eqb name "PayCh"
  then Some (let* x := ReadNullableOr "unmarshaling t.PayCh pointer" ReadAddress v10 in
             go_ret (MkProviderState v1 v2 v3 v4 v5 v6 v7 v8 v9 x))
  else None.

Definition ProviderState_UnmarshalCBOR : go bytes error ProviderState :=
  ReadMap "ProviderState" ProviderState_field zero_ProviderState.

(** ** Offer *)

Definition zero_Offer : Offer := MkOffer EmptyString EmptyString Undef 0 Undef 0 0 0 0.

Definition Offer_MarshalCBOR (t : Offer) : go bytes error unit :=
  do* Write (MajorTypeHeader MajMap 9) then
  do* WriteKey "ID" then
  do* WriteText "Value in field t.ID was too long" (o_ID t) then
  do* WriteKey "PeerAddr" then
  do* WriteByteString "Byte array in field t.PeerAddr was too long" (o_PeerAddr t) then
  do* WriteKey "PayloadCID" then
  do* WriteCid "failed to write cid field t.PayloadCID" (o_PayloadCID t) then
  do* WriteKey "Size" then
  do* Write (MajorTypeHeader MajUnsignedInt (o_Size t)) then
  do* WriteKey "PaymentAddress" then
  do* WriteEnc (AddressBytes (Some (o_PaymentAddress t))) then
  do* WriteKey "MinPricePerByte" then
  do* WriteEnc (BigIntBytes (o_MinPricePerByte t)) then
  do* WriteKey "MaxPaymentInterval" then
  do* Write (MajorTypeHeader MajUnsignedInt (o_MaxPaymentInterval t)) then
  do* WriteKey "MaxPaymentIntervalIncrease" then
  do* Write (MajorTypeHeader MajUnsignedInt (o_MaxPaymentIntervalIncrease t)) then
  do* WriteKey "UnsealPrice" then
  WriteEnc (BigIntBytes (o_UnsealPrice t)).

Definition Offer_field (name : string) (t : Offer) : option (go bytes error Offer) :=
  let 'MkOffer v1 v2 v3 v4 v5 v6 v7 v8 v9 := t in
  if String.eqb name "ID"
  then Some (let* x := ReadString in
             go_ret (MkOffer x v2 v3 v4 v5 v6 v7 v8 v9))
  else if String.eqb name "PeerAddr"
  then Some (let* x := ReadByteSlice "t.PeerAddr" v2 in
             go_ret (MkOffer v1 x v3 v4 v5 v6 v7 v8 v9))
  else if String.eqb name "PayloadCID"
  then Some (let* x := ReadWrapped "failed to read cid field t.PayloadCID" ReadCid in
             go_ret (MkOffer v1 v2 x v4 v5 v6 v7 v8 v9))
  else if String.eqb name "Size"
  then Some (let* x := ReadUint64 in
             go_ret (MkOffer v1 v2 v3 x v5 v6 v7 v8 v9))
  else if String.eqb name "PaymentAddress"
  then Some (let* x := ReadWrapped "unmarshaling t.PaymentAddress" ReadAddress in
             go_ret (MkOffer v1 v2 v3 v4 x v6 v7 v8 v9))
  else if String.eqb name "MinPricePerByte"
  then Some (let* x := ReadWrapped "unmarshaling t.MinPricePerByte" ReadBigInt in
             go_ret (MkOffer v1 v2 v3 v4 v5 x v7 v8 v9))
  else if String.eqb name "MaxPaymentInterval"
  then Some (let* x := ReadUint64 in
             go_ret (MkOffer v1 v2 v3 v4 v5 v6 x v8 v9))
  else if String.eqb name "MaxPaymentIntervalIncrease"
  then Some (let* x := ReadUint64 in
             go_ret (MkOffer v1 v2 v3 v4 v5 v6 v7 x v9))
  else if String.eqb name "UnsealPrice"
  then Some (let* x := ReadWrapped "unmarshaling t.UnsealPrice" ReadBigInt in
             go_ret (MkOffer v1 v2 v3 v4 v5 v6 v7 v8 x))
  else None.

Definition Offer_UnmarshalCBOR : go bytes error Offer :=
  ReadMap "Offer" Offer_field zero_Offer.

(** ** Payment *)

Definition zero_Payment : Payment := MkPayment 0 Undef None.

Definition Payment_MarshalCBOR (t : Payment) : go bytes error unit :=
  do* Write (MajorTypeHeader MajMap 3) then
  do* WriteKey "ID" then
  do* Write (MajorTypeHeader MajUnsignedInt (pay_ID t)) then
  do* WriteKey "PaymentChannel" then
  do* WriteEnc (AddressBytes (Some (pay_PaymentChannel t))) then
  do* WriteKey "PaymentVoucher" then
  WriteEnc (SignedVoucherBytes (pay_PaymentVoucher t)).

Definition Payment_field (name : string) (t : Payment) : option (go bytes error Payment) :=
  let 'MkPayment v1 v2 v3 := t in
  if String.eqb name "ID"
  then Some (let* x := ReadUint64 in
             go_ret (MkPayment x v2 v3))
  else if String.eqb name "PaymentChannel"
  then Some (let* x := ReadWrapped "unmarshaling t.PaymentChannel" ReadAddress in
             go_ret (MkPayment v1 x v3))
  else if String.eqb name "PaymentVoucher"
  then Some (let* x := ReadNullableOr "unmarshaling t.PaymentVoucher pointer" ReadSignedVoucher v3 in
             go_ret (MkPayment v1 v2 x))
  else None.

Definition Payment_UnmarshalCBOR : go bytes error Payment :=
  ReadMap "Payment" Payment_field zero_Payment.

(** ** Round trips *)

Lemma QueryResponseStatus_of_code s : QueryResponseStatus_of (QueryResponseStatus_code s) = s.
Proof.
  destruct s as [| | |n]; try reflexivity. simpl. unfold QueryResponseStatus_of.
  replace (Z.to_N (3 + Z.of_N n - 3)) with n by lia. by destruct n as [|[[]|[]|]].
Qed.

Lemma QueryItemStatus_of_code s : QueryItemStatus_of (QueryItemStatus_code s) = s.
Proof.
  destruct s as [| | |n]; try reflexivity. simpl. unfold QueryItemStatus_of.
  replace (Z.to_N (3 + Z.of_N n - 3)) with n by lia. by destruct n as [|[[]|[]|]].
Qed.

Definition is_response_status (s : QueryResponseStatus) : Prop := is_u64 (QueryResponseStatus_code s).
Definition is_item_status (s : QueryItemStatus) : Prop := is_u64 (QueryItemStatus_code s).
Definition is_status (s : Status) : Prop := is_u64 (Status_code s).

(** Every integer is a status. *)
Lemma read_status z : is_u64 z → is_status (Status_of z).
Proof. intros Hz. unfold is_status. rewrite Status_code_of; [done|]. unfold is_u64 in Hz. lia. Qed.

Lemma read_response_status z : is_u64 z → is_response_status (QueryResponseStatus_of z).
Proof.
  unfold is_response_status, is_u64, QueryResponseStatus_of. intros Hz.
  repeat case_match; simpl; unfold two64 in *; lia.
Qed.

Lemma read_item_status z : is_u64 z → is_item_status (QueryItemStatus_of z).
Proof.
  unfold is_item_status, is_u64, QueryItemStatus_of. intros Hz.
  repeat case_match; simpl; unfold two64 in *; lia.
Qed.

(** A selector that can be written: none, or a raw CBOR item. *)
Definition selector_ok : option bytes → Prop := when CborItem.

(** A nil selector is written as null, which is read back as an item. *)
Definition null_selector (o : option bytes) : option bytes :=
  match o with None => Some CborNull | Some raw => Some raw end.

Definition QueryParams_ok (t : QueryParams) : Prop := selector_ok (qp_Selector t).
Definition QueryParams_read (t : QueryParams) : QueryParams :=
  MkQueryParams (qp_PieceCID t) (null_selector (qp_Selector t)).

Definition Query_ok (t : Query) : Prop := QueryParams_ok (q_QueryParams t).
Definition Query_read (t : Query) : Query :=
  MkQuery (q_PayloadCID t) (QueryParams_read (q_QueryParams t)).

Definition QueryResponse_ok (t : QueryResponse) : Prop :=
  is_response_status (qr_Status t) ∧ is_item_status (qr_PieceCIDFound t) ∧
  is_u64 (qr_Size t) ∧ is_u64 (qr_MaxPaymentInterval t) ∧ is_u64 (qr_MaxPaymentIntervalIncrease t).

Definition Params_ok (t : Params) : Prop :=
  selector_ok (Selector t) ∧ is_u64 (PaymentInterval t) ∧ is_u64 (PaymentIntervalIncrease t).
Definition Params_read (t : Params) : Params :=
  MkParams (null_selector (Selector t)) (PieceCID t) (PricePerByte t) (PaymentInterval t)
    (PaymentIntervalIncrease t) (UnsealPrice t).

Definition Proposal_ok (t : Proposal) : Prop := is_u64 (ID t) ∧ Params_ok (p_Params t).
Definition Proposal_read (t : Proposal) : Proposal :=
  MkProposal (PayloadCID t) (ID t) (Params_read (p_Params t)).

Definition Response_ok (t : Response) : Prop := is_status (r_Status t) ∧ is_u64 (r_ID t).

Definition PaymentInfo_ok (t : PaymentInfo) : Prop := is_u64 (Lane t).

Definition ClientState_ok (t : ClientState) : Prop :=
  Proposal_ok (cs_Proposal t) ∧ is_status (cs_Status t) ∧
  when is_u64 (cs_StoreID t) ∧ when PaymentInfo_ok (cs_PaymentInfo t) ∧
  is_u64 (cs_TotalReceived t) ∧ is_u64 (cs_BytesPaidFor t) ∧ is_u64 (cs_CurrentInterval t).
Definition ClientState_read (t : ClientState) : ClientState :=
  let 'MkClientState v1 v2 v3 v4 v5 v6 v7 v8 v9 v10 v11 v12 v13 v14 v15 v16 v17 v18 v19 v20 := t in
  MkClientState (Proposal_read v1) v2 v3 v4 v5 v6 v7 v8 v9 v10 v11 v12 v13 v14 v15 v16 v17 v18 v19 v20.

Definition ProviderState_ok (t : ProviderState) : Prop :=
  Proposal_ok (ps_Proposal t) ∧ is_status (ps_Status t) ∧ is_u64 (ps_StoreID t) ∧ is_u64 (ps_TotalSent t) ∧
  is_u64 (ps_CurrentInterval t).
Definition ProviderState_read (t : ProviderState) : ProviderState :=
  let 'MkProviderState v1 v2 v3 v4 v5 v6 v7 v8 v9 v10 := t in
  MkProviderState (Proposal_read v1) v2 v3 v4 v5 v6 v7 v8 v9 v10.

Definition Offer_ok (t : Offer) : Prop :=
  is_u64 (o_Size t) ∧ is_u64 (o_MaxPaymentInterval t) ∧ is_u64 (o_MaxPaymentIntervalIncrease t).

Definition Payment_ok (t : Payment) : Prop := is_u64 (pay_ID t).

Context {LAWS : CborLaws}.

Lemma codec_selector o :
  selector_ok o → codec (WriteDeferred o) ReadDeferredField (null_selector o).
Proof. destruct o as [raw|]; intros H; apply codec_deferred_field; [done|apply null_item]. Qed.

Lemma codec_last_eq {A B} (field : string → A → option (go bytes error A)) name (a c : A)
    w (r : go bytes error B) (x : B) (f : B → A) :
  field name a = Some (let* y := r in go_ret (f y)) → codec w r x → f x = c →
  codec (do* WriteKey name then w) (ReadEntries field 1 a) c.
Proof. intros Hf Hw <-. by eapply codec_last. Qed.

(** The value of a field, by its type. *)
Ltac codec_value :=
  first
    [ apply codec_cid | apply codec_bigint | apply codec_address | apply codec_text | apply codec_bool
    | apply codec_channel_id | apply codec_byte_slice | by apply codec_uint64
    | by apply codec_uint64_or_null
    | apply codec_nullable_or, codec_cid_or_null | apply codec_nullable_or, codec_voucher | apply codec_address_or_null | by apply codec_selector
    | apply (nullable_none (A:=unit)) ].

Ltac codes := cbn beta; rewrite ?Status_of_code, ?QueryResponseStatus_of_code, ?QueryItemStatus_of_code.
Ltac entry tac := eapply codec_entry; [reflexivity|tac|]; codes.
Ltac last_entry tac := eapply codec_last_eq; [reflexivity|tac|codes; reflexivity].

Lemma QueryParams_codec t :
  QueryParams_ok t → codec (QueryParams_MarshalCBOR t) QueryParams_UnmarshalCBOR (QueryParams_read t).
Proof.
  intros H. destruct t. apply codec_map; [lia|]. change (Z.to_nat 2) with 2%nat.
  entry codec_value. last_entry codec_value.
Qed.

Lemma Query_codec t : Query_ok t → codec (Query_MarshalCBOR t) Query_UnmarshalCBOR (Query_read t).
Proof.
  intros H. destruct t. apply codec_map; [lia|]. change (Z.to_nat 2) with 2%nat.
  entry codec_value. last_entry ltac:(by apply codec_nested, QueryParams_codec).
Qed.

Lemma QueryResponse_codec t :
  QueryResponse_ok t → codec (QueryResponse_MarshalCBOR t) QueryResponse_UnmarshalCBOR t.
Proof.
  intros (H1 & H2 & H3 & H4 & H5). destruct t. apply codec_map; [lia|]. change (Z.to_nat 9) with 9%nat.
  do 8 entry codec_value. last_entry codec_value.
Qed.

Lemma Params_codec t : Params_ok t → codec (Params_MarshalCBOR t) Params_UnmarshalCBOR (Params_read t).
Proof.
  intros (H1 & H2 & H3). destruct t. apply codec_map; [lia|]. change (Z.to_nat 6) with 6%nat.
  do 5 entry codec_value. last_entry codec_value.
Qed.

Lemma Proposal_codec t :
  Proposal_ok t → codec (Proposal_MarshalCBOR t) Proposal_UnmarshalCBOR (Proposal_read t).
Proof.
  intros (H1 & H2). destruct t. apply codec_map; [lia|]. change (Z.to_nat 3) with 3%nat.
  do 2 entry codec_value. last_entry ltac:(by apply codec_nested, Params_codec).
Qed.

Lemma Response_codec t : Response_ok t → codec (Response_MarshalCBOR t) Response_UnmarshalCBOR t.
Proof.
  intros (H1 & H2). destruct t. apply codec_map; [lia|]. change (Z.to_nat 4) with 4%nat.
  do 3 entry codec_value. last_entry codec_value.
Qed.

Lemma PaymentInfo_or_null wrap o :
  when PaymentInfo_ok o →
  codec (match o with None => Write CborNull | Some p => PaymentInfo_MarshalCBOR p end)
    (ReadNullableOr wrap PaymentInfo_UnmarshalCBOR None) o.
Proof.
  destruct o as [p|]; [|by intros _; apply codec_nullable_or, nullable_none]. intros H.
  destruct p. apply codec_map_or_null; [lia|]. change (Z.to_nat 2) with 2%nat.
  entry codec_value. last_entry codec_value.
Qed.

Lemma ClientState_codec t :
  ClientState_ok t → codec (ClientState_MarshalCBOR t) ClientState_UnmarshalCBOR (ClientState_read t).
Proof.
  intros (H1 & H2 & H3 & H4 & H5 & H6 & H7). destruct t. apply codec_map; [lia|].
  change (Z.to_nat 20) with 20%nat.
  entry ltac:(by apply codec_nested, Proposal_codec). do 7 entry codec_value.
  entry ltac:(by apply PaymentInfo_or_null). do 10 entry codec_value. last_entry codec_value.
Qed.

Lemma ProviderState_codec t :
  ProviderState_ok t →
  codec (ProviderState_MarshalCBOR t) ProviderState_UnmarshalCBOR (ProviderState_read t).
Proof.
  intros (H1 & H2 & H3 & H4 & H5). destruct t. apply codec_map; [lia|]. change (Z.to_nat 11) with 11%nat.
  entry ltac:(by apply codec_nested, Proposal_codec). do 9 entry codec_value. last_entry codec_value.
Qed.

Lemma Offer_codec t : Offer_ok t → codec (Offer_MarshalCBOR t) Offer_UnmarshalCBOR t.
Proof.
  intros (H1 & H2 & H3). destruct t. apply codec_map; [lia|]. change (Z.to_nat 9) with 9%nat.
  do 8 entry codec_value. last_entry codec_value.
Qed.

Lemma Payment_codec t : Payment_ok t → codec (Payment_MarshalCBOR t) Payment_UnmarshalCBOR t.
Proof.
  intros H1. destruct t. apply codec_map; [lia|]. change (Z.to_nat 3) with 3%nat.
  do 2 entry codec_value. last_entry codec_value.
Qed.

(** ** Types

    Whatever the bytes, a record that is read has its integers in the range of
    their type and its selectors made of one item. *)

(** The value a field reader yields, by its type. *)
Ltac yields_value :=
  first
    [ apply yields_uint64 | apply yields_uint64_or_null; simpl in *; tauto
    | apply yields_deferred_field | apply yields_wrapped; eassumption
    | eapply yields_nullable_or; [eassumption|simpl in *; tauto] | apply yields_any ].

Ltac typed_record :=
  apply yields_map; [vm_compute; intuition congruence|];
  intros name t rd Hok Hf; destruct t; simpl in Hf;
  repeat match goal with H : context [if ?b then _ else _] |- _ => destruct b end;
  simplify_eq; (eapply yields_bind; [yields_value|]); intros x Hx; apply yields_ret;
  revert Hok Hx; clear; unfold selector_ok; simpl;
  first [tauto | intros; intuition auto using read_status, read_response_status, read_item_status].

Lemma QueryParams_typed : yields QueryParams_ok QueryParams_UnmarshalCBOR.
Proof. unfold QueryParams_ok. typed_record. Qed.

Lemma Query_typed : yields Query_ok Query_UnmarshalCBOR.
Proof. pose proof QueryParams_typed. unfold Query_ok. typed_record. Qed.

Lemma QueryResponse_typed : yields QueryResponse_ok QueryResponse_UnmarshalCBOR.
Proof. unfold QueryResponse_ok. typed_record. Qed.

Lemma Params_typed : yields Params_ok Params_UnmarshalCBOR.
Proof. unfold Params_ok. typed_record. Qed.

Lemma Proposal_typed : yields Proposal_ok Proposal_UnmarshalCBOR.
Proof. pose proof Params_typed. unfold Proposal_ok. typed_record. Qed.

Lemma Response_typed : yields Response_ok Response_UnmarshalCBOR.
Proof. unfold Response_ok. typed_record. Qed.

Lemma Payment_typed : yields Payment_ok Payment_UnmarshalCBOR.
Proof. unfold Payment_ok. typed_record. Qed.

Lemma PaymentInfo_typed : yields PaymentInfo_ok PaymentInfo_UnmarshalCBOR.
Proof. unfold PaymentInfo_ok. typed_record. Qed.

Lemma Offer_typed : yields Offer_ok Offer_UnmarshalCBOR.
Proof. unfold Offer_ok. typed_record. Qed.

Lemma ClientState_typed : yields ClientState_ok ClientState_UnmarshalCBOR.
Proof.
  pose proof Proposal_typed. pose proof PaymentInfo_typed. unfold ClientState_ok. typed_record.
Qed.

Lemma ProviderState_typed : yields ProviderState_ok ProviderState_UnmarshalCBOR.
Proof. pose proof Proposal_typed. unfold ProviderState_ok. typed_record. Qed.

End codec.

(** ** Properties *)

Lemma SelectorSpecified_read t : SelectorSpecified (Params_read t) = SelectorSpecified t.
Proof. by destruct t as [[raw|] ? ? ? ? ?]. Qed.

(** C39: the deal state each party persists is read back from its encoding as it
    was, up to a selector left nil, which is read back as the encoding of null
    and still counts as unspecified. *)
Theorem deal_states_roundtrip {CB : CborLib} {LAWS : CborLaws}
    (ReadPieceInfo : go bytes error unit) (cs : ClientState) (ps : ProviderState)
    (bc bp rest : bytes) :
  ClientState_ok cs → ProviderState_ok ps →
  ClientState_MarshalCBOR cs EmptyString = (bc, Ok tt) →
  ProviderState_MarshalCBOR ps EmptyString = (bp, Ok tt) →
  ClientState_UnmarshalCBOR (bc +:+ rest) = (rest, Ok (ClientState_read cs)) ∧
  ProviderState_UnmarshalCBOR ReadPieceInfo (bp +:+ rest) = (rest, Ok (ProviderState_read ps)) ∧
  SelectorSpecified (p_Params (cs_Proposal (ClientState_read cs)))
  = SelectorSpecified (p_Params (cs_Proposal cs)).
Proof.
  intros Hc Hp Hwc Hwp.
  destruct (ClientState_codec cs Hc _ _ Hwc) as (? & -> & Hrc).
  destruct (ProviderState_codec ReadPieceInfo ps Hp _ _ Hwp) as (? & -> & Hrp).
  split; [apply Hrc|]. split; [apply Hrp|]. destruct cs. apply SelectorSpecified_read.
Qed.

(** A record that can be sent on: what is written for it is read back as [f] of it. *)
Definition reread {A} (w : A → go bytes error unit) (r : go bytes error A) (f : A → A) (a : A) : Prop :=
  ∀ b rest, w a EmptyString = (b, Ok tt) → r (b +:+ rest) = (rest, Ok (f a)).

Lemma codec_reread {A} (w : A → go bytes error unit) (r : go bytes error A) f (P : A → Prop) :
  yields P r → (∀ a, P a → codec (w a) r (f a)) →
  ∀ s s' a, r s = (s', Ok a) → P a ∧ reread w r f a.
Proof.
  intros Ht Hc s s' a Hr. pose proof (Ht _ _ _ Hr) as Ha. split; [done|].
  intros b rest Hw. by destruct (Hc a Ha _ _ Hw) as (b' & -> & Hb).
Qed.

(** C15: Whatever bytes a peer sends, a proposal, response or payment that is read from them
    has its integers in the range of a uint64 and its selector made of one item, and
    writing it again gives bytes that are read back as the same message. *)
Theorem deal_messages_typed {CB : CborLib} {LAWS : CborLaws} (s s' : bytes) :
  (∀ p, Proposal_UnmarshalCBOR s = (s', Ok p) →
    Proposal_ok p ∧ reread Proposal_MarshalCBOR Proposal_UnmarshalCBOR Proposal_read p) ∧
  (∀ r, Response_UnmarshalCBOR s = (s', Ok r) →
    Response_ok r ∧ reread Response_MarshalCBOR Response_UnmarshalCBOR id r) ∧
  (∀ p, Payment_UnmarshalCBOR s = (s', Ok p) →
    Payment_ok p ∧ reread Payment_MarshalCBOR Payment_UnmarshalCBOR id p).
Proof.
  split_and!; intros a H; eapply codec_reread; eauto using
    Proposal_typed, Proposal_codec, Response_typed, Response_codec, Payment_typed, Payment_codec.
Qed.

Definition stored_proposal : Proposal :=
  MkProposal "root" 7 (MkParams None None 2 1000 100 5).

Definition stored_client : ClientState :=
  MkClientState stored_proposal (Some 3) (MkChannelID "client" "provider" 7) false false 2048
    "wallet" "miner" (Some (MkPaymentInfo "paych" 1)) StatusOngoing "peer" 1024 EmptyString 512 1000
    1024 1024 0 None 0.

Definition stored_provider : ProviderState :=
  MkProviderState stored_proposal 3 (MkChannelID "client" "provider" 7) StatusOngoing "peer" 1024
    1024 "funds" 1000 (Some "paych").

Lemma deal_states_roundtrip_witness :
  ClientState_UnmarshalCBOR ((ClientState_MarshalCBOR stored_client EmptyString).1 +:+ "tail")
  = ("tail", Ok (ClientState_read stored_client)) ∧
  ProviderState_UnmarshalCBOR (go_ret tt)
    ((ProviderState_MarshalCBOR stored_provider EmptyString).1 +:+ "tail")
  = ("tail", Ok (ProviderState_read stored_provider)) ∧
  SelectorSpecified (p_Params (cs_Proposal (ClientState_read stored_client)))
  = SelectorSpecified (p_Params stored_proposal).
Proof.
  apply (deal_states_roundtrip (go_ret tt) stored_client stored_provider).
  - vm_compute. intuition congruence.
  - vm_compute. intuition congruence.
  - run_eq.
  - run_eq.
Defined.

(** A payment with its fields in another order, one of them twice and an unknown one. *)
Definition shuffled_payment : bytes :=
  ((do* Write (MajorTypeHeader MajMap 5) then
    do* WriteKey "PaymentChannel" then
    do* WriteEnc (AddressBytes (Some "paych")) then
    do* WriteKey "Extra" then
    do* Write (MajorTypeHeader MajUnsignedInt 9) then
    do* WriteKey "ID" then
    do* Write (MajorTypeHeader MajUnsignedInt 7) then
    do* WriteKey "PaymentVoucher" then
    do* Write CborNull then
    do* WriteKey "ID" then
    Write (MajorTypeHeader MajUnsignedInt 8)) EmptyString).1.

Lemma deal_messages_typed_witness :
  Payment_ok (MkPayment 8 "paych" None) ∧
  reread Payment_MarshalCBOR Payment_UnmarshalCBOR id (MkPayment 8 "paych" None).
Proof.
  apply (deal_messages_typed shuffled_payment EmptyString). vm_eq.
Defined.
