(* ===== verification/Provider.v ===== *)
(** * The provider with its payments (retrieval/environments.go)

    The revalidator, the group of deal state machines and the payment manager put
    together the way [providerRevalidatorEnvironment] does, and the payment messages
    that reach them as bytes.  The group belongs to go-statemachine; what the provider
    relies on is a class.  The payment system discharges the other half of what the
    revalidator was verified against. *)
From S2P Require Import Prelude Deal Fsm PayTypes DataTransfer ProviderFsm Revalidator Cbor.
From S2P Require Import PayInfo PayCodec PayStore PayChain PayChannel PayManager DealCodec.

(** The group of the provider's state machines. *)
Class ProviderGroup (G : Type) : Type := {
  pg_Begin : ProviderDealIdentifier → ProviderState → go G error unit;
  pg_Send : ProviderDealIdentifier → Event → go G error unit;
  pg_GetSync : ProviderDealIdentifier → go G error ProviderState
}.

(** Reading a deal answers its state; an event changes its deal only, the way its
    machine says. *)
Class ProviderGroupLaws {R : FsmRuntime} (G : Type) {PG : ProviderGroup G} : Type := {
  pg_view : G → gmap ProviderDealIdentifier ProviderState;
  pg_get_law : ∀ id g, (pg_GetSync id g).1 = g ∧
    (∀ ds, (pg_GetSync id g).2 = Ok ds → pg_view g !! id = Some ds);
  pg_send_ok_law : ∀ id ev g g' ds, pg_Send id ev g = (g', Ok tt) → pg_view g !! id = Some ds →
    ∃ ds', group_apply ev ds = Ok ds' ∧ pg_view g' = <[id := ds']> (pg_view g);
  pg_send_err_law : ∀ id ev g g' e, pg_Send id ev g = (g', Err e) → pg_view g' = pg_view g
}.

(** ** The state of the provider: the deals beside the payments *)

Section beside.
Context {G M : Type}.

Definition on_deals {A} (m : go G error A) : go (G * M) error A := λ w,
  let '(g, r) := m w.1 in ((g, w.2), r).

Definition on_payments {A} (m : go M error A) : go (G * M) error A := λ w,
  let '(p, r) := m w.2 in ((w.1, p), r).

Definition manager_of (mgr : Manager M) : Manager (G * M) :=
  MkManager
    (λ from to amt, on_payments (mgr_GetChannel mgr from to amt))
    (λ c, on_payments (mgr_WaitForChannel mgr c))
    (λ a, on_payments (mgr_AllocateLane mgr a))
    (λ a amt lane, on_payments (mgr_CreateVoucher mgr a amt lane))
    (λ a, on_payments (mgr_ChannelAvailableFunds mgr a))
    (λ a sv proof minDelta, on_payments (mgr_AddVoucherInbound mgr a sv proof minDelta)).

(** [providerRevalidatorEnvironment], with [Begin] for [BeginTracking]. *)
Definition provider_env {PG : ProviderGroup G} (pay : Manager M) : RevalidatorEnvironment (G * M) :=
  MkRevalidatorEnvironment (manager_of pay)
    (λ id ds, on_deals (pg_Begin id ds))
    (λ id ev, on_deals (pg_Send id ev))
    (λ id, on_deals (pg_GetSync id)).

Lemma on_payments_inv {A} (m : go M error A) w w' r :
  on_payments m w = (w', r) → m w.2 = (w'.2, r) ∧ w'.1 = w.1.
Proof. unfold on_payments. destruct (m w.2) as [p o]. by intros [= <- <-]. Qed.

Lemma on_deals_inv {A} (m : go G error A) w w' r :
  on_deals m w = (w', r) → m w.1 = (w'.1, r) ∧ w'.2 = w.2.
Proof. unfold on_deals. destruct (m w.1) as [g o]. by intros [= <- <-]. Qed.

End beside.

(** ** Inbound vouchers *)

Section payments.
Context {EQ : CborEquals} {S X : Type} (st : Store S) (env : Env X).
Local Abbreviation W := (world S X).

Lemma AddVoucherInbound_nonneg chAddr sv (w w' : W) delta :
  AddVoucherInbound st env chAddr sv EmptyString 0 w = (w', Ok delta) → 0 <= delta.
Proof.
  unfold AddVoucherInbound. simpl. intros (w1 & key & _ & H)%go_bind_ok.
  destruct sv as [sv|]; [by eapply addVoucher_nonneg|].
  apply go_bind_ok in H as (w2 & r & _ & H). destruct r as [e|ci]; [done|].
  apply go_bind_ok in H as (w3 & dup & _ & H). destruct dup; [|done].
  by apply go_ret_ok in H as [_ ->].
Qed.

(** A nil voucher that differs from every voucher of the channel is dereferenced. *)
Lemma AddVoucherInbound_nil chAddr proof minDelta (w w1 : W) key s2 ci :
  proof = EmptyString → inboundChannel st env chAddr w = (w1, Ok key) →
  st_ByAddress st chAddr (w_store w1) = (s2, Ok ci) →
  Forall (λ v, Equals None (vi_Voucher v) = inr false) (ci_Vouchers ci) →
  (AddVoucherInbound st env chAddr None proof minDelta w).2 = Panic.
Proof.
  intros -> Hin Hby Hne. unfold AddVoucherInbound, add_nil_voucher, go_bind, go_try, on_store.
  simpl. rewrite Hin, Hby. simpl.
  assert (already_added None (ci_Vouchers ci) = Ok false) as Hd.
  { induction Hne as [|v l Hv _ IH]; simpl; [done|]. by rewrite Hv. }
  unfold go_lift. by rewrite Hd.
Qed.

End payments.

(** ** The provider *)

Section provider.
Context {R : FsmRuntime} {G : Type} {PG : ProviderGroup G} {GL : ProviderGroupLaws G}.
Context {EQ : CborEquals} {S X : Type} (st : Store S) (env : Env X).
Local Abbreviation W := (G * world S X)%type.
Local Abbreviation penv := (provider_env (G:=G) (payments_manager st env)).
Local Abbreviation deals := (λ w : W, pg_view w.1).

#[export] Instance provider_env_laws : RevalidatorLaws penv deals.
Proof.
  split; simpl.
  - intros id [g p]. unfold on_deals. simpl. pose proof (pg_get_law id g) as [H1 H2].
    destruct (pg_GetSync id g) as [g' o]. simpl in *. by subst g'.
  - intros id ev w w' ds ds' [H _]%on_deals_inv Hv Ha.
    destruct (pg_send_ok_law _ _ _ _ _ H Hv) as (ds1 & Ha1 & ->). congruence.
  - intros id ev w w' e [H _]%on_deals_inv. by eapply pg_send_err_law.
  - intros ch sv w w' r [H ->]%on_payments_inv. split; [done|].
    intros delta ->. by eapply AddVoucherInbound_nonneg.
Qed.

(** A payment reaches the payment manager when its channel is tracked and its deal can
    be read. *)
Lemma Revalidate_payment chid payment (s : PR W) cd g d :
  trackedChannels s !! chid = Some cd →
  pg_GetSync (cd_dealID cd) (pr_world s).1 = (g, Ok d) →
  (AddVoucherInbound st env (pay_PaymentChannel payment) (pay_PaymentVoucher payment) EmptyString 0
     (pr_world s).2).2 = Panic →
  (Revalidate penv chid (VPayment payment) s).2 = Panic.
Proof.
  intros Hcd Hget Hadd. unfold Revalidate, get_channel, go_bind at 1. rewrite Hcd.
  unfold processPayment, go_bind, go_try, on_world. simpl. unfold on_deals, on_payments.
  rewrite Hget. simpl. destruct (AddVoucherInbound _ _ _ _ _ _ _) as [w o]. simpl in Hadd.
  by subst o.
Qed.

(** An event adds its funds to its deal or is refused; the payments are untouched. *)
Lemma send_funds id ev (s s' : PR W) r ds :
  deals (pr_world s) !! id = Some ds →
  go_try (on_world (env_SendEvent penv id ev)) s = (s', Ok r) →
  trackedChannels s' = trackedChannels s ∧ (pr_world s').2 = (pr_world s).2 ∧
  ∃ ds', deals (pr_world s') !! id = Some ds' ∧
    (ps_FundsReceived ds' = ps_FundsReceived ds + funds_of ev ∨ ds' = ds).
Proof.
  intros Hv. unfold go_try, on_world. simpl. unfold on_deals.
  destruct (pg_Send id ev (pr_world s).1) as [g [[]|e| |]] eqn:E; intros [= <- <-]; simpl;
    (split; [done|]); (split; [done|]).
  - destruct (pg_send_ok_law _ _ _ _ _ E Hv) as (ds' & Ha & ->). exists ds'.
    rewrite lookup_insert_eq. split; [done|]. unfold group_apply in Ha.
    destruct (fsm_apply _ _ _) as [[ds1 b]| | |] eqn:Ef; simplify_eq; [left|by right].
    by apply provider_step_ledger in Ef as (Hf & _).
  - apply pg_send_err_law in E as ->. eauto.
Qed.

(** What a deal may be credited with for a payment processed from [w1] to [w2]: nothing,
    or the value of a signed voucher that was added to the channel. *)
Definition backed (view : S → dskey → option ChannelInfo) (payment : Payment)
    (w1 w2 : world S X) (delta : Z) : Prop :=
  delta = 0 ∨
  ∃ sv lanes balance, pay_PaymentVoucher payment = Some sv ∧ signed_voucher env sv ∧
    sv_ChannelAddr sv = pay_PaymentChannel payment ∧
    voucher_added env view (pay_PaymentChannel payment) sv delta w1 w2 lanes balance.

Context (view : S → dskey → option ChannelInfo) (emptyAddr : address).
Context {L : StoreLaws st view emptyAddr} {C : StoreComplete st view}.

Lemma AddVoucherInbound_backed payment (w w1 w2 : world S X) key delta :
  inboundChannel st env (pay_PaymentChannel payment) w = (w1, Ok key) →
  store_wf view emptyAddr (w_store w1) →
  AddVoucherInbound st env (pay_PaymentChannel payment) (pay_PaymentVoucher payment) EmptyString 0 w
    = (w2, Ok delta) →
  backed view payment w1 w2 delta.
Proof.
  intros Hin Hwf. unfold AddVoucherInbound, go_bind at 1. simpl. rewrite Hin.
  unfold backed. destruct (pay_PaymentVoucher payment) as [sv|].
  - intros H. apply (addVoucher_ok st env view emptyAddr) in H as
      [_ [(k & ci & v & _ & _ & _ & _ & -> & _)|(Hs & Hc & _ & lanes & balance & Ha)]];
      [by left|right; eauto 10|done].
  - intros (w3 & r & _ & H)%go_bind_ok. destruct r as [e|ci]; [done|].
    apply go_bind_ok in H as (w4 & dup & _ & H). destruct dup; [|done].
    apply go_ret_ok in H as [_ ->]. by left.
Qed.

Lemma processPayment_backed id payment (s s' : PR W) r ds w1 key :
  inboundChannel st env (pay_PaymentChannel payment) (pr_world s).2 = (w1, Ok key) →
  store_wf view emptyAddr (w_store w1) → deals (pr_world s) !! id = Some ds →
  processPayment penv id payment s = (s', Ok r) →
  trackedChannels s' = trackedChannels s ∧
  ∃ delta ds', backed view payment w1 (pr_world s').2 delta ∧
    deals (pr_world s') !! id = Some ds' ∧
    (ps_FundsReceived ds' = ps_FundsReceived ds + delta ∨ ds' = ds).
Proof.
  intros Hin Hwf Hv. unfold processPayment. intros (s1 & o & Hget & H)%go_bind_ok.
  destruct (on_world_get penv deals _ _ _ _ _ Hv Hget) as [-> [->|[e ->]]].
  2: { apply go_ret_ok in H as [-> _]. split; [done|]. exists 0, ds. unfold backed. auto. }
  apply go_bind_ok in H as (s1 & rec & Hadd & H). unfold go_try, on_world in Hadd. simpl in Hadd.
  unfold on_payments in Hadd.
  destruct (AddVoucherInbound _ _ _ _ _ _ _) as [w2 [delta|e| |]] eqn:Ha; simplify_eq/=.
  - apply (AddVoucherInbound_backed _ _ _ _ _ _ Hin Hwf) in Ha.
    apply go_bind_ok in H as (s2 & owed & [-> _]%go_lift_ok & H).
    destruct (0 <? owed); apply go_bind_ok in H as (s3 & res & Hs & H);
      apply (send_funds _ _ _ _ _ ds) in Hs as (Ht & Hp & ds' & Hds & Hf); try done; simpl in *;
      (destruct (bool_decide _) || idtac); apply go_ret_ok in H as [-> _];
      (split; [done|]); exists delta, ds'; by rewrite Hp.
  - apply go_bind_ok in H as (s3 & res & Hs & H).
    apply (send_funds _ _ _ _ _ ds) in Hs as (Ht & Hp & ds' & Hds & Hf); [|done].
    apply go_ret_ok in H as [-> _]. split; [done|]. exists 0, ds'. unfold backed. auto.
Qed.

End provider.

(** ** Properties *)

(** C2: The funds a deal is credited with are backed by vouchers.  Whatever payment is
    processed on a tracked channel, the deal it is for gains nothing, or the value of
    the voucher the payment carries; that voucher is then signed, is for the channel
    named in the payment and is stored with it, its value is its increase over its lane,
    and all lanes of the channel together redeem no more than its balance. *)
Theorem payment_backed {R : FsmRuntime} {G : Type} {PG : ProviderGroup G}
    {GL : ProviderGroupLaws G} {EQ : CborEquals} {S X : Type} (st : Store S) (env : Env X)
    (view : S → dskey → option ChannelInfo) (emptyAddr : address)
    {L : StoreLaws st view emptyAddr} {C : StoreComplete st view}
    (chid : ChannelID) (payment : Payment) (s s' : PR (G * world S X)) (cd : channelData)
    (ds : ProviderState) (w1 : world S X) (key : string) (r : result) :
  trackedChannels s !! chid = Some cd → pg_view (pr_world s).1 !! cd_dealID cd = Some ds →
  inboundChannel st env (pay_PaymentChannel payment) (pr_world s).2 = (w1, Ok key) →
  store_wf view emptyAddr (w_store w1) →
  Revalidate (provider_env (payments_manager st env)) chid (VPayment payment) s = (s', Ok r) →
  ∃ delta ds', pg_view (pr_world s').1 !! cd_dealID cd = Some ds' ∧
    (ps_FundsReceived ds' = ps_FundsReceived ds + delta ∨ ds' = ds) ∧
    (delta = 0 ∨
     ∃ sv lanes balance, pay_PaymentVoucher payment = Some sv ∧ signed_voucher env sv ∧
       sv_ChannelAddr sv = pay_PaymentChannel payment ∧
       voucher_added env view (pay_PaymentChannel payment) sv delta w1 (pr_world s').2 lanes balance).
Proof.
  intros Hcd Hv Hin Hwf. unfold Revalidate, get_channel. intros (s1 & o & [= <- <-] & H)%go_bind_ok.
  rewrite Hcd in H. apply go_bind_ok in H as (s2 & res & Hp & H).
  apply (processPayment_backed st env view emptyAddr _ _ _ _ _ ds w1 key) in Hp
    as (Ht & delta & ds' & Hb & Hds & Hf); [|done..].
  exists delta, ds'. apply go_bind_ok in H as (s3 & [] & Hif & [-> _]%go_ret_ok).
  assert (pr_world s3 = pr_world s2) as ->; [|done].
  destruct (bool_decide _); [|by apply go_ret_ok in Hif as [-> _]].
  apply go_bind_ok in Hif as (s4 & o & [= <- <-] & Hif). rewrite Ht, Hcd in Hif.
  unfold put_channel in Hif. by injection Hif as <-.
Qed.

(** What the revalidator was verified against holds of the provider as it is put
    together: the state machines it reads and drives, and the payment system, whose
    inbound vouchers never take funds away. *)
Theorem provider_discharges {R : FsmRuntime} {G : Type} {PG : ProviderGroup G}
    {GL : ProviderGroupLaws G} {EQ : CborEquals} {S X : Type} (st : Store S) (env : Env X) :
  RevalidatorLaws (provider_env (G:=G) (payments_manager st env)) (λ w, pg_view w.1).
Proof. apply provider_env_laws. Qed.

(** C37: A payment without a voucher stops the provider.  The message can be written and is
    read back as it is, and when its sender has a deal on a tracked channel and names a
    payment channel the provider knows, whose vouchers are not nil, processing it
    panics. *)
Theorem nil_voucher_crashes {CB : CborLib} {LAWS : CborLaws} {G : Type}
    {PG : ProviderGroup G} {EQ : CborEquals} {S X : Type} (st : Store S) (env : Env X)
    (id : Z) (ch : address) (b rest : bytes) (chid : ChannelID) (s : PR (G * world S X))
    (cd : channelData) (g : G) (d : ProviderState) (w1 : world S X) (key : string) (s2 : S)
    (ci : ChannelInfo) :
  let payment := MkPayment id ch None in
  is_u64 id → Payment_MarshalCBOR payment EmptyString = (b, Ok tt) →
  trackedChannels s !! chid = Some cd → pg_GetSync (cd_dealID cd) (pr_world s).1 = (g, Ok d) →
  inboundChannel st env ch (pr_world s).2 = (w1, Ok key) →
  st_ByAddress st ch (w_store w1) = (s2, Ok ci) →
  Forall (λ v, Equals None (vi_Voucher v) = inr false) (ci_Vouchers ci) →
  Payment_UnmarshalCBOR (b +:+ rest) = (rest, Ok payment) ∧
  (Revalidate (provider_env (payments_manager st env)) chid (VPayment payment) s).2 = Panic.
Proof.
  intros payment Hid Hw Hcd Hget Hin Hby Hne. split.
  - by destruct (Payment_codec payment Hid _ _ Hw) as (b' & -> & Hr).
  - eapply Revalidate_payment; [done..|]. by eapply AddVoucherInbound_nil.
Qed.

(** ** Witnesses

    The group of state machines as a map, the sample payment store, and a deal that
    waits for funds. *)

#[export] Instance map_provider_group : ProviderGroup map_group := {|
  pg_Begin := env_Begin map_env;
  pg_Send := map_send;
  pg_GetSync := env_Get map_env
|}.

#[export, refine] Instance map_provider_laws : @ProviderGroupLaws documented_runtime map_group _ := {|
  pg_view w := w
|}.
Proof.
  - apply (get_law (RevalidatorLaws:=map_env_laws)).
  - intros id ev w w' ds. simpl. unfold map_send. intros H Hv. rewrite Hv in H.
    destruct (group_apply ev ds) as [ds'| | |]; simplify_eq. eauto.
  - apply (send_err_law (RevalidatorLaws:=map_env_laws)).
Defined.

Definition waiting_deal : ProviderState :=
  set_ps_CurrentInterval 3145728 (sample_deal StatusFundsNeeded default_params).

Definition waiting_provider : PR (map_group * world (sstate (gmap dskey bytes)) unit) :=
  MkPR {[ps_ChannelID waiting_deal := MkChannelData (Identifier waiting_deal) 2000000 0 3145728 2 false]}
    ({[Identifier waiting_deal := waiting_deal]}, sample_world).

Definition paying_env : Env unit := sample_env 100 [(1, MkLaneState 20 1); (2, MkLaneState 5 1)] 0.

Definition sample_payment : Payment :=
  MkPayment 1 "ch" (Some (MkVoucher "ch" 1 3 50 [] (Some (1, "sig")) EmptyString)).

(** A payment of 20 over the lane. *)
Lemma payment_backed_witness :
  let s' := (Revalidate (provider_env (payments_manager map_store paying_env))
               (ps_ChannelID waiting_deal) (VPayment sample_payment) waiting_provider).1 in
  ∃ delta ds', (pr_world s').1 !! Identifier waiting_deal = Some ds' ∧
    (ps_FundsReceived ds' = 0 + delta ∨ ds' = waiting_deal) ∧
    (delta = 0 ∨
     ∃ sv lanes balance, pay_PaymentVoucher sample_payment = Some sv ∧ signed_voucher paying_env sv ∧
       sv_ChannelAddr sv = "ch" ∧
       voucher_added paying_env (view (λ d, d) "empty") "ch" sv delta
         (inboundChannel map_store paying_env "ch" sample_world).1 (pr_world s').2 lanes balance).
Proof.
  intros s'.
  apply (payment_backed (GL:=map_provider_laws) map_store paying_env (view (λ d, d) "empty") "empty"
    (ps_ChannelID waiting_deal) sample_payment waiting_provider s'
    (MkChannelData (Identifier waiting_deal) 2000000 0 3145728 2 false) waiting_deal
    (inboundChannel map_store paying_env "ch" sample_world).1 "b->a"
    (Some (MkResponse StatusFundsNeeded 1 2097132 EmptyString), Some ErrPause)).
  - vm_eq.
  - vm_eq.
  - run_eq.
  - exact sample_store_wf.
  - run_eq.
Defined.

Lemma provider_discharges_witness :
  @RevalidatorLaws documented_runtime _
    (provider_env (G:=map_group) (payments_manager map_store paying_env)) (λ w, w.1).
Proof. exact (provider_discharges (GL:=map_provider_laws) map_store paying_env). Defined.

Lemma nil_voucher_crashes_witness :
  let payment := MkPayment 1 "ch" None in
  Payment_UnmarshalCBOR ((Payment_MarshalCBOR payment EmptyString).1 +:+ "tail") = ("tail", Ok payment) ∧
  (Revalidate (provider_env (payments_manager map_store paying_env))
     (ps_ChannelID waiting_deal) (VPayment payment) waiting_provider).2 = Panic.
Proof.
  intros payment.
  apply (nil_voucher_crashes map_store paying_env 1 "ch" (Payment_MarshalCBOR payment EmptyString).1 "tail"
    (ps_ChannelID waiting_deal) waiting_provider
    (MkChannelData (Identifier waiting_deal) 2000000 0 3145728 2 false)
    (pr_world waiting_provider).1 waiting_deal
    (inboundChannel map_store paying_env "ch" sample_world).1 "b->a" sample_store
    (set_ci_SettlingAt 0 sample_info)).
  - done.
  - run_eq.
  - vm_eq.
  - vm_eq.
  - run_eq.
  - vm_eq.
  - by repeat constructor.
Defined.
