(* ===== verification/Routing.v ===== *)
(** * Gossip routing (exchange/routing.go)

    A node asks the network for content by publishing a query to the topics of
    its regions; a provider answers with an offer sent to the peer that delivered
    the query, and every peer on the way passes it back until it reaches the
    publisher.  A client may also query a provider directly. *)
From stdpp Require Import functions.
From S2P Require Import Prelude Deal PayTypes Cbor DealCodec PeerMgr.

(** ** Opening streams *)

Definition MaxStreamOpenAttempts : Z := 5.

(** The attempts counted by the backoff, which start from zero; [newStream n] is
    what the host answers the n-th time.  Running out of fuel would be a call that
    keeps trying. *)
Fixpoint open_loop {A} (newStream : nat → error + A) (fuel n : nat) : outcome error A :=
  match fuel with
  | O => Hang
  | S fuel' =>
    match newStream n with
    | inr s => Ok s
    | inl err =>
      if Z.of_nat n =? MaxStreamOpenAttempts
      then Err (ErrWrap ("exhausted " +:+ pretty MaxStreamOpenAttempts +:+
                         " attempts but failed to open stream, err") err)
      else open_loop newStream fuel' (S n)
    end
  end.

Definition OpenStream {A} (newStream : nat → error + A) : outcome error A :=
  open_loop newStream (S (Z.to_nat MaxStreamOpenAttempts)) 0.

(** ** Tracing messages *)

(** [published] only ever holds [true]. *)
Record GossipTracer : Type := MkGossipTracer {
  gt_published : gset string;
  gt_senders : gmap string peer_id
}.

Definition NewGossipTracer : GossipTracer := MkGossipTracer ∅ ∅.

Record TraceEvent : Type := MkTraceEvent {
  PublishMessage : option string;
  DeliverMessage : option (string * peer_id)
}.

Definition Trace (evt : TraceEvent) (gt : GossipTracer) : GossipTracer :=
  let gt := match PublishMessage evt with
            | Some mid => MkGossipTracer ({[mid]} ∪ gt_published gt) (gt_senders gt)
            | None => gt
            end in
  match DeliverMessage evt with
  | Some (mid, from) => MkGossipTracer (gt_published gt) (<[mid := from]> (gt_senders gt))
  | None => gt
  end.

Definition Published (mid : string) (gt : GossipTracer) : bool := bool_decide (mid ∈ gt_published gt).

Definition Sender (mid : string) (gt : GossipTracer) : error + peer_id :=
  match gt_senders gt !! mid with
  | None => inl (ErrMsg "no sender found")
  | Some p => inr p
  end.

(** ** Reading offers *)

Section offers.
Context {CB : CborLib}.

Fixpoint peek_entries (n : nat) (msg : string) : go bytes error string :=
  match n with
  | O => go_ret msg
  | S n' =>
    let* name := ReadString in
    if String.eqb name "ID"
    then let* msg := ReadString in peek_entries n' msg
    else do* (λ r, (ScanForLinks r, Ok tt)) then peek_entries n' msg
  end.

Definition PeekOfferID : go bytes error string :=
  let* h := CborReadHeader in
  peek_entries (Z.to_nat h.2) EmptyString.

(** What the tee reader copied: the bytes read so far. *)
Definition consumed (r rest : bytes) : bytes :=
  String.substring 0 (String.length r - String.length rest) r.

(** [errors.Is(err, io.EOF)]. *)
Fixpoint is_EOF (e : error) : bool :=
  match e with
  | ErrWrap _ e' => is_EOF e'
  | _ => bool_decide (e = EOF)
  end.

Fixpoint zeros (n : nat) : bytes :=
  match n with
  | O => EmptyString
  | S n' => String Ascii.zero (zeros n')
  end.

(** The record when its decoder stops, with or without an error.  A field whose
    value cannot be read keeps what it held, but for the address, which is
    allocated before it is filled. *)
Definition spoilt (name : string) (o : Offer) (r : bytes) : Offer :=
  if String.eqb name "PeerAddr" then
    match CborReadHeader r with
    | (_, Ok h) =>
      if (ByteArrayMaxLen <? h.2) || negb (h.1 =? MajByteString) || (h.2 <=? 0) then o
      else MkOffer (o_ID o) (zeros (Z.to_nat h.2)) (o_PayloadCID o)
             (o_Size o) (o_PaymentAddress o) (o_MinPricePerByte o) (o_MaxPaymentInterval o)
             (o_MaxPaymentIntervalIncrease o) (o_UnsealPrice o)
    | _ => o
    end
  else o.

Fixpoint read_upto (n : nat) (o : Offer) (r : bytes) : Offer :=
  match n with
  | O => o
  | S n' =>
    match ReadString r with
    | (r1, Ok name) =>
      match Offer_field name o with
      | Some rd =>
        match rd r1 with
        | (r2, Ok o') => read_upto n' o' r2
        | _ => spoilt name o r1
        end
      | None => read_upto n' o (ScanForLinks r1)
      end
    | _ => o
    end
  end.

Definition Offer_upto (r : bytes) : Offer :=
  match CborReadHeader r with
  | (r1, Ok h) =>
    if negb (h.1 =? MajMap) || (MaxLength <? h.2) then zero_Offer
    else read_upto (Z.to_nat h.2) zero_Offer r1
  | _ => zero_Offer
  end.

(** ** The service *)

Definition PopQueryProtocolID : string := "/myel/pop/query/1.0".

(** The topics are nil until they are joined; the receiver is a callback. *)
Record GossipRouting : Type := MkGossipRouting {
  gr_self : peer_id;
  gr_meta : GossipTracer;
  gr_regions : list Region;
  gr_tops : list (option string);
  gr_receiver : bool
}.

Definition NewGossipRouting (h : peer_id) (meta : GossipTracer) (rgs : list Region) : GossipRouting :=
  MkGossipRouting h meta rgs (map (λ _, None) rgs) false.

Definition SetReceiver (fn : bool) (gr : GossipRouting) : GossipRouting :=
  MkGossipRouting (gr_self gr) (gr_meta gr) (gr_regions gr) (gr_tops gr) fn.

Definition topic_of (r : Region) : string := PopQueryProtocolID +:+ "/" +:+ rg_Name r.

(** The offer arrives as [r]; it is dropped, passed on or handed to the receiver.
    A stream that cannot be opened for writing is given up. *)
Inductive handled : Type :=
| Dropped
| Forwarded (to : peer_id) (buf : bytes)
| Received (o : Offer)
| Crashed.

Definition handleOffer (newStream : peer_id → nat → error + unit) (gr : GossipRouting) (r : bytes)
    : handled :=
  match PeekOfferID r with
  | (rest, Ok id) =>
    let buf := consumed r rest in
    if negb (Published id (gr_meta gr)) then
      match Sender id (gr_meta gr) with
      | inl _ => Dropped
      | inr to =>
        match OpenStream (newStream to) with
        | Ok _ => Forwarded to buf
        | Err _ => Dropped
        | _ => Crashed
        end
      end
    else if negb (gr_receiver gr) then Dropped
    else
      match Offer_UnmarshalCBOR buf with
      | (_, Ok o) => Received o
      | (_, Err err) => if negb (is_EOF err) then Dropped else Received (Offer_upto buf)
      | _ => Crashed
      end
  | (_, Err _) => Dropped
  | _ => Crashed
  end.

End offers.

(** ** Providing and querying *)

(** A message of a topic; its identifier is a function of its author and
    sequence number. *)
Record message : Type := MkMessage {
  msg_ID : string;
  msg_ReceivedFrom : peer_id;
  msg_Data : bytes
}.

(** What goes to a stream, whether or not its writer fails half way. *)
Definition written (w : go bytes error unit) : bytes := (w EmptyString).1.

Section providing.
Context {CB : CborLib} {S : Type}.
(** How a provider answers queries, the streams the host opens and its own
    addresses, and the pubsub service. *)
Context (fn : peer_id → Region → Query → go S error Offer).
Context (newStream : peer_id → nat → error + unit).
Context (Addrs : error + list bytes).
Context (Join Subscribe : string → error + unit).

Fixpoint join_topics (regions : list Region) : outcome error unit * list (option string) :=
  match regions with
  | [] => (Ok tt, [])
  | r :: regions' =>
    match Join (topic_of r) with
    | inl err => (Err err, map (λ _, None) regions)
    | inr _ =>
      match Subscribe (topic_of r) with
      | inl err => (Err err, Some (topic_of r) :: map (λ _, None) regions')
      | inr _ =>
        let '(res, tops) := join_topics regions' in
        (res, Some (topic_of r) :: tops)
      end
    end
  end.

(** Setting the stream handlers is [handleOffer] and [handle_query] below; each
    subscription is pumped by [pump_message]. *)
Definition StartProviding : go GossipRouting error unit := λ gr,
  let '(res, tops) := join_topics (gr_regions gr) in
  (MkGossipRouting (gr_self gr) (gr_meta gr) (gr_regions gr) tops (gr_receiver gr), res).

(** The handler of direct queries: what it writes back. *)
Definition handle_query (gr : GossipRouting) (p : peer_id) (r : bytes) : go S error bytes :=
  match Query_UnmarshalCBOR r with
  | (_, Err _) => go_ret EmptyString
  | (_, Ok m) =>
    match gr_regions gr with
    | [] => go_panic
    | region :: _ =>
      let* res := go_try (fn p region m) in
      match res with
      | inl _ => go_ret EmptyString
      | inr offer => go_ret (written (QueryResponse_MarshalCBOR (AsQueryResponse offer)))
      end
    end
  | (_, Panic) => go_panic
  | (_, Hang) => go_hang
  end.

Definition set_o_ID (v : string) (o : Offer) : Offer :=
  MkOffer v (o_PeerAddr o) (o_PayloadCID o) (o_Size o) (o_PaymentAddress o) (o_MinPricePerByte o)
    (o_MaxPaymentInterval o) (o_MaxPaymentIntervalIncrease o) (o_UnsealPrice o).
Definition set_o_PeerAddr (v : bytes) (o : Offer) : Offer :=
  MkOffer (o_ID o) v (o_PayloadCID o) (o_Size o) (o_PaymentAddress o) (o_MinPricePerByte o)
    (o_MaxPaymentInterval o) (o_MaxPaymentIntervalIncrease o) (o_UnsealPrice o).

(** One message of a subscription: the stream written to and what it receives. *)
Definition pump_message (gr : GossipRouting) (topic : string) (msg : message)
    : go S error (option (peer_id * bytes)) :=
  let r := RegionFromTopic topic in
  if String.eqb (msg_ReceivedFrom msg) (gr_self gr) then go_ret None
  else
    match Query_UnmarshalCBOR (msg_Data msg) with
    | (_, Err _) => go_ret None
    | (_, Ok m) =>
      let* res := go_try (fn (msg_ReceivedFrom msg) r m) in
      match res with
      | inl _ => go_ret None
      | inr offer =>
        match OpenStream (newStream (msg_ReceivedFrom msg)) with
        | Err _ => go_ret None
        | Ok _ =>
          let offer := set_o_ID (msg_ID msg) offer in
          match Addrs with
          | inl _ => go_ret None
          | inr [] => go_ret None
          | inr (addr :: _) =>
            let offer := set_o_PeerAddr addr offer in
            go_ret (Some (msg_ReceivedFrom msg, written (Offer_MarshalCBOR offer)))
          end
        | Panic => go_panic
        | Hang => go_hang
        end
      end
    | (_, Panic) => go_panic
    | (_, Hang) => go_hang
    end.

End providing.

Section querying.
Context {CB : CborLib} {Node : Type} (encode : Node → error + bytes).

(** Publishing to a topic that was never joined dereferences nil. *)
Fixpoint publish_all (publish : string → bytes → error + unit) (tops : list (option string))
    (b : bytes) : outcome error (list string) :=
  match tops with
  | [] => Ok []
  | None :: _ => Panic
  | Some t :: tops' =>
    match publish t b with
    | inl err => Err err
    | inr _ => outcome_bind (publish_all publish tops' b) (λ l, Ok (t :: l))
    end
  end.

Definition query_message (root : cid) (sel : option Node) : outcome error bytes :=
  outcome_bind (NewQueryParams encode sel) (λ params,
  Dump (Query_MarshalCBOR (MkQuery root params))).

(** The topics published to. *)
Definition Query (publish : string → bytes → error + unit) (root : cid) (sel : option Node)
    (gr : GossipRouting) : outcome error (list string) :=
  outcome_bind (query_message root sel) (λ b, publish_all publish (gr_tops gr) b).

(** [reply] is what arrives on the stream in answer to the bytes written; the
    error of opening the stream is not looked at, so writing to it dereferences
    nil. *)
Definition QueryProvider {S} (newStream : peer_id → nat → error + unit)
    (reply : peer_id → bytes → go S error bytes) (AddrInfoToP2pAddrs : error + list bytes)
    (p : peer_id) (root : cid) (sel : option Node) : go S error Offer :=
  let* params := go_lift (NewQueryParams encode sel) in
  let m := MkQuery root params in
  match OpenStream (newStream p) with
  | Err _ => go_panic
  | Ok _ =>
    let* b := go_lift (Dump (Query_MarshalCBOR m)) in
    let* answer := reply p b in
    let* res := go_lift (QueryResponse_UnmarshalCBOR answer).2 in
    let* addrs := go_sum AddrInfoToP2pAddrs in
    match addrs with
    | [] => go_panic
    | addr :: _ =>
      go_ret (MkOffer EmptyString addr root (qr_Size res) (qr_PaymentAddress res)
                (qr_MinPricePerByte res) (qr_MaxPaymentInterval res)
                (qr_MaxPaymentIntervalIncrease res) (qr_UnsealPrice res))
    end
  | Panic => go_panic
  | Hang => go_hang
  end.

End querying.

(** ** Opening streams: six tries *)

Lemma open_loop_spec {A} (newStream : nat → error + A) k n :
  (n + k = 5)%nat → (∀ m, (m < n)%nat → ∃ e, newStream m = inl e) →
  (∃ s m, (m <= 5)%nat ∧ newStream m = inr s ∧ (∀ i, (i < m)%nat → ∃ e, newStream i = inl e) ∧
     open_loop newStream (S k) n = Ok s) ∨
  (∃ e w, (∀ m, (m <= 5)%nat → ∃ e', newStream m = inl e') ∧ newStream 5%nat = inl e ∧
     open_loop newStream (S k) n = Err (ErrWrap w e)).
Proof.
  revert n. induction k as [|k IH]; intros n Hn Hf; cbn [open_loop]; destruct (newStream n) as [e|s] eqn:E.
  - right. assert (n = 5%nat) as -> by lia. eexists e, _. split; [|done].
    intros m Hm. destruct (decide (m = 5%nat)) as [->|]; [by exists e|]. apply Hf. lia.
  - left. exists s, n. repeat split; [lia|done|done].
  - destruct (Z.eqb_spec (Z.of_nat n) MaxStreamOpenAttempts) as [Hz|]; [unfold MaxStreamOpenAttempts in Hz; lia|].
    apply (IH (S n)); [lia|]. intros m Hm.
    destruct (decide (m = n)) as [->|]; [by exists e|]. apply Hf. lia.
  - left. exists s, n. repeat split; [lia|done|done].
Qed.

Lemma OpenStream_first {A} (newStream : nat → error + A) s : newStream 0%nat = inr s → OpenStream newStream = Ok s.
Proof. intros H. unfold OpenStream. cbn [open_loop]. by rewrite H. Qed.

Lemma OpenStream_fails {A} (newStream : nat → error + A) e :
  (∀ n, newStream n = inl e) → ∃ w, OpenStream newStream = Err (ErrWrap w e).
Proof.
  intros Hf. destruct (open_loop_spec newStream 5 0) as [(s & m & _ & Hs & _)|(e' & w & _ & He & H)];
    [done|lia|by rewrite Hf in Hs|]. rewrite Hf in He. injection He as <-. by exists w.
Qed.

(** ** Reading back the identifier of an offer *)

(** Skipping reads exactly one item, for the items of an offer. *)
Class ScanLaws {CB : CborLib} : Prop := {
  scan_uint : ∀ n rest, is_u64 n → ScanForLinks (MajorTypeHeader MajUnsignedInt n +:+ rest) = rest;
  scan_bytes : ∀ b rest, len b <= ByteArrayMaxLen →
    ScanForLinks (MajorTypeHeader MajByteString (len b) +:+ b +:+ rest) = rest;
  scan_cid : ∀ c b rest, CidBytes c = inr b → ScanForLinks (b +:+ rest) = rest;
  scan_address : ∀ a b rest, AddressBytes (Some a) = inr b → ScanForLinks (b +:+ rest) = rest;
  scan_bigint : ∀ z b rest, BigIntBytes z = inr b → ScanForLinks (b +:+ rest) = rest
}.

Lemma skip_as t {A} `{Wire A} (a : A) rest (r := write_as t a +:+ rest) :
  skip_item r =
  if Ascii.eqb t tagh then
    match read_value (A:=Z * Z) r with
    | (r1, Ok h) => if (h.1 =? MajByteString) || (h.1 =? MajTextString) then (ReadFull h.2 r1).1 else r1
    | (r1, _) => r1
    end
  else if Ascii.eqb t tagz then (read_value (A:=Z) r).1
  else (read_value (A:=string) r).1.
Proof. reflexivity. Qed.

#[export] Instance bits_scan : ScanLaws.
Proof.
  split; cbn [ScanForLinks CidBytes AddressBytes BigIntBytes MajorTypeHeader bits_lib]; intros;
    simplify_eq; unfold write_value; rewrite skip_as; cbv zeta.
  - change (Ascii.eqb tagh tagh) with true. cbn iota. by rewrite read_value_as.
  - change (Ascii.eqb tagh tagh) with true. cbn iota. rewrite read_value_as.
    change ((MajByteString, len b).1) with MajByteString. simpl. by rewrite ReadFull_rt.
  - change (Ascii.eqb tagv tagh) with false. change (Ascii.eqb tagv tagz) with false. cbn iota.
    by rewrite read_value_as.
  - change (Ascii.eqb tagv tagh) with false. change (Ascii.eqb tagv tagz) with false. cbn iota.
    by rewrite read_value_as.
  - change (Ascii.eqb tagz tagh) with false. change (Ascii.eqb tagz tagz) with true. cbn iota.
    by rewrite read_value_as.
Qed.

Section reading.
Context {CB : CborLib} {LAWS : CborLaws} {SCAN : ScanLaws}.

Definition Skip : go bytes error unit := λ r, (ScanForLinks r, Ok tt).

Lemma skip_write b : (∀ rest, ScanForLinks (b +:+ rest) = rest) → codec (Write b) Skip tt.
Proof. intros H. apply codec_write. intros rest. unfold Skip. by rewrite H. Qed.

Lemma skip_enc enc :
  (∀ b rest, enc = inr b → ScanForLinks (b +:+ rest) = rest) → codec (WriteEnc enc) Skip tt.
Proof. intros H. destruct enc as [e|b]; [by intros s s'|]. apply skip_write. eauto. Qed.

Lemma skip_cid wrap c : codec (WriteCid wrap c) Skip tt.
Proof.
  unfold WriteCid. destruct (CidBytes c) as [e|b] eqn:E; [by intros s s'|].
  apply skip_write. intros. by eapply scan_cid.
Qed.

Lemma skip_byte_string e b : codec (WriteByteString e b) Skip tt.
Proof.
  unfold WriteByteString. apply codec_guard. intros Hl. to_prop.
  intros s s' [= <-]. exists (MajorTypeHeader MajByteString (len b) +:+ b).
  split; [by rewrite string_app_assoc|]. intros rest. unfold Skip.
  by rewrite <- string_app_assoc, scan_bytes.
Qed.

Lemma peek_entry name n msg w rest c :
  name ≠ "ID" → codec w Skip tt → codec rest (peek_entries n msg) c →
  codec (do* WriteKey name then do* w then rest) (peek_entries (S n) msg) c.
Proof.
  intros Hn Hw Hr. cbn [peek_entries]. apply (codec_bind _ _ _ _ name); [apply codec_text|].
  cbn beta. destruct (String.eqb_spec name "ID"); [done|].
  apply (codec_bind _ _ Skip (λ _, peek_entries n msg) tt); done.
Qed.

Lemma peek_last name msg w :
  name ≠ "ID" → codec w Skip tt → codec (do* WriteKey name then w) (peek_entries 1 msg) msg.
Proof.
  intros Hn Hw. cbn [peek_entries]. apply (codec_bind _ _ _ _ name); [apply codec_text|].
  cbn beta. destruct (String.eqb_spec name "ID"); [done|]. by apply (codec_end _ Skip (λ _, msg) tt).
Qed.

Lemma peek_id e n msg id rest c :
  codec rest (peek_entries n id) c →
  codec (do* WriteKey "ID" then do* WriteText e id then rest) (peek_entries (S n) msg) c.
Proof.
  intros Hr. cbn [peek_entries]. apply (codec_bind _ _ _ _ "ID"); [apply codec_text|].
  cbn beta. change (String.eqb "ID" "ID") with true. cbn iota.
  by apply (codec_bind _ _ _ (peek_entries n) id); [apply codec_text|].
Qed.

(** The value of a field of an offer, skipped. *)
Ltac skip_value :=
  first
    [ apply skip_cid | apply skip_byte_string
    | apply skip_write; intros; by apply scan_uint
    | apply skip_enc; intros; by eapply scan_address
    | apply skip_enc; intros; by eapply scan_bigint ].

Lemma PeekOfferID_codec o : Offer_ok o → codec (Offer_MarshalCBOR o) PeekOfferID (o_ID o).
Proof.
  intros (H1 & H2 & H3). unfold PeekOfferID. eapply (codec_bind _ _ _ _ (MajMap, 9)).
  { apply codec_write. intros rest. apply header_rt; [unfold MajMap; lia|unfold is_u64, two64; lia]. }
  cbn [fst snd]. change (Z.to_nat 9) with 9%nat.
  apply peek_id. do 7 (apply peek_entry; [discriminate|skip_value|]).
  apply peek_last; [discriminate|skip_value].
Qed.

Lemma consumed_app b rest : consumed (b +:+ rest) rest = b.
Proof.
  unfold consumed. rewrite string_length_app, Nat.add_sub. apply substring_full.
Qed.

(** What a decoder that succeeds leaves is its record. *)
Lemma read_upto_ok n o r r' o' : ReadEntries Offer_field n o r = (r', Ok o') → read_upto n o r = o'.
Proof.
  revert o r. induction n as [|n IH]; intros o r; cbn [ReadEntries read_upto].
  - by intros [_ ->]%go_ret_ok.
  - intros (r1 & name & -> & H)%go_bind_ok. apply go_bind_ok in H as (r2 & o2 & H & Hrest).
    destruct (Offer_field name o) as [rd|].
    + rewrite H. by apply IH.
    + injection H as <- <-. by apply IH.
Qed.

Lemma Offer_upto_ok r r' o : Offer_UnmarshalCBOR r = (r', Ok o) → Offer_upto r = o.
Proof.
  unfold Offer_UnmarshalCBOR, ReadMap, Offer_upto. intros (r1 & h & -> & H)%go_bind_ok.
  destruct (negb _); [done|]. destruct (_ <? _); [done|]. by eapply read_upto_ok.
Qed.

(** Identifier, copy and record of an encoded offer. *)
Lemma offer_bytes o b :
  Offer_ok o → Offer_MarshalCBOR o EmptyString = (b, Ok tt) →
  PeekOfferID b = (EmptyString, Ok (o_ID o)) ∧ consumed b EmptyString = b ∧
  Offer_UnmarshalCBOR b = (EmptyString, Ok o).
Proof.
  intros Ho Hb.
  destruct (PeekOfferID_codec o Ho _ _ Hb) as (b1 & Eb & Hp).
  destruct (Offer_codec o Ho _ _ Hb) as (b2 & Eb2 & Hr). change (b = b1) in Eb. change (b = b2) in Eb2.
  subst b1 b2.
  specialize (Hp EmptyString). specialize (Hr EmptyString).
  pose proof (consumed_app b EmptyString) as Hc.
  rewrite string_app_empty_r in Hp, Hr, Hc. done.
Qed.

End reading.

(** ** Passing offers back *)

Section relaying.
Context {CB : CborLib}.

(** An offer that arrives at [p], and where it ends after at most [fuel] hops;
    [newStream] opens the streams of each host. *)
Fixpoint relay (newStream : peer_id → peer_id → nat → error + unit) (fuel : nat)
    (net : peer_id → GossipRouting) (p : peer_id) (b : bytes) : option (peer_id * Offer) :=
  match fuel with
  | O => None
  | S fuel' =>
    match handleOffer (newStream p) (net p) b with
    | Received o => Some (p, o)
    | Forwarded to b' => relay newStream fuel' net to b'
    | _ => None
    end
  end.

Definition traced (evt : TraceEvent) (gr : GossipRouting) : GossipRouting :=
  MkGossipRouting (gr_self gr) (Trace evt (gr_meta gr)) (gr_regions gr) (gr_tops gr) (gr_receiver gr).

(** An event that is about other messages. *)
Definition unrelated (id : string) (evt : TraceEvent) : Prop :=
  PublishMessage evt ≠ Some id ∧ ∀ from, DeliverMessage evt ≠ Some (id, from).

(** How the message [id] published by [p0] spreads: the service delivers it once
    to each other peer, from one that has it; the publisher may see it again. *)
Inductive spread (id : string) (p0 : peer_id) : (peer_id → GossipRouting) → gset peer_id → Prop :=
| spread_start net :
    (∀ p, Published id (gr_meta (net p)) = false) →
    spread id p0 (<[p0 := traced (MkTraceEvent (Some id) None) (net p0)]> net) {[p0]}
| spread_deliver net have q p :
    spread id p0 net have → q ∈ have → p ∉ have →
    spread id p0 (<[p := traced (MkTraceEvent None (Some (id, q))) (net p)]> net) ({[p]} ∪ have)
| spread_again net have q :
    spread id p0 net have →
    spread id p0 (<[p0 := traced (MkTraceEvent None (Some (id, q))) (net p0)]> net) have
| spread_other net have p evt :
    spread id p0 net have → unrelated id evt →
    spread id p0 (<[p := traced evt (net p)]> net) have.

(** Every peer that has the message, other than its publisher, knows one that had
    it before. *)
Record routed (id : string) (p0 : peer_id) (net : peer_id → GossipRouting) (have : gset peer_id)
    (rank : peer_id → nat) : Prop := {
  rt_publisher : p0 ∈ have ∧ Published id (gr_meta (net p0)) = true;
  rt_sender : ∀ p, p ∈ have → p ≠ p0 →
    ∃ q, Sender id (gr_meta (net p)) = inr q ∧ q ∈ have ∧ (rank q < rank p)%nat;
  rt_published : ∀ p, p ≠ p0 → Published id (gr_meta (net p)) = false;
  rt_rank : ∀ p, p ∈ have → (rank p < size have)%nat
}.

Lemma Published_unrelated id evt gt :
  PublishMessage evt ≠ Some id → Published id (Trace evt gt) = Published id gt.
Proof.
  intros H. unfold Published, Trace. apply bool_decide_ext.
  destruct evt as [[mid|] [[mid' from]|]]; simpl in *; set_solver.
Qed.

Lemma Sender_unrelated id evt gt :
  (∀ from, DeliverMessage evt ≠ Some (id, from)) → Sender id (Trace evt gt) = Sender id gt.
Proof.
  intros H. unfold Sender, Trace. destruct evt as [[mid|] [[mid' from]|]]; simpl in *; try done;
    (rewrite lookup_insert_ne; [done|]; intros ->; by apply (H from)).
Qed.

(** A trace at one peer that keeps what matters about [id] keeps the routes. *)
Lemma routed_trace id p0 net have rank p evt :
  routed id p0 net have rank → PublishMessage evt ≠ Some id →
  (p = p0 ∨ ∀ from, DeliverMessage evt ≠ Some (id, from)) →
  routed id p0 (<[p := traced evt (net p)]> net) have rank.
Proof.
  intros [[Hp0 Hpub] Hs Hn Hr] He Hp.
  assert (∀ x, Published id (gr_meta (<[p:=traced evt (net p)]> net x)) = Published id (gr_meta (net x)))
    as Hsame.
  { intros x. destruct (decide (x = p)) as [->|]; [|by rewrite fn_lookup_insert_ne].
    rewrite fn_lookup_insert. by apply Published_unrelated. }
  split; [by rewrite Hsame| |by intros x Hx; rewrite Hsame; apply Hn|done].
  intros x Hx Hx0. destruct (Hs x Hx Hx0) as (q & Hq & ?). exists q. split; [|done].
  destruct (decide (x = p)) as [->|]; [|by rewrite fn_lookup_insert_ne].
  rewrite fn_lookup_insert. simpl. rewrite Sender_unrelated; [done|]. by destruct Hp.
Qed.

Lemma spread_routed id p0 net have : spread id p0 net have → ∃ rank, routed id p0 net have rank.
Proof.
  induction 1 as [net Hf|net have q p _ [rank [[Hp0 Hpub] Hs Hn Hr]] Hq Hp|net have q _ [rank IH]
    |net have p evt _ [rank IH] [He1 He2]].
  - exists (λ _, 0%nat). split.
    + split; [set_solver|]. rewrite fn_lookup_insert. unfold Published. simpl.
      apply bool_decide_eq_true. set_solver.
    + set_solver.
    + intros p Hp. by rewrite fn_lookup_insert_ne.
    + intros p _. rewrite size_singleton. lia.
  - assert (p ≠ p0) by set_solver.
    assert (size ({[p]} ∪ have) = S (size have)) as Hsz by (rewrite size_union, size_singleton; set_solver).
    exists (<[p := size have]> rank). split.
    + split; [set_solver|]. by rewrite fn_lookup_insert_ne.
    + intros x Hx Hx0. destruct (decide (x = p)) as [->|].
      * exists q. rewrite !fn_lookup_insert, fn_lookup_insert_ne by set_solver. split_and!; [|set_solver|auto].
        unfold Sender. simpl. by rewrite lookup_insert_eq.
      * destruct (Hs x ltac:(set_solver) Hx0) as (y & ? & ? & ?). exists y.
        rewrite !fn_lookup_insert_ne by set_solver. split_and!; [done|set_solver|done].
    + intros x Hx. destruct (decide (x = p)) as [->|]; [|rewrite fn_lookup_insert_ne by done; auto].
      rewrite fn_lookup_insert. simpl. rewrite Published_unrelated by done. auto.
    + intros x Hx. rewrite Hsz. destruct (decide (x = p)) as [->|].
      * rewrite fn_lookup_insert. lia.
      * rewrite fn_lookup_insert_ne by done. assert (x ∈ have) as Hx' by set_solver. specialize (Hr x Hx'). lia.
  - exists rank. apply routed_trace; [done|done|by left].
  - exists rank. apply routed_trace; [done|done|by right].
Qed.

End relaying.

(** ** Properties *)

(** Opening a stream tries six times, one more than the limit it reports: the
    first success is returned, and when all six fail it gives up with the last
    error. *)
Theorem OpenStream_six_tries {A} (newStream : nat → error + A) :
  (∃ s m, (m <= 5)%nat ∧ newStream m = inr s ∧ (∀ i, (i < m)%nat → ∃ e, newStream i = inl e) ∧
     OpenStream newStream = Ok s) ∨
  (∃ e w, (∀ m, (m <= 5)%nat → ∃ e', newStream m = inl e') ∧ newStream 5%nat = inl e ∧
     OpenStream newStream = Err (ErrWrap w e)).
Proof. apply open_loop_spec; [done|lia]. Qed.

(** A forwarded or received offer, at a peer that has the query. *)
Lemma handleOffer_step {CB : CborLib} {LAWS : CborLaws} {SCAN : ScanLaws} newStream gr o b :
  Offer_ok o → Offer_MarshalCBOR o EmptyString = (b, Ok tt) →
  (∀ q, newStream q 0%nat = inr tt) →
  handleOffer newStream gr b =
  if Published (o_ID o) (gr_meta gr) then if gr_receiver gr then Received o else Dropped
  else match Sender (o_ID o) (gr_meta gr) with inr q => Forwarded q b | inl _ => Dropped end.
Proof.
  intros Ho Hb Hs. destruct (offer_bytes o b Ho Hb) as (Hp & Hc & Hr).
  unfold handleOffer. rewrite Hp, Hc, Hr. destruct (Published _ _); simpl.
  - by destruct (gr_receiver gr).
  - destruct (Sender _ _) as [e|q]; [done|]. by rewrite (OpenStream_first _ _ (Hs q)).
Qed.

(** C12: once a query has spread, an offer for it that reaches any peer that has
    the query is passed back hop by hop and handed, unchanged, to the receiver
    of the peer that published it, within as many hops as peers have the query. *)
Theorem offers_reach_publisher {CB : CborLib} {LAWS : CborLaws} {SCAN : ScanLaws}
    (newStream : peer_id → peer_id → nat → error + unit) (p0 p : peer_id)
    (net : peer_id → GossipRouting) (have : gset peer_id) (o : Offer) (b : bytes) :
  spread (o_ID o) p0 net have → p ∈ have → gr_receiver (net p0) = true →
  (∀ p q, newStream p q 0%nat = inr tt) →
  Offer_ok o → Offer_MarshalCBOR o EmptyString = (b, Ok tt) →
  relay newStream (size have) net p b = Some (p0, o).
Proof.
  intros Hspread Hp Hrecv Hopen Ho Hb. apply spread_routed in Hspread as [rank [[Hp0 Hpub] Hs Hn Hr]].
  specialize (Hr p Hp). revert p Hp Hr. induction (size have) as [|n IH]; intros p Hp Hr; [lia|].
  cbn [relay]. rewrite (handleOffer_step _ _ o b Ho Hb (Hopen p)).
  destruct (decide (p = p0)) as [->|Hne]; [by rewrite Hpub, Hrecv|].
  rewrite (Hn p Hne). destruct (Hs p Hp Hne) as (q & -> & Hq & Hrank). apply IH; [done|lia].
Qed.

Definition wire_node (self : peer_id) : GossipRouting :=
  MkGossipRouting self NewGossipTracer (ParseRegions ["Asia"]) [Some "topic"] true.

Definition wired_1 : peer_id → GossipRouting :=
  <["alice" := traced (MkTraceEvent (Some "m1") None) (wire_node "alice")]> wire_node.
Definition wired_2 : peer_id → GossipRouting :=
  <["bob" := traced (MkTraceEvent None (Some ("m1", "alice"))) (wired_1 "bob")]> wired_1.

Definition wired_offer : Offer := MkOffer "m1" "addr" "root" 1024 "pay" 2 1000 100 0.

Lemma offers_reach_publisher_witness :
  relay (λ _ _ _, inr tt) (size ({["bob"]} ∪ {["alice"]} : gset peer_id)) wired_2 "bob"
    (written (Offer_MarshalCBOR wired_offer))
  = Some ("alice", wired_offer).
Proof.
  apply (offers_reach_publisher (λ _ _ _, inr tt) "alice" "bob" wired_2 ({["bob"]} ∪ {["alice"]})
           wired_offer (written (Offer_MarshalCBOR wired_offer))).
  - apply (spread_deliver "m1" "alice" wired_1 {["alice"]} "alice" "bob").
    + by apply (spread_start "m1" "alice" wire_node).
    + by apply elem_of_singleton.
    + by intros ?%elem_of_singleton.
  - apply elem_of_union_l. by apply elem_of_singleton.
  - done.
  - done.
  - vm_compute. intuition congruence.
  - run_eq.
Defined.

(** Everything but the identifiers of an offer. *)
Definition same_terms (o o' : Offer) : Prop :=
  o_PayloadCID o = o_PayloadCID o' ∧ o_Size o = o_Size o' ∧ o_PaymentAddress o = o_PaymentAddress o' ∧
  o_MinPricePerByte o = o_MinPricePerByte o' ∧ o_MaxPaymentInterval o = o_MaxPaymentInterval o' ∧
  o_MaxPaymentIntervalIncrease o = o_MaxPaymentIntervalIncrease o' ∧ o_UnsealPrice o = o_UnsealPrice o'.

(** Asking a provider directly yields the terms the provider answered with,
    at the address that was asked. *)
Theorem QueryProvider_terms {CB : CborLib} {LAWS : CborLaws} {Node S}
    (encode : Node → error + bytes) (fn : peer_id → Region → Deal.Query → go S error Offer)
    newStream addr addrs gr client p root sel params region regions offer s s' :
  NewQueryParams encode (Some sel) = Ok params → QueryParams_ok params →
  OpenStream (newStream p) = Ok tt →
  gr_regions gr = region :: regions →
  fn client region (MkQuery root params) s = (s', Ok offer) →
  o_PayloadCID offer = root → QueryResponse_ok (AsQueryResponse offer) →
  (Query_MarshalCBOR (MkQuery root params) EmptyString).2 = Ok tt →
  (QueryResponse_MarshalCBOR (AsQueryResponse offer) EmptyString).2 = Ok tt →
  ∃ o, QueryProvider encode newStream (λ _ b, handle_query fn gr client b) (inr (addr :: addrs)) p root
         (Some sel) s = (s', Ok o) ∧ same_terms o offer ∧ o_PeerAddr o = addr.
Proof.
  intros Hparams Hok Hopen Hreg Hfn Hroot Hqr Hq Hr.
  destruct (Query_MarshalCBOR _ _) as [b ?] eqn:Eq in Hq. simpl in Hq. subst.
  destruct (QueryResponse_MarshalCBOR _ _) as [b' ?] eqn:Er in Hr. simpl in Hr. subst.
  destruct (Query_codec (MkQuery _ params) Hok _ _ Eq) as (b1 & Eb & Hrq).
  destruct (QueryResponse_codec _ Hqr _ _ Er) as (b2 & Eb' & Hrr).
  change (b = b1) in Eb. change (b' = b2) in Eb'. subst b1 b2.
  specialize (Hrq EmptyString). specialize (Hrr EmptyString). rewrite string_app_empty_r in Hrq, Hrr.
  assert (Query_read (MkQuery (o_PayloadCID offer) params) = MkQuery (o_PayloadCID offer) params) as Hread.
  { unfold NewQueryParams in Hparams. destruct (encode sel); by simplify_eq. }
  eexists. split; [|split].
  - unfold QueryProvider, go_bind, go_lift. rewrite Hparams, Hopen. unfold Dump. rewrite Eq.
    unfold handle_query. rewrite Hrq, Hread, Hreg. unfold go_bind, go_try. rewrite Hfn.
    unfold go_ret, written. rewrite Er. simpl. rewrite Hrr. simpl. reflexivity.
  - by repeat split.
  - done.
Qed.

Definition write_selector (nd : string) : error + bytes := inr (write_value nd).
Definition asia : Region := ParseRegion "Asia".
Definition make_offer (p : peer_id) (r : Region) (q : Deal.Query) : go nat error Offer := λ n,
  (S n, Ok (MkOffer EmptyString EmptyString (q_PayloadCID q) 1024 "pay" (default 0 (rg_PPB r)) 1000 100 0)).

Lemma QueryProvider_terms_witness :
  ∃ o, QueryProvider write_selector (λ _ _, inr tt)
         (λ _ b, handle_query make_offer (wire_node "bob") "alice" b) (inr ["addr"]) "bob" "root"
         (Some "all") 0%nat = (1%nat, Ok o) ∧
       same_terms o (MkOffer EmptyString EmptyString "root" 1024 "pay" 1 1000 100 0) ∧
       o_PeerAddr o = "addr".
Proof.
  apply (QueryProvider_terms write_selector make_offer (λ _ _, inr tt) "addr" [] (wire_node "bob")
           "alice" "bob" "root" "all" (MkQueryParams None (Some (write_value "all"))) asia []);
    try vm_eq.
  - right. exists "all". vm_eq.
  - vm_compute. intuition congruence.
Defined.

(** When the provider cannot be reached, the error is dropped and the query is
    written to a nil stream. *)
Theorem QueryProvider_unreachable_panics {CB : CborLib} {Node S}
    (encode : Node → error + bytes) newStream (reply : peer_id → bytes → go S error bytes)
    addrs p root sel params e s :
  NewQueryParams encode sel = Ok params → (∀ n, newStream p n = inl e) →
  QueryProvider encode newStream reply addrs p root sel s = (s, Panic).
Proof.
  intros Hp Hf. unfold QueryProvider, go_bind, go_lift. rewrite Hp.
  destruct (OpenStream_fails (newStream p) e Hf) as [w ->]. done.
Qed.

Lemma QueryProvider_unreachable_panics_witness :
  QueryProvider write_selector (λ _ _, inl (ErrExternal "dial")) (λ _ _, go_ret EmptyString) (inr [])
    "bob" "root" (Some "all") 0%nat = (0%nat, Panic).
Proof.
  apply (QueryProvider_unreachable_panics write_selector _ _ _ _ _ _
           (MkQueryParams None (Some (write_value "all"))) (ErrExternal "dial")); [vm_eq|done].
Defined.

(** A topic leads back to the region it was joined for, with a price of zero if it has none. *)
Lemma RegionFromTopic_topic_of name :
  after_slash name EmptyString = name →
  RegionFromTopic (topic_of (ParseRegion name))
  = MkRegion name (rg_Code (ParseRegion name)) (Some (default 0 (rg_PPB (ParseRegion name)))).
Proof.
  intros Hn. assert (after_slash (topic_of (ParseRegion name)) EmptyString = name) as Ht.
  { unfold topic_of. assert (rg_Name (ParseRegion name) = name) as ->; [|simpl; exact Hn].
    unfold ParseRegion. destruct (region_named name Regions) as [r|] eqn:E; [|done].
    revert E. unfold Regions. cbn [region_named].
    repeat match goal with |- context [String.eqb ?n name] =>
      destruct (String.eqb_spec n name) as [<-|]; cbn iota; [intros [= <-]; reflexivity|] end.
    discriminate. }
  unfold RegionFromTopic. rewrite Ht. cbn zeta. unfold ParseRegion.
  destruct (region_named name Regions) as [r|] eqn:E; [|done].
  revert E. unfold Regions. cbn [region_named].
  repeat match goal with |- context [String.eqb ?n name] =>
    destruct (String.eqb_spec n name) as [<-|]; cbn iota; [intros [= <-]; reflexivity|] end.
  discriminate.
Qed.
