(* ===== verification/Dag.v ===== *)
(** * Blocks and entry maps (internal/utils/stat.go, the entry maps of exchange/tx.go)

    Moving blocks between stores, walking a DAG, and the map from keys to links
    under which a transaction gathers its entries.  Block stores and the IPLD data
    model are libraries: the classes below name what the code calls. *)
From S2P Require Import Prelude Deal.

(** ** Block stores *)

Class Blockstore (B : Type) : Type := {
  bs_AllKeysChan : B → error + list cid;
  bs_Get : cid → B → error + bytes;
  bs_Put : cid → bytes → B → error + B
}.

(** A store holds [contents]: the keys it lists are those it has. *)
Class BlockstoreLaws {B} `{Blockstore B} (contents : B → gmap cid bytes) : Prop := {
  bs_get_contents : ∀ b c x, bs_Get c b = inr x → contents b !! c = Some x;
  bs_keys_contents : ∀ b l, bs_AllKeysChan b = inr l → ∀ c, c ∈ l ↔ is_Some (contents b !! c);
  bs_put_contents : ∀ b c x b', bs_Put c x b = inr b' → contents b' = <[c := x]> (contents b)
}.

Section blocks.
Context {B : Type} `{Blockstore B}.

Definition put_block (c : cid) (x : bytes) : go B error unit := λ b,
  match bs_Put c x b with
  | inl e => (b, Err e)
  | inr b' => (b', Ok tt)
  end.

Fixpoint migrate_keys (from : B) (ks : list cid) : go B error unit :=
  match ks with
  | [] => go_ret tt
  | k :: ks' =>
    let* blk := go_sum (bs_Get k from) in
    do* put_block k blk then
    migrate_keys from ks'
  end.

Definition MigrateBlocks (from : B) : go B error unit :=
  let* ks := go_sum (bs_AllKeysChan from) in
  migrate_keys from ks.

(** ** Walking a DAG *)

(** What a traversal of the library loads, in order, and the error it ends with;
    it stops at the first block the callback refuses. *)
Context {Sel : Type} (visited : B → cid → Sel → list (cid * bytes) * option error).

Fixpoint visit {S} (f : cid → bytes → go S error unit) (l : list (cid * bytes)) (err : option error)
    : go S error unit :=
  match l with
  | [] => match err with None => go_ret tt | Some e => go_err e end
  | (c, x) :: l' => do* f c x then visit f l' err
  end.

Definition WalkDAG {S} (root : cid) (bs : B) (sel : Sel) (f : cid → bytes → go S error unit)
    : go S error unit :=
  let '(l, err) := visited bs root sel in visit f l err.

Record DAGStat : Type := MkDAGStat {
  st_Size : Z;
  st_NumBlocks : Z
}.

Definition Stat (bs : B) (root : cid) (sel : Sel) : DAGStat * outcome error unit :=
  WalkDAG root bs sel (λ _ x,
    go_modify (λ res, MkDAGStat (i64 (st_Size res + Z.of_nat (String.length x)))
                        (i64 (st_NumBlocks res + 1)))) (MkDAGStat 0 0).

Definition MigrateSelectBlocks (from : B) (root : cid) (sel : Sel) : go B error unit :=
  WalkDAG root from sel put_block.

End blocks.

(** ** Entry maps *)

(** The nodes of the IPLD data model the code builds and reads, and links: storing
    a node under its hash, loading it back as a map, and whether a link can be
    loaded at all. *)
Class Ipld (B : Type) : Type := {
  ipld : Type;
  MapNode : list (string * ipld) → ipld;
  StringNode : string → ipld;
  LinkNode : cid → ipld;
  IntNode : Z → ipld;
  MapEntries : ipld → list (string * ipld);
  LookupByString : string → ipld → error + ipld;
  AsLink : ipld → error + cid;
  AsInt : ipld → error + Z;
  lb_Build : ipld → B → error + (cid * B);
  lk_Load : cid → B → error + ipld;
  can_load : cid → B → bool
}.

(** A map answers with the entries it was built from, and what is loaded is what
    was stored, up to the order of its entries. *)
Class IpldLaws (B : Type) `{Ipld B} : Prop := {
  map_entries : ∀ l, MapEntries (MapNode l) = l;
  map_lookup : ∀ l k v, NoDup l.*1 → (k, v) ∈ l → LookupByString k (MapNode l) = inr v;
  link_node : ∀ c, AsLink (LinkNode c) = inr c;
  int_node : ∀ z, is_i64 z → AsInt (IntNode z) = inr z;
  load_build : ∀ l (b b' : B) c, NoDup l.*1 → lb_Build (MapNode l) b = inr (c, b') →
    ∃ l', l' ≡ₚ l ∧ lk_Load c b' = inr (MapNode l')
}.

Record Entry : Type := MkEntry {
  Key : string;
  Value : cid;
  e_Size : Z
}.

Definition sum_bind {E A C} (r : E + A) (k : A → E + C) : E + C :=
  match r with
  | inl e => inl e
  | inr a => k a
  end.

Section entries.
Context {B : Type} `{Ipld B}.

Definition entry_node (k : string) (v : Entry) : string * ipld :=
  (k, MapNode [("Key", StringNode k); ("Value", LinkNode (Value v)); ("Size", IntNode (e_Size v))]).

(** The entries come in the order the map was walked in. *)
Definition assembleEntries (entries : list (string * Entry)) : ipld :=
  MapNode (map (λ kv, entry_node kv.1 kv.2) entries).

Definition entry_link (v : ipld) : error + cid :=
  sum_bind (LookupByString "Value" v) AsLink.

(** An entry without a size, or with one that is no integer, has size zero. *)
Definition entry_size (v : ipld) : Z :=
  match LookupByString "Size" v with
  | inl _ => 0
  | inr sn => match AsInt sn with inl _ => 0 | inr z => z end
  end.

Fixpoint read_entries (l : list (string * ipld)) : error + list Entry :=
  match l with
  | [] => inr []
  | (k, v) :: l' =>
    sum_bind (entry_link v) (λ c,
    sum_bind (read_entries l') (λ es,
    inr (MkEntry k c (entry_size v) :: es)))
  end.

Definition load_entries (root : cid) (b : B) : error + list Entry :=
  sum_bind (lk_Load root b) (λ nd, read_entries (MapEntries nd)).

(** The link of one key, as [RootFor] and [loadFileEntry] look it up. *)
Definition load_link (root : cid) (key : string) (b : B) : error + cid :=
  sum_bind (lk_Load root b) (λ nd,
  sum_bind (LookupByString key nd) entry_link).

Fixpoint keys_where (keep : cid → bool) (l : list (string * ipld)) : error + list string :=
  match l with
  | [] => inr []
  | (k, v) :: l' =>
    sum_bind (entry_link v) (λ c,
    sum_bind (keys_where keep l') (λ ks,
    inr (if keep c then k :: ks else ks)))
  end.

Definition MapLoadableKeys (root : cid) (b : B) : error + list string :=
  sum_bind (lk_Load root b) (λ nd, keys_where (λ c, can_load c b) (MapEntries nd)).

Definition MapMissingKeys (root : cid) (b : B) : error + list string :=
  sum_bind (lk_Load root b) (λ nd, keys_where (λ c, negb (can_load c b)) (MapEntries nd)).

End entries.

(** ** Moving blocks *)

Section moving.
Context {B : Type} `{Blockstore B} (contents : B → gmap cid bytes) `{!BlockstoreLaws contents}.

Lemma put_block_ok c x b b' : put_block c x b = (b', Ok tt) → contents b' = <[c := x]> (contents b).
Proof. unfold put_block. destruct (bs_Put c x b) eqn:E; intros [= <-]. by apply bs_put_contents. Qed.

Lemma migrate_keys_spec from ks b b' :
  migrate_keys from ks b = (b', Ok tt) →
  (∀ c, c ∈ ks → is_Some (contents from !! c)) ∧
  ∀ c, contents b' !! c = if decide (c ∈ ks) then contents from !! c else contents b !! c.
Proof.
  revert b. induction ks as [|k ks IH]; intros b; simpl.
  - intros [-> _]%go_ret_ok. split; [by intros c ?%elem_of_nil|done].
  - intros (b1 & blk & [-> Hget]%go_sum_ok & (b2 & [] & Hput & Hrest)%go_bind_ok)%go_bind_ok.
    apply put_block_ok in Hput. apply IH in Hrest as [Hin Hc]. apply bs_get_contents in Hget.
    split.
    + intros c [->|Hk]%elem_of_cons; [by rewrite Hget|auto].
    + intros c. rewrite Hc, Hput. destruct (decide (c = k)) as [->|Hne].
      * rewrite Hget, lookup_insert_eq.
        rewrite (decide_True (P:=k ∈ k :: ks)) by (left; done). by destruct (decide _).
      * rewrite lookup_insert_ne by done. destruct (decide (c ∈ ks)).
        -- by rewrite decide_True by (by right).
        -- rewrite decide_False; [done|]. by intros [?|?]%elem_of_cons.
Qed.

(** Every block of the source, over what was there. *)
Lemma MigrateBlocks_spec from b b' :
  MigrateBlocks from b = (b', Ok tt) → contents b' = contents from ∪ contents b.
Proof.
  intros (b1 & ks & [-> Hks]%go_sum_ok & Hm)%go_bind_ok. apply migrate_keys_spec in Hm as [Hin Hc].
  apply map_eq. intros c. rewrite Hc, lookup_union.
  pose proof (bs_keys_contents _ _ Hks c) as Hk. destruct (decide (c ∈ ks)) as [Hd|Hd].
  - apply Hk in Hd as [x ->]. by destruct (contents b !! c).
  - destruct (contents from !! c) as [x|]; [exfalso; apply Hd, Hk; by exists x|].
    by destruct (contents b !! c).
Qed.

End moving.

(** ** Reading entry maps *)

Section reading.
Context {B : Type} `{IpldLaws B}.

Lemma entry_node_ok k v :
  is_i64 (e_Size v) →
  entry_link (entry_node k v).2 = inr (Value v) ∧ entry_size (entry_node k v).2 = e_Size v.
Proof.
  intros Hs. unfold entry_link, entry_size, entry_node. cbn [snd].
  rewrite (map_lookup _ "Value" (LinkNode (Value v))); [|by apply (bool_decide_unpack _)|by right; left].
  rewrite (map_lookup _ "Size" (IntNode (e_Size v))); [|by apply (bool_decide_unpack _)|by do 2 right; left].
  cbn [sum_bind]. by rewrite link_node, int_node.
Qed.

(** A map of entries: each key holds the node of its entry. *)
Definition entry_map (m : gmap string Entry) (l : list (string * ipld)) : Prop :=
  ∃ es, es ≡ₚ map_to_list m ∧ l = map (λ kv, entry_node kv.1 kv.2) es.

Definition entries_ok (m : gmap string Entry) : Prop :=
  map_Forall (λ k e, Key e = k ∧ is_i64 (e_Size e)) m.

Lemma read_entries_ok m es :
  entries_ok m → (∀ kv, kv ∈ es → m !! kv.1 = Some kv.2) →
  read_entries (map (λ kv, entry_node kv.1 kv.2) es) = inr es.*2.
Proof.
  intros Hm. induction es as [|[k e] es IH]; intros Hin; [done|].
  cbn [map read_entries entry_node fst snd].
  destruct (Hm k e (Hin (k, e) ltac:(by left))) as [Hk Hs].
  destruct (entry_node_ok k e Hs) as [Hl Hz]. cbn [entry_node snd] in Hl, Hz. rewrite Hl.
  cbn [sum_bind]. rewrite IH by (intros kv ?; apply Hin; by right). cbn [sum_bind].
  rewrite Hz. destruct e; simpl in *. by subst.
Qed.

Lemma entry_map_nodup m l : entry_map m l → NoDup l.*1.
Proof.
  intros (es & Hes & ->). rewrite <- list_fmap_compose.
  rewrite (list_fmap_ext _ fst) by done. rewrite Hes. apply NoDup_fst_map_to_list.
Qed.

(** What was built from the entries is read back from the store. *)
Lemma build_reads m es (b b' : B) root :
  entries_ok m → es ≡ₚ map_to_list m → lb_Build (assembleEntries es) b = inr (root, b') →
  (∃ rs, load_entries root b' = inr rs ∧ rs ≡ₚ (map_to_list m).*2) ∧
  ∀ k e, m !! k = Some e → load_link root k b' = inr (Value e).
Proof.
  intros Hm Hes Hb.
  assert (NoDup (map (λ kv, entry_node kv.1 kv.2) es).*1) as Hnd
    by (eapply entry_map_nodup; by exists es).
  destruct (load_build _ _ _ _ Hnd Hb) as (l' & Hl' & Hload).
  destruct (Permutation_map_inv _ _ Hl') as (es' & -> & Hes').
  assert (es' ≡ₚ map_to_list m) as Hp by (by rewrite <- Hes', Hes).
  assert (∀ kv, kv ∈ es' → m !! kv.1 = Some kv.2) as Hin.
  { intros [k e]. rewrite Hp. apply elem_of_map_to_list. }
  unfold load_entries, load_link. rewrite Hload. cbn [sum_bind]. split.
  - exists es'.*2. rewrite map_entries, (read_entries_ok m es' Hm Hin). split; [done|by rewrite Hp].
  - intros k e Hk. destruct (Hm k e Hk) as [_ Hs].
    rewrite (map_lookup _ k (entry_node k e).2).
    + cbn [sum_bind]. by apply entry_node_ok.
    + eapply entry_map_nodup. by exists es'.
    + change (k, (entry_node k e).2) with (entry_node (k, e).1 (k, e).2).
      apply (list_elem_of_fmap_2 (λ kv : string * Entry, entry_node kv.1 kv.2)).
      rewrite Hp. by apply elem_of_map_to_list.
Qed.

Lemma keys_partition_list (keep : cid → bool) l l1 l2 :
  keys_where keep l = inr l1 → keys_where (λ c, negb (keep c)) l = inr l2 → l1 ++ l2 ≡ₚ l.*1.
Proof.
  revert l1 l2. induction l as [|[k v] l IH]; intros l1 l2; simpl; [by intros [= <-] [= <-]|].
  destruct (entry_link v) as [e|c]; [done|]. cbn [sum_bind].
  destruct (keys_where keep l) as [e|ks1]; [done|].
  destruct (keys_where (λ c, negb (keep c)) l) as [e|ks2]; [done|].
  cbn [sum_bind]. specialize (IH ks1 ks2 eq_refl eq_refl).
  destruct (keep c); intros [= <-] [= <-]; simpl; [by rewrite IH|].
  by rewrite <- Permutation_middle, IH.
Qed.

End reading.

(** ** An in-memory model of the libraries *)

Inductive tree : Type :=
| TMap (l : list (string * tree))
| TStr (s : string)
| TLink (c : cid)
| TInt (z : Z).

Fixpoint tree_at (k : string) (l : list (string * tree)) : error + tree :=
  match l with
  | [] => inl (ErrMsg "key not found")
  | (k', v) :: l' => if String.eqb k' k then inr v else tree_at k l'
  end.

(** Blocks, and the nodes stored among them. *)
Record memstore : Type := MkMemstore {
  ms_blocks : gmap cid bytes;
  ms_trees : gmap cid tree
}.

#[export] Instance mem_blockstore : Blockstore memstore := {|
  bs_AllKeysChan b := inr (map_to_list (ms_blocks b)).*1;
  bs_Get c b := match ms_blocks b !! c with Some x => inr x | None => inl ErrNotFound end;
  bs_Put c x b := inr (MkMemstore (<[c := x]> (ms_blocks b)) (ms_trees b))
|}.

#[export] Instance mem_blocks_laws : BlockstoreLaws ms_blocks.
Proof.
  split; simpl.
  - intros b c x. by destruct (ms_blocks b !! c); intros [= <-].
  - intros b l [= <-] c. split.
    + intros ([k x] & -> & ?%elem_of_map_to_list)%list_elem_of_fmap. by exists x.
    + intros [x Hx]. apply list_elem_of_fmap. exists (c, x). by rewrite elem_of_map_to_list.
  - intros b c x b' [= <-]. done.
Qed.

#[export] Instance mem_ipld : Ipld memstore := {|
  ipld := tree;
  MapNode := TMap;
  StringNode := TStr;
  LinkNode := TLink;
  IntNode := TInt;
  MapEntries nd := match nd with TMap l => l | _ => [] end;
  LookupByString k nd := match nd with TMap l => tree_at k l | _ => inl (ErrMsg "not a map") end;
  AsLink nd := match nd with TLink c => inr c | _ => inl (ErrMsg "not a link") end;
  AsInt nd := match nd with TInt z => inr z | _ => inl (ErrMsg "not an integer") end;
  lb_Build nd b := let c := "node" +:+ pretty (size (ms_trees b)) in
                   inr (c, MkMemstore (ms_blocks b) (<[c := nd]> (ms_trees b)));
  lk_Load c b := match ms_trees b !! c with
                 | Some (TMap l) => inr (TMap l)
                 | Some _ => inl (ErrMsg "not a map")
                 | None => inl ErrNotFound
                 end;
  can_load c b := bool_decide (is_Some (ms_blocks b !! c)) || bool_decide (is_Some (ms_trees b !! c))
|}.

#[export] Instance mem_ipld_laws : IpldLaws memstore.
Proof.
  split; simpl; try done.
  - intros l k v Hnd Hin. induction l as [|[k' v'] l IH]; [by apply elem_of_nil in Hin|].
    simpl in *. apply NoDup_cons in Hnd as [Hk' Hnd]. apply elem_of_cons in Hin as [[= <- <-]|Hin].
    + by rewrite String.eqb_refl.
    + destruct (String.eqb_spec k' k) as [->|]; [|auto].
      destruct Hk'. apply list_elem_of_fmap. by exists (k, v).
  - intros l b b' c _ [= <- <-]. exists l. simpl. by rewrite lookup_insert_eq.
Qed.

(** ** Properties *)

(** The keys whose content can be loaded and the keys whose content is missing
    are, together, the keys of the map, each once. *)
Theorem keys_partition {B} `{Ipld B} (root : cid) (b : B) (l1 l2 : list string) :
  MapLoadableKeys root b = inr l1 → MapMissingKeys root b = inr l2 →
  ∃ nd, lk_Load root b = inr nd ∧ l1 ++ l2 ≡ₚ (MapEntries nd).*1.
Proof.
  unfold MapLoadableKeys, MapMissingKeys. destruct (lk_Load root b) as [e|nd]; [done|].
  intros H1 H2. exists nd. split; [done|]. by eapply keys_partition_list.
Qed.

Definition stored_entries : list (string * Entry) :=
  [("a.txt", MkEntry "a.txt" "cidA" 5); ("b.txt", MkEntry "b.txt" "cidB" 7)].
Definition half_loaded : memstore :=
  MkMemstore {["cidA" := "hello"]} {["root" := assembleEntries (B:=memstore) stored_entries]}.

Lemma keys_partition_witness :
  ∃ nd, lk_Load "root" half_loaded = inr nd ∧ ["a.txt"] ++ ["b.txt"] ≡ₚ (MapEntries nd).*1.
Proof. apply (keys_partition "root" half_loaded ["a.txt"] ["b.txt"]); vm_eq. Defined.
