(* ===== verification/Tx.v ===== *)
(** * Transactions (exchange/tx.go, exchange/exchange.go)

    A transaction stages content in a store of its own, publishes it or retrieves
    it by executing the offers its session worker selects, and moves the blocks to
    the node's store when it is closed.  The exchange answers queries with the
    ask it will hold the client to, and retrieves content on behalf of the
    replication. *)
From S2P Require Import Prelude Deal Fsm PayTypes DataTransfer ClientFsm ProviderFsm Revalidator.
From S2P Require Import Cbor DataRef Index IndexSpec Session PeerMgr Replication Routing Dag.

Definition ErrNoStrategy : error := ErrMsg "no strategy".

(** Parameters of an execution. *)
Record DealExecParams (Node : Type) : Type := MkDealExecParams {
  xp_Accepted : bool;
  xp_Selector : option Node;
  xp_TotalFunds : Z
}.
Arguments MkDealExecParams {Node}.
Arguments xp_Accepted {Node}.
Arguments xp_Selector {Node}.
Arguments xp_TotalFunds {Node}.

(** [DealSel] and [DealFunds]. *)
Definition DealSel {Node} (sel : Node) (p : DealExecParams Node) : DealExecParams Node :=
  MkDealExecParams (xp_Accepted p) (Some sel) (xp_TotalFunds p).
Definition DealFunds {Node} (amount : Z) (p : DealExecParams Node) : DealExecParams Node :=
  MkDealExecParams (xp_Accepted p) (xp_Selector p) amount.

(** What a user answers to a selection: [Exec] and [Next]. *)
Definition Selection_Exec {Node} (o : Offer) (pms : list (DealExecParams Node → DealExecParams Node))
    : DealExecParams Node :=
  fold_left (λ p f, f p) pms (MkDealExecParams true None (RetrievalPrice o)).
Definition Selection_Next {Node} : DealExecParams Node := MkDealExecParams false None 0.

(** ** The state of a transaction

    The worker, the subscription and the triage channel are present or nil. *)
Record Tx (Node : Type) : Type := MkTx {
  tx_storeID : Z;
  tx_entries : gmap string Entry;
  tx_clientAddr : address;
  tx_root : cid;
  tx_size : Z;
  tx_cacheRF : Z;
  tx_sel : option Node;
  tx_worker : bool;
  tx_unsub : bool;
  tx_triage : bool;
  tx_committed : bool;
  tx_Err : option error;
  tx_closed : bool
}.
Arguments MkTx {Node}.
Arguments tx_storeID {Node}.
Arguments tx_entries {Node}.
Arguments tx_clientAddr {Node}.
Arguments tx_root {Node}.
Arguments tx_size {Node}.
Arguments tx_cacheRF {Node}.
Arguments tx_sel {Node}.
Arguments tx_worker {Node}.
Arguments tx_unsub {Node}.
Arguments tx_triage {Node}.
Arguments tx_committed {Node}.
Arguments tx_Err {Node}.
Arguments tx_closed {Node}.

Section setters.
Context {Node : Type}.
Implicit Types (t : Tx Node).
Definition set_tx_entries (v : gmap string Entry) t : Tx Node :=
  MkTx (tx_storeID t) v (tx_clientAddr t) (tx_root t) (tx_size t) (tx_cacheRF t) (tx_sel t) (tx_worker t)
    (tx_unsub t) (tx_triage t) (tx_committed t) (tx_Err t) (tx_closed t).
Definition set_tx_root_size (r : cid) (n : Z) t : Tx Node :=
  MkTx (tx_storeID t) (tx_entries t) (tx_clientAddr t) r n (tx_cacheRF t) (tx_sel t) (tx_worker t)
    (tx_unsub t) (tx_triage t) (tx_committed t) (tx_Err t) (tx_closed t).
Definition set_tx_sel (v : option Node) t : Tx Node :=
  MkTx (tx_storeID t) (tx_entries t) (tx_clientAddr t) (tx_root t) (tx_size t) (tx_cacheRF t) v
    (tx_worker t) (tx_unsub t) (tx_triage t) (tx_committed t) (tx_Err t) (tx_closed t).
Definition set_tx_worker (v : bool) t : Tx Node :=
  MkTx (tx_storeID t) (tx_entries t) (tx_clientAddr t) (tx_root t) (tx_size t) (tx_cacheRF t) (tx_sel t)
    v (tx_unsub t) (tx_triage t) (tx_committed t) (tx_Err t) (tx_closed t).
Definition set_tx_unsub (v : bool) t : Tx Node :=
  MkTx (tx_storeID t) (tx_entries t) (tx_clientAddr t) (tx_root t) (tx_size t) (tx_cacheRF t) (tx_sel t)
    (tx_worker t) v (tx_triage t) (tx_committed t) (tx_Err t) (tx_closed t).
Definition set_tx_triage (v : bool) t : Tx Node :=
  MkTx (tx_storeID t) (tx_entries t) (tx_clientAddr t) (tx_root t) (tx_size t) (tx_cacheRF t) (tx_sel t)
    (tx_worker t) (tx_unsub t) v (tx_committed t) (tx_Err t) (tx_closed t).
Definition set_tx_committed (v : bool) t : Tx Node :=
  MkTx (tx_storeID t) (tx_entries t) (tx_clientAddr t) (tx_root t) (tx_size t) (tx_cacheRF t) (tx_sel t)
    (tx_worker t) (tx_unsub t) (tx_triage t) v (tx_Err t) (tx_closed t).
Definition set_tx_Err (v : option error) t : Tx Node :=
  MkTx (tx_storeID t) (tx_entries t) (tx_clientAddr t) (tx_root t) (tx_size t) (tx_cacheRF t) (tx_sel t)
    (tx_worker t) (tx_unsub t) (tx_triage t) (tx_committed t) v (tx_closed t).
Definition set_tx_closed (v : bool) t : Tx Node :=
  MkTx (tx_storeID t) (tx_entries t) (tx_clientAddr t) (tx_root t) (tx_size t) (tx_cacheRF t) (tx_sel t)
    (tx_worker t) (tx_unsub t) (tx_triage t) (tx_committed t) (tx_Err t) v.

Definition SetCacheRF (rf : Z) t : Tx Node :=
  MkTx (tx_storeID t) (tx_entries t) (tx_clientAddr t) (tx_root t) (tx_size t) rf (tx_sel t) (tx_worker t)
    (tx_unsub t) (tx_triage t) (tx_committed t) (tx_Err t) (tx_closed t).
Definition SetAddress (addr : address) t : Tx Node :=
  MkTx (tx_storeID t) (tx_entries t) addr (tx_root t) (tx_size t) (tx_cacheRF t) (tx_sel t) (tx_worker t)
    (tx_unsub t) (tx_triage t) (tx_committed t) (tx_Err t) (tx_closed t).

(** The options of [Exchange.Tx]. *)
Definition WithStrategy : Tx Node → Tx Node := set_tx_worker true.
Definition WithRoot (r : cid) t : Tx Node := set_tx_root_size r (tx_size t) t.
Definition WithTriage : Tx Node → Tx Node := set_tx_triage true.
End setters.

(** The transaction with the store of the node, its own store, the index and the
    services it calls. *)
Record TxState (Node B X W : Type) : Type := MkTxState {
  t_tx : Tx Node;
  t_bs : B;
  t_store : B;
  t_idx : Index X;
  t_world : W
}.
Arguments MkTxState {Node B X W}.
Arguments t_tx {Node B X W}.
Arguments t_bs {Node B X W}.
Arguments t_store {Node B X W}.
Arguments t_idx {Node B X W}.
Arguments t_world {Node B X W}.

(** What a transaction calls: retrieval client, replication, multistore, routing,
    and the libraries that encode selectors, parse addresses and read files. *)
Record TxServices (Node B W File : Type) : Type := MkTxServices {
  sv_Retrieve : cid → Params → Z → peer_id → address → address → Z → go W error Z;
  sv_Dispatch : cid → Z → DispatchOptions → go W error unit;
  sv_Delete : Z → go W error unit;
  sv_Query : cid → Node → go W error unit;
  sv_QueryProvider : peer_id → cid → Node → go W error Offer;
  sv_encode : Node → error + bytes;
  sv_AddrInfo : bytes → error + peer_id;
  sv_file : cid → B → error + File;
  sv_Entries : Node;
  sv_GCBlockstore : bool
}.
Arguments MkTxServices {Node B W File}.
Arguments sv_Retrieve {Node B W File}.
Arguments sv_Dispatch {Node B W File}.
Arguments sv_Delete {Node B W File}.
Arguments sv_Query {Node B W File}.
Arguments sv_QueryProvider {Node B W File}.
Arguments sv_encode {Node B W File}.
Arguments sv_AddrInfo {Node B W File}.
Arguments sv_file {Node B W File}.
Arguments sv_Entries {Node B W File}.
Arguments sv_GCBlockstore {Node B W File}.

Section tx.
Context {CB : CborLib} {Node B X W File : Type} `{Blockstore B} `{Ipld B}.
Context (ienv : IndexEnv X) (sv : TxServices Node B W File).
(** How Go walks sets of references, and what a traversal visits. *)
Context (range : gset ptr → list ptr).
Context (visited : B → cid → Node → list (cid * bytes) * option error).
Local Abbreviation T := (go (TxState Node B X W) error).

Definition on_tx (f : Tx Node → Tx Node) : T unit :=
  go_modify (λ s, MkTxState (f (t_tx s)) (t_bs s) (t_store s) (t_idx s) (t_world s)).
Definition on_bs {A} (m : go B error A) : T A := λ s,
  let '(b, r) := m (t_bs s) in (MkTxState (t_tx s) b (t_store s) (t_idx s) (t_world s), r).
Definition on_store {A} (m : go B error A) : T A := λ s,
  let '(b, r) := m (t_store s) in (MkTxState (t_tx s) (t_bs s) b (t_idx s) (t_world s), r).
Definition on_index {A} (m : go (Index X) error A) : T A := λ s,
  let '(i, r) := m (t_idx s) in (MkTxState (t_tx s) (t_bs s) (t_store s) i (t_world s), r).
Definition on_service {A} (m : go W error A) : T A := λ s,
  let '(w, r) := m (t_world s) in (MkTxState (t_tx s) (t_bs s) (t_store s) (t_idx s) w, r).

(** ** Staging content *)

(** The sum of the sizes, and the node of the entries stored in the store of the
    transaction; [order] is the order Go walks the map in. *)
Definition buildRoot (order : list (string * Entry)) : T unit :=
  let size := fold_left (λ n kv, i64 (n + e_Size kv.2)) order 0 in
  let* lnk := on_store (λ b, match lb_Build (assembleEntries order) b with
                             | inl e => (b, Err e)
                             | inr (c, b') => (b', Ok c)
                             end) in
  on_tx (set_tx_root_size lnk size).

Definition Put (order : gmap string Entry → list (string * Entry)) (key : string) (value : cid) (size : Z)
    : T unit :=
  do* on_tx (λ t, set_tx_entries (<[key := MkEntry key value size]> (tx_entries t)) t) then
  let* s := go_get in
  buildRoot (order (tx_entries (t_tx s))).

Definition TxStatus : T (gmap string Entry) :=
  let* s := go_get in
  match tx_Err (t_tx s) with
  | Some e => go_err e
  | None => go_ret (tx_entries (t_tx s))
  end.

Definition Ref (order : list (string * Entry)) : T DataRef :=
  let* s := go_get in
  let t := t_tx s in
  if bool_decide (tx_entries t = ∅) then
    match MapLoadableKeys (tx_root t) (t_store s) with
    | inl err =>
      do* on_tx (set_tx_Err (Some err)) then
      go_ret (MkDataRef (tx_root t) (tx_size t) [] 0 0 None)
    | inr kl => go_ret (MkDataRef (tx_root t) (tx_size t) kl 0 0 None)
    end
  else go_ret (MkDataRef (tx_root t) (tx_size t) order.*1 0 0 None).

Definition Commit : T unit :=
  let* s := go_get in
  let t := t_tx s in
  match tx_Err t with
  | Some e => go_err e
  | None =>
    do* on_tx (set_tx_committed true) then
    if 0 <? tx_cacheRF t then
      on_service (sv_Dispatch sv (tx_root t) (u64 (tx_size t))
        (MkDispatchOptions (do_BackoffAttemps DefaultDispatchOptions) (tx_cacheRF t) (tx_storeID t)))
    else go_ret tt
  end.

(** ** Reading content *)

(** The store in which the root of the transaction is looked up. *)
Definition reading_store : T B :=
  let* s := go_get in
  let* r := go_try (on_index (GetRef ienv (tx_root (t_tx s)))) in
  match r with
  | inl _ => go_ret (t_store s)
  | inr _ => go_ret (t_bs s)
  end.

Definition loadFileEntry (k : string) (store : B) : T File :=
  let* s := go_get in
  let* flk := go_sum (load_link (tx_root (t_tx s)) k store) in
  go_sum (sv_file sv flk store).

Definition GetFile (k : string) : T File :=
  let* s := go_get in
  match tx_entries (t_tx s) !! k with
  | Some e => go_sum (sv_file sv (Value e) (t_store s))
  | None => let* store := reading_store in loadFileEntry k store
  end.

Definition IsLocal (key : string) : T bool :=
  let* s := go_get in
  match tx_entries (t_tx s) !! key with
  | Some _ => go_ret true
  | None =>
    let* r := go_try (on_index (GetRef ienv (tx_root (t_tx s)))) in
    match r with
    | inl _ => go_ret false
    | inr ref =>
      if String.eqb key EmptyString then go_ret true
      else
        let* d := on_index (deref ref) in
        if Has d key then go_ret true
        else
          do* go_try (on_store (MigrateSelectBlocks visited (t_bs s) (tx_root (t_tx s)) (sv_Entries sv))) then
          go_ret false
    end
  end.

Definition Keys (order : list (string * Entry)) : T (list string) :=
  let* s := go_get in
  if bool_decide (tx_entries (t_tx s) = ∅) then
    let* store := reading_store in
    match MapLoadableKeys (tx_root (t_tx s)) store with
    | inl err => go_err (ErrWrap "failed to get keys" err)
    | inr keys => go_ret keys
    end
  else go_ret order.*1.

Definition RootFor (key : string) : T cid :=
  let* store := reading_store in
  let* s := go_get in
  go_sum (load_link (tx_root (t_tx s)) key store).

Definition Entries : T (list Entry) :=
  let* store := reading_store in
  let* s := go_get in
  go_sum (load_entries (tx_root (t_tx s)) store).

(** ** Retrieving content *)

Definition TxQuery (sel : Node) : T unit :=
  do* on_tx (set_tx_sel (Some sel)) then
  let* s := go_get in
  if tx_worker (t_tx s) then on_service (sv_Query sv (tx_root (t_tx s)) sel)
  else go_err ErrNoStrategy.

Definition QueryOffer (info : peer_id) (sel : Node) : T Offer :=
  do* on_tx (set_tx_sel (Some sel)) then
  let* s := go_get in
  on_service (sv_QueryProvider sv info (tx_root (t_tx s)) sel).

(** The message the session worker receives. *)
Definition ApplyOffer (offer : Offer) : T worker_event :=
  let* s := go_get in
  if tx_worker (t_tx s) then go_ret (OfferFront offer) else go_panic.

Definition failed (err : error) : TxResult := MkTxResult (Some err) 0 0 Undef.

(** What the subscription makes of an event.  It sees the events of every deal
    of the client. *)
Definition result_of (state : ClientState) : option TxResult :=
  match cs_Status state with
  | StatusCompleted =>
    Some (MkTxResult None (cs_TotalReceived state) (cs_FundsSpent state)
            (match cs_PaymentInfo state with Some p => PayCh p | None => Undef end))
  | StatusCancelled | StatusErrored => Some (failed (ErrMsg (Statuses (cs_Status state))))
  | _ => None
  end.

(** The result channel holds one result; later ones are dropped. *)
Fixpoint first_result (events : list ClientState) : option TxResult :=
  match events with
  | [] => None
  | st :: events' =>
    match result_of st with
    | Some r => Some r
    | None => first_result events'
    end
  end.

(** The parameters proposed to the provider: the terms of its offer. *)
Definition exec_params (t : Tx Node) (off : Offer) (p : DealExecParams Node) : outcome error Params :=
  let selector := match xp_Selector p with None => tx_sel t | Some sel => Some sel end in
  NewParams (sv_encode sv) (o_MinPricePerByte off) (o_MaxPaymentInterval off)
    (o_MaxPaymentIntervalIncrease off) selector None (o_UnsealPrice off).

(** [Execute] up to the deal reference it sends on [Ongoing]: the result when it
    fails before. *)
Definition exec_start (off : Offer) (p : DealExecParams Node) : T (TxResult + Z) :=
  do* on_tx (set_tx_unsub true) then
  match sv_AddrInfo sv (o_PeerAddr off) with
  | inl err => go_ret (inl (failed err))
  | inr info =>
    let* s := go_get in
    let t := t_tx s in
    match exec_params t off p with
    | Err err => go_ret (inl (failed err))
    | Panic => go_panic
    | Hang => go_hang
    | Ok params =>
      let* id := go_try (on_service (sv_Retrieve sv (tx_root t) params (xp_TotalFunds p) info
                           (tx_clientAddr t) (o_PaymentAddress off) (tx_storeID t))) in
      match id with
      | inl err => go_ret (inl (failed err))
      | inr id => go_ret (inr id)
      end
    end
  end.

(** The wait for the end of the transfer. *)
Definition exec_wait (events : list ClientState) (ctx : option error) : T TxResult :=
  match ctx with
  | Some err => go_ret (failed err)
  | None =>
    match first_result events with
    | None => go_hang
    | Some res =>
      do* match tr_Err res with
          | None => on_tx (set_tx_committed true)
          | Some _ => go_ret tt
          end then
      go_ret res
    end
  end.

(** [events] are the states the client publishes while the call waits, [reader]
    whether someone receives from [Ongoing], [ctx] the error of the context when it
    ends the wait. *)
Definition Execute (events : list ClientState) (reader : bool) (ctx : option error) (off : Offer)
    (p : DealExecParams Node) : T TxResult :=
  let* r := exec_start off p in
  match r with
  | inl res => go_ret res
  | inr _ => if negb reader then go_hang else exec_wait events ctx
  end.

(** [decision] is what the user answers, [None] when the context ends first. *)
Definition Confirm (decision : option (DealExecParams Node)) (off : Offer) : T (DealExecParams Node) :=
  let* s := go_get in
  if tx_triage (t_tx s) then
    go_ret (match decision with Some d => d | None => Selection_Next end)
  else go_ret (MkDealExecParams true (tx_sel (t_tx s)) (RetrievalPrice off)).

(** [exec] of the session worker. *)
Definition worker_exec (events : list ClientState) (reader : bool) (ctx : option error)
    (decision : option (DealExecParams Node)) (off : Offer) : T TxResult :=
  let* params := Confirm decision off in
  if xp_Accepted params then Execute events reader ctx off params
  else go_ret (failed ErrUserDeniedOffer).

(** ** Closing *)

Definition dumpStore : T unit :=
  let* s := go_get in
  do* (if tx_committed (t_tx s) then
         if negb (sv_GCBlockstore sv) then go_err (ErrMsg "blockstore is not a GCBlockstore")
         else on_bs (MigrateBlocks (t_store s))
       else go_ret tt) then
  on_service (sv_Delete sv (tx_storeID (t_tx s))).

Definition tx_error : T unit :=
  let* s := go_get in
  match tx_Err (t_tx s) with
  | Some e => go_err e
  | None => go_ret tt
  end.

Definition TxClose : T unit :=
  let* s := go_get in
  if tx_closed (t_tx s) then tx_error
  else
    do* on_tx (set_tx_closed true) then
    do* dumpStore then
    tx_error.

(** ** The exchange *)

(** [Exchange.Tx]: the store may fail to open, which is reported later. *)
Definition NewTx (storeID : Z) (clientAddr : address) (all : Node) (err : option error)
    (opts : list (Tx Node → Tx Node)) : Tx Node :=
  fold_left (λ t f, f t) opts
    (MkTx storeID ∅ clientAddr Undef 0 6 (Some all) false false false false err false).

(** The offers of a [SelectFirst] session, in the order they arrive before the
    queue runs dry: the next one is executed when the last one failed.  The answer
    is what [Done] receives, which is nothing when no offer came. *)
Fixpoint attempt (events : list ClientState) (reader : bool) (ctx : option error) (offers : list Offer)
    : T TxResult :=
  match offers with
  | [] => go_hang
  | off :: offers' =>
    let* r := worker_exec events reader ctx None off in
    match tr_Err r, offers' with
    | None, _ | _, [] => go_ret r
    | Some _, _ :: _ => attempt events reader ctx offers'
    end
  end.

(** Nobody receives from [Ongoing].  [ctx] is the error of the context when it ends
    the wait, which never ends otherwise if no result comes. *)
Definition retrieve_all (events : list ClientState) (ctx : option error) (offers : list Offer)
    (root : cid) (all : Node) : T unit :=
  do* TxQuery all then
  λ s, match attempt events false ctx offers s with
       | (s', Ok res) =>
         match tr_Err res with
         | Some e => (s', Err e)
         | None =>
           match MapLoadableKeys root (t_store s') with
           | inl e => (s', Err e)
           | inr keys =>
             on_index (let* p := alloc_ref (MkDataRef root (i64 (tr_Size res)) keys 0 0 None) in
                       SetRef ienv range p) s'
           end
         end
       | (s', Hang) => match ctx with Some e => (s', Err e) | None => (s', Hang) end
       | (s', Err e) => (s', Err e)
       | (s', Panic) => (s', Panic)
       end.

(** The transaction is closed when the call returns, whatever closing answers. *)
Definition FindAndRetrieve (events : list ClientState) (ctx : option error) (offers : list Offer)
    (root : cid) (all : Node) : T unit :=
  let* res := go_try (retrieve_all events ctx offers root all) in
  do* go_try TxClose then
  go_sum res.

End tx.

(** ** Answering queries

    The part of the exchange a query reaches: the index, the store of the node and
    the asks its provider will check proposals against. *)
Record Seller (B X : Type) : Type := MkSeller {
  sl_idx : Index X;
  sl_bs : B;
  sl_asks : AskStore
}.
Arguments MkSeller {B X}.
Arguments sl_idx {B X}.
Arguments sl_bs {B X}.
Arguments sl_asks {B X}.

Section seller.
Context {CB : CborLib} {Node B X : Type} `{Blockstore B} (ienv : IndexEnv X).
Context (visited : B → cid → Node → list (cid * bytes) * option error).
Context (DecodeNode : bytes → error + Node) (all : Node) (host : peer_id) (DefaultAddress : address).
Local Abbreviation Q := (go (Seller B X) error).

Definition unavailable : string := host +:+ " content unavailable".

Definition handleQuery (p : peer_id) (r : Region) (q : Deal.Query) : Q Offer :=
  do* go_try (λ s, let '(i, res) := GetRef ienv (q_PayloadCID q) (sl_idx s) in
                   (MkSeller i (sl_bs s) (sl_asks s), res)) then
  match qp_Selector (q_QueryParams q) with
  | None => go_err (ErrMsg "no selector provided")
  | Some raw =>
    let sel := match DecodeNode raw with inl _ => all | inr nd => nd end in
    let* s := go_get in
    match Stat visited (sl_bs s) (q_PayloadCID q) sel with
    | (stats, Ok _) =>
      if st_Size stats =? 0 then go_err (ErrMsg unavailable)
      else
        let ask := MkOffer EmptyString EmptyString (q_PayloadCID q) (u64 (st_Size stats)) DefaultAddress
                     (default 0 (rg_PPB r)) DefaultPaymentInterval DefaultPaymentIntervalIncrease 0 in
        let priced := match rg_PPB r with Some _ => true | None => false end in
        do* go_modify (λ s, MkSeller (sl_idx s) (sl_bs s)
                              (SetAsk (q_PayloadCID q) (MkAsk ask priced) (sl_asks s))) then
        go_ret ask
    | (_, Err err) => go_err (ErrWrap unavailable err)
    | (_, Panic) => go_panic
    | (_, Hang) => go_hang
    end
  end.

Lemma GetAsk_SetAsk k a (asks : AskStore) : GetAsk k (SetAsk k a asks) = a.
Proof. unfold GetAsk, SetAsk, AskStore in *. by rewrite lookup_insert_eq. Qed.

(** The offer answered is the ask recorded. *)
Lemma handleQuery_ask p r q s s' o :
  handleQuery p r q s = (s', Ok o) →
  GetAsk (q_PayloadCID q) (sl_asks s') = MkAsk o (match rg_PPB r with Some _ => true | None => false end) ∧
  o_PayloadCID o = q_PayloadCID q.
Proof.
  unfold handleQuery. intros (s1 & x & _ & Hk)%go_bind_ok.
  destruct (qp_Selector _) as [raw|]; [|done]. apply go_bind_ok in Hk as (s2 & s2' & Hg & Hk).
  injection Hg as -> ->. destruct (Stat _ _ _ _) as [stats [[]| | |]]; try done.
  destruct (_ =? 0); [done|]. apply go_bind_ok in Hk as (s3 & [] & [= <-] & [-> ->]%go_ret_ok).
  simpl. split; [|done]. apply GetAsk_SetAsk.
Qed.

Lemma handleQuery_price p r q s s' o :
  handleQuery p r q s = (s', Ok o) → o_MinPricePerByte o = default 0 (rg_PPB r).
Proof.
  unfold handleQuery. intros (s1 & x & _ & Hk)%go_bind_ok.
  destruct (qp_Selector _) as [raw|]; [|done]. apply go_bind_ok in Hk as (s2 & s2' & Hg & Hk).
  destruct (Stat _ _ _ _) as [stats [[]| | |]]; try done.
  destruct (_ =? 0); [done|]. by apply go_bind_ok in Hk as (s3 & [] & _ & [-> ->]%go_ret_ok).
Qed.

End seller.

(** ** Offers kept by the node (node/offermgr.go) *)

Definition OfferMgr : Type := gmap cid Offer.
Definition NewOfferMgr : OfferMgr := ∅.
Definition SetOffer (k : cid) (o : Offer) : go OfferMgr error unit := λ s, (<[k := o]> s, Ok tt).
Definition GetOffer (k : cid) : go OfferMgr error Offer := λ s,
  (s, match s !! k with None => Err (ErrMsg "no existing offer") | Some o => Ok o end).
Definition RemoveOffer (k : cid) : go OfferMgr error unit := λ s,
  match s !! k with
  | None => (s, Err (ErrMsg "no existing offer"))
  | Some _ => (delete k s, Ok tt)
  end.

(** An offer set is found until it is removed. *)
Lemma GetOffer_after k o (m : OfferMgr) :
  let m1 := (SetOffer k o m).1 in
  GetOffer k m1 = (m1, Ok o) ∧ (RemoveOffer k m1).2 = Ok tt ∧
  (GetOffer k (RemoveOffer k m1).1).2 = Err (ErrMsg "no existing offer").
Proof.
  unfold SetOffer, GetOffer, RemoveOffer, OfferMgr in *. cbn [fst].
  rewrite !lookup_insert_eq. cbn [fst snd]. by rewrite lookup_delete_eq.
Qed.

(** ** Staging *)

Section staging.
Context {CB : CborLib} {Node B X W File : Type} `{Blockstore B} `{IpldLaws B}.
Implicit Types (s : TxState Node B X W).

(** The sizes of the entries, added up as the code does. *)
Definition total_size (order : list (string * Entry)) : Z :=
  fold_left (λ n kv, i64 (n + e_Size kv.2)) order 0.

Lemma buildRoot_ok order s s' :
  buildRoot order s = (s', Ok tt) →
  lb_Build (assembleEntries order) (t_store s) = inr (tx_root (t_tx s'), t_store s') ∧
  tx_entries (t_tx s') = tx_entries (t_tx s) ∧ tx_size (t_tx s') = total_size order ∧
  t_bs s' = t_bs s.
Proof.
  unfold buildRoot. intros (s1 & c & Hb & Ht)%go_bind_ok. injection Ht as <-. simpl.
  unfold on_store in Hb. destruct (lb_Build _ _) as [e|[c' b']] eqn:E; simpl in Hb; simplify_eq.
  simpl. done.
Qed.

Lemma total_size_sum order :
  total_size order = i64 (foldr (λ kv n, e_Size kv.2 + n) 0 order).
Proof.
  unfold total_size. cut (∀ n, fold_left (λ n kv, i64 (n + e_Size kv.2)) order (i64 n) =
                               i64 (n + foldr (λ kv n, e_Size kv.2 + n) 0 order)).
  { intros H'. specialize (H' 0). by rewrite Z.add_0_l in H'. }
  induction order as [|[k e] l IH]; intros n; simpl; [by rewrite Z.add_0_r|].
  rewrite i64_add_l, IH. f_equal. lia.
Qed.

Lemma Put_ok order key value size s s' :
  Put order key value size s = (s', Ok tt) →
  let m := <[key := MkEntry key value size]> (tx_entries (t_tx s)) in
  tx_entries (t_tx s') = m ∧ tx_size (t_tx s') = total_size (order m) ∧ t_bs s' = t_bs s ∧
  lb_Build (assembleEntries (order m)) (t_store s) = inr (tx_root (t_tx s'), t_store s').
Proof.
  unfold Put. intros (s1 & [] & [= <-] & Hk)%go_bind_ok. apply go_bind_ok in Hk as (s2 & s2' & Hg & Hk).
  injection Hg as <- <-. by apply buildRoot_ok in Hk as (? & ? & ? & ?).
Qed.

Lemma entries_ok_insert m key value size :
  entries_ok m → is_i64 size → entries_ok (<[key := MkEntry key value size]> m).
Proof. intros Hm Hs. apply map_Forall_insert_2; [by split|done]. Qed.

End staging.

(** ** Closing *)

Section closing.
Context {Node B X W File : Type} `{Blockstore B} (contents : B → gmap cid bytes) `{!BlockstoreLaws contents}.
Context (sv : TxServices Node B W File).
Implicit Types (s : TxState Node B X W).

Lemma tx_error_ok s s' : tx_error s = (s', Ok tt) → s' = s ∧ tx_Err (t_tx s) = None.
Proof.
  unfold tx_error. intros (s1 & s1' & Hg & Hk)%go_bind_ok. injection Hg as -> ->.
  destruct (tx_Err _) eqn:E; [done|]. by apply go_ret_ok in Hk as [-> _].
Qed.

Lemma dumpStore_ok s s' :
  dumpStore sv s = (s', Ok tt) →
  contents (t_bs s') = (if tx_committed (t_tx s) then contents (t_store s) else ∅) ∪ contents (t_bs s) ∧
  sv_Delete sv (tx_storeID (t_tx s)) (t_world s) = (t_world s', Ok tt) ∧ t_tx s' = t_tx s ∧
  t_idx s' = t_idx s.
Proof.
  unfold dumpStore. intros (s1 & s1' & Hg & Hk)%go_bind_ok. injection Hg as -> ->.
  apply go_bind_ok in Hk as (s2 & [] & Hm & Hd). unfold on_service in Hd.
  destruct (sv_Delete sv _ _) as [w r] eqn:Ed. injection Hd as <- ->. simpl.
  destruct (tx_committed (t_tx s1')).
  - destruct (negb _); [done|]. unfold on_bs in Hm. destruct (MigrateBlocks _ _) as [b r] eqn:Eb.
    injection Hm as <- ->. apply (MigrateBlocks_spec contents) in Eb. done.
  - injection Hm as <-. by rewrite (left_id_L ∅ (∪)).
Qed.

End closing.

(** ** Executing offers *)

Section executing.
Context {CB : CborLib} {Node B X W File : Type} `{Blockstore B} `{Ipld B}.
Context (ienv : IndexEnv X) (sv : TxServices Node B W File) (range : gset ptr → list ptr).
Implicit Types (s : TxState Node B X W).

(** A computation that leaves the index alone and never succeeds with a result
    that is no failure. *)
Definition fruitless (m : go (TxState Node B X W) error TxResult) : Prop :=
  ∀ s s' r, m s = (s', r) → t_idx s' = t_idx s ∧ ∀ res, r = Ok res → tr_Err res ≠ None.

Lemma fruitless_failed e : fruitless (go_ret (failed e)).
Proof. intros s s' r [= <- <-]. split; [done|]. by intros res [= <-]. Qed.

(** When nobody receives the reference of the deal, executing an offer never
    yields a result of the deal. *)
Lemma Execute_fruitless events ctx off p : fruitless (Execute sv events false ctx off p).
Proof.
  intros s s' r. unfold Execute, exec_start, go_bind, on_tx, go_modify, go_get.
  destruct (sv_AddrInfo _ _) as [e|info].
  { intros [= <- <-]. split; [done|]. by intros res [= <-]. }
  cbn [t_tx]. destruct (exec_params _ _ _ _) as [params|e| |];
    [|intros [= <- <-]; split; [done|]; by intros res [= <-]..].
  unfold go_try, on_service. cbn [t_world].
  destruct (sv_Retrieve _ _ _ _ _ _ _ _ _) as [w [id|e| |]]; cbn; intros [= <- <-];
    (split; [done|]); by intros res [= <-].
Qed.

Lemma Confirm_keeps decision off s : ∃ p, Confirm decision off s = (s, Ok p).
Proof. unfold Confirm, go_bind, go_get. destruct (tx_triage _); by eexists. Qed.

Lemma worker_exec_fruitless events ctx decision off :
  fruitless (worker_exec sv events false ctx decision off).
Proof.
  intros s s' r. unfold worker_exec, go_bind.
  destruct (Confirm_keeps decision off s) as [p ->]. destruct (xp_Accepted p).
  - apply Execute_fruitless.
  - apply fruitless_failed.
Qed.

Lemma attempt_fruitless events ctx offers : fruitless (attempt sv events false ctx offers).
Proof.
  induction offers as [|off offers IH]; intros s s' r; cbn [attempt]; [by intros [= <- <-]|].
  unfold go_bind. destruct (worker_exec _ _ _ _ _ _ s) as [s1 r1] eqn:E.
  apply worker_exec_fruitless in E as [Hi Hr].
  destruct r1 as [res|e| |]; [|by intros [= <- <-]..].
  specialize (Hr res eq_refl). destruct (tr_Err res) as [e|] eqn:Ee; [|done].
  destruct offers as [|off' offers]; [intros [= <- <-]; split; [done|]; by intros ? [= <-]; rewrite Ee|].
  intros Hrun. apply IH in Hrun as [Hi' Hr']. by rewrite Hi', Hi.
Qed.

Lemma TxQuery_idx sel s s' r : TxQuery sv sel s = (s', r) → t_idx s' = t_idx s.
Proof.
  unfold TxQuery, go_bind, on_tx, go_modify, go_get. cbn [t_tx].
  destruct (tx_worker _); [|by intros [= <- <-]]. unfold on_service.
  destruct (sv_Query sv _ _ _) as [w r']. by intros [= <- <-].
Qed.

Lemma TxClose_idx s s' r : TxClose sv s = (s', r) → t_idx s' = t_idx s.
Proof.
  cut (keeps (λ s s', t_idx s' = t_idx s) (TxClose sv)).
  { intros Hk Hr. exact (keeps_run _ _ _ _ _ Hk Hr). }
  assert (PreOrder (λ s s', t_idx s' = t_idx s)) by (split; [done|intros ???; congruence]).
  assert (∀ {A} (m : go W error A), keeps (λ s s', t_idx s' = t_idx s) (on_service m)) as Hs.
  { intros A m t. unfold on_service. by destruct (m _). }
  assert (∀ {A} (m : go B error A), keeps (λ s s', t_idx s' = t_idx s) (on_bs m)) as Hb.
  { intros A m t. unfold on_bs. by destruct (m _). }
  assert (∀ f, keeps (λ s s', t_idx s' = t_idx s) (on_tx (B:=B) (X:=X) (W:=W) f)) as Hf by done.
  assert (keeps (λ s s', t_idx s' = t_idx s) (go_get (E:=error))) as Hg by done.
  unfold TxClose, dumpStore, tx_error. keeps_tac; auto.
Qed.

Lemma retrieve_all_fails events ctx offers root all s s' r :
  retrieve_all ienv sv range events ctx offers root all s = (s', r) → t_idx s' = t_idx s ∧ r ≠ Ok tt.
Proof.
  unfold retrieve_all, go_bind. destruct (TxQuery sv all s) as [s1 [[]|e| |]] eqn:Eq;
    apply TxQuery_idx in Eq; [|by intros [= <- <-]..].
  destruct (attempt _ _ _ _ _ s1) as [s2 r2] eqn:Ea. apply attempt_fruitless in Ea as [Hi Hr].
  destruct r2 as [res|e| |].
  - specialize (Hr res eq_refl). destruct (tr_Err res); [|done]. intros [= <- <-]. by rewrite Hi, Eq.
  - intros [= <- <-]. by rewrite Hi, Eq.
  - intros [= <- <-]. by rewrite Hi, Eq.
  - destruct ctx; intros [= <- <-]; by rewrite Hi, Eq.
Qed.

End executing.

(** ** Properties *)

(** C28: after an entry was put, the root of the transaction loads as a map of
    exactly the entries staged so far, each key leads to the content put under it,
    and the size is the sum of their sizes. *)
Theorem Put_staged {Node B X W} `{IpldLaws B}
    (order : gmap string Entry → list (string * Entry)) (key : string) (value : cid) (size : Z)
    (s s' : TxState Node B X W) :
  (∀ m, order m ≡ₚ map_to_list m) → entries_ok (tx_entries (t_tx s)) → is_i64 size →
  Put order key value size s = (s', Ok tt) →
  let m := <[key := MkEntry key value size]> (tx_entries (t_tx s)) in
  let root := tx_root (t_tx s') in
  (∃ es, load_entries root (t_store s') = inr es ∧ es ≡ₚ (map_to_list m).*2) ∧
  (∀ k e, m !! k = Some e → load_link root k (t_store s') = inr (Value e)) ∧
  tx_entries (t_tx s') = m ∧ entries_ok m ∧
  tx_size (t_tx s') = i64 (foldr (λ kv n, e_Size kv.2 + n) 0 (order m)).
Proof.
  intros Ho Hm Hs Hp m root. apply Put_ok in Hp as (He & Hz & _ & Hb).
  pose proof (entries_ok_insert _ key value size Hm Hs) as Hm'. fold m in Hm', He, Hz, Hb.
  destruct (build_reads m (order m) _ _ _ Hm' (Ho m) Hb) as [Hes Hl].
  rewrite <- total_size_sum. done.
Qed.

Definition empty_tx : Tx string := NewTx 1 "wallet" "all" None [].
Definition empty_store : memstore := MkMemstore ∅ ∅.

(** A state with no index and no services. *)
Definition bare (t : Tx string) (bs store : memstore) : TxState string memstore unit nat :=
  MkTxState t bs store (empty_index tt 0 0) 0%nat.

Definition put_a (s : TxState string memstore unit nat) :=
  Put map_to_list "a.txt" "cidA" 5 s.

Lemma Put_staged_witness :
  let s := bare empty_tx empty_store empty_store in
  let s' := (put_a s).1 in
  let m := <["a.txt" := MkEntry "a.txt" "cidA" 5]> (∅ : gmap string Entry) in
  (∃ es, load_entries (tx_root (t_tx s')) (t_store s') = inr es ∧ es ≡ₚ (map_to_list m).*2) ∧
  (∀ k e, m !! k = Some e → load_link (tx_root (t_tx s')) k (t_store s') = inr (Value e)) ∧
  tx_entries (t_tx s') = m ∧ entries_ok m ∧
  tx_size (t_tx s') = i64 (foldr (λ kv n, e_Size kv.2 + n) 0 (map_to_list m)).
Proof.
  apply (Put_staged map_to_list "a.txt" "cidA" 5 (bare empty_tx empty_store empty_store)).
  - done.
  - apply map_Forall_empty.
  - by vm_compute.
  - run_eq.
Defined.

(** Closing a committed transaction moves every block of its store to the
    store of the node, keeping what was there; closing one that was not committed
    moves nothing.  Either way the store is deleted, and closing again does
    nothing. *)
Theorem TxClose_moves_blocks {Node B X W File} `{Blockstore B} (contents : B → gmap cid bytes)
    `{!BlockstoreLaws contents} (sv : TxServices Node B W File) (s s' : TxState Node B X W) :
  tx_closed (t_tx s) = false → TxClose sv s = (s', Ok tt) →
  contents (t_bs s')
  = (if tx_committed (t_tx s) then contents (t_store s) else ∅) ∪ contents (t_bs s) ∧
  sv_Delete sv (tx_storeID (t_tx s)) (t_world s) = (t_world s', Ok tt) ∧
  TxClose sv s' = (s', Ok tt).
Proof.
  intros Hopen. unfold TxClose at 1. intros (s1 & s1' & Hg & Hk)%go_bind_ok. injection Hg as <- <-.
  rewrite Hopen in Hk. apply go_bind_ok in Hk as (s2 & [] & [= <-] & Hk).
  apply go_bind_ok in Hk as (s3 & [] & Hd & He).
  apply (dumpStore_ok contents) in Hd as (Hc & Hw & Ht & _). cbn [t_tx t_bs t_store t_world] in *.
  apply tx_error_ok in He as [-> He]. split; [done|]. split; [done|].
  unfold TxClose, go_bind, go_get. rewrite Ht. cbn [tx_closed set_tx_closed].
  unfold tx_error, go_bind, go_get. by rewrite He.
Qed.

Definition counting : TxServices string memstore nat string :=
  MkTxServices (λ _ _ _ _ _ _ _ n, (S n, Ok 7)) (λ _ _ _, go_ret tt) (λ _ n, (S n, Ok tt))
    (λ _ _, go_ret tt) (λ _ _ _, go_err (ErrExternal "unreachable")) (λ nd, inr nd)
    (λ a, if String.eqb a "addr" then inr "bob" else inl (ErrExternal "bad address"))
    (λ c b, bs_Get c b) "entries" true.

Definition downloaded : memstore := MkMemstore {["cidA" := "hello"]} ∅.
Definition kept : memstore := MkMemstore {["cidB" := "world"]} ∅.
Definition committed_tx : Tx string := set_tx_committed true empty_tx.

Lemma TxClose_moves_blocks_witness :
  ms_blocks (t_bs (TxClose counting (bare committed_tx kept downloaded)).1)
  = ms_blocks downloaded ∪ ms_blocks kept ∧
  sv_Delete counting 1 0%nat = (1%nat, Ok tt) ∧
  TxClose counting (TxClose counting (bare committed_tx kept downloaded)).1
  = ((TxClose counting (bare committed_tx kept downloaded)).1, Ok tt).
Proof.
  apply (TxClose_moves_blocks ms_blocks counting (bare committed_tx kept downloaded)); [done|].
  run_eq.
Defined.

(** The exchange never retrieves content for the replication: whatever offers
    and events come, the call does not succeed and nothing is added to the index,
    because the deal reference is sent on a channel nobody receives from. *)
Theorem FindAndRetrieve_fails {CB : CborLib} {Node B X W File} `{Blockstore B} `{Ipld B}
    (ienv : IndexEnv X) (sv : TxServices Node B W File) (range : gset ptr → list ptr)
    (events : list ClientState) (ctx : option error) (offers : list Offer) (root : cid) (all : Node)
    (s : TxState Node B X W) :
  (FindAndRetrieve ienv sv range events ctx offers root all s).2 ≠ Ok tt ∧
  t_idx (FindAndRetrieve ienv sv range events ctx offers root all s).1 = t_idx s.
Proof.
  unfold FindAndRetrieve, go_bind, go_try.
  destruct (retrieve_all _ _ _ _ _ _ _ _ s) as [s1 r1] eqn:E.
  apply retrieve_all_fails in E as [Hi Hr].
  assert (∀ res : error + unit, res ≠ inr tt →
    let m := go_bind (go_try (TxClose sv)) (λ _, go_sum res) s1 in m.2 ≠ Ok tt ∧ t_idx m.1 = t_idx s) as Hclose.
  { intros res Hres. unfold go_bind, go_try. destruct (TxClose sv s1) as [s2 r2] eqn:Ec.
    apply TxClose_idx in Ec. unfold go_sum. destruct r2, res as [|[]]; simpl; split; congruence. }
  destruct r1 as [[]|e| |]; try done. by apply (Hclose (inl e)).
Qed.

Section accepting.
Context {Node B W File : Type} (sv : TxServices Node B W File).

(** The parameters of an execution are the terms of the offer. *)
Lemma exec_params_terms t off p params :
  exec_params sv t off p = Ok params →
  PricePerByte params = o_MinPricePerByte off ∧ PaymentInterval params = o_MaxPaymentInterval off ∧
  PaymentIntervalIncrease params = o_MaxPaymentIntervalIncrease off ∧
  UnsealPrice params = o_UnsealPrice off.
Proof.
  unfold exec_params, NewParams. destruct (match xp_Selector p with None => _ | _ => _ end); [|done].
  by destruct (sv_encode sv _); intros [= <-].
Qed.
End accepting.

(** An offer answered to a query, once executed, leads to a proposal the
    provider accepts, at the price per byte of the region; without such a price the
    check panics. *)
Theorem queried_offer_accepted {CB : CborLib} {Node B X W File} `{Blockstore B} (ienv : IndexEnv X)
    visited (DecodeNode : bytes → error + Node) all host addr (sv : TxServices Node B W File)
    client region q (s s' : Seller B X) ask off t p params d id :
  handleQuery ienv visited DecodeNode all host addr client region q s = (s', Ok ask) →
  same_terms off ask → exec_params sv t off p = Ok params →
  ps_Proposal d = MkProposal (q_PayloadCID q) id params →
  CheckDealParams (sl_asks s') d = (if rg_PPB region then Ok tt else Panic) ∧
  PricePerByte params = o_MinPricePerByte ask.
Proof.
  intros Hq (_ & _ & _ & Hp & Hi & Hinc & _) Hx Hd. apply handleQuery_ask in Hq as [Hask _].
  apply exec_params_terms in Hx as (Ep & Ei & Einc & _). split; [|by rewrite Ep].
  destruct (rg_PPB region) as [ppb|].
  - apply CheckDealParams_ok. rewrite Hd. cbn [PayloadCID]. rewrite Hask. cbn zeta. split; [done|].
    unfold within_ask, ps_Params. rewrite Hd. cbn [p_Params ask_Offer]. rewrite Ep, Ei, Einc, Hp, Hi, Hinc. lia.
  - unfold CheckDealParams. rewrite Hd. cbn [PayloadCID]. by rewrite Hask.
Qed.

Definition every_block (b : memstore) (root : cid) (sel : string) : list (cid * bytes) * option error :=
  (map_to_list (ms_blocks b), None).
Definition as_selector (raw : bytes) : error + string := inr raw.

Definition sell (client : peer_id) (region : Region) (q : Deal.Query) :=
  handleQuery table_store every_block as_selector "all" "bob" "wallet" client region q.

Definition seller_0 : Seller memstore (gmap string bytes) :=
  MkSeller (empty_index ∅ 0 0) downloaded ∅.
Definition query_a : Deal.Query := MkQuery "cidA" (MkQueryParams None (Some "all")).
Definition ask_at (ppb : Z) : Offer := MkOffer EmptyString EmptyString "cidA" 5 "wallet" ppb
  DefaultPaymentInterval DefaultPaymentIntervalIncrease 0.
Definition terms_at (ppb : Z) : Params :=
  MkParams (Some "all") None ppb DefaultPaymentInterval DefaultPaymentIntervalIncrease 0.
Definition proposed (ppb : Z) : ProviderState :=
  MkProviderState (MkProposal "cidA" 7 (terms_at ppb)) 0 (MkChannelID "alice" "bob" 7) StatusNew "alice"
    0 0 EmptyString 0 None.
Definition all_of (o : Offer) : DealExecParams string := Selection_Exec o [DealSel "all"].

Lemma queried_offer_accepted_witness :
  CheckDealParams (sl_asks (sell "alice" asia query_a seller_0).1) (proposed 1) = Ok tt ∧
  PricePerByte (terms_at 1) = 1.
Proof.
  apply (queried_offer_accepted table_store every_block as_selector "all" "bob" "wallet" counting "alice"
           asia query_a seller_0 _ (ask_at 1) (set_o_PeerAddr "addr" (ask_at 1)) empty_tx
           (all_of (ask_at 1)) (terms_at 1) (proposed 1) 7).
  - run_eq.
  - done.
  - vm_eq.
  - done.
Defined.

(** The ask is kept per content and not per region: once a later query for the
    same content came from a dearer region, the proposal made from the first offer
    is rejected. *)
Theorem later_query_rejects {CB : CborLib} {Node B X W File} `{Blockstore B} (ienv : IndexEnv X)
    visited (DecodeNode : bytes → error + Node) all host addr (sv : TxServices Node B W File)
    client client' region region' q q' (s s1 s2 : Seller B X) ask ask' t p params d id ppb' :
  handleQuery ienv visited DecodeNode all host addr client region q s = (s1, Ok ask) →
  handleQuery ienv visited DecodeNode all host addr client' region' q' s1 = (s2, Ok ask') →
  q_PayloadCID q' = q_PayloadCID q → rg_PPB region' = Some ppb' → default 0 (rg_PPB region) < ppb' →
  exec_params sv t ask p = Ok params → ps_Proposal d = MkProposal (q_PayloadCID q) id params →
  CheckDealParams (sl_asks s2) d = Err (ErrMsg "price per byte too low").
Proof.
  intros Hq Hq' Hroot Hppb' Hppb Hx Hd. pose proof (handleQuery_price _ _ _ _ _ _ _ _ _ _ _ _ Hq) as Hp.
  pose proof (handleQuery_price _ _ _ _ _ _ _ _ _ _ _ _ Hq') as Hp'.
  apply handleQuery_ask in Hq' as [Hask _]. apply exec_params_terms in Hx as (Ep & _).
  unfold CheckDealParams. rewrite Hd. cbn [PayloadCID]. rewrite <- Hroot, Hask, Hppb'. simpl negb. cbn iota.
  unfold ps_Params. rewrite Hd. cbn [p_Params ask_Offer]. rewrite Ep, Hp, Hp', Hppb'. simpl.
  destruct (Z.ltb_spec (default 0 (rg_PPB region)) ppb'); [done|lia].
Qed.

Definition worldwide : Region := ParseRegion "Global".
Definition seller_1 := (sell "alice" worldwide query_a seller_0).1.

Lemma later_query_rejects_witness :
  CheckDealParams (sl_asks (sell "alice" asia query_a seller_1).1) (proposed 0)
  = Err (ErrMsg "price per byte too low").
Proof.
  apply (later_query_rejects table_store every_block as_selector "all" "bob" "wallet" counting "alice"
           "alice" worldwide asia query_a query_a seller_0 seller_1 _ (ask_at 0) (ask_at 1) empty_tx
           (all_of (ask_at 0)) (terms_at 0) (proposed 0) 7 1).
  - run_eq.
  - run_eq.
  - done.
  - done.
  - done.
  - vm_eq.
  - done.
Defined.

(** The execution of an offer takes the first final event of any deal of the
    client for its own: the completion of another deal commits the transaction. *)
Theorem Execute_other_deal {Node B X W File} `{Blockstore B} `{Ipld B} (sv : TxServices Node B W File)
    (s : TxState Node B X W) st events off p info params id w :
  sv_AddrInfo sv (o_PeerAddr off) = inr info →
  exec_params sv (set_tx_unsub true (t_tx s)) off p = Ok params →
  sv_Retrieve sv (tx_root (t_tx s)) params (xp_TotalFunds p) info (tx_clientAddr (t_tx s))
    (o_PaymentAddress off) (tx_storeID (t_tx s)) (t_world s) = (w, Ok id) →
  ID (cs_Proposal st) ≠ id → cs_Status st = StatusCompleted →
  ∃ s' res, Execute sv (st :: events) true None off p s = (s', Ok res) ∧ tr_Err res = None ∧
            tx_committed (t_tx s') = true.
Proof.
  intros Ha Hx Hr _ Hst. unfold Execute, exec_start, exec_wait, go_bind, on_tx, go_modify, go_get. rewrite Ha. cbn [t_tx].
  rewrite Hx. unfold go_try, on_service. cbn [t_world tx_root tx_clientAddr tx_storeID set_tx_unsub].
  rewrite Hr. cbn [first_result negb]. unfold result_of. rewrite Hst.
  eexists _, _. split; [reflexivity|]. done.
Qed.

Definition other_deal : ClientState :=
  Retrieve_state 3 "other" (terms_at 1) 100 "bob" "wallet" "pay" None.
Definition other_done : ClientState := set_cs_Status StatusCompleted other_deal.

Lemma Execute_other_deal_witness :
  ∃ s' res, Execute counting [other_done] true None (set_o_PeerAddr "addr" (ask_at 1))
              (all_of (ask_at 1)) (bare empty_tx empty_store empty_store) = (s', Ok res) ∧
            tr_Err res = None ∧ tx_committed (t_tx s') = true.
Proof.
  apply (Execute_other_deal counting (bare empty_tx empty_store empty_store) other_done []
           (set_o_PeerAddr "addr" (ask_at 1)) (all_of (ask_at 1)) "bob" (terms_at 1) 7 1%nat);
    first [vm_eq | by vm_compute].
Defined.
