(* ===== verification/Pull.v ===== *)
(** * Opening a retrieval (retrieval/environments.go)

    The environment of the client's state machine, which proposes a deal by opening a
    pull on the data transfer, and the whole negotiation: from the offer a provider
    answers to the deal it accepts. *)
From S2P Require Import Prelude Deal Fsm PayTypes DataTransfer ClientFsm ProviderFsm Revalidator.
From S2P Require Import Cbor DealCodec DataRef Index IndexSpec Session PeerMgr Replication Routing Dag Tx.

(** The dag-cbor codec of selectors, a library: what it writes it reads back, and it
    writes one item. *)
Class DagCbor {CB : CborLib} {Node : Type} (encode : Node → error + bytes)
    (decode : bytes → error + Node) : Prop := {
  dagcbor_rt : ∀ n raw, encode n = inr raw → decode raw = inr n;
  dagcbor_item : ∀ n raw, encode n = inr raw → CborItem raw
}.

(** ** [clientDealEnvironment] *)

Section environment.
Context {Node : Type} (decode : bytes → error + Node) (All : Node).
(** The data transfer manager. *)
Context (OpenPullDataChannel : peer_id → Voucher → cid → Node → error + ChannelID).
Context (SendVoucher : ChannelID → Voucher → option error).
Context (CloseDataTransferChannel : ChannelID → option error).

Definition DecodeNode (defnode : bytes) : error + Node := decode defnode.

Definition OpenDataTransfer (to : peer_id) (proposal : Proposal) : error + ChannelID :=
  let pull sel := OpenPullDataChannel to (VProposal proposal) (PayloadCID proposal) sel in
  match Selector (p_Params proposal) with
  | Some raw =>
    if SelectorSpecified (p_Params proposal) then
      match DecodeNode raw with
      | inl err => inl (ErrWrap "selector is invalid" err)
      | inr sel => pull sel
      end
    else pull All
  | None => pull All
  end.

Definition SendDataTransferVoucher (channelID : ChannelID) (payment : Payment) : option error :=
  SendVoucher channelID (VPayment payment).

Definition clientDealEnvironment {M} (pay : Manager M) : ClientFsm.DealEnvironment M :=
  ClientFsm.MkDealEnvironment M pay OpenDataTransfer
    (λ chid id ch sv, SendDataTransferVoucher chid (MkPayment id ch (Some sv)))
    CloseDataTransferChannel.

Context {CB : CborLib} (encode : Node → error + bytes) {DC : DagCbor encode decode}.

(** The selector the data transfer is opened with is the one the proposal names. *)
Lemma OpenDataTransfer_sel to proposal n raw :
  Selector (p_Params proposal) = Some raw → raw ≠ CborNull → encode n = inr raw →
  OpenDataTransfer to proposal = OpenPullDataChannel to (VProposal proposal) (PayloadCID proposal) n.
Proof.
  intros Hs Hn He. unfold OpenDataTransfer, SelectorSpecified, DecodeNode. rewrite Hs.
  destruct (String.eqb_spec raw CborNull); [done|]. simpl. by rewrite (dagcbor_rt _ _ He).
Qed.

(** The provider accepts a pull on the content and with the selector of the proposal
    when its terms are within the ask and tracking begins. *)
Lemma ValidatePull_pull {W} (env : RevalidatorEnvironment W) allBytes asks chid receiver proposal n raw
    (s s' : PR W) :
  Selector (p_Params proposal) = Some raw → raw ≠ CborNull → encode n = inr raw →
  let pds := MkProviderState proposal 0 chid StatusNew receiver 0 0 EmptyString
               (PaymentInterval (p_Params proposal)) None in
  CheckDealParams asks pds = Ok tt → BeginTracking env pds s = (s', Ok tt) →
  Revalidator.ValidatePull env encode allBytes asks false chid receiver (VProposal proposal) (PayloadCID proposal) n s
  = (s', Ok (Some (MkResponse StatusAccepted (ID proposal) 0 EmptyString), None)).
Proof.
  intros Hs Hn He pds Hck Hb. unfold Revalidator.ValidatePull. rewrite String.eqb_refl, He. simpl negb. cbn iota.
  unfold SelectorSpecified. rewrite Hs. destruct (String.eqb_spec raw CborNull); [done|].
  rewrite String.eqb_refl. cbn iota beta. unfold acceptDeal. fold pds. rewrite Hck.
  unfold go_bind at 1, go_lift.
  cbn [GetStoreID]. change (set_ps_StoreID 0 pds) with pds. unfold go_bind, go_try. cbn [negb]. cbn iota beta. by rewrite Hb.
Qed.

(** A content whose ask has no price is accepted from nobody: the check panics. *)
Lemma ValidatePull_unpriced {W} (env : RevalidatorEnvironment W) allBytes asks chid receiver proposal n raw
    (s : PR W) :
  Selector (p_Params proposal) = Some raw → raw ≠ CborNull → encode n = inr raw →
  ask_Priced (GetAsk (PayloadCID proposal) asks) = false →
  (Revalidator.ValidatePull env encode allBytes asks false chid receiver (VProposal proposal) (PayloadCID proposal) n s).2
  = Panic.
Proof.
  intros Hs Hn He Hp. unfold Revalidator.ValidatePull. rewrite String.eqb_refl, He. simpl negb. cbn iota.
  unfold SelectorSpecified. rewrite Hs. destruct (String.eqb_spec raw CborNull); [done|].
  rewrite String.eqb_refl. cbn iota beta. unfold acceptDeal, CheckDealParams. cbn [PayloadCID ps_Proposal].
  by rewrite Hp.
Qed.

End environment.

(** The parameters of an execution name the encoding of a selector. *)
Lemma exec_params_selector {Node B W File} (sv : TxServices Node B W File) t off p params :
  exec_params sv t off p = Ok params →
  ∃ n raw, sv_encode sv n = inr raw ∧ Selector params = Some raw.
Proof.
  unfold exec_params, NewParams. destruct (match xp_Selector p with None => _ | _ => _ end) as [n|]; [|done].
  destruct (sv_encode sv n) as [e|raw] eqn:E; [done|]. intros [= <-]. eauto.
Qed.

(** ** Properties *)

(** C9: A negotiation succeeds end to end.  The terms a provider answers to a query become,
    in the transaction that executes the offer, the parameters of a proposal; the client
    opens the pull with the selector of the transaction; the provider reads the proposal
    back from its bytes as it was, finds its content, selector and terms in order and
    answers that the deal is accepted, provided that tracking it begins.  Where the region
    it was queried in has no price, the provider panics instead. *)
Theorem negotiation_accepted {CB : CborLib} {LAWS : CborLaws} {Node B X W F File} `{Blockstore B}
    (ienv : IndexEnv X) visited (decode : bytes → error + Node) all host addr
    (sv : TxServices Node B W File) {DC : DagCbor (sv_encode sv) decode}
    (OpenPull : peer_id → Voucher → cid → Node → error + ChannelID)
    (env : RevalidatorEnvironment F) allBytes client region q (seller seller' : Seller B X) ask off
    t p params id to chid (b rest : bytes) (s s' : PR F) :
  let proposal := MkProposal (q_PayloadCID q) id params in
  let pds := MkProviderState proposal 0 chid StatusNew client 0 0 EmptyString
               (PaymentInterval params) None in
  handleQuery ienv visited decode all host addr client region q seller = (seller', Ok ask) →
  same_terms off ask → Offer_ok off → is_u64 id →
  exec_params sv t off p = Ok params → Selector params ≠ Some CborNull →
  Proposal_MarshalCBOR proposal EmptyString = (b, Ok tt) →
  BeginTracking env pds s = (s', Ok tt) →
  ∃ n, OpenDataTransfer decode all OpenPull to proposal
       = OpenPull to (VProposal proposal) (q_PayloadCID q) n ∧
    Proposal_UnmarshalCBOR (b +:+ rest) = (rest, Ok proposal) ∧
    let answer := Revalidator.ValidatePull env (sv_encode sv) allBytes (sl_asks seller') false chid client
                    (VProposal proposal) (q_PayloadCID q) n s in
    if rg_PPB region
    then answer = (s', Ok (Some (MkResponse StatusAccepted id 0 EmptyString), None))
    else answer.2 = Panic.
Proof.
  intros proposal pds Hq (_ & _ & _ & Hp & Hi & Hinc & _) (_ & Ho1 & Ho2) Hid Hx Hnull Hw Hb.
  pose proof (exec_params_selector _ _ _ _ _ Hx) as (n & raw & He & Hs).
  apply exec_params_terms in Hx as (Ep & Ei & Einc & _).
  assert (raw ≠ CborNull) as Hn by congruence.
  exists n. split; [by eapply (OpenDataTransfer_sel decode all OpenPull (sv_encode sv))|]. split.
  - assert (Proposal_ok proposal) as Hok.
    { split; [done|]. unfold Params_ok. cbn [proposal p_Params]. rewrite Hs, Ei, Einc.
      split_and!; [by eapply dagcbor_item|done..]. }
    destruct (Proposal_codec proposal Hok _ _ Hw) as (b' & -> & Hr). rewrite Hr.
    do 2 f_equal. unfold Proposal_read, Params_read, proposal. simpl. rewrite Hs. clear -Hs.
    destruct params. simpl in *. by subst.
  - apply handleQuery_ask in Hq as [Hask _]. destruct (rg_PPB region).
    + apply (ValidatePull_pull (sv_encode sv) env allBytes _ _ _ proposal n raw); try done.
      apply CheckDealParams_ok. simpl. rewrite Hask. split; [done|].
      unfold within_ask, ps_Params. simpl. rewrite Ep, Ei, Einc, Hp, Hi, Hinc. lia.
    + apply (ValidatePull_unpriced (sv_encode sv) env allBytes _ chid client proposal n raw); try done.
      simpl. by rewrite Hask.
Qed.

(** Selectors that are strings, written as values. *)
Definition encode_selector (n : string) : error + bytes := inr (write_value n).
Definition decode_selector (raw : bytes) : error + string :=
  match (read_value (A:=string) raw).2 with Ok n => inr n | _ => inl EOF end.

#[export] Instance string_selectors : DagCbor encode_selector decode_selector.
Proof.
  split; unfold encode_selector; intros n raw [= <-].
  - unfold decode_selector. pose proof (read_value_write n EmptyString) as Hr.
    rewrite string_app_empty_r in Hr. by rewrite Hr.
  - right. by exists n.
Qed.

Definition trading : TxServices string memstore nat string :=
  MkTxServices (sv_Retrieve counting) (sv_Dispatch counting) (sv_Delete counting) (sv_Query counting)
    (sv_QueryProvider counting) encode_selector (sv_AddrInfo counting) (sv_file counting) "entries" true.

Definition deal_params : Params :=
  MkParams (Some (write_value "all")) None 1 DefaultPaymentInterval DefaultPaymentIntervalIncrease 0.
Definition deal_proposal : Proposal := MkProposal "cidA" 7 deal_params.
Definition selling := handleQuery table_store every_block decode_selector "all" "bob" "wallet".

Lemma negotiation_accepted_witness :
  let pull (to : peer_id) (v : Voucher) (c : cid) (n : string) : error + ChannelID :=
    inr (MkChannelID "alice" "bob" 7) in
  let chid := MkChannelID "alice" "bob" 7 in
  let pds := MkProviderState deal_proposal 0 chid StatusNew "alice" 0 0 EmptyString
               DefaultPaymentInterval None in
  let s' := (BeginTracking map_env pds (MkPR ∅ ∅)).1 in
  ∃ n, OpenDataTransfer decode_selector "all" pull "bob" deal_proposal = inr chid ∧
    Proposal_UnmarshalCBOR ((Proposal_MarshalCBOR deal_proposal EmptyString).1 +:+ "tail")
    = ("tail", Ok deal_proposal) ∧
    Revalidator.ValidatePull map_env encode_selector "all" (sl_asks (selling "alice" asia query_a seller_0).1)
      false chid "alice" (VProposal deal_proposal) "cidA" n (MkPR ∅ ∅)
    = (s', Ok (Some (MkResponse StatusAccepted 7 0 EmptyString), None)).
Proof.
  intros pull chid pds s'.
  apply (negotiation_accepted table_store every_block decode_selector "all" "bob" "wallet" trading pull
    map_env "all" "alice" asia query_a seller_0 _ (ask_at 1) (set_o_PeerAddr "addr" (ask_at 1)) empty_tx
    (all_of (ask_at 1)) deal_params 7 "bob" chid (Proposal_MarshalCBOR deal_proposal EmptyString).1 "tail"
    (MkPR ∅ ∅) s').
  - run_eq.
  - done.
  - vm_compute. intuition congruence.
  - done.
  - vm_eq.
  - done.
  - run_eq.
  - run_eq.
Defined.
