(* ===== verification/Fil.v ===== *)
(** * Amounts and tipset keys (filecoin/types.go)

    Printing and parsing FIL amounts, with the decimal arithmetic of math/big and
    the text functions of strings, and the byte string that identifies a tipset. *)
From S2P Require Import Prelude Deal PayTypes Cbor PayChain.

(** ** Text (package strings)

    Letters and spaces are those of ASCII. *)

Definition ascii_in (set : string) (c : Ascii.ascii) : bool :=
  existsb (Ascii.eqb c) (String.list_ascii_of_string set).

(** The longest prefix within a set, and what follows it: [TrimLeft]. *)
Fixpoint span (p : Ascii.ascii → bool) (s : string) : string * string :=
  match s with
  | EmptyString => (EmptyString, EmptyString)
  | String c s' => if p c then let '(a, b) := span p s' in (String c a, b) else (EmptyString, s)
  end.

Fixpoint TrimRight (p : Ascii.ascii → bool) (s : string) : string :=
  match s with
  | EmptyString => EmptyString
  | String c s' =>
    match TrimRight p s' with
    | EmptyString => if p c then EmptyString else String c EmptyString
    | t => String c t
    end
  end.

Definition is_space (c : Ascii.ascii) : bool :=
  let n := Ascii.nat_of_ascii c in ((9 <=? n) && (n <=? 13) || (n =? 32))%nat.

Definition TrimSpace (s : string) : string := TrimRight is_space (span is_space s).2.

Fixpoint ToLower (s : string) : string :=
  match s with
  | EmptyString => EmptyString
  | String c s' =>
    let n := Ascii.nat_of_ascii c in
    String (if ((65 <=? n) && (n <=? 90))%nat then Ascii.ascii_of_nat (n + 32) else c) (ToLower s')
  end.

(** ** Decimals (math/big) *)

Definition digit_char (d : Z) : Ascii.ascii := Ascii.ascii_of_nat (48 + Z.to_nat d).

(** The last [w] digits of a number. *)
Fixpoint digits_w (w : nat) (r : Z) : string :=
  match w with
  | O => EmptyString
  | S w' => digits_w w' (r / 10) +:+ String (digit_char (r mod 10)) EmptyString
  end.

(** A number without leading zeros, by its count of digits. *)
Definition width (n : Z) : nat := S (Z.to_nat (Z.log2 n)).
Fixpoint strip_zeros (s : string) : string :=
  match s with
  | String c (String _ _ as s') => if Ascii.eqb c (digit_char 0) then strip_zeros s' else s
  | _ => s
  end.
Definition decimal (n : Z) : string := strip_zeros (digits_w (width n) n).

(** [Rat.FloatString]: rounded to [prec] digits, halves away from zero. *)
Definition FloatString (num den : Z) (prec : nat) : string :=
  let a := Z.abs num in
  let p := 10 ^ Z.of_nat prec in
  let r := a mod den * p in
  let r1 := r / den + (if den <=? 2 * (r mod den) then 1 else 0) in
  let '(q, r2) := if p <=? r1 then (a / den + 1, r1 - p) else (a / den, r1) in
  (if num <? 0 then "-" else EmptyString) +:+ decimal q +:+
  (match prec with O => EmptyString | _ => "." +:+ digits_w prec r2 end).

(** [Rat.SetString] on digits and dots: the number read so far, the digits after
    the dot if there was one, and whether there was a digit at all. *)
Fixpoint scan (s : string) (acc : Z) (frac : option nat) (some : bool) : option (Z * nat) :=
  match s with
  | EmptyString => if some then Some (acc, default 0%nat frac) else None
  | String c s' =>
    match digit c with
    | Some d => scan s' (10 * acc + d) (S <$> frac) true
    | None =>
      if Ascii.eqb c dot then match frac with None => scan s' acc (Some 0%nat) some | Some _ => None end
      else None
    end
  end.

(** ** FIL *)

Definition FilecoinPrecision : Z := 1000000000000000000.

Definition is_zero_char (c : Ascii.ascii) : bool := Ascii.eqb c (digit_char 0).
Definition is_dot (c : Ascii.ascii) : bool := Ascii.eqb c dot.

Definition Unitless (f : Z) : string :=
  if f =? 0 then "0"
  else TrimRight is_dot (TrimRight is_zero_char (FloatString f FilecoinPrecision 18)).

Definition FIL_String (f : Z) : string := Unitless f +:+ " FIL".

Definition unitPrefixes : list string :=
  ["a"; "f"; "p"; "n"; String (Ascii.ascii_of_nat 206) (String (Ascii.ascii_of_nat 188) EmptyString); "m"].

Fixpoint short_unit (l : list string) (n dn : Z) : Z * string :=
  match l with
  | [] => (dn, EmptyString)
  | p :: l' => if n <? u64 (dn * 1000) then (dn, p) else short_unit l' n (u64 (dn * 1000))
  end.

Definition Short (f : Z) : string :=
  let '(dn, prefix) := short_unit unitPrefixes f 1 in
  if f =? 0 then "0"
  else TrimRight is_dot (TrimRight is_zero_char (FloatString f dn 3)) +:+ " " +:+ prefix +:+ "FIL".

(** Escapes of the format %q are left out. *)
Definition quoted (s : string) : string := dquote +:+ s +:+ dquote.

Definition number_chars : Ascii.ascii → bool := ascii_in ".1234567890".

Definition ParseFIL (s : string) : error + Z :=
  let '(num, suffix) := span number_chars s in
  let norm := ToLower (TrimSpace suffix) in
  let unit :=
    if String.eqb suffix EmptyString then Some false
    else if String.eqb norm EmptyString || String.eqb norm "fil" then Some false
    else if String.eqb norm "attofil" || String.eqb norm "afil" then Some true
    else None in
  match unit with
  | None => inl (ErrMsg ("unrecognized suffix: " +:+ quoted suffix))
  | Some attofil =>
    if 50 <? len num then inl (ErrMsg ("string length too large: " +:+ pretty (len num)))
    else
      match scan num 0 None false with
      | None => inl (ErrMsg ("failed to parse " +:+ quoted num +:+ " as a decimal number"))
      | Some (n, k) =>
        let n := if attofil then n else n * FilecoinPrecision in
        let d := 10 ^ Z.of_nat k in
        if negb (n mod d =? 0)
        then inl (ErrMsg ("invalid " +:+ (if attofil then "atto" else EmptyString) +:+ "FIL value: " +:+ quoted num))
        else inr (n / d)
      end
  end.

Example parse_1 : ParseFIL "1.5 FIL" = inr 1500000000000000000. Proof. vm_compute. reflexivity. Qed.
Example parse_2 : ParseFIL "20 attoFIL" = inr 20. Proof. vm_compute. reflexivity. Qed.
Example parse_3 : FIL_String 1500000000000000000 = "1.5 FIL". Proof. vm_compute. reflexivity. Qed.
Example parse_4 : Short 1234567 = "1.235 pFIL". Proof. vm_compute. reflexivity. Qed.
Example parse_5 : FIL_String 20000000000000000000 = "20 FIL". Proof. vm_compute. reflexivity. Qed.
Example parse_6 : FIL_String (-5) = "-0.000000000000000005 FIL". Proof. vm_compute. reflexivity. Qed.

(** ** Decimal notation *)

Definition is_digit (c : Ascii.ascii) : bool := bool_decide (is_Some (digit c)).

Fixpoint all_chars (p : Ascii.ascii → bool) (s : string) : bool :=
  match s with EmptyString => true | String c s' => p c && all_chars p s' end.

Lemma all_chars_app p s t : all_chars p (s +:+ t) = all_chars p s && all_chars p t.
Proof. induction s as [|c s IH]; simpl; [done|]. rewrite <-andb_assoc. by f_equal. Qed.

Lemma all_chars_impl (p q : Ascii.ascii → bool) s :
  (∀ c, p c = true → q c = true) → all_chars p s = true → all_chars q s = true.
Proof.
  intros Hpq. induction s as [|c s IH]; simpl; [done|]. intros [Hc Hs]%andb_true_iff.
  by rewrite (Hpq c Hc), IH.
Qed.

#[local] Arguments digit : simpl never.
#[local] Arguments digit_char : simpl never.

Lemma digit_digit_char d : 0 <= d < 10 → digit (digit_char d) = Some d.
Proof.
  intros Hd. assert (d ∈ seqZ 0 10) as Hin by (apply elem_of_seqZ; lia). revert Hin. clear Hd.
  revert d. apply Forall_forall. repeat (constructor; [reflexivity|]). constructor.
Qed.

Lemma digits_snoc s c d acc :
  all_chars is_digit s = true → digit c = Some d →
  digits (s +:+ String c EmptyString) acc = 10 * digits s acc + d.
Proof.
  revert acc. induction s as [|c' s IH]; intros acc; simpl.
  - intros _ ->. done.
  - intros [Hc Hs]%andb_true_iff Hd. apply bool_decide_eq_true in Hc as [d' Hd']. rewrite Hd'. by apply IH.
Qed.

Lemma digits_app s t acc :
  all_chars is_digit s = true → digits (s +:+ t) acc = digits t (digits s acc).
Proof.
  revert acc. induction s as [|c' s IH]; intros acc; simpl; [done|].
  intros [Hc Hs]%andb_true_iff. apply bool_decide_eq_true in Hc as [d' Hd']. rewrite Hd'. by apply IH.
Qed.

Lemma digits_acc s acc :
  all_chars is_digit s = true →
  digits s acc = acc * 10 ^ Z.of_nat (String.length s) + digits s 0.
Proof.
  revert acc. induction s as [|c s IH]; intros acc; [simpl; lia|]. cbn [all_chars].
  intros [Hc Hs]%andb_true_iff. apply bool_decide_eq_true in Hc as [d Hd]. cbn [digits String.length].
  rewrite Hd, (IH (10 * acc + d)), (IH (10 * 0 + d)), Nat2Z.inj_succ, Z.pow_succ_r by (done || lia). ring.
Qed.

Lemma digits_w_digits w r : all_chars is_digit (digits_w w r) = true.
Proof.
  revert r. induction w as [|w IH]; intros r; cbn [digits_w]; [done|].
  rewrite all_chars_app, IH. cbn [all_chars]. unfold is_digit.
  rewrite digit_digit_char by (apply Z.mod_pos_bound; lia). done.
Qed.

Lemma digits_w_length w r : String.length (digits_w w r) = w.
Proof.
  revert r. induction w as [|w IH]; intros r; cbn [digits_w]; [done|].
  rewrite string_length_app, IH. simpl. lia.
Qed.

Lemma digits_digits_w w r : 0 <= r < 10 ^ Z.of_nat w → digits (digits_w w r) 0 = r.
Proof.
  revert r. induction w as [|w IH]; intros r Hr; cbn [digits_w].
  - simpl in *. lia.
  - rewrite Nat2Z.inj_succ, Z.pow_succ_r in Hr by lia.
    rewrite (digits_snoc _ _ (r mod 10)).
    + rewrite IH by (Z.div_mod_to_equations; lia). Z.div_mod_to_equations; lia.
    + apply digits_w_digits.
    + apply digit_digit_char, Z.mod_pos_bound. lia.
Qed.

Lemma strip_zeros_cons c c' s :
  strip_zeros (String c (String c' s)) =
  if Ascii.eqb c (digit_char 0) then strip_zeros (String c' s) else String c (String c' s).
Proof. reflexivity. Qed.

Lemma strip_zeros_digits s : digits (strip_zeros s) 0 = digits s 0.
Proof.
  induction s as [|c s IH]; [done|]. destruct s as [|c' s]; [done|]. rewrite strip_zeros_cons.
  destruct (Ascii.eqb_spec c (digit_char 0)) as [->|]; [|done]. by rewrite IH.
Qed.

Lemma strip_zeros_all p s : all_chars p s = true → all_chars p (strip_zeros s) = true.
Proof.
  induction s as [|c s IH]; [done|]. destruct s as [|c' s]; [done|]. rewrite strip_zeros_cons.
  intros H. destruct (Ascii.eqb c _); [|done]. apply IH. simpl in H. by apply andb_true_iff in H as [_ H].
Qed.

Lemma strip_zeros_nonempty s : s ≠ EmptyString → strip_zeros s ≠ EmptyString.
Proof.
  induction s as [|c s IH]; [done|]. intros _. destruct s as [|c' s]; [done|]. rewrite strip_zeros_cons.
  destruct (Ascii.eqb c _); [by apply IH|done].
Qed.

Lemma width_enough n : 0 <= n → n < 10 ^ Z.of_nat (width n).
Proof.
  intros Hn. unfold width. rewrite Nat2Z.inj_succ, Z2Nat.id by apply Z.log2_nonneg.
  destruct (decide (n = 0)) as [->|]; [done|].
  pose proof (Z.log2_spec n ltac:(lia)) as [_ H]. eapply Z.lt_le_trans; [exact H|].
  apply Z.pow_le_mono_l. lia.
Qed.

Lemma decimal_digits n : 0 <= n → digits (decimal n) 0 = n.
Proof.
  intros Hn. unfold decimal. rewrite strip_zeros_digits. apply digits_digits_w.
  split; [done|by apply width_enough].
Qed.

Lemma decimal_all n : all_chars is_digit (decimal n) = true.
Proof. apply strip_zeros_all, digits_w_digits. Qed.

Lemma decimal_nonempty n : decimal n ≠ EmptyString.
Proof.
  apply strip_zeros_nonempty. intros H. apply (f_equal String.length) in H.
  rewrite digits_w_length in H. done.
Qed.

(** Reading a run of digits. *)
Lemma scan_digits s rest acc frac b :
  all_chars is_digit s = true →
  scan (s +:+ rest) acc frac b =
    scan rest (digits s acc) (Nat.add (String.length s) <$> frac) (negb (String.eqb s EmptyString) || b).
Proof.
  revert acc frac b. induction s as [|c s IH]; intros acc frac b; simpl.
  - by destruct frac.
  - intros [Hc Hs]%andb_true_iff. apply bool_decide_eq_true in Hc as [d Hd]. rewrite Hd, IH by done.
    f_equal; [|by rewrite orb_true_r]. destruct frac as [k|]; [|done]. simpl. f_equal. lia.
Qed.

(** ** Trimming *)

Lemma TrimRight_all p s : all_chars p s = true → TrimRight p s = EmptyString.
Proof. induction s as [|c s IH]; simpl; [done|]. intros [-> Hs]%andb_true_iff. by rewrite IH. Qed.

Lemma TrimRight_app p s t :
  TrimRight p t ≠ EmptyString → TrimRight p (s +:+ t) = s +:+ TrimRight p t.
Proof.
  intros Ht. induction s as [|c s IH]; [done|].
  change (String c s +:+ t) with (String c (s +:+ t)). cbn [TrimRight]. rewrite IH.
  by destruct s, (TrimRight p t).
Qed.

Lemma TrimRight_drop p s t : all_chars p t = true → TrimRight p (s +:+ t) = TrimRight p s.
Proof.
  intros Ht. induction s as [|c s IH]; [by apply TrimRight_all|].
  change (String c s +:+ t) with (String c (s +:+ t)). cbn [TrimRight]. by rewrite IH.
Qed.

Lemma TrimRight_cons p c s :
  TrimRight p s ≠ EmptyString → TrimRight p (String c s) = String c (TrimRight p s).
Proof. intros Hs. cbn [TrimRight]. by destruct (TrimRight p s). Qed.

Lemma TrimRight_split p s : ∃ z, s = TrimRight p s +:+ z ∧ all_chars p z = true.
Proof.
  induction s as [|c s (z & IH & Hz)]; [by exists EmptyString|]. simpl.
  destruct (TrimRight p s) as [|c' t].
  - change (s = z) in IH. subst z. destruct (p c) eqn:Hc.
    + exists (String c s). simpl. by rewrite Hc.
    + by exists s.
  - exists z. split; [|done]. exact (f_equal (String c) IH).
Qed.

(** What is left ends in a character that is kept, when another set is trimmed too. *)
Lemma TrimRight_disjoint p s : all_chars (negb ∘ p) s = true → TrimRight p s = s.
Proof.
  induction s as [|c s IH]; simpl; [done|]. intros [Hc Hs]%andb_true_iff. rewrite IH by done.
  destruct s; [|done]. by apply negb_true_iff in Hc as ->.
Qed.

Lemma TrimRight_chars p q s : all_chars q s = true → all_chars q (TrimRight p s) = true.
Proof.
  intros H. destruct (TrimRight_split p s) as (z & E & _). rewrite E, all_chars_app in H.
  by apply andb_true_iff in H as [? _].
Qed.

Lemma digits_zero z acc : digits (String (digit_char 0) z) acc = digits z (10 * acc).
Proof.
  cbn [digits]. rewrite digit_digit_char by lia. by rewrite Z.add_0_r.
Qed.

Lemma zeros_digits z acc :
  all_chars is_zero_char z = true → digits z acc = acc * 10 ^ Z.of_nat (String.length z).
Proof.
  revert acc. induction z as [|c z IH]; intros acc; [simpl; lia|]. cbn [all_chars].
  intros [Hc Hz]%andb_true_iff. apply Ascii.eqb_eq in Hc as ->. rewrite digits_zero, IH by done.
  cbn [String.length]. rewrite Nat2Z.inj_succ, Z.pow_succ_r by lia. lia.
Qed.

(** ** Printing and parsing an amount *)

(** Amounts whose printed number fits the length limit of [ParseFIL]. *)
Definition printable (f : Z) : Prop := 0 <= f ∧ len (Unitless f) <= 50.

Lemma FloatString_18 f : 0 <= f →
  FloatString f FilecoinPrecision 18 =
  decimal (f / FilecoinPrecision) +:+ String dot (digits_w 18 (f mod FilecoinPrecision)).
Proof.
  intros Hf. unfold FloatString. rewrite Z.abs_eq by done.
  change (10 ^ Z.of_nat 18) with FilecoinPrecision.
  rewrite Z.div_mul, Z.mod_mul by done. cbn [Z.mul]. 
  replace (FilecoinPrecision <=? 0) with false by done. rewrite Z.add_0_r.
  pose proof (Z.mod_pos_bound f FilecoinPrecision eq_refl) as Hm.
  destruct (Z.leb_spec FilecoinPrecision (f mod FilecoinPrecision)); [lia|].
  destruct (Z.ltb_spec f 0); [lia|]. done.
Qed.

Lemma not_zero_dot : is_zero_char dot = false.
Proof. reflexivity. Qed.

Lemma digit_not_dot c : is_digit c = true → negb (is_dot c) = true.
Proof.
  intros Hc. unfold is_dot. destruct (Ascii.eqb_spec c dot) as [->|]; [|done]. discriminate Hc.
Qed.

Lemma trim_dot_digits s : all_chars is_digit s = true → TrimRight is_dot s = s.
Proof.
  intros Hs. apply TrimRight_disjoint. eapply all_chars_impl; [|exact Hs]. apply digit_not_dot.
Qed.

(** The printed number: the whole part, and the decimals up to the last one that
    is not zero. *)
Lemma Unitless_spec f : 0 < f →
  ∃ d z, digits_w 18 (f mod FilecoinPrecision) = d +:+ z ∧ all_chars is_zero_char z = true ∧
    Unitless f = decimal (f / FilecoinPrecision) +:+
      (match d with EmptyString => EmptyString | _ => String dot d end).
Proof.
  intros Hf. set (r := digits_w 18 (f mod FilecoinPrecision)).
  destruct (TrimRight_split is_zero_char r) as (z & Hr & Hz).
  exists (TrimRight is_zero_char r), z. split_and!; [done|done|].
  unfold Unitless. destruct (Z.eqb_spec f 0); [lia|]. rewrite FloatString_18 by lia. fold r.
  assert (all_chars is_digit (TrimRight is_zero_char r) = true) as Hd.
  { apply TrimRight_chars, digits_w_digits. }
  assert (TrimRight is_zero_char (String dot r) = String dot (TrimRight is_zero_char r)) as Hdot.
  { cbn [TrimRight]. rewrite not_zero_dot. by destruct (TrimRight is_zero_char r). }
  rewrite TrimRight_app by (by rewrite Hdot). rewrite Hdot.
  destruct (TrimRight is_zero_char r) as [|c d] eqn:E.
  - rewrite string_app_empty_r, TrimRight_drop by done. apply trim_dot_digits, decimal_all.
  - assert (TrimRight is_dot (String dot (String c d)) = String dot (String c d)) as Hk.
    { rewrite TrimRight_cons; rewrite (trim_dot_digits _ Hd); [reflexivity|discriminate]. }
    by rewrite TrimRight_app; rewrite Hk.
Qed.

Lemma span_app p s t : all_chars p s = true → span p (s +:+ t) = (s +:+ (span p t).1, (span p t).2).
Proof.
  induction s as [|c s IH]; [change (EmptyString +:+ t) with t; by destruct (span p t)|].
  cbn [all_chars]. intros [Hc Hs]%andb_true_iff.
  change (String c s +:+ t) with (String c (s +:+ t)). cbn [span]. rewrite Hc, IH; done.
Qed.

Lemma digit_number_char c : is_digit c = true → number_chars c = true.
Proof.
  intros Hc. apply bool_decide_eq_true in Hc as [d Hd]. unfold digit in Hd.
  destruct c as [b0 b1 b2 b3 b4 b5 b6 b7]. revert Hd.
  destruct b0, b1, b2, b3, b4, b5, b6, b7; (reflexivity || discriminate).
Qed.

(** Reading the printed number back: the amount over the decimals kept. *)
Lemma scan_Unitless f : 0 < f →
  all_chars number_chars (Unitless f) = true ∧
  ∃ n k, scan (Unitless f) 0 None false = Some (n, k) ∧ n * FilecoinPrecision = f * 10 ^ Z.of_nat k.
Proof.
  intros Hf. destruct (Unitless_spec f Hf) as (d & z & Hr & Hz & ->).
  set (q := f / FilecoinPrecision). 
  pose proof (digits_w_digits 18 (f mod FilecoinPrecision)) as Hd.
  rewrite Hr, all_chars_app in Hd. apply andb_true_iff in Hd as [Hd _].
  assert (digits (d +:+ z) 0 = f mod FilecoinPrecision) as Hv.
  { rewrite <-Hr. apply digits_digits_w. by apply Z.mod_pos_bound. }
  rewrite digits_app, zeros_digits in Hv by done.
  assert (String.length d + String.length z = 18)%nat as Hl.
  { rewrite <-string_length_app, <-Hr. apply digits_w_length. }
  pose proof (Z.div_pos f FilecoinPrecision ltac:(lia) eq_refl) as Hq. fold q in Hq.
  pose proof (Z.div_mod f FilecoinPrecision ltac:(done)) as Hdm. fold q in Hdm.
  pose proof (decimal_nonempty q) as Hne. apply String.eqb_neq in Hne.
  split.
  - rewrite all_chars_app. apply andb_true_iff. split.
    + eapply all_chars_impl; [apply digit_number_char|apply decimal_all].
    + destruct d as [|c d]; [done|]. apply (all_chars_impl is_digit _ _ digit_number_char) in Hd.
      cbn [all_chars] in *. by rewrite Hd.
  - rewrite scan_digits, decimal_digits, Hne by (done || apply decimal_all).
    destruct d as [|c d].
    + exists q, 0%nat. split; [done|]. simpl in Hv. lia.
    + set (s := String c d) in *. exists (digits s q), (String.length s). split.
      * cbn [scan]. replace (digit dot) with (@None Z) by done. rewrite Ascii.eqb_refl.
        pose proof (scan_digits s EmptyString q (Some 0%nat) true Hd) as Hs.
        rewrite string_app_empty_r in Hs. cbn [scan] in Hs.
        rewrite orb_true_r in Hs. cbn in Hs. by rewrite Nat.add_0_r in Hs.
      * rewrite digits_acc by done.
        assert (FilecoinPrecision = 10 ^ Z.of_nat (String.length s) * 10 ^ Z.of_nat (String.length z)) as HP.
        { rewrite <-Z.pow_add_r, <-Nat2Z.inj_add, Hl by lia. done. }
        rewrite Hdm, <-Hv. rewrite HP at 1 2. ring.
Qed.

Lemma span_number s t :
  all_chars number_chars s = true → span number_chars t = (EmptyString, t) →
  span number_chars (s +:+ t) = (s, t).
Proof. intros Hs Ht. rewrite span_app, Ht by done. cbn [fst snd]. by rewrite string_app_empty_r. Qed.

Lemma digit_range c d : digit c = Some d → 0 <= d < 10.
Proof.
  unfold digit. destruct (_ && _) eqn:E; [|done]. intros [= <-]. to_prop. lia.
Qed.

Lemma scan_nonneg s acc frac b n k : 0 <= acc → scan s acc frac b = Some (n, k) → 0 <= n.
Proof.
  revert acc frac b. induction s as [|c s IH]; intros acc frac b Ha; simpl.
  - destruct b; [|done]. by intros [= <- _].
  - destruct (digit c) as [d|] eqn:Ed; [apply digit_range in Ed; apply IH; lia|].
    destruct (Ascii.eqb c dot); [|done]. destruct frac; [done|]. by apply IH.
Qed.

(** No text is read as a negative amount. *)
Lemma ParseFIL_nonneg s f : ParseFIL s = inr f → 0 <= f.
Proof.
  unfold ParseFIL. destruct (span number_chars s) as [num suffix].
  destruct (if String.eqb suffix EmptyString then Some false else _) as [atto|]; [|done].
  destruct (50 <? len num); [done|]. destruct (scan num 0 None false) as [[n k]|] eqn:E; [|done].
  apply scan_nonneg in E; [|done]. destruct (negb _); [done|]. intros [= <-].
  apply Z.div_pos; [destruct atto; [done|]|]; [|apply Z.pow_pos_nonneg; lia].
  unfold FilecoinPrecision. lia.
Qed.

(** C40: Every amount that is not negative, printed with [String], is read back by
    [ParseFIL], unless its number has more than 50 characters. *)
Theorem ParseFIL_String f : printable f → ParseFIL (FIL_String f) = inr f.
Proof.
  intros [Hf Hlen]. destruct (decide (f = 0)) as [->|Hnz]; [reflexivity|].
  destruct (scan_Unitless f ltac:(lia)) as (Hn & n & k & Hs & Hv).
  unfold ParseFIL, FIL_String. rewrite (span_number _ " FIL") by done.
  change (ToLower (TrimSpace " FIL")) with "fil".
  change (String.eqb " FIL" EmptyString) with false. change (String.eqb "fil" EmptyString || String.eqb "fil" "fil") with true.
  cbv iota. destruct (Z.ltb_spec 50 (len (Unitless f))); [lia|].
  rewrite Hs. cbv zeta iota. rewrite Hv, Z.mod_mul by (apply Z.pow_nonzero; lia).
  rewrite Z.div_mul by (apply Z.pow_nonzero; lia). done.
Qed.

Lemma ParseFIL_String_witness : ParseFIL (FIL_String 1500000000000000001) = inr 1500000000000000001.
Proof. apply ParseFIL_String. split; [discriminate|]. vm_compute. discriminate. Defined.
