(* ===== verification/FilCodec.v ===== *)
(** * Chain records and their encoding (filecoin/types.go, filecoin/types_cbor_gen.go)

    Tickets, block headers, messages and actors, the generated codecs under which
    they are hashed and exchanged, and what identifies a message.  Signatures and
    proofs of space-time are encoded by their own libraries. *)
From S2P Require Import Prelude Deal PayTypes Cbor PayChain.

(** ** Records *)

Record Ticket : Type := MkTicket { tk_VRFProof : bytes }.

Record ElectionProof : Type := MkElectionProof {
  ep_WinCount : Z;
  ep_VRFProof : bytes
}.

Record BeaconEntry : Type := MkBeaconEntry {
  be_Round : Z;
  be_Data : bytes
}.

(** [proof.PoStProof] of specs-actors: the kind of proof and its bytes. *)
Definition PoStProof : Type := Z * bytes.

(** The flag [validated] is never read or written. *)
Record BlockHeader : Type := MkBlockHeader {
  bh_Miner : address;
  bh_Ticket : option Ticket;
  bh_ElectionProof : option ElectionProof;
  bh_BeaconEntries : list BeaconEntry;
  bh_WinPoStProof : list PoStProof;
  bh_Parents : list cid;
  bh_ParentWeight : Z;
  bh_Height : Z;
  bh_ParentStateRoot : cid;
  bh_ParentMessageReceipts : cid;
  bh_Messages : cid;
  bh_BLSAggregate : option signature;
  bh_Timestamp : Z;
  bh_BlockSig : option signature;
  bh_ForkSignaling : Z;
  bh_ParentBaseFee : Z
}.

Record ExpTipSet : Type := MkExpTipSet {
  ets_Cids : list cid;
  ets_Blocks : list (option BlockHeader);
  ets_Height : Z
}.

(** An actor with all its fields. *)
Record ActorRecord : Type := MkActorRecord {
  ar_Code : cid;
  ar_Head : cid;
  ar_Nonce : Z;
  ar_Balance : Z
}.

#[export] Instance Ticket_eq_dec : EqDecision Ticket.
Proof. solve_decision. Defined.
#[export] Instance ElectionProof_eq_dec : EqDecision ElectionProof.
Proof. solve_decision. Defined.
#[export] Instance BeaconEntry_eq_dec : EqDecision BeaconEntry.
Proof. solve_decision. Defined.
#[export] Instance BlockHeader_eq_dec : EqDecision BlockHeader.
Proof. solve_decision. Defined.

(** ** The encoders of signatures and proofs *)

Class FilLib : Type := {
  SignatureBytes : option signature → error + bytes;
  ReadSignature : go bytes error signature;
  PoStProofBytes : PoStProof → error + bytes;
  ReadPoStProof : go bytes error PoStProof
}.

Class FilLaws {FL : FilLib} : Prop := {
  nil_signature : SignatureBytes None = inr CborNull;
  signature_rt : ∀ s b, SignatureBytes (Some s) = inr b →
    not_null b ∧ ∀ rest, ReadSignature (b +:+ rest) = (rest, Ok s);
  post_proof_rt : ∀ p b, PoStProofBytes p = inr b → ∀ rest, ReadPoStProof (b +:+ rest) = (rest, Ok p)
}.

(** ** Slices *)

Section slices.
Context {CB : CborLib} {A : Type}.

Fixpoint WriteAll (wr : A → go bytes error unit) (l : list A) : go bytes error unit :=
  match l with
  | [] => go_ret tt
  | v :: l' => do* wr v then WriteAll wr l'
  end.

Definition WriteSlice (field : string) (wr : A → go bytes error unit) (l : list A) : go bytes error unit :=
  if MaxLength <? Z.of_nat (length l)
  then go_err (ErrMsg ("Slice value in field " +:+ field +:+ " was too long"))
  else
    do* Write (MajorTypeHeader MajArray (Z.of_nat (length l))) then
    WriteAll wr l.

Fixpoint ReadAll (rd : go bytes error A) (n : nat) : go bytes error (list A) :=
  match n with
  | O => go_ret []
  | S n' =>
    let* v := rd in
    let* l := ReadAll rd n' in
    go_ret (v :: l)
  end.

Definition ReadSlice (field : string) (rd : go bytes error A) : go bytes error (list A) :=
  let* h := CborReadHeader in
  if MaxLength <? h.2 then go_err (ErrMsg (field +:+ ": array too large (" +:+ pretty h.2 +:+ ")"))
  else if negb (h.1 =? MajArray) then go_err (ErrMsg "expected cbor array")
  else ReadAll rd (Z.to_nat h.2).

Lemma codec_all wr rd (l : list A) : Forall (λ v, codec (wr v) rd v) l → codec (WriteAll wr l) (ReadAll rd (length l)) l.
Proof.
  induction 1 as [|v l Hv _ IH]; simpl; [apply codec_ret|].
  field ltac:(exact Hv). by apply (codec_end _ _ (cons v)).
Qed.

Context {LAWS : CborLaws}.

Lemma codec_slice f f' wr rd (l : list A) :
  Forall (λ v, codec (wr v) rd v) l → codec (WriteSlice f wr l) (ReadSlice f' rd) l.
Proof.
  intros Hl. apply codec_guard. intros Hlen. to_prop. pose proof lengths_u64 as [[? ?] _].
  eapply (codec_bind _ _ _ _ (MajArray, Z.of_nat (length l))).
  { apply codec_write. intros rest. apply header_rt; [unfold MajArray; lia|].
    unfold is_u64 in *; lia. }
  cbn [fst snd]. destruct (Z.ltb_spec MaxLength (Z.of_nat (length l))); [lia|].
  rewrite Nat2Z.id. by apply codec_all.
Qed.

End slices.

(** ** Readers and writers *)

Section codec.
Context {CB : CborLib} {FL : FilLib}.

Definition WriteUint64 (n : Z) : go bytes error unit := Write (MajorTypeHeader MajUnsignedInt n).
Definition WriteAddress (a : address) : go bytes error unit := WriteEnc (AddressBytes (Some a)).
Definition WriteBig (z : Z) : go bytes error unit := WriteEnc (BigIntBytes z).

(** A pointer to a record: its writer puts null when it is nil. *)
Definition WriteNullable {A} (wr : A → go bytes error unit) (o : option A) : go bytes error unit :=
  match o with
  | None => Write CborNull
  | Some a => wr a
  end.

Definition Ticket_MarshalCBOR (t : Ticket) : go bytes error unit :=
  do* Write (MajorTypeHeader MajArray 1) then
  WriteByteString "Byte array in field t.VRFProof was too long" (tk_VRFProof t).

Definition Ticket_UnmarshalCBOR : go bytes error Ticket :=
  do* ReadFields 1 then
  let* proof := ReadByteString "t.VRFProof" in
  go_ret (MkTicket proof).

Definition ElectionProof_MarshalCBOR (t : ElectionProof) : go bytes error unit :=
  do* Write (MajorTypeHeader MajArray 2) then
  do* WriteInt64 (ep_WinCount t) then
  WriteByteString "Byte array in field t.VRFProof was too long" (ep_VRFProof t).

Definition ElectionProof_UnmarshalCBOR : go bytes error ElectionProof :=
  do* ReadFields 2 then
  let* win := ReadInt64 in
  let* proof := ReadByteString "t.VRFProof" in
  go_ret (MkElectionProof win proof).

Definition BeaconEntry_MarshalCBOR (t : BeaconEntry) : go bytes error unit :=
  do* Write (MajorTypeHeader MajArray 2) then
  do* WriteUint64 (be_Round t) then
  WriteByteString "Byte array in field t.Data was too long" (be_Data t).

Definition BeaconEntry_UnmarshalCBOR : go bytes error BeaconEntry :=
  do* ReadFields 2 then
  let* round := ReadUint64 in
  let* data := ReadByteString "t.Data" in
  go_ret (MkBeaconEntry round data).

Definition BlockHeader_MarshalCBOR (t : BlockHeader) : go bytes error unit :=
  do* Write (MajorTypeHeader MajArray 16) then
  do* WriteAddress (bh_Miner t) then
  do* WriteNullable Ticket_MarshalCBOR (bh_Ticket t) then
  do* WriteNullable ElectionProof_MarshalCBOR (bh_ElectionProof t) then
  do* WriteSlice "t.BeaconEntries" BeaconEntry_MarshalCBOR (bh_BeaconEntries t) then
  do* WriteSlice "t.WinPoStProof" (λ v, WriteEnc (PoStProofBytes v)) (bh_WinPoStProof t) then
  do* WriteSlice "t.Parents" (WriteCid "failed writing cid field t.Parents") (bh_Parents t) then
  do* WriteBig (bh_ParentWeight t) then
  do* WriteInt64 (bh_Height t) then
  do* WriteCid "failed to write cid field t.ParentStateRoot" (bh_ParentStateRoot t) then
  do* WriteCid "failed to write cid field t.ParentMessageReceipts" (bh_ParentMessageReceipts t) then
  do* WriteCid "failed to write cid field t.Messages" (bh_Messages t) then
  do* WriteEnc (SignatureBytes (bh_BLSAggregate t)) then
  do* WriteUint64 (bh_Timestamp t) then
  do* WriteEnc (SignatureBytes (bh_BlockSig t)) then
  do* WriteUint64 (bh_ForkSignaling t) then
  WriteBig (bh_ParentBaseFee t).

Definition BlockHeader_UnmarshalCBOR : go bytes error BlockHeader :=
  do* ReadFields 16 then
  let* miner := ReadWrapped "unmarshaling t.Miner" ReadAddress in
  let* ticket := ReadNullable "unmarshaling t.Ticket pointer" Ticket_UnmarshalCBOR in
  let* election := ReadNullable "unmarshaling t.ElectionProof pointer" ElectionProof_UnmarshalCBOR in
  let* beacons := ReadSlice "t.BeaconEntries" BeaconEntry_UnmarshalCBOR in
  let* proofs := ReadSlice "t.WinPoStProof" ReadPoStProof in
  let* parents := ReadSlice "t.Parents" (ReadWrapped "reading cid field t.Parents failed" ReadCid) in
  let* weight := ReadWrapped "unmarshaling t.ParentWeight" ReadBigInt in
  let* height := ReadInt64 in
  let* root := ReadWrapped "failed to read cid field t.ParentStateRoot" ReadCid in
  let* receipts := ReadWrapped "failed to read cid field t.ParentMessageReceipts" ReadCid in
  let* messages := ReadWrapped "failed to read cid field t.Messages" ReadCid in
  let* aggregate := ReadNullable "unmarshaling t.BLSAggregate pointer" ReadSignature in
  let* timestamp := ReadUint64 in
  let* sig := ReadNullable "unmarshaling t.BlockSig pointer" ReadSignature in
  let* fork := ReadUint64 in
  let* fee := ReadWrapped "unmarshaling t.ParentBaseFee" ReadBigInt in
  go_ret (MkBlockHeader miner ticket election beacons proofs parents weight height root
            receipts messages aggregate timestamp sig fork fee).

Definition ExpTipSet_MarshalCBOR (t : ExpTipSet) : go bytes error unit :=
  do* Write (MajorTypeHeader MajArray 3) then
  do* WriteSlice "t.Cids" (WriteCid "failed writing cid field t.Cids") (ets_Cids t) then
  do* WriteSlice "t.Blocks" (WriteNullable BlockHeader_MarshalCBOR) (ets_Blocks t) then
  WriteInt64 (ets_Height t).

(** The blocks are read as values: null is not accepted here. *)
Definition ExpTipSet_UnmarshalCBOR : go bytes error ExpTipSet :=
  do* ReadFields 3 then
  let* cids := ReadSlice "t.Cids" (ReadWrapped "reading cid field t.Cids failed" ReadCid) in
  let* blocks := ReadSlice "t.Blocks" (let* v := BlockHeader_UnmarshalCBOR in go_ret (Some v)) in
  let* height := ReadInt64 in
  go_ret (MkExpTipSet cids blocks height).

Definition Message_MarshalCBOR (t : Message) : go bytes error unit :=
  do* Write (MajorTypeHeader MajArray 10) then
  do* WriteUint64 (msg_Version t) then
  do* WriteAddress (msg_To t) then
  do* WriteAddress (msg_From t) then
  do* WriteUint64 (msg_Nonce t) then
  do* WriteBig (msg_Value t) then
  do* WriteInt64 (msg_GasLimit t) then
  do* WriteBig (msg_GasFeeCap t) then
  do* WriteBig (msg_GasPremium t) then
  do* WriteUint64 (msg_Method t) then
  WriteByteString "Byte array in field t.Params was too long" (msg_Params t).

Definition Message_UnmarshalCBOR : go bytes error Message :=
  do* ReadFields 10 then
  let* version := ReadUint64 in
  let* to := ReadWrapped "unmarshaling t.To" ReadAddress in
  let* from := ReadWrapped "unmarshaling t.From" ReadAddress in
  let* nonce := ReadUint64 in
  let* value := ReadWrapped "unmarshaling t.Value" ReadBigInt in
  let* limit := ReadInt64 in
  let* feecap := ReadWrapped "unmarshaling t.GasFeeCap" ReadBigInt in
  let* premium := ReadWrapped "unmarshaling t.GasPremium" ReadBigInt in
  let* method := ReadUint64 in
  let* params := ReadByteString "t.Params" in
  go_ret (MkMessage version to from nonce value limit feecap premium method params).

Definition Actor_MarshalCBOR (t : ActorRecord) : go bytes error unit :=
  do* Write (MajorTypeHeader MajArray 4) then
  do* WriteCid "failed to write cid field t.Code" (ar_Code t) then
  do* WriteCid "failed to write cid field t.Head" (ar_Head t) then
  do* WriteUint64 (ar_Nonce t) then
  WriteBig (ar_Balance t).

Definition Actor_UnmarshalCBOR : go bytes error ActorRecord :=
  do* ReadFields 4 then
  let* code := ReadWrapped "failed to read cid field t.Code" ReadCid in
  let* head := ReadWrapped "failed to read cid field t.Head" ReadCid in
  let* nonce := ReadUint64 in
  let* balance := ReadWrapped "unmarshaling t.Balance" ReadBigInt in
  go_ret (MkActorRecord code head nonce balance).

Definition SignedMessage_MarshalCBOR (t : SignedMessage) : go bytes error unit :=
  do* Write (MajorTypeHeader MajArray 2) then
  do* Message_MarshalCBOR (sm_Message t) then
  WriteEnc (SignatureBytes (Some (sm_Signature t))).

Definition SignedMessage_UnmarshalCBOR : go bytes error SignedMessage :=
  do* ReadFields 2 then
  let* m := ReadWrapped "unmarshaling t.Message" Message_UnmarshalCBOR in
  let* sig := ReadWrapped "unmarshaling t.Signature" ReadSignature in
  go_ret (MkSignedMessage m sig).

End codec.

(** ** Round trips *)

Section laws.
Context {CB : CborLib} {FL : FilLib} {LAWS : CborLaws} {FLAWS : FilLaws}.

Lemma small_fields n : 0 <= n <= 16 → is_u64 n.
Proof. unfold is_u64, two64. lia. Qed.

#[local] Hint Resolve codec_uint64 codec_int64 codec_byte_string codec_cid codec_bigint codec_address
  codec_slice codec_nested : pop.

(** A record: the header and its fields. *)
Ltac array_record := apply (codec_bind _ _ _ _ tt); [apply codec_fields, small_fields; lia|].

Lemma Ticket_fields t :
  codec (WriteByteString "Byte array in field t.VRFProof was too long" (tk_VRFProof t))
    (let* proof := ReadByteString "t.VRFProof" in go_ret (MkTicket proof)) t.
Proof. destruct t. apply (codec_end _ _ MkTicket), codec_byte_string. Qed.

Lemma Ticket_or_null wrap o :
  codec (WriteNullable Ticket_MarshalCBOR o) (ReadNullable wrap Ticket_UnmarshalCBOR) o.
Proof.
  destruct o as [t|]; [|apply nullable_none].
  apply codec_array_or_null; [by apply small_fields|apply Ticket_fields].
Qed.

Lemma ElectionProof_or_null wrap o :
  match o with Some t => is_i64 (ep_WinCount t) | None => True end →
  codec (WriteNullable ElectionProof_MarshalCBOR o) (ReadNullable wrap ElectionProof_UnmarshalCBOR) o.
Proof.
  destruct o as [[w p]|]; [|intros _; apply nullable_none]. simpl. intros Hw.
  apply codec_array_or_null; [by apply small_fields|]. field ltac:(by apply codec_int64).
  apply (codec_end _ _ (MkElectionProof w)), codec_byte_string.
Qed.

Lemma BeaconEntry_codec t :
  is_u64 (be_Round t) → codec (BeaconEntry_MarshalCBOR t) BeaconEntry_UnmarshalCBOR t.
Proof.
  destruct t as [r d]. simpl. intros Hr. array_record. field ltac:(by apply codec_uint64).
  apply (codec_end _ _ (MkBeaconEntry r)), codec_byte_string.
Qed.

Lemma codec_signature wrap o :
  codec (WriteEnc (SignatureBytes o)) (ReadNullable wrap ReadSignature) o.
Proof.
  destruct o as [s|]; [|rewrite nil_signature; apply nullable_none].
  destruct (SignatureBytes (Some s)) as [e|b] eqn:E; [by intros s0 s'|].
  apply signature_rt in E as [Hn Hr]. by apply nullable_some.
Qed.

Lemma codec_post_proof p : codec (WriteEnc (PoStProofBytes p)) ReadPoStProof p.
Proof.
  destruct (PoStProofBytes p) as [e|b] eqn:E; [by intros s s'|]. apply codec_write.
  by apply post_proof_rt.
Qed.

(** The fields at machine width are what their Go types can hold. *)
Definition header_in_range (t : BlockHeader) : Prop :=
  match bh_ElectionProof t with Some e => is_i64 (ep_WinCount e) | None => True end ∧
  Forall (λ b, is_u64 (be_Round b)) (bh_BeaconEntries t) ∧
  is_i64 (bh_Height t) ∧ is_u64 (bh_Timestamp t) ∧ is_u64 (bh_ForkSignaling t).

Definition message_in_range (t : Message) : Prop :=
  is_u64 (msg_Version t) ∧ is_u64 (msg_Nonce t) ∧ is_i64 (msg_GasLimit t) ∧ is_u64 (msg_Method t).

Lemma BlockHeader_codec t :
  header_in_range t → codec (BlockHeader_MarshalCBOR t) BlockHeader_UnmarshalCBOR t.
Proof.
  destruct t as [miner ticket el bs ps parents weight height root rcpts msgs agg ts sig fork fee].
  intros (He & Hb & Hh & Ht & Hf). cbn in He, Hb, Hh, Ht, Hf.
  array_record. field ltac:(apply codec_address). field ltac:(apply Ticket_or_null).
  field ltac:(by apply ElectionProof_or_null).
  field ltac:(apply codec_slice; eapply Forall_impl; [exact Hb|apply BeaconEntry_codec]).
  field ltac:(apply codec_slice, Forall_true, codec_post_proof).
  field ltac:(apply codec_slice, Forall_true; intros; apply codec_cid).
  field ltac:(apply codec_bigint). field ltac:(by apply codec_int64).
  do 3 field ltac:(apply codec_cid).
  field ltac:(apply codec_signature). field ltac:(by apply codec_uint64).
  field ltac:(apply codec_signature). field ltac:(by apply codec_uint64).
  apply (codec_end _ _ (MkBlockHeader miner ticket el bs ps parents weight height root rcpts msgs
    agg ts sig fork)), codec_bigint.
Qed.

Lemma Message_codec t : message_in_range t → codec (Message_MarshalCBOR t) Message_UnmarshalCBOR t.
Proof.
  destruct t as [ver to from nonce val lim cap prem meth par]. intros (Hv & Hn & Hl & Hm).
  cbn in Hv, Hn, Hl, Hm. array_record. field ltac:(by apply codec_uint64).
  do 2 field ltac:(apply codec_address). field ltac:(by apply codec_uint64).
  field ltac:(apply codec_bigint). field ltac:(by apply codec_int64).
  do 2 field ltac:(apply codec_bigint). field ltac:(by apply codec_uint64).
  apply (codec_end _ _ (MkMessage ver to from nonce val lim cap prem meth)), codec_byte_string.
Qed.

Lemma SignedMessage_codec t :
  message_in_range (sm_Message t) → codec (SignedMessage_MarshalCBOR t) SignedMessage_UnmarshalCBOR t.
Proof.
  destruct t as [m sig]. intros Hm. array_record. field ltac:(by apply codec_nested, Message_codec).
  apply (codec_end _ _ (MkSignedMessage m)), codec_wrapped. intros b Hb. by apply signature_rt.
Qed.

Lemma Actor_codec t : is_u64 (ar_Nonce t) → codec (Actor_MarshalCBOR t) Actor_UnmarshalCBOR t.
Proof.
  destruct t as [c h n b]. intros Hn. cbn in Hn. array_record. do 2 field ltac:(apply codec_cid).
  field ltac:(by apply codec_uint64). apply (codec_end _ _ (MkActorRecord c h n)), codec_bigint.
Qed.

Definition tipset_in_range (t : ExpTipSet) : Prop :=
  Forall (λ o, ∃ b, o = Some b ∧ header_in_range b) (ets_Blocks t) ∧ is_i64 (ets_Height t).

Lemma ExpTipSet_codec t : tipset_in_range t → codec (ExpTipSet_MarshalCBOR t) ExpTipSet_UnmarshalCBOR t.
Proof.
  destruct t as [cs bs h]. intros [Hb Hh]. cbn in Hb, Hh. array_record.
  field ltac:(apply codec_slice, Forall_true; intros; apply codec_cid).
  field ltac:(apply codec_slice; eapply Forall_impl; [exact Hb|]).
  { intros o (b & -> & Hr). by apply (codec_end _ _ Some), BlockHeader_codec. }
  by apply (codec_end _ _ (MkExpTipSet cs bs)), codec_int64.
Qed.

End laws.

(** ** Serialisation and identifiers (filecoin/types.go) *)

Section identifiers.
Context {CB : CborLib} {FL : FilLib}.
(** [abi.CidBuilder.Sum] *)
Context (Sum : bytes → error + cid).

Definition BlockHeader_Serialize (t : BlockHeader) : outcome error bytes := Dump (BlockHeader_MarshalCBOR t).
Definition Message_Serialize (t : Message) : outcome error bytes := Dump (Message_MarshalCBOR t).
Definition SignedMessage_Serialize (t : SignedMessage) : outcome error bytes := Dump (SignedMessage_MarshalCBOR t).

(** The storage block of a record: its bytes and their identifier. *)
Definition storage_block (data : outcome error bytes) : outcome error (bytes * cid) :=
  outcome_bind data (λ b, match Sum b with inl e => Err e | inr c => Ok (b, c) end).

Definition BlockHeader_ToStorageBlock (t : BlockHeader) : outcome error (bytes * cid) :=
  storage_block (BlockHeader_Serialize t).

Definition BlockHeader_Cid (t : BlockHeader) : outcome error cid :=
  match BlockHeader_ToStorageBlock t with
  | Ok (_, c) => Ok c
  | Err _ | Panic => Panic
  | Hang => Hang
  end.

End identifiers.

Lemma Dump_eq w b : Dump w = Ok b → w EmptyString = (b, Ok tt).
Proof. unfold Dump. destruct (w EmptyString) as [b' [[]| | |]]; intros [= <-]; done. Qed.

(** Two values whose encodings are the same bytes, read by the same reader. *)
Lemma codec_injective {A} w1 w2 (r : go bytes error A) (a1 a2 : A) b :
  codec w1 r a1 → codec w2 r a2 → Dump w1 = Ok b → Dump w2 = Ok b → a1 = a2.
Proof.
  intros H1 H2 D1%Dump_eq D2%Dump_eq.
  destruct (H1 _ _ D1) as (b1 & -> & Hr1). destruct (H2 _ _ D2) as (b2 & E & Hr2).
  apply string_app_inv_l in E as ->. specialize (Hr1 EmptyString). rewrite Hr2 in Hr1. by injection Hr1.
Qed.

(** Hashes identify what they are taken of. *)
Class HashLaws (Sum : bytes → error + cid) : Prop := {
  sum_defined : ∀ d c, Sum d = inr c → c ≠ Undef;
  sum_collision_free : ∀ d1 d2 c, Sum d1 = inr c → Sum d2 = inr c → d1 = d2
}.

(** ** The payment system with these codecs *)

Definition to_sum (o : outcome error bytes) : error + bytes :=
  match o with
  | Ok b => inr b
  | Err e => inl e
  | _ => inl (ErrMsg "unreachable")
  end.

(** The services of [PayChain] with the serialisation of this file. *)
Definition with_codecs {CB : CborLib} {FL : FilLib} {X} (env : Env X) : Env X :=
  MkEnv (api_GasEstimateMessageGas env) (api_StateGetActor env) (api_MpoolPush env) (api_StateWaitMsg env)
    (api_StateReadState env) (api_ChainReadObj env) (api_StateAccountKey env) (api_StateCall env)
    (api_ChainHead env) (blocks_Put env) (lanes_AsArray env) (wal_Sign env) (wal_SigTypeSig env)
    (wal_Verify env) (sv_SigningBytes env) (json_ActorState env) (block_check env)
    (λ m, to_sum (Message_Serialize m)) (λ m, to_sum (SignedMessage_Serialize m))
    (cid_Sum env) (cid_Bytes env) (params_Create env) (params_Update env) (exec_Return env).

Lemma to_sum_ok o b : to_sum o = inr b → o = Ok b.
Proof. destruct o; simpl; congruence. Qed.

(** ** A library with these laws *)

#[export] Instance bits_fil : FilLib := {|
  SignatureBytes o := match o with Some s => inr (write_value s) | None => inr CborNull end;
  ReadSignature := read_value;
  PoStProofBytes p := inr (write_value p);
  ReadPoStProof := read_value
|}.

#[export] Instance bits_fil_laws : FilLaws.
Proof.
  split; [done| |].
  - intros s b [= <-]. split; [by exists tagv, (wput s)|]. intros. apply read_value_write.
  - intros p b [= <-] rest. apply read_value_write.
Qed.

Definition sample_sum (d : bytes) : error + cid := inr (String (Ascii.ascii_of_nat 99) d).

#[export] Instance sample_hash_laws : HashLaws sample_sum.
Proof. split; unfold sample_sum; intros; simplify_eq; done. Qed.

Definition sample_block (ticket : bytes) (weight : Z) : option BlockHeader :=
  Some (MkBlockHeader "f01000" (Some (MkTicket ticket)) (Some (MkElectionProof 1 "win")) [MkBeaconEntry 7 "r"]
    [(3, "post")] ["p1"; "p2"] weight 120 "root" "receipts" "messages" None 1700000000
    (Some (1, "sig")) 0 100).

(** ** Properties *)

(** A block header is read back from its encoding as it was, whatever follows. *)
Theorem BlockHeader_roundtrip {CB : CborLib} {FL : FilLib} {LAWS : CborLaws} {FLAWS : FilLaws}
    (t : BlockHeader) (b rest : bytes) :
  header_in_range t → BlockHeader_Serialize t = Ok b →
  BlockHeader_UnmarshalCBOR (b +:+ rest) = (rest, Ok t).
Proof.
  intros Hr Hw%Dump_eq. destruct (BlockHeader_codec t Hr _ _ Hw) as (b' & -> & H). apply H.
Qed.

(** The reader of a record of [n] fields accepts no other number of fields. *)
Lemma fields_of {CB : CborLib} {A} n (r : go bytes error A) b rest a :
  (do* ReadFields n then r) b = (rest, Ok a) → ∃ b', CborReadHeader b = (b', Ok (MajArray, n)).
Proof.
  intros (b1 & [] & H & _)%go_bind_ok. unfold ReadFields in H.
  apply go_bind_ok in H as (b2 & [maj n'] & Hh & H). simpl in H.
  destruct (Z.eqb_spec maj MajArray) as [->|]; [|done]. destruct (Z.eqb_spec n' n) as [->|]; [|done].
  eauto.
Qed.

Lemma message_not_signed {CB : CborLib} {FL : FilLib} {LAWS : CborLaws} {FLAWS : FilLaws} m sm b :
  message_in_range m → message_in_range (sm_Message sm) →
  Message_Serialize m = Ok b → SignedMessage_Serialize sm ≠ Ok b.
Proof.
  intros Hm Hs D1%Dump_eq D2%Dump_eq.
  destruct (Message_codec m Hm _ _ D1) as (b1 & E1 & R1).
  destruct (SignedMessage_codec sm Hs _ _ D2) as (b2 & E2 & R2).
  rewrite E1 in E2. apply string_app_inv_l in E2 as ->.
  destruct (fields_of _ _ _ _ _ (R1 EmptyString)) as [? H1].
  destruct (fields_of _ _ _ _ _ (R2 EmptyString)) as [? H2]. congruence.
Qed.

(** What the identifier of a signed message is taken of. *)
Lemma SignedMessage_Cid_ok {CB : CborLib} {FL : FilLib} {X} (env : Env X) sm c :
  SignedMessage_Cid (with_codecs env) sm = Ok c →
  ∃ d, cid_Sum env d = inr c ∧
    (if (sm_Signature sm).1 =? SigTypeBLS then Message_Serialize (sm_Message sm) else SignedMessage_Serialize sm) = Ok d.
Proof.
  unfold SignedMessage_Cid, SignedMessage_ToStorageBlock, Message_Cid, Message_ToStorageBlock. cbn.
  destruct (_ =? _); (destruct (to_sum _) as [|d] eqn:E; [done|]; apply to_sum_ok in E;
    destruct (cid_Sum env d) eqn:Ec; [done|]; intros [= <-]; eauto).
Qed.

(** The identifier of a signed message determines the message, and its signature
    too unless it is a BLS one, which is left out of the identifier. *)
Theorem SignedMessage_Cid_identifies {CB : CborLib} {FL : FilLib} {LAWS : CborLaws} {FLAWS : FilLaws}
    {X} (env : Env X) {HL : HashLaws (cid_Sum env)} sm1 sm2 c :
  message_in_range (sm_Message sm1) → message_in_range (sm_Message sm2) →
  SignedMessage_Cid (with_codecs env) sm1 = Ok c → SignedMessage_Cid (with_codecs env) sm2 = Ok c →
  sm_Message sm1 = sm_Message sm2 ∧ ((sm_Signature sm1).1 ≠ SigTypeBLS → sm1 = sm2).
Proof.
  intros H1 H2 (d1 & C1 & D1)%SignedMessage_Cid_ok (d2 & C2 & D2)%SignedMessage_Cid_ok.
  rewrite (sum_collision_free _ _ _ C1 C2) in D1.
  destruct (Z.eqb_spec (sm_Signature sm1).1 SigTypeBLS), (Z.eqb_spec (sm_Signature sm2).1 SigTypeBLS).
  - split; [|done]. eapply codec_injective; [by apply Message_codec..|done|done].
  - by destruct (message_not_signed _ _ _ H1 H2 D1).
  - by destruct (message_not_signed _ _ _ H2 H1 D2).
  - assert (sm1 = sm2) as -> by (eapply codec_injective; [by apply SignedMessage_codec..|done|done]). done.
Qed.

(** ** Witnesses *)

Definition sample_header : BlockHeader :=
  match sample_block "t1" 5 with Some b => b | None => MkBlockHeader EmptyString None None [] [] [] 0 0
    EmptyString EmptyString EmptyString None 0 None 0 0 end.

Lemma BlockHeader_roundtrip_witness :
  BlockHeader_UnmarshalCBOR ((BlockHeader_MarshalCBOR sample_header EmptyString).1 +:+ "tail")
  = ("tail", Ok sample_header).
Proof.
  apply (BlockHeader_roundtrip sample_header).
  - unfold header_in_range. simpl. unfold is_i64, is_u64, two63, two64.
    repeat split; try lia. by repeat constructor.
  - vm_eq.
Defined.

Definition hash_env : Env unit :=
  MkEnv go_ret (λ _, go_ret (MkActor 7 0)) (λ _, go_ret "pushed")
    (λ _, go_ret (MkMsgLookup 0 "robust")) (λ _, go_ret "state") (λ _, go_ret "lanes")
    go_ret (λ _, go_ret 0) (go_ret 10) (λ _ _, go_ret tt) (λ _, go_ret [])
    (λ _ _, go_ret (1, "sig")) (λ _, None) (λ _ _ _, None) (λ _, inr "bytes")
    (λ _, inr (MkActorState "a" "b" 0 0 "lanecid")) (λ _ _, None) (λ _, inr "msg")
    (λ _, inr "smsg") sample_sum (λ c, c) (λ _ _, inr "create") (λ _ _, inr "update") (λ r, inr r).

Definition sample_message : Message := MkMessage 0 "f1to" "f1from" 7 100 1000 5 2 0 "params".
Definition bls_signed (sig : bytes) : SignedMessage := MkSignedMessage sample_message (SigTypeBLS, sig).

Lemma SignedMessage_Cid_identifies_witness :
  SignedMessage_Cid (with_codecs hash_env) (bls_signed "a") = SignedMessage_Cid (with_codecs hash_env) (bls_signed "b") ∧
  sm_Message (bls_signed "a") = sm_Message (bls_signed "b").
Proof.
  split; [vm_eq|].
  apply (SignedMessage_Cid_identifies (HL:=sample_hash_laws) hash_env (bls_signed "a") (bls_signed "b")
    (match sample_sum (Message_MarshalCBOR sample_message EmptyString).1 with inr c => c | inl _ => EmptyString end));
    [| |vm_eq|vm_eq]; unfold message_in_range; simpl; unfold is_i64, is_u64, two63, two64; lia.
Defined.
