(* ===== verification/TipSet.v ===== *)
(** * Tipsets (filecoin/types.go)

    A tipset is a set of blocks of the same height with the same parents, kept in
    the order of their tickets; its key is the concatenation of the identifiers of
    its blocks. *)
From S2P Require Import Prelude Deal PayTypes Cbor PayChain FilCodec.

(** Identifiers as bytes (go-cid). *)
Class CidLib : Type := {
  Cid_Bytes : cid → bytes;
  CidFromBytes : bytes → error + Z * cid
}.

(** The bytes of an identifier are self-delimiting. *)
Class CidLaws {CL : CidLib} : Prop := {
  cid_nonempty : ∀ c, c ≠ Undef → Cid_Bytes c ≠ EmptyString;
  cid_from_bytes : ∀ c rest, c ≠ Undef → CidFromBytes (Cid_Bytes c +:+ rest) = inr (len (Cid_Bytes c), c)
}.

(** ** Keys *)

Section keys.
Context {CL : CidLib}.

Record TipSetKey : Type := MkTipSetKey { tsk_value : bytes }.

Definition EmptyTSK : TipSetKey := MkTipSetKey EmptyString.

Fixpoint encodeKey (cids : list cid) : bytes :=
  match cids with
  | [] => EmptyString
  | c :: cids' => Cid_Bytes c +:+ encodeKey cids'
  end.

(** The rest of a string from an index on. *)
Definition drop_bytes (n : Z) (s : bytes) : bytes :=
  String.substring (Z.to_nat n) (String.length s - Z.to_nat n) s.

(** The loop of [decodeKey] on what is left of the key; it stops for good only if
    each identifier takes at least one byte. *)
Fixpoint decode_loop (fuel : nat) (left : bytes) : outcome error (list cid) :=
  match left with
  | EmptyString => Ok []
  | _ =>
    match fuel with
    | O => Hang
    | S fuel' =>
      match CidFromBytes left with
      | inl e => Err e
      | inr (nr, c) => outcome_bind (decode_loop fuel' (drop_bytes nr left)) (λ l, Ok (c :: l))
      end
    end
  end.

Definition decodeKey (encoded : bytes) : outcome error (list cid) :=
  decode_loop (String.length encoded) encoded.

Definition NewTipSetKey (cids : list cid) : TipSetKey := MkTipSetKey (encodeKey cids).

Definition TipSetKeyFromBytes (encoded : bytes) : outcome error TipSetKey :=
  outcome_bind (decodeKey encoded) (λ _, Ok (MkTipSetKey encoded)).

Definition TipSetKey_Cids (k : TipSetKey) : outcome error (list cid) :=
  match decodeKey (tsk_value k) with
  | Err _ => Panic
  | r => r
  end.

Lemma drop_bytes_app a b : drop_bytes (len a) (a +:+ b) = b.
Proof. unfold drop_bytes, len. rewrite Nat2Z.id. apply substring_full. Qed.

Context {LAWS : CidLaws}.

Lemma decode_encode cids fuel :
  Forall (λ c, c ≠ Undef) cids → (String.length (encodeKey cids) <= fuel)%nat →
  decode_loop fuel (encodeKey cids) = Ok cids.
Proof.
  intros Hc. revert fuel. induction Hc as [|c cids Hc _ IH]; intros fuel Hf; [by destruct fuel|].
  cbn [encodeKey] in *. pose proof (cid_nonempty c Hc) as Hne. rewrite string_length_app in Hf.
  assert (0 < String.length (Cid_Bytes c))%nat as Hpos by (destruct (Cid_Bytes c); [done|simpl; lia]).
  destruct fuel as [|fuel]; [lia|]. cbn [decode_loop]. rewrite cid_from_bytes by done.
  rewrite drop_bytes_app. destruct (Cid_Bytes c) as [|x b]; [done|]. cbn. rewrite IH by (cbn in Hf; lia). done.
Qed.

End keys.

(** ** Tipsets *)

Record TipSetT : Type := MkTipSet {
  ts_cids : list cid;
  ts_blks : list (option BlockHeader);
  ts_height : Z
}.

Section tipset.
Context {CB : CborLib} {FL : FilLib} {CL : CidLib}.
(** [abi.CidBuilder.Sum] and [blake2b.Sum256]. *)
Context (Sum : bytes → error + cid) (Sum256 : bytes → bytes).

Definition Ticket_Equals (t ot : Ticket) : bool := String.eqb (tk_VRFProof t) (tk_VRFProof ot).

Definition Ticket_Less (t o : Ticket) : bool :=
  String.ltb (Sum256 (tk_VRFProof t)) (Sum256 (tk_VRFProof o)).

(** [tipsetSortFunc]; a nil block or ticket is dereferenced. *)
Definition tipsetSortFunc (bi bj : option BlockHeader) : outcome error bool :=
  match bi, bj with
  | Some bi, Some bj =>
    match bh_Ticket bi, bh_Ticket bj with
    | Some ti, Some tj =>
      if Ticket_Equals ti tj
      then outcome_bind (BlockHeader_Cid Sum bi) (λ ci,
           outcome_bind (BlockHeader_Cid Sum bj) (λ cj,
           Ok (String.ltb (Cid_Bytes ci) (Cid_Bytes cj))))
      else Ok (Ticket_Less ti tj)
    | _, _ => Panic
    end
  | _, _ => Panic
  end.

(** [sort.Slice] as insertion: the sorted part is kept from its end. *)
Fixpoint sift (x : option BlockHeader) (sorted : list (option BlockHeader))
    : outcome error (list (option BlockHeader)) :=
  match sorted with
  | [] => Ok [x]
  | y :: ys =>
    outcome_bind (tipsetSortFunc x y) (λ less,
    if less then outcome_bind (sift x ys) (λ l, Ok (y :: l)) else Ok (x :: y :: ys))
  end.

Fixpoint sort_from (sorted l : list (option BlockHeader)) : outcome error (list (option BlockHeader)) :=
  match l with
  | [] => Ok (reverse sorted)
  | x :: l' => outcome_bind (sift x sorted) (λ s, sort_from s l')
  end.

Definition Slice (l : list (option BlockHeader)) : outcome error (list (option BlockHeader)) :=
  sort_from [] l.

(** The loop over the blocks after the first. *)
Fixpoint check_blocks (first : BlockHeader) (l : list (option BlockHeader)) (cids : list cid)
    : outcome error (list cid) :=
  match l with
  | [] => Ok cids
  | None :: _ => Panic
  | Some b :: l' =>
    if negb (bh_Height b =? bh_Height first)
    then Err (ErrMsg "cannot create tipset with mismatching heights")
    else if negb (length (bh_Parents first) =? length (bh_Parents b))%nat
    then Err (ErrMsg "cannot create tipset with mismatching number of parents")
    else if negb (forallb (λ p, String.eqb p.1 p.2) (zip (bh_Parents b) (bh_Parents first)))
    then Err (ErrMsg "cannot create tipset with mismatching parents")
    else outcome_bind (BlockHeader_Cid Sum b) (λ c, check_blocks first l' (cids ++ [c]))
  end.

Definition NewTipSet (blks : list (option BlockHeader)) : outcome error TipSetT :=
  match blks with
  | [] => Err (ErrMsg "NewTipSet called with zero length array of blocks")
  | _ =>
    outcome_bind (Slice blks) (λ blks,
    match blks with
    | Some b0 :: rest =>
      outcome_bind (BlockHeader_Cid Sum b0) (λ c0,
      outcome_bind (check_blocks b0 rest [c0]) (λ cids,
      Ok (MkTipSet cids blks (bh_Height b0))))
    | _ => Panic (* a nil block alone: its height is read *)
    end)
  end.

Definition TipSet_Height (ts : TipSetT) : Z := ts_height ts.

Definition TipSet_Key (ts : option TipSetT) : TipSetKey :=
  match ts with
  | None => EmptyTSK
  | Some ts => NewTipSetKey (ts_cids ts)
  end.

End tipset.

(** ** What a tipset is made of *)

Lemma outcome_bind_ok {E A B} (m : outcome E A) (k : A → outcome E B) b :
  outcome_bind m k = Ok b → ∃ a, m = Ok a ∧ k a = Ok b.
Proof. destruct m; simpl; naive_solver. Qed.

Section laws.
Context {CB : CborLib} {FL : FilLib} {CL : CidLib}.
Context (Sum : bytes → error + cid) (Sum256 : bytes → bytes).

#[local] Abbreviation less := (tipsetSortFunc Sum Sum256).

Lemma sift_perm x s l : sift Sum Sum256 x s = Ok l → l ≡ₚ x :: s.
Proof.
  revert l. induction s as [|y s IH]; intros l; simpl; [by intros [= <-]|].
  intros (b & _ & H)%outcome_bind_ok. destruct b; [|by injection H as <-].
  apply outcome_bind_ok in H as (l' & Hl & [= <-]). rewrite (IH _ Hl). constructor.
Qed.

Lemma sort_from_perm s l l' : sort_from Sum Sum256 s l = Ok l' → l' ≡ₚ s ++ l.
Proof.
  revert s. induction l as [|x l IH]; intros s; simpl.
  - intros [= <-]. by rewrite app_nil_r, reverse_Permutation.
  - intros (s' & Hs & Hl)%outcome_bind_ok. rewrite (IH _ Hl), (sift_perm _ _ _ Hs).
    simpl. apply Permutation_middle.
Qed.

Lemma Slice_perm l l' : Slice Sum Sum256 l = Ok l' → l' ≡ₚ l.
Proof. apply sort_from_perm. Qed.

Lemma zip_equal (l k : list cid) :
  length l = length k → forallb (λ p, String.eqb p.1 p.2) (zip k l) = true → k = l.
Proof.
  revert k. induction l as [|x l IH]; intros [|y k]; try done. simpl. intros [= Hl].
  intros [E%String.eqb_eq Hk]%andb_true_iff. by rewrite E, (IH k).
Qed.

(** The blocks of a tipset agree with the first one. *)
Definition agrees (first : BlockHeader) (o : option BlockHeader) (c : cid) : Prop :=
  ∃ b, o = Some b ∧ bh_Height b = bh_Height first ∧ bh_Parents b = bh_Parents first ∧
       BlockHeader_Cid Sum b = Ok c.

Lemma check_blocks_ok first l cids cids' :
  check_blocks Sum first l cids = Ok cids' → ∃ cs, cids' = cids ++ cs ∧ Forall2 (agrees first) l cs.
Proof.
  revert cids. induction l as [|[b|] l IH]; intros cids; simpl.
  - intros [= <-]. exists []. by rewrite app_nil_r.
  - destruct (negb _) eqn:Eh; [done|]. destruct (negb _) eqn:En in |- *; [done|].
    destruct (negb _) eqn:Ep in |- *; [done|]. intros (c & Hc & H)%outcome_bind_ok.
    apply IH in H as (cs & -> & Hcs). exists (c :: cs). rewrite <-app_assoc. split; [done|].
    constructor; [|done]. exists b. apply negb_false_iff in Eh, En, Ep.
    apply Z.eqb_eq in Eh. apply Nat.eqb_eq in En. split_and!; [done..|by apply zip_equal|done].
  - done.
Qed.

(** ** The order of the blocks *)

(** What the blocks are ordered by: the digest of the ticket, then the identifier. *)
Definition block_key (o : option BlockHeader) : bytes * bytes :=
  match o with
  | Some b =>
    (match bh_Ticket b with Some t => Sum256 (tk_VRFProof t) | None => EmptyString end,
     match BlockHeader_Cid Sum b with Ok c => Cid_Bytes c | _ => EmptyString end)
  | None => (EmptyString, EmptyString)
  end.

Definition key_le (k1 k2 : bytes * bytes) : Prop :=
  (k1.1 = k2.1 ∧ String.le k1.2 k2.2) ∨ (String.le k1.1 k2.1 ∧ k1.1 ≠ k2.1).

Definition block_le (o1 o2 : option BlockHeader) : Prop := key_le (block_key o1) (block_key o2).

#[local] Instance block_le_trans : Transitive block_le.
Proof.
  intros o1 o2 o3. unfold block_le, key_le.
  destruct (block_key o1) as [d1 c1], (block_key o2) as [d2 c2], (block_key o3) as [d3 c3]. simpl.
  intros [[-> H]|[H Hn]] [[-> H']|[H' Hn']]; eauto.
  - left. split; [done|]. by etrans.
  - right. split; [by etrans|]. intros ->. apply Hn. by apply (anti_symm String.le).
Qed.

(** A block that can be compared: it has a ticket and an identifier. *)
Definition comparable (o : option BlockHeader) : Prop :=
  ∃ b t c, o = Some b ∧ bh_Ticket b = Some t ∧ BlockHeader_Cid Sum b = Ok c.

(** Different tickets of the blocks have different digests. *)
Definition no_collision (l : list (option BlockHeader)) : Prop :=
  ∀ b1 b2 t1 t2, Some b1 ∈ l → Some b2 ∈ l → bh_Ticket b1 = Some t1 → bh_Ticket b2 = Some t2 →
    Sum256 (tk_VRFProof t1) = Sum256 (tk_VRFProof t2) → t1 = t2.

Lemma ltb_le (a b : string) : if String.ltb a b then String.le a b ∧ a ≠ b else String.le b a.
Proof.
  unfold String.ltb, String.le, String.leb. rewrite (String.compare_antisym b a).
  destruct (String.compare a b) eqn:E; simpl; [done| |done]. split; [done|]. intros ->.
  pose proof (String.compare_antisym b b) as H. rewrite E in H. done.
Qed.

Lemma less_spec l x y :
  no_collision l → comparable x → comparable y → x ∈ l → y ∈ l →
  ∃ r, less x y = Ok r ∧ if r then block_le x y else block_le y x.
Proof.
  intros Hc (b1 & t1 & c1 & -> & Ht1 & Hc1) (b2 & t2 & c2 & -> & Ht2 & Hc2) Hx Hy.
  unfold tipsetSortFunc, block_le, key_le, block_key. rewrite Ht1, Ht2, Hc1, Hc2. simpl.
  unfold Ticket_Equals. destruct (String.eqb_spec (tk_VRFProof t1) (tk_VRFProof t2)) as [E|Hne].
  - eexists. split; [reflexivity|]. pose proof (ltb_le (Cid_Bytes c1) (Cid_Bytes c2)) as Hl.
    rewrite E. destruct (String.ltb _ _); naive_solver.
  - eexists. split; [reflexivity|]. unfold Ticket_Less.
    pose proof (ltb_le (Sum256 (tk_VRFProof t1)) (Sum256 (tk_VRFProof t2))) as Hl.
    destruct (String.ltb _ _); [naive_solver|]. right. split; [done|]. intros E.
    apply Hne. by rewrite (Hc b1 b2 t1 t2).
Qed.

(** Insertion keeps the sorted part in order, from its end. *)
Definition descending : list (option BlockHeader) → Prop := StronglySorted (flip block_le).

Lemma sift_sorted l x s :
  no_collision l → Forall comparable l → x ∈ l → s ⊆ l → descending s →
  ∃ s', sift Sum Sum256 x s = Ok s' ∧ descending s'.
Proof.
  intros Hc Hl Hx Hs Hd. rewrite Forall_forall in Hl.
  induction Hd as [|y s Hd IH Hy]; simpl; [eexists; split; [done|by repeat constructor]|].
  destruct (less_spec l x y) as (r & -> & Hr); [by auto|by auto|set_solver|done|set_solver|].
  simpl. destruct r.
  - destruct IH as (s' & Hs' & Hd'); [set_solver|]. rewrite Hs'. eexists. split; [done|].
    constructor; [done|]. rewrite (sift_perm _ _ _ Hs'). by constructor.
  - eexists. split; [done|]. constructor; [by constructor|]. constructor; [done|].
    eapply Forall_impl; [exact Hy|]. intros z Hz. simpl in *. by etrans.
Qed.

Lemma descending_reverse s : descending s → StronglySorted block_le (reverse s).
Proof.
  induction 1 as [|x s Hs IH Hx]; [constructor|]. rewrite reverse_cons. apply StronglySorted_app_2.
  - intros y z Hy Hz. apply list_elem_of_singleton in Hz as ->. rewrite elem_of_reverse in Hy.
    by rewrite Forall_forall in Hx; apply Hx.
  - done.
  - by repeat constructor.
Qed.

Lemma sort_from_sorted l s rest :
  no_collision l → Forall comparable l → s ⊆ l → rest ⊆ l → descending s →
  ∃ s', sort_from Sum Sum256 s rest = Ok s' ∧ StronglySorted block_le s'.
Proof.
  intros Hc Hl. revert s. induction rest as [|x rest IH]; intros s Hs Hr Hd; simpl.
  - eexists. split; [done|]. by apply descending_reverse.
  - destruct (sift_sorted l x s) as (s' & Hs' & Hd'); [done..|set_solver|done|done|].
    rewrite Hs'. simpl. apply IH; [|set_solver|done].
    intros z. rewrite (sift_perm _ _ _ Hs'). set_solver.
Qed.

Lemma Slice_sorted l :
  no_collision l → Forall comparable l → ∃ l', Slice Sum Sum256 l = Ok l' ∧ StronglySorted block_le l'.
Proof. intros Hc Hl. apply (sort_from_sorted l); [done|done|set_solver|done|constructor]. Qed.

(** ** Identifiers of blocks *)

Context {LAWS : CborLaws} {FLAWS : FilLaws} {CLAWS : CidLaws} {HLAWS : HashLaws Sum}.

Lemma Cid_Bytes_inj c1 c2 : c1 ≠ Undef → c2 ≠ Undef → Cid_Bytes c1 = Cid_Bytes c2 → c1 = c2.
Proof.
  intros H1 H2 E. pose proof (cid_from_bytes c1 EmptyString H1) as R1.
  pose proof (cid_from_bytes c2 EmptyString H2) as R2. rewrite E in R1. congruence.
Qed.

Lemma BlockHeader_Cid_ok b c :
  BlockHeader_Cid Sum b = Ok c → ∃ d, Dump (BlockHeader_MarshalCBOR b) = Ok d ∧ Sum d = inr c.
Proof.
  unfold BlockHeader_Cid, BlockHeader_ToStorageBlock, storage_block, BlockHeader_Serialize.
  destruct (Dump (BlockHeader_MarshalCBOR b)) as [d| | |]; simpl; try done.
  destruct (Sum d) as [e|c'] eqn:E; simpl; intros [= <-]. eauto.
Qed.

(** A block is known by the bytes of its identifier. *)
Lemma block_identified b1 b2 c1 c2 :
  header_in_range b1 → header_in_range b2 →
  BlockHeader_Cid Sum b1 = Ok c1 → BlockHeader_Cid Sum b2 = Ok c2 →
  Cid_Bytes c1 = Cid_Bytes c2 → b1 = b2.
Proof.
  intros Hr1 Hr2 (d1 & D1 & S1)%BlockHeader_Cid_ok (d2 & D2 & S2)%BlockHeader_Cid_ok E.
  apply Cid_Bytes_inj in E as ->; [|by eapply sum_defined..].
  rewrite (sum_collision_free _ _ _ S1 S2) in D1.
  eapply codec_injective; [by apply BlockHeader_codec..|done|done].
Qed.

Definition in_range (o : option BlockHeader) : Prop := ∃ b, o = Some b ∧ header_in_range b.

Lemma block_le_antisym o1 o2 :
  comparable o1 → comparable o2 → in_range o1 → in_range o2 →
  block_le o1 o2 → block_le o2 o1 → o1 = o2.
Proof.
  intros (b1 & t1 & c1 & -> & Ht1 & Hc1) (b2 & t2 & c2 & -> & Ht2 & Hc2) (? & [= <-] & R1) (? & [= <-] & R2).
  unfold block_le, key_le, block_key. rewrite Ht1, Ht2, Hc1, Hc2. simpl. intros H1 H2.
  f_equal. apply (block_identified b1 b2 c1 c2); [done..|].
  destruct H1 as [[E H1]|[H1 Hn]], H2 as [[E' H2]|[H2 Hn']]; try (by exfalso; auto).
  - by apply (anti_symm String.le).
  - exfalso. apply Hn. by apply (anti_symm String.le).
Qed.

Lemma Slice_canonical l1 l2 :
  l1 ≡ₚ l2 → no_collision l1 → Forall comparable l1 → Forall in_range l1 →
  Slice Sum Sum256 l1 = Slice Sum Sum256 l2.
Proof.
  intros Hp Hc Hl Hr.
  destruct (Slice_sorted l1) as (s1 & E1 & S1); [done..|].
  destruct (Slice_sorted l2) as (s2 & E2 & S2).
  { intros b1 b2 t1 t2. rewrite <-Hp. apply Hc. }
  { by rewrite <-Hp. }
  rewrite E1, E2. f_equal. rewrite Forall_forall in Hl, Hr.
  pose proof (Slice_perm _ _ E1) as P1. pose proof (Slice_perm _ _ E2) as P2.
  apply (StronglySorted_unique_strong block_le); [|done..|by rewrite P1, P2].
  intros x1 x2. rewrite P1, P2, <-Hp. intros Hx1 Hx2. apply block_le_antisym; auto.
Qed.

End laws.

(** ** Properties *)

(** The blocks of a tipset are those it was made from; they all have its height
    and the parents of the first one, and its identifiers are theirs, in order. *)
Theorem NewTipSet_ok {CB : CborLib} {FL : FilLib} {CL : CidLib} Sum Sum256 blks ts :
  NewTipSet Sum Sum256 blks = Ok ts →
  ts_blks ts ≡ₚ blks ∧
  ∃ first, head (ts_blks ts) = Some (Some first) ∧ TipSet_Height ts = bh_Height first ∧
    Forall2 (agrees Sum first) (ts_blks ts) (ts_cids ts).
Proof.
  destruct blks as [|b blks]; [done|]. unfold NewTipSet. intros (l & Hl & H)%outcome_bind_ok.
  destruct l as [|[b0|] rest]; try done.
  apply outcome_bind_ok in H as (c0 & Hc0 & H). apply outcome_bind_ok in H as (cids & Hcs & [= <-]).
  split; [by apply Slice_perm in Hl|]. exists b0. split_and!; [done|done|].
  apply check_blocks_ok in Hcs as (cs & -> & Hcs). simpl. constructor; [by exists b0|done].
Qed.

(** The order in which the blocks are given does not matter. *)
Theorem NewTipSet_canonical {CB : CborLib} {FL : FilLib} {CL : CidLib} Sum Sum256
    {LAWS : CborLaws} {FLAWS : FilLaws} {CLAWS : CidLaws} {HLAWS : HashLaws Sum} l1 l2 :
  l1 ≡ₚ l2 → no_collision Sum256 l1 → Forall (comparable Sum) l1 → Forall in_range l1 →
  NewTipSet Sum Sum256 l1 = NewTipSet Sum Sum256 l2.
Proof.
  intros Hp Hc Hl Hr. unfold NewTipSet. destruct l1 as [|b1 l1].
  { apply Permutation_nil_l in Hp. by subst l2. }
  destruct l2 as [|b2 l2]; [by apply Permutation_nil_r in Hp|].
  by rewrite (Slice_canonical Sum Sum256 _ _ Hp Hc Hl Hr).
Qed.

(** The key of a tipset gives its identifiers back. *)
Theorem TipSet_Key_Cids {CL : CidLib} {CLAWS : CidLaws} ts :
  Forall (λ c, c ≠ Undef) (ts_cids ts) → TipSetKey_Cids (TipSet_Key (Some ts)) = Ok (ts_cids ts).
Proof.
  intros H. unfold TipSetKey_Cids, decodeKey. simpl. by rewrite decode_encode.
Qed.

(** ** Sample data *)

#[export] Instance bits_cids : CidLib := {|
  Cid_Bytes c := write_value c;
  CidFromBytes r :=
    match read_value (A:=string) r with
    | (rest, Ok c) => inr (len r - len rest, c)
    | (_, _) => inl ErrUnexpectedEOF
    end
|}.

#[export] Instance bits_cid_laws : CidLaws.
Proof.
  split; [done|]. intros c rest _. simpl. rewrite read_value_write.
  do 2 f_equal. unfold len. rewrite string_length_app. lia.
Qed.

Definition sample_blocks : list (option BlockHeader) :=
  [sample_block "t2" 5; sample_block "t1" 5; sample_block "t1" 4].

Definition sample_digest (d : bytes) : bytes := d.

Definition sample_tipset : outcome error TipSetT := NewTipSet sample_sum sample_digest sample_blocks.

Definition the_tipset : TipSetT :=
  match sample_tipset with Ok ts => ts | _ => MkTipSet [] [] 0 end.

Lemma NewTipSet_ok_witness : ts_blks the_tipset ≡ₚ sample_blocks ∧ length (ts_cids the_tipset) = 3%nat.
Proof.
  split; [|vm_eq]. apply (NewTipSet_ok sample_sum sample_digest sample_blocks the_tipset). vm_eq.
Defined.

Lemma NewTipSet_canonical_witness :
  NewTipSet sample_sum sample_digest sample_blocks = NewTipSet sample_sum sample_digest (reverse sample_blocks).
Proof.
  apply (NewTipSet_canonical sample_sum sample_digest sample_blocks (reverse sample_blocks)).
  - symmetry. apply reverse_Permutation.
  - intros b1 b2 [t1] [t2] _ _ _ _ E. f_equal. exact E.
  - repeat constructor; (eexists _, _, _; split; [reflexivity|split; [reflexivity|vm_compute; reflexivity]]).
  - repeat constructor; (eexists; split; [reflexivity|]; unfold header_in_range; simpl;
      unfold is_i64, is_u64, two63, two64; repeat split; try lia; by repeat constructor).
Defined.

Lemma TipSet_Key_Cids_witness : TipSetKey_Cids (TipSet_Key (Some the_tipset)) = Ok (ts_cids the_tipset).
Proof. apply (TipSet_Key_Cids the_tipset). apply Forall_forall. vm_compute. set_solver. Defined.
