(* ===== verification/Wallet.v ===== *)
(** * The wallet (wallet/wallet.go, wallet/secp.go)

    Keys kept in a keystore, with a cache of the ones used; signatures; the
    balance of an address and transfers.  The keystore, the curve, addresses and
    the chain are libraries and services. *)
From S2P Require Import Prelude Deal PayTypes Cbor PayChain Fil FilCodec TipSet.

(** ** Interfaces *)

(** The part of libp2p's [PrivKey] the wallet reads. *)
Record PrivKey : Type := MkPrivKey {
  pk_Type : Z;
  pk_Raw : error + bytes
}.

Definition KeyType_RSA : Z := 0.
Definition KeyType_Secp256k1 : Z := 2.

(** [keystore.Keystore] of go-ipfs-keystore. *)
Class Keystore (K : Type) : Type := {
  ks_Put : string → PrivKey → go K error unit;
  ks_Get : string → go K error PrivKey;
  ks_Delete : string → go K error unit;
  ks_List : go K error (list string)
}.

(** A keystore holds what was put, never overwrites it and lists all names.  Keys of
    other types than secp256k1 need not be read back. *)
Class KeystoreLaws (K : Type) {KS : Keystore K} : Type := {
  ks_view : K → gmap string PrivKey;
  ks_put_ok : ∀ n p s s', ks_Put n p s = (s', Ok tt) →
    ks_view s !! n = None ∧ ks_view s' = <[n := p]> (ks_view s);
  ks_put_err : ∀ n p s s' e, ks_Put n p s = (s', Err e) → ks_view s' = ks_view s;
  ks_get_some : ∀ n p s, ks_view s !! n = Some p → pk_Type p = KeyType_Secp256k1 → ks_Get n s = (s, Ok p);
  ks_get_ok : ∀ n p s s', ks_Get n s = (s', Ok p) → ks_view s !! n = Some p;
  ks_get_pure : ∀ n s, (ks_Get n s).1 = s;
  ks_delete_ok : ∀ n s s', ks_Delete n s = (s', Ok tt) → ks_view s' = delete n (ks_view s);
  ks_delete_err : ∀ n s s' e, ks_Delete n s = (s', Err e) → ks_view s' = ks_view s;
  ks_list_ok : ∀ s s' l, ks_List s = (s', Ok l) → s' = s ∧ NoDup l ∧ ∀ n, n ∈ l ↔ is_Some (ks_view s !! n);
}.

(** Addresses (go-address) and the curve (go-crypto, blake2b); keys are generated
    from a source of randomness [R]. *)
Class WalletLib (R : Type) : Type := {
  addr_String : address → string;
  NewFromString : string → error + address;
  NewSecp256k1Address : bytes → error + address;
  NewBLSAddress : bytes → error + address;
  GenerateKey : go R error bytes;
  PublicKey : bytes → bytes;
  curve_Sign : bytes → bytes → error + bytes;
  EcRecover : bytes → bytes → error + bytes;
  Sum256 : bytes → bytes
}.

Class WalletLaws (R : Type) {WL : WalletLib R} : Prop := {
  from_string : ∀ a, a ≠ Undef → NewFromString (addr_String a) = inr a;
  string_inj : ∀ a b, addr_String a = addr_String b → a = b;
  secp_defined : ∀ pub a, NewSecp256k1Address pub = inr a → a ≠ Undef;
  bls_defined : ∀ pub a, NewBLSAddress pub = inr a → a ≠ Undef;
  recover_sign : ∀ pk h sig, curve_Sign pk h = inr sig → EcRecover h sig = inr (PublicKey pk)
}.

(** [filecoin.API], as far as the wallet calls it. *)
Record FilAPI (X : Type) : Type := MkFilAPI {
  fil_StateBalance : address → go X error Z;   (* the balance of StateReadState *)
  fil_GasEstimateMessageGas : Message → go X error Message;
  fil_StateGetActor : address → go X error Actor;
  fil_MpoolPush : SignedMessage → go X error cid;
  fil_StateWaitMsg : cid → go X error MsgLookup
}.
Arguments MkFilAPI {X}.
Arguments fil_StateBalance {X}.
Arguments fil_GasEstimateMessageGas {X}.
Arguments fil_StateGetActor {X}.
Arguments fil_MpoolPush {X}.
Arguments fil_StateWaitMsg {X}.

Definition KNamePrefix : string := "wallet-".
Definition KDefault : string := "default".

Definition KTSecp256k1 : string := "secp256k1".
Definition KTBLS : string := "bls".

Definition ErrNoAPI : error := ErrMsg "no filecoin api connected".

(** Numbers of the signature types (go-state-types). *)
Definition SigTypeUnknown : Z := 255.
Definition SigTypeSecp256k1 : Z := 1.

(** ** Signers and keys *)

Record Signer (R : Type) : Type := MkSigner {
  GenPrivate : go R error bytes;
  ToPublic : bytes → error + bytes;
  signer_Sign : bytes → bytes → error + bytes;
  signer_Verify : bytes → address → bytes → option error
}.
Arguments MkSigner {R}.
Arguments GenPrivate {R}.
Arguments ToPublic {R}.
Arguments signer_Sign {R}.
Arguments signer_Verify {R}.

Record KeyInfo (R : Type) : Type := MkKeyInfo {
  ki_KType : string;
  ki_PrivateKey : bytes;
  ki_sig : option (Signer R)
}.
Arguments MkKeyInfo {R}.
Arguments ki_KType {R}.
Arguments ki_PrivateKey {R}.
Arguments ki_sig {R}.

Record Key (R : Type) : Type := MkKey {
  k_KeyInfo : KeyInfo R;
  k_PublicKey : bytes;
  k_Address : address
}.
Arguments MkKey {R}.
Arguments k_KeyInfo {R}.
Arguments k_PublicKey {R}.
Arguments k_Address {R}.

Section keys.
Context {R : Type} {WL : WalletLib R}.

(** [secp]: signatures of the digest of a message, verified by recovering the
    public key. *)
Definition secp_Verify (sig : bytes) (a : address) (msg : bytes) : option error :=
  match EcRecover (Sum256 msg) sig with
  | inl err => Some err
  | inr pubk =>
    match NewSecp256k1Address pubk with
    | inl err => Some err
    | inr maybeaddr => if String.eqb a maybeaddr then None else Some (ErrMsg "signature did not match")
    end
  end.

Definition secp : Signer R :=
  MkSigner GenerateKey (λ pk, inr (PublicKey pk)) (λ pk msg, curve_Sign pk (Sum256 msg)) secp_Verify.

Definition Key_Type (k : Key R) : Z :=
  if String.eqb (ki_KType (k_KeyInfo k)) KTSecp256k1 then KeyType_Secp256k1
  else if String.eqb (ki_KType (k_KeyInfo k)) KTBLS then 4
  else KeyType_RSA.

Definition Key_Raw (k : Key R) : error + bytes := inr (ki_PrivateKey (k_KeyInfo k)).

(** A key as the keystore sees it. *)
Definition as_priv (k : Key R) : PrivKey := MkPrivKey (Key_Type k) (Key_Raw k).

Definition Key_Equals (k : Key R) (o : PrivKey) : bool :=
  match pk_Raw o with
  | inr raw => String.eqb (ki_PrivateKey (k_KeyInfo k)) raw
  | inl _ => String.eqb (ki_PrivateKey (k_KeyInfo k)) EmptyString
  end.

Definition from_lib {A} (r : error + A) : outcome error A :=
  match r with inl e => Err e | inr a => Ok a end.

(** The signer of a key read from the outside may be missing: calling it panics. *)
Definition with_signer {A} (s : option (Signer R)) (k : Signer R → outcome error A) : outcome error A :=
  match s with Some s => k s | None => Panic end.

Definition Key_Sign (k : Key R) (data : bytes) : outcome error bytes :=
  with_signer (ki_sig (k_KeyInfo k)) (λ s, from_lib (signer_Sign s (ki_PrivateKey (k_KeyInfo k)) data)).

Definition Key_Verify (k : Key R) (data sig : bytes) : outcome error bool :=
  with_signer (ki_sig (k_KeyInfo k)) (λ s,
    match signer_Verify s sig (k_Address k) data with Some e => Err e | None => Ok true end).

Definition NewKeyFromKeyInfo (ki : KeyInfo R) : outcome error (Key R) :=
  outcome_bind (with_signer (ki_sig ki) (λ s, from_lib (ToPublic s (ki_PrivateKey ki)))) (λ pub,
  if String.eqb (ki_KType ki) KTSecp256k1
  then outcome_bind (from_lib (NewSecp256k1Address pub)) (λ a, Ok (MkKey ki pub a))
  else if String.eqb (ki_KType ki) KTBLS
  then outcome_bind (from_lib (NewBLSAddress pub)) (λ a, Ok (MkKey ki pub a))
  else Err (ErrMsg "key type not supported")).

Definition KeyTypeSig (typ : string) (sigs : gmap string (Signer R)) : outcome error (Signer R) :=
  match sigs !! typ with
  | Some sig => Ok sig
  | None => Err (ErrMsg ("key type not supported: " +:+ typ))
  end.

Definition SigTypeSig (st : Z) (sigs : gmap string (Signer R)) : outcome error (Signer R) :=
  if st =? SigTypeSecp256k1 then KeyTypeSig KTSecp256k1 sigs
  else if st =? SigTypeBLS then KeyTypeSig KTBLS sigs
  else Err (ErrMsg "sig type not supported").

Definition ActSigType (typ : string) : Z :=
  if String.eqb typ KTBLS then SigTypeBLS
  else if String.eqb typ KTSecp256k1 then SigTypeSecp256k1
  else SigTypeUnknown.

Definition NewKeyFromLibp2p (pk : PrivKey) (sigs : gmap string (Signer R)) : outcome error (Key R) :=
  outcome_bind
    (if pk_Type pk =? KeyType_Secp256k1 then Ok KTSecp256k1
     else if pk_Type pk =? 4 then Ok KTBLS
     else Err (ErrMsg "key type not supported")) (λ tp,
  outcome_bind (from_lib (pk_Raw pk)) (λ raw,
  outcome_bind (KeyTypeSig tp sigs) (λ sig,
  NewKeyFromKeyInfo (MkKeyInfo tp raw (Some sig))))).

End keys.

(** ** The wallet *)

(** The fields of the wallet, with the chain and the randomness its calls reach. *)
Record KeystoreWallet (K X R : Type) : Type := MkWallet {
  w_keystore : K;
  w_fAPI : option (FilAPI X);
  w_sigs : gmap string (Signer R);
  w_keys : gmap address (Key R);
  w_defaultAddr : address;
  w_chain : X;
  w_rand : R
}.
Arguments MkWallet {K X R}.
Arguments w_keystore {K X R}.
Arguments w_fAPI {K X R}.
Arguments w_sigs {K X R}.
Arguments w_keys {K X R}.
Arguments w_defaultAddr {K X R}.
Arguments w_chain {K X R}.
Arguments w_rand {K X R}.

Section wallet.
Context {K X R : Type} {KS : Keystore K} {WL : WalletLib R} {CB : CborLib} {FL : FilLib} {CL : CidLib}.
Context (Sum : bytes → error + cid).

Abbreviation W := (KeystoreWallet K X R).

Definition set_keys (v : gmap address (Key R)) (w : W) : W :=
  MkWallet (w_keystore w) (w_fAPI w) (w_sigs w) v (w_defaultAddr w) (w_chain w) (w_rand w).
Definition set_default (v : address) (w : W) : W :=
  MkWallet (w_keystore w) (w_fAPI w) (w_sigs w) (w_keys w) v (w_chain w) (w_rand w).

Definition on_ks {A} (m : go K error A) : go W error A := λ w,
  let '(s, r) := m (w_keystore w) in
  (MkWallet s (w_fAPI w) (w_sigs w) (w_keys w) (w_defaultAddr w) (w_chain w) (w_rand w), r).
Definition on_chain {A} (m : go X error A) : go W error A := λ w,
  let '(s, r) := m (w_chain w) in
  (MkWallet (w_keystore w) (w_fAPI w) (w_sigs w) (w_keys w) (w_defaultAddr w) s (w_rand w), r).
Definition on_rand {A} (m : go R error A) : go W error A := λ w,
  let '(s, r) := m (w_rand w) in
  (MkWallet (w_keystore w) (w_fAPI w) (w_sigs w) (w_keys w) (w_defaultAddr w) (w_chain w) s, r).

Definition cache_key (k : Key R) : go W error unit :=
  go_modify (λ w, set_keys (<[k_Address k := k]> (w_keys w)) w).

Definition getDefaultAddress : go W error address :=
  let* k := on_ks (ks_Get KDefault) in
  let* w := go_get in
  let* key := go_lift (NewKeyFromLibp2p k (w_sigs w)) in
  go_ret (k_Address key).

(** [NewFromKeystore]: the options, in order, then the default address if the
    keystore has one. *)
Inductive Option_ : Type :=
| WithBLSSig (sig : Signer R)
| WithFilAPI (f : FilAPI X).

Definition apply_option (w : W) (o : Option_) : W :=
  match o with
  | WithBLSSig sig =>
    MkWallet (w_keystore w) (w_fAPI w) (<[KTBLS := sig]> (w_sigs w)) (w_keys w) (w_defaultAddr w) (w_chain w) (w_rand w)
  | WithFilAPI f =>
    MkWallet (w_keystore w) (Some f) (w_sigs w) (w_keys w) (w_defaultAddr w) (w_chain w) (w_rand w)
  end.

Definition NewFromKeystore (ks : K) (x : X) (r : R) (opts : list Option_) : W :=
  let w := foldl apply_option (MkWallet ks None {[KTSecp256k1 := secp]} ∅ Undef x r) opts in
  match getDefaultAddress w with
  | (w, Ok defAddr) => set_default defAddr w
  | (w, _) => w
  end.

Definition NewKey (kt : string) : go W error address :=
  let* w := go_get in
  let* sig := go_lift (KeyTypeSig kt (w_sigs w)) in
  let* pk := on_rand (GenPrivate sig) in
  let* k := go_lift (NewKeyFromKeyInfo (MkKeyInfo kt pk (Some sig))) in
  let* r := go_try (on_ks (ks_Put (KNamePrefix +:+ addr_String (k_Address k)) (as_priv k))) in
  match r with
  | inl err => go_err (ErrWrap "unable to save to keystore" err)
  | inr _ =>
    do* cache_key k then
    let* w := go_get in
    if String.eqb (w_defaultAddr w) Undef then
      let* r := go_try (on_ks (ks_Put KDefault (as_priv k))) in
      match r with
      | inl err => go_err (ErrWrap "failed to set new key as default" err)
      | inr _ => do* go_modify (set_default (k_Address k)) then go_ret (k_Address k)
      end
    else go_ret (k_Address k)
  end.

Definition DefaultAddress : go W error address :=
  let* w := go_get in
  go_ret (w_defaultAddr w).

(** The error of the deletion is dropped. *)
Definition SetDefaultAddress (addr : address) : go W error unit :=
  let* k := on_ks (ks_Get (KNamePrefix +:+ addr_String addr)) in
  do* go_try (on_ks (ks_Delete KDefault)) then
  do* on_ks (ks_Put KDefault k) then
  go_modify (set_default addr).

(** The part of a name after the prefix, if it has the prefix. *)
Definition after_prefix (a : string) : option string :=
  if String.prefix KNamePrefix a
  then Some (String.substring (String.length KNamePrefix) (String.length a - String.length KNamePrefix) a)
  else None.

Fixpoint list_loop (all : list string) (added : gset address) (list_ : list address)
    : outcome error (list address) :=
  match all with
  | [] => Ok list_
  | a :: all' =>
    match after_prefix a with
    | None => list_loop all' added list_
    | Some name =>
      outcome_bind (from_lib (NewFromString name)) (λ addr,
      if bool_decide (addr ∈ added) then list_loop all' added list_
      else list_loop all' ({[addr]} ∪ added) (list_ ++ [addr]))
    end
  end.

Definition List_ : go W error (list address) :=
  let* all := on_ks ks_List in
  go_lift (list_loop (merge_sort String.le all) ∅ []).

Definition ImportKey (k : KeyInfo R) : go W error address :=
  let* w := go_get in
  let* sig := go_lift (KeyTypeSig (ki_KType k) (w_sigs w)) in
  let* key := go_lift (NewKeyFromKeyInfo (MkKeyInfo (ki_KType k) (ki_PrivateKey k) (Some sig))) in
  do* on_ks (ks_Put (KNamePrefix +:+ addr_String (k_Address key)) (as_priv key)) then
  do* cache_key key then
  go_ret (k_Address key).

Definition ExportKey (addr : address) : go W error (KeyInfo R) :=
  let* w := go_get in
  match w_keys w !! addr with
  | None => go_err (ErrMsg ("address " +:+ addr_String addr +:+ " does not exist"))
  | Some key => go_ret (k_KeyInfo key)
  end.

Definition getKey (addr : address) : go W error (Key R) :=
  let* w := go_get in
  match w_keys w !! addr with
  | Some k => go_ret k
  | None =>
    let* ki := on_ks (ks_Get (KNamePrefix +:+ addr_String addr)) in
    let* k := go_lift (NewKeyFromLibp2p ki (w_sigs w)) in
    do* cache_key k then
    go_ret k
  end.

Definition Sign (addr : address) (msg : bytes) : go W error signature :=
  let* k := getKey addr in
  let sigType := ActSigType (ki_KType (k_KeyInfo k)) in
  let* s := go_lift (Key_Sign k msg) in
  go_ret (sigType, s).

Definition Verify (k : address) (msg : bytes) (sig : signature) : go W error bool :=
  let* w := go_get in
  let* signer := go_lift (SigTypeSig sig.1 (w_sigs w)) in
  match signer_Verify signer sig.2 k msg with
  | Some err => go_err err
  | None => go_ret true
  end.

Definition Balance (addr : address) : go W error Z :=
  let* w := go_get in
  match w_fAPI w with
  | None => go_err ErrNoAPI
  | Some f => on_chain (fil_StateBalance f addr)
  end.

(** The identifier of a signed message, [SignedMessage.Cid]. *)
Definition smsg_Cid (sm : SignedMessage) : outcome error cid :=
  let data := if (sm_Signature sm).1 =? SigTypeBLS then Message_Serialize (sm_Message sm)
              else SignedMessage_Serialize sm in
  match storage_block Sum data with
  | Ok (_, c) => Ok c
  | Hang => Hang
  | _ => Panic
  end.

Definition Transfer (from to : address) (amount : string) : go W error unit :=
  let* w := go_get in
  match w_fAPI w with
  | None => go_err ErrNoAPI
  | Some f =>
    do* getKey from then
    let* val := go_sum (ParseFIL amount) in
    let msg := MkMessage 0 to from 0 val 0 0 0 0 EmptyString in
    let* msg := on_chain (fil_GasEstimateMessageGas f msg) in
    let* act := on_chain (fil_StateGetActor f (msg_From msg)) in
    let msg := set_msg_Nonce (act_Nonce act) msg in
    let* mbl := go_lift (storage_block Sum (Message_Serialize msg)) in
    let* sig := Sign (msg_From msg) (Cid_Bytes mbl.2) in
    let smsg := MkSignedMessage msg sig in
    let* r := go_try (on_chain (fil_MpoolPush f smsg)) in
    match r with
    | inl err => go_err (ErrWrap "MpoolPush failed with error" err)
    | inr _ =>
      let* c := go_lift (smsg_Cid smsg) in
      let* r := go_try (on_chain (fil_StateWaitMsg f c)) in
      match r with
      | inl err => go_err (ErrWrap "Failed to wait for msg" err)
      | inr mwait =>
        if negb (ml_ExitCode mwait =? 0)
        then go_err (ErrMsg ("Tx failed (exit code " +:+ pretty (ml_ExitCode mwait) +:+ ")"))
        else go_ret tt
      end
    end
  end.

End wallet.

(** ** Keys and signers that fit together *)

Section invariant.
Context {K X R : Type} {KS : Keystore K} {KL : KeystoreLaws K} {WL : WalletLib R} {LAWS : WalletLaws R}.

Abbreviation W := (KeystoreWallet K X R).

(** A signer verifies what it signs, for the address of its type of key. *)
Definition signer_ok (kt : string) (s : Signer R) : Prop :=
  ∀ pk pub a msg sig,
    ToPublic s pk = inr pub →
    (if String.eqb kt KTSecp256k1 then NewSecp256k1Address pub else NewBLSAddress pub) = inr a →
    signer_Sign s pk msg = inr sig → signer_Verify s sig a msg = None.

Lemma secp_ok : signer_ok KTSecp256k1 secp.
Proof.
  intros pk pub a msg sig [= <-]. cbn. intros Ha Hs. unfold secp_Verify.
  by rewrite (recover_sign _ _ _ Hs), Ha, String.eqb_refl.
Qed.

Definition sigs_ok (sigs : gmap string (Signer R)) : Prop :=
  is_Some (sigs !! KTSecp256k1) ∧
  ∀ kt s, sigs !! kt = Some s → (kt = KTSecp256k1 ∨ kt = KTBLS) ∧ signer_ok kt s.

Definition stored_name (a : address) : string := KNamePrefix +:+ addr_String a.

(** A key made with the signer of its type. *)
Definition made (sigs : gmap string (Signer R)) (k : Key R) : Prop :=
  ∃ s, ki_sig (k_KeyInfo k) = Some s ∧ sigs !! ki_KType (k_KeyInfo k) = Some s ∧
       NewKeyFromKeyInfo (k_KeyInfo k) = Ok k.

(** The keys of the keystore are stored under their addresses, and the ones in
    the cache come from it. *)
Record wallet_ok (w : W) : Prop := {
  ok_sigs : sigs_ok (w_sigs w);
  ok_stored : ∀ n p, ks_view (w_keystore w) !! n = Some p → String.prefix KNamePrefix n = true →
    ∃ k, made (w_sigs w) k ∧ p = as_priv k ∧ n = stored_name (k_Address k);
  ok_cached : ∀ a k, w_keys w !! a = Some k →
    k_Address k = a ∧ made (w_sigs w) k ∧ ks_view (w_keystore w) !! stored_name a = Some (as_priv k)
}.

Lemma made_type sigs k :
  sigs_ok sigs → made sigs k → ki_KType (k_KeyInfo k) = KTSecp256k1 ∨ ki_KType (k_KeyInfo k) = KTBLS.
Proof. intros [_ Hs] (s & _ & Hk & _). by apply Hs in Hk as [? _]. Qed.

(** Reading a stored key gives it back. *)
Lemma made_libp2p sigs k :
  sigs_ok sigs → made sigs k → NewKeyFromLibp2p (as_priv k) sigs = Ok k.
Proof.
  intros Hs Hk. pose proof (made_type _ _ Hs Hk) as Ht. destruct Hk as (s & Hsig & Hl & Hn).
  destruct k as [[kt pk sig] pub a]. simpl in *. unfold NewKeyFromLibp2p, KeyTypeSig, as_priv, Key_Type, Key_Raw.
  simpl. destruct Ht as [-> | ->]; simpl; rewrite Hl; simpl; by rewrite <-Hsig.
Qed.

Lemma key_of_info (ki : KeyInfo R) k : NewKeyFromKeyInfo ki = Ok k → k_KeyInfo k = ki.
Proof.
  unfold NewKeyFromKeyInfo. intros (pub & _ & H)%outcome_bind_ok.
  repeat case_match; try done; by apply outcome_bind_ok in H as (a & _ & [= <-]).
Qed.

Lemma libp2p_made sigs p k :
  NewKeyFromLibp2p p sigs = Ok k → made sigs k ∧ as_priv k = p.
Proof.
  unfold NewKeyFromLibp2p. intros (tp & Htp & H)%outcome_bind_ok.
  apply outcome_bind_ok in H as (raw & Hraw & H). apply outcome_bind_ok in H as (sig & Hsig & H).
  pose proof (key_of_info _ _ H) as Hk.
  unfold KeyTypeSig in Hsig. destruct (sigs !! tp) eqn:E; simplify_eq. split.
  - exists sig. by rewrite Hk.
  - destruct p as [ty r]. unfold as_priv, Key_Type, Key_Raw. rewrite Hk. simpl in *.
    destruct r; simplify_eq/=. f_equal. 
    destruct (Z.eqb_spec ty KeyType_Secp256k1); simplify_eq/=; [done|].
    destruct (Z.eqb_spec ty 4); simplify_eq/=. done.
Qed.

Lemma string_app_prefix a b : String.prefix a (a +:+ b) = true.
Proof. induction a as [|c a IH]; [by destruct b|]. simpl. by destruct (Ascii.ascii_dec c c). Qed.

Lemma stored_key w a p :
  wallet_ok w → ks_view (w_keystore w) !! stored_name a = Some p →
  ∃ k, NewKeyFromLibp2p p (w_sigs w) = Ok k ∧ k_Address k = a ∧ made (w_sigs w) k.
Proof.
  intros Hw Hp. destruct (ok_stored w Hw _ _ Hp) as (k & Hk & -> & E).
  { apply string_app_prefix. }
  apply string_app_inv_l, string_inj in E as ->. exists k. split_and!; [|done|done].
  apply made_libp2p; [apply Hw|done].
Qed.

(** ** Every operation keeps the invariant *)

Lemma view_ok w s' :
  wallet_ok w →
  (∀ n p, ks_view s' !! n = Some p → String.prefix KNamePrefix n = true →
     ks_view (w_keystore w) !! n = Some p ∨ ∃ k, made (w_sigs w) k ∧ p = as_priv k ∧ n = stored_name (k_Address k)) →
  (∀ n p, ks_view (w_keystore w) !! n = Some p → String.prefix KNamePrefix n = true → ks_view s' !! n = Some p) →
  wallet_ok (MkWallet s' (w_fAPI w) (w_sigs w) (w_keys w) (w_defaultAddr w) (w_chain w) (w_rand w)).
Proof.
  intros Hw Hnew Hold. split; simpl.
  - apply Hw.
  - intros n p Hn Hp. destruct (Hnew _ _ Hn Hp) as [H|H]; [by apply Hw|done].
  - intros a k Hk. destruct (ok_cached w Hw _ _ Hk) as (Ha & Hm & Hs). split_and!; [done..|].
    apply Hold; [done|apply string_app_prefix].
Qed.

Lemma ks_step_ok {A} (m : go K error A) w w' :
  wallet_ok w → returns (on_ks m) w w' →
  (∀ s', returns m (w_keystore w) s' → ∀ n, String.prefix KNamePrefix n = true → ks_view s' !! n = ks_view (w_keystore w) !! n) →
  wallet_ok w'.
Proof.
  intros Hw [res H] Hm. unfold go_try, on_ks in H. destruct (m (w_keystore w)) as [s' r] eqn:E.
  assert (returns m (w_keystore w) s') as Hret.
  { destruct r as [a|e| |]; [exists (inr a)|exists (inl e)|done|done]; unfold go_try; by rewrite E. }
  replace w' with (MkWallet s' (w_fAPI w) (w_sigs w) (w_keys w) (w_defaultAddr w) (w_chain w) (w_rand w))
    by (destruct r; by simplify_eq).
  apply view_ok; [done|..]; intros n p; intros; [left; by rewrite <-(Hm _ Hret)|by rewrite (Hm _ Hret)].
Qed.

Lemma returns_unit (m : go K error unit) s s' :
  returns m s s' → m s = (s', Ok tt) ∨ ∃ e, m s = (s', Err e).
Proof. intros [[[] H]|H]%returns_cases; eauto. Qed.

(** Names of the default key and of stored keys. *)
Lemma default_not_stored n : String.prefix KNamePrefix n = true → n ≠ KDefault.
Proof. by intros H ->. Qed.

Lemma put_default_ok p w w' : wallet_ok w → returns (on_ks (ks_Put KDefault p)) w w' → wallet_ok w'.
Proof.
  intros Hw Hret. eapply ks_step_ok; [done|done|]. intros s' [H|[e H]]%returns_unit n Hn.
  - apply ks_put_ok in H as [_ ->]. by rewrite lookup_insert_ne by (symmetry; by apply default_not_stored).
  - by rewrite (ks_put_err _ _ _ _ _ H).
Qed.

Lemma delete_default_ok w w' : wallet_ok w → returns (on_ks (ks_Delete KDefault)) w w' → wallet_ok w'.
Proof.
  intros Hw Hret. eapply ks_step_ok; [done|done|]. intros s' [H|[e H]]%returns_unit n Hn.
  - rewrite (ks_delete_ok _ _ _ H). by rewrite lookup_delete_ne by (symmetry; by apply default_not_stored).
  - by rewrite (ks_delete_err _ _ _ _ H).
Qed.

Lemma get_ok n (w w' : W) r : on_ks (ks_Get n) w = (w', r) → w' = w.
Proof.
  unfold on_ks. pose proof (ks_get_pure n (w_keystore w)) as Hp.
  destruct (ks_Get n (w_keystore w)) as [s' r']. simpl in Hp. subst. intros [= <- _]. by destruct w.
Qed.

(** Storing a key under its address. *)
Lemma put_key_ok k (w w' : W) r :
  wallet_ok w → made (w_sigs w) k → on_ks (ks_Put (stored_name (k_Address k)) (as_priv k)) w = (w', r) →
  match r with
  | Ok _ => wallet_ok w' ∧ w_sigs w' = w_sigs w ∧ ks_view (w_keystore w') !! stored_name (k_Address k) = Some (as_priv k)
  | Err _ => wallet_ok w'
  | _ => True
  end.
Proof.
  intros Hw Hk. unfold on_ks. destruct (ks_Put _ _ _) as [s' [[]|e| |]] eqn:E; intros [= <- <-]; try done.
  - apply ks_put_ok in E as [Hnone Ev]. split_and!; [|done|by simpl; rewrite Ev, lookup_insert_eq].
    apply view_ok; [done|..]; intros n p; rewrite Ev.
    + rewrite lookup_insert_Some. intros [[<- <-]|[_ H]] _; [right; by eauto|by left].
    + intros H _. rewrite lookup_insert_ne; [done|]. intros <-. by rewrite Hnone in H.
  - apply ks_put_err in E. apply view_ok; [done|..]; intros n p; rewrite E; auto.
Qed.

Lemma cache_key_ok k w :
  wallet_ok w → made (w_sigs w) k → ks_view (w_keystore w) !! stored_name (k_Address k) = Some (as_priv k) →
  wallet_ok (set_keys (<[k_Address k := k]> (w_keys w)) w).
Proof.
  intros Hw Hk Hs. split; simpl; [apply Hw|apply Hw|].
  intros a k'. rewrite lookup_insert_Some. intros [[<- <-]|[_ H]]; [done|by apply Hw].
Qed.

Lemma set_default_ok a w : wallet_ok w → wallet_ok (set_default a w).
Proof. intros Hw. split; apply Hw. Qed.

Lemma new_key_made sigs kt pk s k :
  sigs !! kt = Some s → NewKeyFromKeyInfo (MkKeyInfo kt pk (Some s)) = Ok k → made sigs k.
Proof.
  intros Hs H.
  pose proof (key_of_info _ _ H) as Hk.
  exists s. by rewrite Hk.
Qed.

Lemma chain_step_ok {A} (m : go X error A) : preserves wallet_ok (on_chain m).
Proof.
  intros w w' Hw [res H]. unfold go_try, on_chain in H.
  destruct (m (w_chain w)) as [x [a|e| |]]; simplify_eq; split; apply Hw.
Qed.

Lemma rand_step_ok {A} (m : go R error A) (w w' : W) r :
  on_rand m w = (w', r) → wallet_ok w → wallet_ok w' ∧ w_sigs w' = w_sigs w.
Proof.
  unfold on_rand. destruct (m (w_rand w)) as [x r']. intros [= <- <-] Hw. split; [|done]. split; apply Hw.
Qed.

Lemma KeyTypeSig_ok kt (sigs : gmap string (Signer R)) s : KeyTypeSig kt sigs = Ok s → sigs !! kt = Some s.
Proof. unfold KeyTypeSig. by destruct (sigs !! kt); intros [= ->]. Qed.

Lemma getKey_spec a w w' k :
  wallet_ok w → getKey a w = (w', Ok k) →
  wallet_ok w' ∧ w_sigs w' = w_sigs w ∧ k_Address k = a ∧ made (w_sigs w) k ∧
  w_keystore w' = w_keystore w ∧ w_chain w' = w_chain w ∧ w_fAPI w' = w_fAPI w.
Proof.
  intros Hw. unfold getKey. intros (w0 & w1 & Hg & H)%go_bind_ok. injection Hg as <- <-.
  destruct (w_keys w !! a) as [k'|] eqn:Ek.
  { apply go_ret_ok in H as [-> ->]. destruct (ok_cached w Hw _ _ Ek) as (? & ? & ?). done. }
  apply go_bind_ok in H as (w1 & p & Hp & H). pose proof (get_ok _ _ _ _ Hp) as ->.
  apply go_bind_ok in H as (w2 & k' & [-> Hk]%go_lift_ok & H).
  apply go_bind_ok in H as (w3 & [] & [= <-] & [-> ->]%go_ret_ok).
  unfold on_ks in Hp. destruct (ks_Get _ _) as [s' r] eqn:Eg. injection Hp as _ ->.
  apply ks_get_ok in Eg. destruct (stored_key w a p Hw Eg) as (k0 & Hk0 & Ha & Hm).
  rewrite Hk in Hk0. injection Hk0 as <-. split_and!; try done. apply cache_key_ok; [done|done|].
  apply libp2p_made in Hk as [_ ->]. by rewrite Ha.
Qed.

Lemma getKey_ok a : preserves wallet_ok (getKey a).
Proof.
  intros w w' Hw [[k H]|[e H]]%returns_cases; [by eapply getKey_spec|].
  unfold getKey in H. apply go_bind_err in H as [[=]|(w0 & w1 & Hg & H)]. injection Hg as <- <-.
  destruct (w_keys w !! a); [done|].
  apply go_bind_err in H as [Hp|(w1 & p & Hp & H)]; apply get_ok in Hp as ->; [done|].
  apply go_bind_err in H as [Hp|(w2 & k & [-> Hk]%go_lift_ok & H)]; [by injection Hp as ->|].
  by apply go_bind_err in H as [[=]|(w3 & [] & [= <-] & [=])].
Qed.

Lemma ImportKey_ok ki : preserves wallet_ok (ImportKey ki).
Proof.
  intros w w' Hw H. unfold ImportKey in H. step_ret H.
  apply returns_bind in H as [(w1 & s & [-> Hs]%go_lift_ok & H)|[e H]]; [|by injection H as <-].
  apply returns_bind in H as [(w1 & k & [-> Hk]%go_lift_ok & H)|[e H]]; [|by injection H as <-].
  pose proof (new_key_made _ _ _ _ _ (KeyTypeSig_ok _ _ _ Hs) Hk) as Hm.
  apply returns_bind in H as [(w1 & [] & Hp & H)|[e Hp]]; apply put_key_ok in Hp; try done.
  destruct Hp as (Hw1 & Es & Hv). unfold cache_key in H. step_ret H.
  destruct H as [res [= <- _]]. apply cache_key_ok; [done|by rewrite Es|done].
Qed.

Lemma NewKey_ok kt : preserves wallet_ok (NewKey kt).
Proof.
  intros w w' Hw H. unfold NewKey in H. step_ret H.
  apply returns_bind in H as [(w1 & s & [-> Hs]%go_lift_ok & H)|[e H]]; [|by injection H as <-].
  apply returns_bind in H as [(w1 & pk & Hr & H)|[e Hr]]; apply rand_step_ok in Hr as [Hw1 E1]; try done.
  apply returns_bind in H as [(w2 & k & [-> Hk]%go_lift_ok & H)|[e H]]; [|by injection H as <-].
  assert (made (w_sigs w1) k) as Hm.
  { rewrite E1. eapply new_key_made; [by apply KeyTypeSig_ok|done]. }
  apply returns_bind in H as [(w2 & r & Hp & H)|[e Hp]]; [|by apply go_try_err in Hp].
  apply go_try_ok in Hp. destruct r as [e|[]]; apply put_key_ok in Hp; try done.
  { by destruct H as [res [= <- _]]. }
  destruct Hp as (Hw2 & Es & Hv). unfold cache_key in H. step_ret H. step_ret H.
  assert (wallet_ok (set_keys (<[k_Address k := k]> (w_keys w2)) w2)) as Hw3.
  { apply cache_key_ok; [done|by rewrite Es|done]. }
  destruct (String.eqb _ _); [|by destruct H as [res [= <- _]]].
  apply returns_bind in H as [(w4 & r & Hp & H)|[e Hp]]; [|by apply go_try_err in Hp].
  assert (wallet_ok w4) as Hw4.
  { eapply put_default_ok; [exact Hw3|]. apply go_try_ok in Hp. destruct r as [e|a].
    - exists (inl e). unfold go_try. by rewrite Hp.
    - exists (inr a). unfold go_try. by rewrite Hp. }
  destruct r; [by destruct H as [res [= <- _]]|]. step_ret H. destruct H as [res [= <- _]].
  by apply set_default_ok.
Qed.

Lemma SetDefaultAddress_ok a : preserves wallet_ok (SetDefaultAddress a).
Proof.
  unfold SetDefaultAddress. apply preserves_bind.
  { apply preserves_pure. intros w. destruct (on_ks _ w) as [w' r] eqn:E. by apply get_ok in E. }
  intros k. apply preserves_bind.
  { apply preserves_try. intros w w'. apply delete_default_ok. }
  intros _. apply preserves_bind; [intros w w'; apply put_default_ok|].
  intros _ w w' Hw [res [= <- _]]. by apply set_default_ok.
Qed.

Lemma Sign_ok a msg : preserves wallet_ok (Sign a msg).
Proof.
  unfold Sign. apply preserves_bind; [apply getKey_ok|]. intros k.
  by apply preserves_pure; intros w; unfold go_bind, go_lift; destruct (Key_Sign k msg).
Qed.

(** ** Histories of a wallet *)

Context {CB : CborLib} {FL : FilLib} {CL : CidLib} (Sum : bytes → error + cid).

Lemma Transfer_ok from to amount : preserves wallet_ok (Transfer Sum from to amount).
Proof.
  unfold Transfer. apply preserves_bind; [by apply preserves_pure|]. intros w0.
  destruct (w_fAPI w0) as [f|]; [|by apply preserves_pure].
  apply preserves_bind; [apply getKey_ok|]. intros _.
  apply preserves_bind; [apply preserves_pure; intros w; unfold go_sum; by destruct (ParseFIL amount)|].
  intros v. apply preserves_bind; [apply chain_step_ok|]. intros msg.
  apply preserves_bind; [apply chain_step_ok|]. intros act. cbv zeta.
  apply preserves_bind; [by apply preserves_pure|]. intros mbl.
  apply preserves_bind; [apply Sign_ok|]. intros sig.
  apply preserves_bind; [apply preserves_try, chain_step_ok|]. intros [e|c]; [by apply preserves_pure|].
  apply preserves_bind; [by apply preserves_pure|]. intros c'.
  apply preserves_bind; [apply preserves_try, chain_step_ok|]. intros [e|m]; [by apply preserves_pure|].
  by destruct (negb _); apply preserves_pure.
Qed.

Inductive wallet_op : Type :=
| OpNewKey (kt : string)
| OpImportKey (ki : KeyInfo R)
| OpSetDefaultAddress (a : address)
| OpSign (a : address) (msg : bytes)
| OpTransfer (from to : address) (amount : string).

Definition run_op (o : wallet_op) : go W error unit :=
  match o with
  | OpNewKey kt => do* NewKey kt then go_ret tt
  | OpImportKey ki => do* ImportKey ki then go_ret tt
  | OpSetDefaultAddress a => SetDefaultAddress a
  | OpSign a msg => do* Sign a msg then go_ret tt
  | OpTransfer from to amount => Transfer Sum from to amount
  end.

(** What a wallet goes through: operations that returned, with an error or not,
    and new wallets over the same keystore. *)
Inductive wallet_reach : W → Prop :=
| reach_empty ks x r opts :
    ks_view ks = ∅ → sigs_ok (w_sigs (NewFromKeystore ks x r opts)) → wallet_reach (NewFromKeystore ks x r opts)
| reach_op w o w' : wallet_reach w → returns (run_op o) w w' → wallet_reach w'
| reach_restart w x r opts :
    wallet_reach w → w_sigs (NewFromKeystore (w_keystore w) x r opts) = w_sigs w →
    wallet_reach (NewFromKeystore (w_keystore w) x r opts).

Lemma run_op_ok o : preserves wallet_ok (run_op o).
Proof.
  destruct o; simpl; auto using SetDefaultAddress_ok, Transfer_ok;
    (apply preserves_bind; [auto using NewKey_ok, ImportKey_ok, Sign_ok|intros _; by apply preserves_pure]).
Qed.

(** A new wallet over a keystore. *)
Lemma foldl_options (opts : list Option_) (w : W) :
  let w' := foldl apply_option w opts in
  w_keystore w' = w_keystore w ∧ w_keys w' = w_keys w ∧ w_defaultAddr w' = w_defaultAddr w.
Proof.
  revert w. induction opts as [|o opts IH]; intros w; simpl; [done|].
  destruct (IH (apply_option w o)) as (-> & -> & ->). by destruct o.
Qed.

Lemma getDefaultAddress_pure (w : W) : (getDefaultAddress w).1 = w.
Proof.
  unfold getDefaultAddress, go_bind. destruct (on_ks (ks_Get KDefault) w) as [w2 r2] eqn:E.
  apply get_ok in E as ->. destruct r2; [|done..]. simpl. unfold go_lift. by destruct (NewKeyFromLibp2p _ _).
Qed.

(** The wallet before its default address is read. *)
Definition configured ks x r (opts : list Option_) : W :=
  foldl apply_option (MkWallet ks None {[KTSecp256k1 := secp]} ∅ Undef x r) opts.

Lemma NewFromKeystore_fields ks x r (opts : list Option_) :
  let w := NewFromKeystore ks x r opts : W in
  w_keystore w = ks ∧ w_keys w = ∅ ∧ w_sigs w = w_sigs (configured ks x r opts).
Proof.
  unfold NewFromKeystore. fold (configured ks x r opts).
  destruct (foldl_options opts (MkWallet ks None {[KTSecp256k1 := secp]} ∅ Undef x r)) as (Hk & Hc & _).
  fold (configured ks x r opts) in Hk, Hc. pose proof (getDefaultAddress_pure (configured ks x r opts)) as Hp.
  cbv zeta. destruct (getDefaultAddress _) as [w2 [a| | |]]; simpl in Hp |- *; rewrite Hp; done.
Qed.

Lemma reach_ok w : wallet_reach w → wallet_ok w.
Proof.
  induction 1 as [ks x r opts He Hs|w o w' _ IH Hret|w x r opts _ IH Es].
  - destruct (NewFromKeystore_fields ks x r opts) as (Hk & Hc & _). split; [done| |].
    + rewrite Hk, He. done.
    + rewrite Hc. done.
  - by eapply run_op_ok.
  - destruct (NewFromKeystore_fields (w_keystore w) x r opts) as (Hk & Hc & _). split.
    + rewrite Es. apply IH.
    + rewrite Hk, Es. apply IH.
    + rewrite Hc. done.
Qed.

End invariant.

(** ** Properties *)

Section properties.
Context {K X R : Type} {KS : Keystore K} {KL : KeystoreLaws K} {WL : WalletLib R} {LAWS : WalletLaws R}.
Context {CB : CborLib} {FL : FilLib} {CL : CidLib} (Sum : bytes → error + cid).

Abbreviation W := (KeystoreWallet K X R).

Lemma from_lib_ok {A} (r : error + A) a : from_lib r = Ok a → r = inr a.
Proof. destruct r; simpl; congruence. Qed.

(** What a key was made of. *)
Lemma made_parts sigs (k : Key R) :
  sigs_ok sigs → made sigs k →
  ∃ s, sigs !! ki_KType (k_KeyInfo k) = Some s ∧ ki_sig (k_KeyInfo k) = Some s ∧
    SigTypeSig (ActSigType (ki_KType (k_KeyInfo k))) sigs = Ok s ∧
    ∀ msg sig, signer_Sign s (ki_PrivateKey (k_KeyInfo k)) msg = inr sig → signer_Verify s sig (k_Address k) msg = None.
Proof.
  intros Hs Hm. pose proof (made_type _ _ Hs Hm) as Ht. destruct Hm as (s & Hsig & Hl & Hn).
  exists s. split_and!; [done|done|..].
  { unfold SigTypeSig, KeyTypeSig, ActSigType.
    destruct Ht as [Ht|Ht]; rewrite Ht in *; simpl; by rewrite Hl. }
  intros msg sig Hsg. apply Hs in Hl as [_ Hok]. destruct k as [[kt pk sg] pub a]. simpl in *. subst sg.
  unfold NewKeyFromKeyInfo in Hn. apply outcome_bind_ok in Hn as (pub' & Hp & Hn). simpl in Hp, Hn.
  destruct (ToPublic s pk) as [|p] eqn:Ep; simpl in Hp; [done|]. injection Hp as ->.
  eapply Hok; [exact Ep| |exact Hsg].
  destruct (String.eqb kt KTSecp256k1); [|destruct (String.eqb kt KTBLS); [|done]];
    apply outcome_bind_ok in Hn as (a' & Ha%from_lib_ok & Hn); injection Hn as <- <-; exact Ha.
Qed.

Lemma Sign_spec a msg (w w' : W) sig :
  wallet_ok w → Sign a msg w = (w', Ok sig) →
  wallet_ok w' ∧ w_sigs w' = w_sigs w ∧ w_chain w' = w_chain w ∧
  Verify a msg sig w' = (w', Ok true).
Proof.
  intros Hw H. unfold Sign in H. apply go_bind_ok in H as (w1 & k & Hk & H).
  destruct (getKey_spec _ _ _ _ Hw Hk) as (Hw1 & Es & Ha & Hm & _ & Hx & _).
  apply go_bind_ok in H as (w2 & s & [-> Hsg]%go_lift_ok & [-> ->]%go_ret_ok).
  split_and!; [done..|].
  destruct (made_parts _ _ (ok_sigs w Hw) Hm) as (sg & _ & Hsig & Hst & Hv).
  unfold Key_Sign in Hsg. rewrite Hsig in Hsg. simpl in Hsg.
  destruct (signer_Sign _ _ _) as [|s'] eqn:E; simpl in Hsg; [done|]. injection Hsg as ->.
  unfold Verify, go_bind, go_get, go_lift. simpl. rewrite Es, Hst. apply Hv in E. rewrite <-Ha. by rewrite E.
Qed.

Lemma made_defined sigs (k : Key R) : made sigs k → k_Address k ≠ Undef.
Proof.
  intros (s & _ & _ & H). revert H. unfold NewKeyFromKeyInfo. intros (pub & _ & H)%outcome_bind_ok.
  repeat case_match; try done; apply outcome_bind_ok in H as (a & Ha%from_lib_ok & [= <-]); simpl;
    first [eapply secp_defined; eassumption|eapply bls_defined; eassumption].
Qed.

Lemma after_prefix_stored a : after_prefix (stored_name a) = Some (addr_String a).
Proof.
  unfold after_prefix, stored_name. rewrite string_app_prefix. f_equal. apply substring_full.
Qed.

Lemma list_loop_spec all added acc :
  (∀ n, n ∈ all → String.prefix KNamePrefix n = true → ∃ a, a ≠ Undef ∧ n = stored_name a) →
  (∀ a, a ∈ added ↔ a ∈ acc) → NoDup acc →
  ∃ l, list_loop all added acc = Ok l ∧ NoDup l ∧ ∀ a, a ∈ l ↔ a ∈ acc ∨ stored_name a ∈ all.
Proof.
  revert added acc. induction all as [|n all IH]; intros added acc Hall Hadd Hnd.
  { exists acc. split_and!; [done..|]. set_solver. }
  assert (∀ n', n' ∈ all → String.prefix KNamePrefix n' = true → ∃ a, a ≠ Undef ∧ n' = stored_name a) as Hall'.
  { intros n' Hn'. apply Hall. by right. }
  cbn [list_loop]. destruct (String.prefix KNamePrefix n) eqn:Ep.
  - destruct (Hall n) as (b & Hb & ->); [by left|done|]. rewrite after_prefix_stored, from_string by done.
    cbn [from_lib outcome_bind]. case_bool_decide as Hin.
    + destruct (IH added acc Hall' Hadd Hnd) as (l & -> & Hl & Hm). exists l. split_and!; [done..|].
      intros a. rewrite Hm, elem_of_cons. split; [naive_solver|]. intros [?|[E|?]]; [by left| |by right].
      apply string_app_inv_l, string_inj in E as ->. left. by apply Hadd.
    + destruct (IH ({[b]} ∪ added) (acc ++ [b]) Hall') as (l & -> & Hl & Hm).
      * set_solver.
      * apply NoDup_app. split_and!; [done| |by apply NoDup_singleton]. set_solver.
      * exists l. split_and!; [done..|]. intros a. rewrite Hm, elem_of_cons, elem_of_app, list_elem_of_singleton.
        split; [naive_solver|]. intros [?|[E|?]]; [by left; left| |by right].
        apply string_app_inv_l, string_inj in E as ->. by left; right.
  - unfold after_prefix. rewrite Ep. destruct (IH added acc Hall' Hadd Hnd) as (l & -> & Hl & Hm).
    exists l. split_and!; [done..|]. intros a. rewrite Hm, elem_of_cons. split; [naive_solver|].
    intros [?|[E|?]]; [by left| |by right]. unfold stored_name in E. subst n.
    by rewrite string_app_prefix in Ep.
Qed.

(** The default address of a new wallet is that of the key stored as default. *)
Lemma NewFromKeystore_default ks x r (opts : list Option_) k :
  let w := NewFromKeystore ks x r opts : W in
  ks_view ks !! KDefault = Some (as_priv k) → Key_Type k = KeyType_Secp256k1 →
  sigs_ok (w_sigs w) → made (w_sigs w) k → w_defaultAddr w = k_Address k.
Proof.
  cbv zeta. destruct (NewFromKeystore_fields ks x r opts) as (_ & _ & ->). intros Hd Ht Hs Hm.
  destruct (foldl_options opts (MkWallet ks None {[KTSecp256k1 := secp]} ∅ Undef x r)) as (Hk & _).
  unfold NewFromKeystore. fold (configured ks x r opts) in Hk |- *.
  set (w1 := configured ks x r opts) in *. change (w_keystore w1 = ks) in Hk. clearbody w1.
  assert (getDefaultAddress w1 = (w1, Ok (k_Address k))) as ->; [|done].
  unfold getDefaultAddress, go_bind, on_ks. rewrite Hk, (ks_get_some _ (as_priv k)) by done.
  destruct w1. simpl in *. subst. unfold go_lift. by rewrite made_libp2p.
Qed.

(** What the wallet signs for an address, it verifies for that address. *)
Theorem Sign_verifies (w w' : W) a msg sig :
  wallet_reach Sum w → Sign a msg w = (w', Ok sig) → Verify a msg sig w' = (w', Ok true).
Proof. intros Hw%reach_ok H. by destruct (Sign_spec _ _ _ _ _ Hw H) as (_ & _ & _ & ?). Qed.

(** C25: In every history of a wallet the keys of the keystore are stored under the
    addresses they give, and the keys of the cache are those of the keystore. *)
Theorem wallet_invariant (w : W) : wallet_reach Sum w → wallet_ok w.
Proof. apply reach_ok. Qed.

(** The addresses listed are those of the keys in the keystore, each once. *)
Theorem List_complete (w : W) ks names :
  wallet_reach Sum w → ks_List (w_keystore w) = (ks, Ok names) →
  ∃ l, List_ w = (w, Ok l) ∧ NoDup l ∧ ∀ a, a ∈ l ↔ is_Some (ks_view (w_keystore w) !! stored_name a).
Proof.
  intros Hw%reach_ok Hl. destruct (ks_list_ok _ _ _ Hl) as (-> & _ & Hn).
  destruct (list_loop_spec (merge_sort String.le names) ∅ []) as (l & Hll & Hnd & Hm).
  - intros n Hin Hp. rewrite merge_sort_Permutation, Hn in Hin. destruct Hin as [p Hin].
    destruct (ok_stored w Hw _ _ Hin Hp) as (k & Hk & _ & ->). exists (k_Address k).
    split; [by eapply made_defined|done].
  - set_solver.
  - constructor.
  - exists l. split_and!; [|done|].
    + unfold List_, go_bind, on_ks. rewrite Hl. unfold go_lift. rewrite Hll. by destruct w.
    + intros a. rewrite Hm, merge_sort_Permutation, Hn. set_solver.
Qed.

Lemma SetDefaultAddress_spec a (w w' : W) :
  wallet_ok w → SetDefaultAddress a w = (w', Ok tt) →
  ∃ k, made (w_sigs w) k ∧ k_Address k = a ∧ ks_view (w_keystore w) !! stored_name a = Some (as_priv k) ∧
    ks_view (w_keystore w') !! KDefault = Some (as_priv k) ∧ w_defaultAddr w' = a.
Proof.
  intros Hw H. unfold SetDefaultAddress in H. apply go_bind_ok in H as (w1 & p & Hp & H).
  pose proof (get_ok _ _ _ _ Hp) as ->.
  apply go_bind_ok in H as (w2 & r & Hd & H). apply go_bind_ok in H as (w3 & [] & Hq & H).
  unfold on_ks in Hp. destruct (ks_Get _ _) as [s0 r0] eqn:Eg. injection Hp as _ ->. apply ks_get_ok in Eg.
  destruct (stored_key w a p Hw Eg) as (k & Hk & Ha & Hm). apply libp2p_made in Hk as [_ <-].
  exists k. unfold on_ks in Hq. destruct (ks_Put _ _ _) as [s3 r3] eqn:Ep. injection Hq as <- ->.
  apply ks_put_ok in Ep as [_ Ev]. injection H as <-. simpl. rewrite Ev, lookup_insert_eq. done.
Qed.

(** The address set as default is the default of the next wallet over the same
    keystore. *)
Theorem default_survives_restart a (w w' : W) (x : X) r opts :
  wallet_reach Sum w → SetDefaultAddress a w = (w', Ok tt) →
  (∃ p, ks_view (w_keystore w) !! stored_name a = Some p ∧ pk_Type p = KeyType_Secp256k1) →
  w_sigs (NewFromKeystore (w_keystore w') x r opts) = w_sigs w →
  w_defaultAddr (NewFromKeystore (w_keystore w') x r opts) = a.
Proof.
  intros Hw%reach_ok H (p & Hp & Ht) Es.
  destruct (SetDefaultAddress_spec _ _ _ Hw H) as (k & Hm & <- & Hs & Hd & _).
  rewrite Hs in Hp. injection Hp as <-.
  apply NewFromKeystore_default; [done|done|rewrite Es; apply Hw|by rewrite Es].
Qed.

(** After a restart a key can be used but not exported: only the keys in the
    cache are looked at. *)
Theorem ExportKey_after_restart_fails (w : W) a p (x : X) r opts :
  wallet_reach Sum w → ks_view (w_keystore w) !! stored_name a = Some p → pk_Type p = KeyType_Secp256k1 →
  let w1 := NewFromKeystore (w_keystore w) x r opts in
  w_sigs w1 = w_sigs w →
  ExportKey a w1 = (w1, Err (ErrMsg ("address " +:+ addr_String a +:+ " does not exist"))) ∧
  ∃ w2 k, getKey a w1 = (w2, Ok k) ∧ k_Address k = a ∧ ExportKey a w2 = (w2, Ok (k_KeyInfo k)).
Proof.
  intros Hw%reach_ok Hp Ht w1 Es. destruct (NewFromKeystore_fields (w_keystore w) x r opts) as (Hk & Hc & _).
  fold w1 in Hk, Hc. clearbody w1. destruct (stored_key w a p Hw Hp) as (k & Hlp & Ha & Hm).
  split; [unfold ExportKey, go_bind, go_get; by rewrite Hc|].
  unfold getKey, go_bind, go_get, on_ks. rewrite Hc, lookup_empty, Hk, (ks_get_some _ p) by done.
  unfold go_lift, cache_key, go_modify, go_ret. rewrite Es, Hlp. do 2 eexists. split_and!; [done|done|].
  unfold ExportKey, go_bind, go_get. simpl. by rewrite <-Ha, lookup_insert_eq.
Qed.

Lemma on_chain_ok {A} (m : go X error A) (w w' : W) a :
  on_chain m w = (w', Ok a) →
  m (w_chain w) = (w_chain w', Ok a) ∧ w_sigs w' = w_sigs w ∧ w_keystore w' = w_keystore w ∧ w_keys w' = w_keys w.
Proof. unfold on_chain. destruct (m (w_chain w)) as [x r]. by intros [= <- ->]. Qed.

Lemma chain_ok {A} (m : go X error A) (w w' : W) a : wallet_ok w → on_chain m w = (w', Ok a) → wallet_ok w'.
Proof. intros Hw H. eapply chain_step_ok; [exact Hw|by eapply returns_ok]. Qed.

Lemma Verify_sigs a msg sig (w1 w2 : W) :
  w_sigs w1 = w_sigs w2 → Verify a msg sig w1 = (w1, Ok true) → Verify a msg sig w2 = (w2, Ok true).
Proof.
  intros E. unfold Verify, go_bind, go_get, go_lift. rewrite E.
  destruct (SigTypeSig _ _); try done. by destruct (signer_Verify _ _ _ _).
Qed.

(** The estimation of gas leaves the payment of a message alone. *)
Definition estimate_keeps (f : FilAPI X) : Prop :=
  ∀ m x x' m', fil_GasEstimateMessageGas f m x = (x', Ok m') →
    msg_From m' = msg_From m ∧ msg_To m' = msg_To m ∧ msg_Value m' = msg_Value m.

(** C24: What a transfer that succeeds did: the message pushed pays the amount read
    from the text, never a negative one, it carries a signature of the sender, and
    the chain executed it without an error. *)
Theorem Transfer_pays (w w' : W) (f : FilAPI X) from to amount :
  wallet_reach Sum w → w_fAPI w = Some f → estimate_keeps f →
  Transfer Sum from to amount w = (w', Ok tt) →
  ∃ v msg sig b c id x1 x2 x3 look,
    ParseFIL amount = inr v ∧ 0 <= v ∧
    msg_From msg = from ∧ msg_To msg = to ∧ msg_Value msg = v ∧
    storage_block Sum (Message_Serialize msg) = Ok (b, c) ∧
    Verify from (Cid_Bytes c) sig w' = (w', Ok true) ∧
    fil_MpoolPush f (MkSignedMessage msg sig) x1 = (x2, Ok id) ∧
    smsg_Cid Sum (MkSignedMessage msg sig) = Ok x3 ∧
    fil_StateWaitMsg f x3 x2 = (w_chain w', Ok look) ∧ ml_ExitCode look = 0.
Proof.
  intros Hw%reach_ok Hf He H. unfold Transfer in H. apply go_bind_ok in H as (w0 & w1 & Hg & H).
  injection Hg as <- <-. rewrite Hf in H.
  apply go_bind_ok in H as (w1 & k & Hk & H). destruct (getKey_spec _ _ _ _ Hw Hk) as (Hw1 & _).
  apply go_bind_ok in H as (w2 & v & [-> Hv]%go_sum_ok & H).
  apply go_bind_ok in H as (w3 & msg & Hm & H). pose proof (chain_ok _ _ _ _ Hw1 Hm) as Hw3.
  apply on_chain_ok in Hm as (Hm & _). apply He in Hm as (Hfr & Hto & Hval).
  apply go_bind_ok in H as (w4 & act & Ha & H). pose proof (chain_ok _ _ _ _ Hw3 Ha) as Hw4.
  apply go_bind_ok in H as (w5 & [b c] & [-> Hb]%go_lift_ok & H).
  apply go_bind_ok in H as (w5 & sig & Hs & H).
  destruct (Sign_spec _ _ _ _ _ Hw4 Hs) as (Hw5 & _ & _ & Hver).
  apply go_bind_ok in H as (w6 & r & Hp%go_try_ok & H). destruct r as [|id]; [done|].
  apply on_chain_ok in Hp as (Hp & E6 & _).
  apply go_bind_ok in H as (w7 & x3 & [-> Hc]%go_lift_ok & H).
  apply go_bind_ok in H as (w7 & r & Hwt%go_try_ok & H). destruct r as [|look]; [done|].
  apply on_chain_ok in Hwt as (Hwt & E7 & _).
  destruct (Z.eqb_spec (ml_ExitCode look) 0) as [Hcode|]; [|done]. injection H as <-.
  exists v, (set_msg_Nonce (act_Nonce act) msg), sig, b, c, id, (w_chain w5), (w_chain w6), x3, look.
  split_and!; try done; [by eapply ParseFIL_nonneg|]. simpl in Hfr, Hver. rewrite Hfr in Hver.
  eapply Verify_sigs; [|exact Hver]. congruence.
Qed.

Lemma getKey_chain a (w : W) : w_chain (getKey a w).1 = w_chain w.
Proof.
  unfold getKey, go_bind, go_get. simpl. destruct (w_keys w !! a); [done|].
  destruct (on_ks _ w) as [w1 r] eqn:E. apply get_ok in E as ->. destruct r; [|done..].
  unfold go_lift. by destruct (NewKeyFromLibp2p _ _).
Qed.

(** Without a chain, without the key of the sender, or with an amount that is no
    number, a transfer leaves the chain alone. *)
Theorem Transfer_refused (w w' : W) from to amount res :
  Transfer Sum from to amount w = (w', res) →
  w_fAPI w = None ∨ (∃ w1 e, getKey from w = (w1, Err e)) ∨ (∃ e, ParseFIL amount = inl e) →
  w_chain w' = w_chain w ∧ ∀ u, res ≠ Ok u.
Proof.
  intros H Hwhy. unfold Transfer, go_bind at 1, go_get in H.
  destruct (w_fAPI w) as [f|]; [|by injection H as <- <-]. destruct Hwhy as [|Hwhy]; [done|].
  pose proof (getKey_chain from w) as Hc. unfold go_bind at 1 in H.
  destruct (getKey from w) as [w1 [k|e| |]]; simpl in Hc; [|by injection H as <- <-..].
  destruct Hwhy as [(w2 & e & [=])|[e He]]. unfold go_bind at 1, go_sum in H. rewrite He in H.
  by injection H as <- <-.
Qed.

End properties.

(** ** A keystore in memory and a toy curve *)

#[export] Instance mem_keystore : Keystore (gmap string PrivKey) := {|
  ks_Put n p := λ s,
    match s !! n with
    | Some _ => (s, Err (ErrExternal "key by that name already exists, refusing to overwrite"))
    | None => (<[n := p]> s, Ok tt)
    end;
  ks_Get n := λ s,
    match s !! n with Some p => (s, Ok p) | None => (s, Err (ErrExternal "no key by the given name was found")) end;
  ks_Delete n := λ s, (delete n s, Ok tt);
  ks_List := λ s, (s, Ok (map_to_list s).*1)
|}.

#[export, refine] Instance mem_keystore_laws : KeystoreLaws (gmap string PrivKey) := {| ks_view s := s |}.
Proof.
  - simpl. intros n p s s'. destruct (s !! n) eqn:E; by intros [= <-].
  - simpl. intros n p s s' e. destruct (s !! n) eqn:E; by intros [= <-].
  - simpl. intros n p s -> _. done.
  - simpl. intros n p s s'. destruct (s !! n) eqn:E; [|done]. by intros [= <- <-].
  - simpl. intros n s. by destruct (s !! n).
  - simpl. by intros n s s' [= <-].
  - simpl. done.
  - simpl. intros s s' l [= <- <-]. split_and!; [done|apply NoDup_fst_map_to_list|].
    intros n. rewrite list_elem_of_fmap. split.
    + intros ([n' p] & -> & Hp%elem_of_map_to_list). by exists p.
    + intros [p Hp]. exists (n, p). split; [done|]. by apply elem_of_map_to_list.
Defined.

#[export] Instance toy_lib : WalletLib (list bytes) := {|
  addr_String a := a;
  NewFromString s := if String.eqb s EmptyString then inl (ErrExternal "invalid address") else inr s;
  NewSecp256k1Address pub := inr ("f1" +:+ pub);
  NewBLSAddress pub := inr ("f3" +:+ pub);
  GenerateKey := λ r, match r with b :: r' => (r', Ok b) | [] => ([], Err (ErrExternal "no entropy")) end;
  PublicKey pk := pk;
  curve_Sign pk h := inr (pk +:+ h);
  EcRecover h sig := inr (String.substring 0 (String.length sig - String.length h) sig);
  Sum256 d := d
|}.

#[export] Instance toy_laws : WalletLaws (list bytes).
Proof.
  split; simpl; try done.
  - intros a Ha. by destruct (String.eqb_spec a EmptyString).
  - by intros pub a [= <-].
  - by intros pub a [= <-].
  - intros pk h sig [= <-]. f_equal. rewrite string_length_app.
    replace (String.length pk + String.length h - String.length h)%nat with (String.length pk) by lia.
    apply substring_full.
Qed.

Definition toy_api : FilAPI (list SignedMessage) :=
  MkFilAPI (λ _, go_ret 5) (λ m, go_ret (set_msg_GasPremium 3 m)) (λ _, go_ret (MkActor 9 5))
    (λ sm x, (sm :: x, Ok "pushed")) (λ _, go_ret (MkMsgLookup 0 EmptyString)).

Definition toy_wallet (ks : gmap string PrivKey) (rand : list bytes)
    : KeystoreWallet (gmap string PrivKey) (list SignedMessage) (list bytes) :=
  NewFromKeystore ks [] rand [WithFilAPI toy_api].

Abbreviation TW := (KeystoreWallet (gmap string PrivKey) (list SignedMessage) (list bytes)) (only parsing).

Definition one_key : TW := (run_op sample_sum (OpNewKey KTSecp256k1) (toy_wallet ∅ ["k1"; "k2"])).1.
Definition two_keys : TW := (run_op sample_sum (OpNewKey KTSecp256k1) one_key).1.

Lemma secp_only : sigs_ok ({[KTSecp256k1 := secp]} : gmap string (Signer (list bytes))).
Proof.
  split; [by rewrite lookup_singleton_eq|]. intros kt s [<- <-]%lookup_singleton_Some.
  split; [by left|apply secp_ok].
Qed.

Lemma toy_sigs ks x r : w_sigs (NewFromKeystore ks x r [WithFilAPI toy_api] : TW) = {[KTSecp256k1 := secp]}.
Proof. by destruct (NewFromKeystore_fields ks x r [WithFilAPI toy_api]) as (_ & _ & ->). Qed.

Lemma reach_one : wallet_reach sample_sum one_key.
Proof.
  eapply (reach_op _ _ (OpNewKey KTSecp256k1)).
  - apply (reach_empty sample_sum ∅ [] ["k1"; "k2"] [WithFilAPI toy_api]); [done|].
    rewrite toy_sigs. apply secp_only.
  - apply (returned (run_op sample_sum (OpNewKey KTSecp256k1)) (toy_wallet ∅ ["k1"; "k2"]) tt). vm_eq.
Qed.

Lemma reach_two : wallet_reach sample_sum two_keys.
Proof.
  eapply (reach_op _ _ (OpNewKey KTSecp256k1)); [exact reach_one|].
  apply (returned (run_op sample_sum (OpNewKey KTSecp256k1)) one_key tt). vm_eq.
Qed.

Lemma Sign_verifies_witness :
  Verify "f1k2" "hello" (SigTypeSecp256k1, "k2hello") (Sign "f1k2" "hello" two_keys).1
  = ((Sign "f1k2" "hello" two_keys).1, Ok true).
Proof. apply (Sign_verifies sample_sum two_keys); [apply reach_two|run_eq]. Defined.

Lemma wallet_invariant_witness : wallet_ok two_keys.
Proof. apply (wallet_invariant sample_sum two_keys), reach_two. Defined.

Lemma List_complete_witness :
  ∃ l, List_ two_keys = (two_keys, Ok l) ∧ NoDup l ∧
    ∀ a, a ∈ l ↔ is_Some (ks_view (w_keystore two_keys) !! stored_name a).
Proof.
  apply (List_complete sample_sum two_keys (w_keystore two_keys) (map_to_list (w_keystore two_keys)).*1);
    [apply reach_two|vm_eq].
Defined.

Definition second_default : TW := (SetDefaultAddress "f1k2" two_keys).1.

Lemma default_survives_restart_witness :
  w_defaultAddr second_default = "f1k2" ∧ w_defaultAddr two_keys = "f1k1" ∧
  w_defaultAddr (toy_wallet (w_keystore second_default) []) = "f1k2".
Proof.
  split; [vm_eq|]. split; [vm_eq|].
  apply (default_survives_restart sample_sum "f1k2" two_keys second_default [] [] [WithFilAPI toy_api]).
  - apply reach_two.
  - run_eq.
  - exists (MkPrivKey KeyType_Secp256k1 (inr "k2")). split; [vm_eq|done].
  - rewrite toy_sigs. vm_eq.
Defined.

Lemma ExportKey_after_restart_fails_witness :
  let w1 := toy_wallet (w_keystore two_keys) [] in
  ExportKey "f1k1" w1 = (w1, Err (ErrMsg ("address " +:+ addr_String "f1k1" +:+ " does not exist"))) ∧
  ∃ w2 k, getKey "f1k1" w1 = (w2, Ok k) ∧ k_Address k = "f1k1" ∧ ExportKey "f1k1" w2 = (w2, Ok (k_KeyInfo k)).
Proof.
  exact (ExportKey_after_restart_fails sample_sum two_keys "f1k1" (MkPrivKey KeyType_Secp256k1 (inr "k1"))
           [] [] [WithFilAPI toy_api] reach_two eq_refl eq_refl (toy_sigs _ _ _)).
Defined.

Definition paid : TW := (Transfer sample_sum "f1k1" "f1k2" "1.5 FIL" two_keys).1.

Lemma Transfer_pays_witness :
  ∃ v msg sig b c id x1 x2 x3 look,
    ParseFIL "1.5 FIL" = inr v ∧ 0 <= v ∧
    msg_From msg = "f1k1" ∧ msg_To msg = "f1k2" ∧ msg_Value msg = v ∧
    storage_block sample_sum (Message_Serialize msg) = Ok (b, c) ∧
    Verify "f1k1" (Cid_Bytes c) sig paid = (paid, Ok true) ∧
    fil_MpoolPush toy_api (MkSignedMessage msg sig) x1 = (x2, Ok id) ∧
    smsg_Cid sample_sum (MkSignedMessage msg sig) = Ok x3 ∧
    fil_StateWaitMsg toy_api x3 x2 = (w_chain paid, Ok look) ∧ ml_ExitCode look = 0.
Proof.
  apply (Transfer_pays sample_sum two_keys paid toy_api).
  - apply reach_two.
  - vm_eq.
  - by intros m x x' m' [= _ <-].
  - run_eq.
Defined.

Lemma Transfer_refused_witness :
  w_chain (Transfer sample_sum "f1k1" "f1k2" "-1" two_keys).1 = w_chain two_keys ∧
  ∀ u, (Transfer sample_sum "f1k1" "f1k2" "-1" two_keys).2 ≠ Ok u.
Proof.
  apply (Transfer_refused sample_sum two_keys _ "f1k1" "f1k2" "-1"); [apply surjective_pairing|].
  right; right. eexists. vm_compute. reflexivity.
Defined.
