(* ===== verification/Node.v ===== *)
(** * The commands of a node (node/popn.go, node/message.go)

    A node executes the commands of its users on a transaction it keeps under a
    lock, and reports what it did in notifications.  The lock is taken and released
    as in the source: a command that waits for a lock nobody will release hangs. *)
From S2P Require Import Prelude Deal Fsm PayTypes DataTransfer ClientFsm ProviderFsm Revalidator.
From S2P Require Import Cbor DataRef Index IndexLfu IndexSpec Session PeerMgr Replication Routing Dag Tx Fil.

(** ** Messages to the users (message.go) *)

Record PutResult : Type := MkPutResult {
  pr_RootCid : string;
  pr_Key : string;
  pr_Cid : string;
  pr_Size : string;
  pr_TotalSize : string;
  pr_Len : Z;
  pr_Err : string
}.

Record StatusResult : Type := MkStatusResult {
  sr_RootCid : string;
  sr_Entries : string;
  sr_Err : string
}.

Record CommResult : Type := MkCommResult {
  cr_Ref : string;
  cr_Caches : list string;
  cr_Size : string;
  cr_Err : string
}.

(** The fields of [GetResult] the node fills in, and those of [PingResult] below, but
    for the times it took. *)
Record GetResult : Type := MkGetResult {
  gr_Status : string;
  gr_DealID : string;
  gr_Size : Z;
  gr_TotalSpent : string;
  gr_TotalReceived : Z;
  gr_TotalFunds : string;
  gr_PricePerByte : string;
  gr_UnsealPrice : string;
  gr_Local : bool;
  gr_Err : string
}.

Record ListResult : Type := MkListResult {
  lr_Root : string;
  lr_Freq : Z;
  lr_Size : Z;
  lr_Last : bool;
  lr_Err : string
}.

Record PingResult : Type := MkPingResult {
  pg_ID : string;
  pg_Addrs : list string;
  pg_Peers : list string;
  pg_Version : string;
  pg_Err : string
}.

Record WalletResult : Type := MkWalletResult {
  wr_Err : string;
  wr_Addresses : list string
}.

Inductive Notify : Type :=
| NOff
| NPing (r : PingResult)
| NWallet (r : WalletResult)
| NPut (r : PutResult)
| NStatus (r : StatusResult)
| NComm (r : CommResult)
| NGet (r : GetResult)
| NList (r : ListResult).

Definition put_err (e : error) : Notify :=
  NPut (MkPutResult EmptyString EmptyString EmptyString EmptyString EmptyString 0 (Error e)).
Definition status_err (e : error) : Notify := NStatus (MkStatusResult EmptyString EmptyString (Error e)).
Definition comm_err (e : error) : Notify := NComm (MkCommResult EmptyString [] EmptyString (Error e)).
Definition get_err (e : error) : GetResult :=
  MkGetResult EmptyString EmptyString 0 EmptyString 0 EmptyString EmptyString EmptyString false (Error e).
Definition get_local (b : bool) : GetResult :=
  MkGetResult EmptyString EmptyString 0 EmptyString 0 EmptyString EmptyString EmptyString b EmptyString.
Definition get_status (s : string) : GetResult :=
  MkGetResult s EmptyString 0 EmptyString 0 EmptyString EmptyString EmptyString false EmptyString.
Definition get_deal (id : Z) : GetResult :=
  MkGetResult EmptyString (pretty id) 0 EmptyString 0 EmptyString EmptyString EmptyString false EmptyString.
Definition list_err (s : string) : Notify := NList (MkListResult EmptyString 0 0 false s).

Definition ErrNoTx : error := ErrMsg "no tx to commit".

Record GetArgs : Type := MkGetArgs {
  ga_Cid : string;
  ga_Key : string;
  ga_Out : string;
  ga_Verbose : bool;
  ga_Miner : string;
  ga_Strategy : string;
  ga_MaxPPB : Z
}.

(** A tree of files (go-ipfs-files); listing a directory may end with an error. *)
Inductive FNode : Type :=
| FDir (entries : list (string * FNode)) (err : option error)
| FFile (content : bytes) (size : error + Z)
| FOther.

(** [filepath.Split]: what follows the last slash. *)
Definition slash : Ascii.ascii := Ascii.ascii_of_nat 47.

Fixpoint has_slash (p : string) : bool :=
  match p with
  | EmptyString => false
  | String c p' => Ascii.eqb c slash || has_slash p'
  end.

Fixpoint KeyFromPath (p : string) : string :=
  match p with
  | EmptyString => EmptyString
  | String c p' => if has_slash p' then KeyFromPath p' else if Ascii.eqb c slash then p' else p
  end.

Example key_of_path : KeyFromPath "/home/user/a.txt" = "a.txt" ∧ KeyFromPath "a.txt" = "a.txt".
Proof. split; reflexivity. Qed.

(** ** The node *)

(** The transaction of the node with its store, the lock over it, what the services
    share, and the notifications sent so far. *)
Record node (Node B X W : Type) : Type := MkNode {
  nd_tx : option (Tx Node * B);
  nd_txmu : bool;
  nd_bs : B;
  nd_idx : Index X;
  nd_omg : OfferMgr;
  nd_world : W;
  nd_notify : list Notify
}.
Arguments MkNode {Node B X W}.
Arguments nd_tx {Node B X W}.
Arguments nd_txmu {Node B X W}.
Arguments nd_bs {Node B X W}.
Arguments nd_idx {Node B X W}.
Arguments nd_omg {Node B X W}.
Arguments nd_world {Node B X W}.
Arguments nd_notify {Node B X W}.

(** The part of a miner's information that is read. *)
Record MinerInfo : Type := MkMinerInfo {
  mi_PeerId : option peer_id;
  mi_Multiaddrs : list bytes
}.

(** What the node calls besides the services of a transaction: the file system,
    the import of a file into a store, paths, formatting and new stores. *)
Record NodeEnv (Node B W File : Type) : Type := MkNodeEnv {
  ne_open : string → error + FNode;              (* os.Stat and files.NewSerialFile *)
  ne_Add : bytes → go B error cid;               (* node.Add *)
  ne_SplitAbsPath : string → error + cid * list string;
  ne_WriteTo : File → string → go W error unit;
  ne_SizeStr : Z → string;
  ne_StatusStr : gmap string Entry → string;
  ne_NewStore : W → W * (Z * option error * B);  (* a store of the multistore *)
  ne_DefaultAddress : address;
  ne_All : Node;
  ne_Key : string → Node;
  ne_Entries : Node;
  ne_NewFromString : string → error + address;
  ne_StateMinerInfo : address → error + MinerInfo;
  ne_NewMultiaddrBytes : bytes → error + string;
  ne_AvailableFunds : address → error + Z * Z     (* confirmed and redeemed amounts *)
}.
Arguments MkNodeEnv {Node B W File}.
Arguments ne_open {Node B W File}.
Arguments ne_Add {Node B W File}.
Arguments ne_SplitAbsPath {Node B W File}.
Arguments ne_WriteTo {Node B W File}.
Arguments ne_SizeStr {Node B W File}.
Arguments ne_StatusStr {Node B W File}.
Arguments ne_NewStore {Node B W File}.
Arguments ne_DefaultAddress {Node B W File}.
Arguments ne_All {Node B W File}.
Arguments ne_Key {Node B W File}.
Arguments ne_Entries {Node B W File}.
Arguments ne_NewFromString {Node B W File}.
Arguments ne_StateMinerInfo {Node B W File}.
Arguments ne_NewMultiaddrBytes {Node B W File}.
Arguments ne_AvailableFunds {Node B W File}.

Section node.
Context {CB : CborLib} {Node B X W File : Type} `{Blockstore B} `{Ipld B}.
Context (ienv : IndexEnv X) (sv : TxServices Node B W File) (ne : NodeEnv Node B W File).
Context (range : gset ptr → list ptr).
Context (visited : B → cid → Node → list (cid * bytes) * option error).
(** How Go walks the maps of entries, of names added and of tagged blocks. *)
Context (order : gmap string Entry → list (string * Entry)) (walk : gset string → list string).
Context (gc_order : gset cid → list cid).

Local Abbreviation S_ := (node Node B X W).
Local Abbreviation N := (go S_ error).

(** *** Notifications and the lock *)

Definition send (n : Notify) : N unit := go_modify (λ s,
  MkNode (nd_tx s) (nd_txmu s) (nd_bs s) (nd_idx s) (nd_omg s) (nd_world s) (nd_notify s ++ [n])).

Definition set_txmu (b : bool) (s : S_) : S_ :=
  MkNode (nd_tx s) b (nd_bs s) (nd_idx s) (nd_omg s) (nd_world s) (nd_notify s).
Definition set_tx (t : option (Tx Node * B)) (s : S_) : S_ :=
  MkNode t (nd_txmu s) (nd_bs s) (nd_idx s) (nd_omg s) (nd_world s) (nd_notify s).

(** Taking a lock that is held waits for the command that holds it. *)
Definition Lock : N unit := λ s, if nd_txmu s then (s, Hang) else (set_txmu true s, Ok tt).
Definition Unlock : N unit := go_modify (set_txmu false).

(** A body between [Lock] and a deferred [Unlock]. *)
Definition locked {A} (m : N A) : N A :=
  do* Lock then
  λ s, match m s with
       | (s', Hang) => (s', Hang)
       | (s', r) => (set_txmu false s', r)
       end.

(** *** The services *)

Definition nd_index {A} (m : go (Index X) error A) : N A := λ s,
  let '(i, r) := m (nd_idx s) in
  (MkNode (nd_tx s) (nd_txmu s) (nd_bs s) i (nd_omg s) (nd_world s) (nd_notify s), r).

(** An operation of the transaction of the node, which is dereferenced. *)
Definition nd_Tx {A} (m : go (TxState Node B X W) error A) : N A := λ s,
  match nd_tx s with
  | None => (s, Panic)
  | Some (t, st) =>
    let '(ts, r) := m (MkTxState t (nd_bs s) st (nd_idx s) (nd_world s)) in
    (MkNode (Some (t_tx ts, t_store ts)) (nd_txmu s) (t_bs ts) (t_idx ts) (nd_omg s) (t_world ts) (nd_notify s), r)
  end.

(** [Exchange.Tx] for the node, with the options given. *)
Definition exch_Tx (opts : list (Tx Node → Tx Node)) : N (Tx Node * B) := λ s,
  let '(w, (id, err, st)) := ne_NewStore ne (nd_world s) in
  (MkNode (nd_tx s) (nd_txmu s) (nd_bs s) (nd_idx s) (nd_omg s) w (nd_notify s),
   Ok (NewTx id (ne_DefaultAddress ne) (ne_All ne) err opts, st)).

(** An operation of a transaction that is not the one of the node. *)
Definition on_other {A} (t : Tx Node * B) (m : go (TxState Node B X W) error A) : N (A * (Tx Node * B)) := λ s,
  let '(ts, r) := m (MkTxState t.1 (nd_bs s) t.2 (nd_idx s) (nd_world s)) in
  (MkNode (nd_tx s) (nd_txmu s) (t_bs ts) (t_idx ts) (nd_omg s) (t_world ts) (nd_notify s),
   outcome_bind r (λ a, Ok (a, (t_tx ts, t_store ts)))).

(** *** Commands *)

(** The names added are collected along the tree. *)
Fixpoint addRecursive (name : string) (file : FNode) (added : gset string) : N (gset string) :=
  match file with
  | FDir entries err =>
    let* added :=
      (fix walk_dir (l : list (string * FNode)) (added : gset string) : N (gset string) :=
         match l with
         | [] => go_ret added
         | (n, f) :: l' =>
           let* added := addRecursive n f added in
           walk_dir l' added
         end) entries added in
    match err with Some e => go_err e | None => go_ret added end
  | FFile content size =>
    let* froot := nd_Tx (on_store (ne_Add ne content)) in
    let* size := go_sum size in
    let key := KeyFromPath name in
    do* nd_Tx (Put order key froot size) then
    go_ret ({[key]} ∪ added)
  | FOther => go_err (ErrMsg "unknown file type")
  end.

(** One notification per name added, with the sizes added up. *)
Fixpoint notify_added (root : string) (n : Z) (entries : gmap string Entry) (keys : list string) (total : Z)
    : N unit :=
  match keys with
  | [] => go_ret tt
  | k :: keys' =>
    let e := default (MkEntry EmptyString Undef 0) (entries !! k) in
    let total := i64 (total + e_Size e) in
    do* send (NPut (MkPutResult root k (ie_String ienv (Value e)) (ne_SizeStr ne (u64 (e_Size e)))
                      (ne_SizeStr ne (u64 total)) n EmptyString)) then
    notify_added root n entries keys' total
  end.

Definition node_Put (path : string) : N unit :=
  locked (
    let* s := go_get in
    do* (match nd_tx s with
         | None => let* t := exch_Tx [] in go_modify (set_tx (Some t))
         | Some _ => go_ret tt
         end) then
    match ne_open ne path with
    | inl err => send (put_err err)
    | inr fnd =>
      let* r := go_try (addRecursive path fnd ∅) in
      match r with
      | inl err => send (put_err err)
      | inr added =>
        let* r := go_try (nd_Tx TxStatus) in
        match r with
        | inl err => send (put_err err)
        | inr entries =>
          let* root := nd_Tx (let* s := go_get in go_ret (tx_root (t_tx s))) in
          notify_added (ie_String ienv root) (Z.of_nat (size added)) entries (walk added) 0
        end
      end
    end).

Definition node_Status : N unit :=
  locked (
    let* s := go_get in
    match nd_tx s with
    | None => send (status_err ErrNoTx)
    | Some _ =>
      let* r := go_try (nd_Tx TxStatus) in
      match r with
      | inl err => send (status_err err)
      | inr entries =>
        let* root := nd_Tx (let* s := go_get in go_ret (tx_root (t_tx s))) in
        send (NStatus (MkStatusResult (ie_String ienv root) (ne_StatusStr ne entries) EmptyString))
      end
    end).

(** [Commit] up to the wait for the caches: [None] when it has answered already.
    The lock is only released when there is no transaction. *)
Definition commit_begin (cacheRF : Z) : N (option DataRef) :=
  do* Lock then
  let* s := go_get in
  match nd_tx s with
  | None =>
    do* Unlock then
    do* send (comm_err ErrNoTx) then
    go_ret None
  | Some _ =>
    do* nd_Tx (on_tx (SetCacheRF cacheRF)) then
    let* r := go_try (nd_Tx (Commit sv)) in
    match r with
    | inl err => do* send (comm_err err) then go_ret None
    | inr _ =>
      let* ref := nd_Tx (let* s := go_get in Ref (order (tx_entries (t_tx s)))) in
      go_ret (Some ref)
    end
  end.

(** [WatchDispatch] reports the caches until the dispatch ends. *)
Fixpoint watch_dispatch (caches : list peer_id) : N unit :=
  match caches with
  | [] => go_ret tt
  | p :: caches' =>
    do* send (NComm (MkCommResult EmptyString [p] EmptyString EmptyString)) then
    watch_dispatch caches'
  end.

Definition commit_end (ref : DataRef) : N unit :=
  let* r := go_try (nd_index (SetNew ienv range ref)) in
  match r with
  | inl err => send (comm_err err)
  | inr _ =>
    do* go_try (nd_Tx (TxClose sv)) then
    do* go_modify (set_tx None) then
    do* Unlock then
    let* r := go_try (nd_index (GC ienv gc_order)) in
    match r with
    | inl err => send (comm_err err)
    | inr _ =>
      send (NComm (MkCommResult (ie_String ienv (dr_PayloadCID ref)) []
                     (ne_SizeStr ne (u64 (dr_PayloadSize ref))) EmptyString))
    end
  end.

Definition node_Commit (cacheRF : Z) (caches : list peer_id) : N unit :=
  let* r := commit_begin cacheRF in
  match r with
  | None => go_ret tt
  | Some ref =>
    do* watch_dispatch caches then
    commit_end ref
  end.

(** [getRef]: the reference of a content, or of the transaction of the node. *)
Definition getRef (parse : string → error + cid) (cstr : string) : N DataRef :=
  if negb (String.eqb cstr EmptyString) then
    let* ccid := go_sum (parse cstr) in
    nd_index (let* p := PeekRef ienv ccid in deref p)
  else
    locked (
      let* s := go_get in
      match nd_tx s with
      | None => go_err ErrNoTx
      | Some _ => nd_Tx (let* s := go_get in Ref (order (tx_entries (t_tx s))))
      end).

(** The slots of the listing that are nil are dereferenced. *)
Fixpoint list_refs (refs : list (option ptr)) : N unit :=
  match refs with
  | [] => go_ret tt
  | None :: _ => go_panic
  | Some p :: refs' =>
    let* ref := nd_index (deref p) in
    do* send (NList (MkListResult (ie_String ienv (dr_PayloadCID ref)) (dr_Freq ref) (dr_PayloadSize ref)
                       (match refs' with [] => true | _ => false end) EmptyString)) then
    list_refs refs'
  end.

Definition node_List : N unit :=
  let* r := go_try (nd_index (ListRefs range)) in
  match r with
  | inl err => send (list_err (Error err))
  | inr [] => send (list_err "no refs stored")
  | inr list => list_refs list
  end.

(** *** Loading content *)

Fixpoint multiaddrs (l : list bytes) : error + list string :=
  match l with
  | [] => inr []
  | a :: l' =>
    match ne_NewMultiaddrBytes ne a with
    | inl e => inl e
    | inr m => match multiaddrs l' with inl e => inl e | inr ms => inr (m :: ms) end
    end
  end.

Definition filMinerInfo (addr : address) : error + peer_id * list string :=
  match ne_StateMinerInfo ne addr with
  | inl err => inl err
  | inr miner =>
    match multiaddrs (mi_Multiaddrs miner) with
    | inl err => inl err
    | inr ms =>
      match mi_PeerId miner with
      | None => inl (ErrMsg "no peer id available")
      | Some id =>
        match mi_Multiaddrs miner with
        | [] => inl (ErrMsg "no peer address available")
        | _ => inr (id, ms)
        end
      end
    end
  end.

(** A result put on the channel: with a send that waits for the reader, or with one
    that gives up if the reader is not waiting. *)
Inductive emission : Type :=
| Sent (r : GetResult)
| Offered (r : GetResult).

(** Where a load waits together with its context: for a selection, for the deal to
    start, for its end, and for its last result to be read. *)
Inductive load_wait : Type := AtTriage | AtOngoing | AtDone | AtCompleted.
Definition load_ctx : Type := load_wait → option error.

(** The node, the transaction of the load and what it put on its channel. *)
Record loading : Type := MkLoading {
  l_node : S_;
  l_tx : Tx Node * B;
  l_out : list emission
}.

Local Abbreviation L := (go loading error).

Definition emit (e : emission) : L unit := go_modify (λ s, MkLoading (l_node s) (l_tx s) (l_out s ++ [e])).
Definition sendErr (e : error) : L unit := emit (Offered (get_err e)).
Definition l_lift {A} (m : N A) : L A := λ s,
  let '(n, r) := m (l_node s) in (MkLoading n (l_tx s) (l_out s), r).
Definition l_Tx {A} (m : go (TxState Node B X W) error A) : L A := λ s,
  let n := l_node s in
  let '(ts, r) := m (MkTxState (l_tx s).1 (nd_bs n) (l_tx s).2 (nd_idx n) (nd_world n)) in
  (MkLoading (MkNode (nd_tx n) (nd_txmu n) (t_bs ts) (t_idx ts) (nd_omg n) (t_world ts) (nd_notify n))
     (t_tx ts, t_store ts) (l_out s), r).
Definition l_omg {A} (m : go OfferMgr error A) : L A :=
  l_lift (λ s, let '(o, r) := m (nd_omg s) in
    (MkNode (nd_tx s) (nd_txmu s) (nd_bs s) (nd_idx s) o (nd_world s) (nd_notify s), r)).

(** A wait of the goroutine, by what the context says there: its error if the wait ends
    with the context, and otherwise what comes, if anything does. *)
Definition await {A} (ctx : load_ctx) (w : load_wait) (cancelled : error → L A) (comes : option (L A)) : L A :=
  match ctx w with
  | Some e => cancelled e
  | None => match comes with Some m => m | None => go_hang end
  end.

(** The strategy asked for; an unknown one is reported and the default used. *)
Definition choose_strategy (args : GetArgs) : sessionWorker * option error :=
  if negb (String.eqb (ga_Strategy args) EmptyString) then
    if String.eqb (ga_Strategy args) "SelectFirst" then (SelectFirst, None)
    else if String.eqb (ga_Strategy args) "SelectCheapest" then (SelectCheapest 5 4000000000, None)
    else if String.eqb (ga_Strategy args) "SelectFirstLowerThan" then (SelectFirstLowerThan (ga_MaxPPB args), None)
    else (SelectFirst, Some (ErrMsg "unknown strategy"))
  else if 0 <? ga_MaxPPB args then (SelectFirstLowerThan (ga_MaxPPB args), None)
  else (SelectFirst, None).

Definition selected (o : Offer) (funds : Z) : GetResult :=
  MkGetResult "DealStatusSelectedOffer" EmptyString (i64 (o_Size o)) EmptyString 0 (FIL_String funds)
    (Short (o_MinPricePerByte o)) (Short (o_UnsealPrice o)) false EmptyString.

(** What is put on the channel for each event of a deal for the root. *)
Definition progress (root : cid) (events : list ClientState) : list emission :=
  (λ st, Offered (MkGetResult (Statuses (cs_Status st)) EmptyString 0 (Short (cs_FundsSpent st))
            (i64 (cs_TotalReceived st)) (Short (cs_TotalFunds st)) EmptyString EmptyString false EmptyString))
    <$> filter (λ st, PayloadCID (cs_Proposal st) = root) events.

(** The query of a miner on top of gossip: its errors do not end the load, so that
    the missing information is dereferenced. *)
Definition query_miner (m : string) (sel : Node) : L unit :=
  if String.eqb m EmptyString then go_ret tt
  else
    let* miner := match ne_NewFromString ne m with
                  | inl err => do* sendErr err then go_ret Undef
                  | inr a => go_ret a
                  end in
    match filMinerInfo miner with
    | inl err => do* sendErr err then go_panic
    | inr info =>
      let* r := go_try (l_Tx (QueryOffer sv info.1 sel)) in
      match r with
      | inl _ => go_ret tt
      | inr off => do* l_Tx (ApplyOffer off) then go_ret tt
      end
    end.

(** The offer the session executes, its parameters, and the offer to keep for
    later. *)
Definition load_offer (root : cid) (args : GetArgs) (key : string) (offers : list Offer) (ctx : load_ctx)
    : L (option (Offer * DealExecParams Node * Offer)) :=
  let s := if String.eqb key EmptyString || String.eqb key "*" then ne_All ne else ne_Key ne key in
  let* r := go_try (l_omg (GetOffer root)) in
  match r with
  | inl _ =>
    let* r := go_try (l_Tx (TxQuery sv s)) in
    match r with
    | inl err => do* sendErr err then go_ret None
    | inr _ =>
      do* query_miner (ga_Miner args) s then
      await ctx AtTriage (λ e, do* sendErr e then go_ret None)
        ((λ off,
          let entries := String.eqb key EmptyString in
          let funds := if entries then RetrievalPrice off + 10000 * o_MinPricePerByte off else RetrievalPrice off in
          do* emit (Sent (selected off funds)) then
          go_ret (Some (off, Selection_Exec off [DealSel (if entries then ne_Entries ne else s); DealFunds funds], off)))
         <$> head offers)
    end
  | inr known =>
    match sv_AddrInfo sv (o_PeerAddr known) with
    | inl err => do* sendErr err then go_ret None
    | inr info =>
      let* r := go_try (l_Tx (QueryOffer sv info s)) in
      match r with
      | inl err => do* sendErr err then go_ret None
      | inr off =>
        do* l_Tx (ApplyOffer off) then
        do* emit (Sent (selected off (RetrievalPrice off))) then
        await ctx AtTriage (λ e, do* sendErr e then go_ret None)
          ((λ sel, go_ret (Some (sel, Selection_Exec sel [], known))) <$> head offers)
      end
    end
  end.

(** The content is in the store: the reference is recorded, and the offer kept as
    long as it can serve. *)
Definition load_done (root : cid) (key : string) (keep : Offer) (res : TxResult) (ctx : load_ctx) : L unit :=
  do* (if String.eqb key EmptyString then do* go_try (l_omg (SetOffer root keep)) then go_ret tt else go_ret tt) then
  let* ref := l_Tx (let* s := go_get in Ref (order (tx_entries (t_tx s)))) in
  let* r := go_try (l_lift (nd_index (SetNew ienv range ref))) in
  let* go_on := match r with
                | inl err =>
                  if bool_decide (err = ErrRefAlreadyExists)
                  then do* go_try (l_lift (nd_index (UpdateRef ienv ref))) then go_ret true
                  else do* sendErr err then go_ret false
                | inr _ => go_ret true
                end in
  if negb go_on then go_ret tt
  else
    await ctx AtCompleted sendErr (Some (
      do* emit (Sent (get_status "Completed")) then
      if String.eqb (tr_PayCh res) Undef then go_ret tt
      else
        do* go_try (l_Tx (TxClose sv)) then
        let* s := go_get in
        let mk := match MapMissingKeys root (nd_bs (l_node s)) with inl _ => [] | inr mk => mk end in
        match ne_AvailableFunds ne (tr_PayCh res) with
        | inl _ => go_panic (* the missing funds are dereferenced *)
        | inr (confirmed, redeemed) =>
          if (length mk =? 0)%nat || (confirmed - redeemed =? 0)
          then do* go_try (l_omg (RemoveOffer root)) then go_ret tt
          else go_ret tt
        end)).

(** The goroutine of [Load] between the creation of its transaction and its end.
    [offers] are those of the session when it first asks for a choice, [events] what
    the client publishes.  A deal that failed while the session has other offers is
    followed by a choice that nobody makes. *)
Definition load_body (root : cid) (args : GetArgs) (key : string) (offers : list Offer)
    (events : list ClientState) (ctx : load_ctx) : L unit :=
  let* r := load_offer root args key offers ctx in
  match r with
  | None => go_ret tt
  | Some (off, p, keep) =>
    let* started := l_Tx (exec_start sv off p) in
    await ctx AtOngoing sendErr
      match started with
      | inl _ => None (* nothing comes on [Ongoing] *)
      | inr id => Some (
        do* emit (Sent (get_deal id)) then
        do* go_modify (λ s, MkLoading (l_node s) (l_tx s) (l_out s ++ progress root events)) then
        await ctx AtDone (λ _, go_ret tt)
          match first_result events with
          | None => None
          | Some r =>
            if match tr_Err r, offers with Some _, _ :: _ :: _ => true | _, _ => false end then None
            else Some (
              let* res := l_Tx (exec_wait events None) in
              match tr_Err res with
              | Some e => sendErr e
              | None => load_done root key keep res ctx
              end)
          end)
      end
  end.

(** [Load]: its results, the sends that give up included.  The transaction is closed
    when the goroutine ends. *)
Definition Load (args : GetArgs) (offers : sessionWorker → list Offer) (events : list ClientState)
    (ctx : load_ctx) : N (list emission) := λ n,
  match ne_SplitAbsPath ne (ga_Cid args) with
  | inl err => (n, Ok [Offered (get_err err)])
  | inr (root, segs) =>
    let key := match segs with [] => ga_Key args | k :: _ => k end in
    let '(strategy, unknown) := choose_strategy args in
    let out := match unknown with Some e => [Offered (get_err e)] | None => [] end in
    match exch_Tx [WithRoot root; WithStrategy; WithTriage] n with
    | (n, Ok t) =>
      match (do* load_body root args key (offers strategy) events ctx then
             do* go_try (l_Tx (TxClose sv)) then go_ret tt) (MkLoading n t out) with
      | (s, Ok _) => (l_node s, Ok (l_out s))
      | (s, Err e) => (l_node s, Err e)
      | (s, Panic) => (l_node s, Panic)
      | (s, Hang) => (l_node s, Hang)
      end
    | (n, _) => (n, Panic)
    end
  end.

(** What the reader of the channel gets: [ready] says for each send that gives up
    whether the reader was waiting. *)
Fixpoint received (out : list emission) (ready : list bool) : list GetResult :=
  match out with
  | [] => []
  | Sent r :: out' => r :: received out' ready
  | Offered r :: out' =>
    match ready with
    | [] => received out' []
    | b :: ready' => if b then r :: received out' ready' else received out' ready'
    end
  end.

Fixpoint notify_results (verbose : bool) (l : list GetResult) : N unit :=
  match l with
  | [] => go_ret tt
  | r :: l' =>
    do* (if verbose || negb (String.eqb (gr_Status r) EmptyString) then send (NGet r) else go_ret tt) then
    notify_results verbose l'
  end.

(** Writing a file of a transaction to the path asked for. *)
Definition write_out {A} (file : N (File * A)) (out : string) (k : N unit) : N unit :=
  if String.eqb out EmptyString then k
  else
    let* r := go_try (let* f := file in
                      λ s, let '(w, r) := ne_WriteTo ne f.1 out (nd_world s) in
                           (MkNode (nd_tx s) (nd_txmu s) (nd_bs s) (nd_idx s) (nd_omg s) w (nd_notify s), r)) in
    match r with
    | inl err => send (NGet (get_err err))
    | inr _ => k
    end.

Definition set_MaxPPB (v : Z) (a : GetArgs) : GetArgs :=
  MkGetArgs (ga_Cid a) (ga_Key a) (ga_Out a) (ga_Verbose a) (ga_Miner a) (ga_Strategy a) v.
Definition set_Key (v : string) (a : GetArgs) : GetArgs :=
  MkGetArgs (ga_Cid a) v (ga_Out a) (ga_Verbose a) (ga_Miner a) (ga_Strategy a) (ga_MaxPPB a).

(** [segs[0]] of a path without segments is out of range. *)
Definition first_segment (segs : list string) : N string :=
  match segs with [] => go_panic | k :: _ => go_ret k end.

(** Content of the transaction of the node is answered without releasing the lock. *)
Definition node_Get (maxPPB : Z) (args : GetArgs) (offers : sessionWorker → list Offer) (events : list ClientState)
    (ctx : load_ctx) (ready : list bool) : N unit :=
  match ne_SplitAbsPath ne (ga_Cid args) with
  | inl err => send (NGet (get_err err))
  | inr (root, segs) =>
    let args := if ga_MaxPPB args =? -1 then set_MaxPPB 0 args
                else if ga_MaxPPB args =? 0 then set_MaxPPB maxPPB args
                else args in
    do* Lock then
    let* s := go_get in
    if match nd_tx s with Some (t, _) => String.eqb (tx_root t) root | None => false end then
      write_out (let* k := first_segment segs in let* f := nd_Tx (GetFile ienv sv k) in go_ret (f, tt))
        (ga_Out args)
        (send (NGet (get_local true)))
    else
      do* Unlock then
      let* k := first_segment segs in
      let args := set_Key k args in
      let* tx := exch_Tx [WithRoot root] in
      let* p := on_other tx (IsLocal ienv sv visited k) in
      do* (if negb p.1 then
             let* out := Load args offers events ctx in
             notify_results (ga_Verbose args) (received out ready)
           else send (NGet (get_local p.1))) then
      write_out (on_other p.2 (GetFile ienv sv k)) (ga_Out args) (go_ret tt)
  end.

End node.

(** ** The lock *)

Section lock.
Context {CB : CborLib} {Node B X W File : Type} `{Blockstore B} `{Ipld B}.
Context (ienv : IndexEnv X) (sv : TxServices Node B W File) (ne : NodeEnv Node B W File).
Context (range : gset ptr → list ptr).
Context (visited : B → cid → Node → list (cid * bytes) * option error).
Context (order : gmap string Entry → list (string * Entry)) (walk : gset string → list string).
Context (gc_order : gset cid → list cid).

Implicit Types (s : node Node B X W).

Lemma locked_blocked {A} (m : go (node Node B X W) error A) s :
  nd_txmu s = true → locked m s = (s, Hang).
Proof. intros Hs. unfold locked, go_bind, Lock. by rewrite Hs. Qed.

Lemma locked_releases {A} (m : go (node Node B X W) error A) s s' r :
  locked m s = (s', r) → r ≠ Hang → nd_txmu s' = false.
Proof.
  unfold locked, go_bind, Lock. destruct (nd_txmu s); [by intros [= _ <-]|].
  destruct (m (set_txmu true s)) as [s1 [a|e| |]]; intros [= <- <-]; done.
Qed.

Lemma locked_ok {A} (m : go (node Node B X W) error A) s s' a :
  locked m s = (s', Ok a) → ∃ s1, m (set_txmu true s) = (s1, Ok a) ∧ s' = set_txmu false s1.
Proof.
  unfold locked, go_bind, Lock. destruct (nd_txmu s); [done|].
  destruct (m (set_txmu true s)) as [s1 [b|e| |]]; intros [= <- <-]. eauto.
Qed.

(** A node whose lock is held for good serves no command on its transaction. *)
Definition stuck s : Prop :=
  (∀ path, node_Put ienv ne order walk path s = (s, Hang)) ∧
  node_Status ienv ne s = (s, Hang) ∧
  (∀ rf caches, node_Commit ienv sv ne range order gc_order rf caches s = (s, Hang)) ∧
  (∀ parse, getRef ienv order parse EmptyString s = (s, Hang)) ∧
  (∀ maxPPB args offers events ctx ready root segs, ne_SplitAbsPath ne (ga_Cid args) = inr (root, segs) →
     node_Get ienv sv ne range visited order maxPPB args offers events ctx ready s = (s, Hang)).

Lemma held_stuck s : nd_txmu s = true → stuck s.
Proof.
  intros Hs. split_and!; intros; try by apply locked_blocked.
  - unfold node_Commit, commit_begin, go_bind, Lock. by rewrite Hs.
  - unfold node_Get. rewrite H1. unfold go_bind, Lock. by rewrite Hs.
Qed.

(** *** What keeps the lock *)

Definition same_lock (s1 s2 : node Node B X W) : Prop := nd_txmu s1 = nd_txmu s2.

#[local] Instance same_lock_preorder : PreOrder same_lock.
Proof. split; [done|]. intros a b c. unfold same_lock. congruence. Qed.

Lemma send_lock n : keeps (E:=error) same_lock (send n).
Proof. done. Qed.

Lemma index_lock {A} (m : go (Index X) error A) : keeps same_lock (nd_index m).
Proof. intros s. unfold nd_index. by destruct (m (nd_idx s)). Qed.

Lemma Tx_lock {A} (m : go (TxState Node B X W) error A) : keeps same_lock (nd_Tx m).
Proof. intros s. unfold nd_Tx. destruct (nd_tx s) as [[t st]|]; [|done]. by destruct (m _). Qed.

Lemma get_lock : keeps (E:=error) same_lock go_get.
Proof. done. Qed.

Lemma set_tx_lock t : keeps (E:=error) same_lock (go_modify (set_tx t)).
Proof. done. Qed.

Hint Resolve send_lock index_lock Tx_lock get_lock set_tx_lock : pop.

Lemma watch_dispatch_lock caches : keeps same_lock (watch_dispatch caches).
Proof. induction caches; simpl; keeps_tac. Qed.

(** [Commit] keeps the lock once it has found a transaction, until it has closed it. *)
Lemma commit_begin_holds rf s s' r :
  is_Some (nd_tx s) → commit_begin sv order rf s = (s', Ok r) → nd_txmu s' = true.
Proof.
  intros [[t st] Ht]. unfold commit_begin. intros (s1 & [] & Hl & Hk)%go_bind_ok.
  unfold Lock in Hl. destruct (nd_txmu s) eqn:El; [done|]. injection Hl as <-.
  apply go_bind_ok in Hk as (s2 & s3 & Hg & Hk). injection Hg as <- <-. cbn [nd_tx set_txmu] in Hk.
  rewrite Ht in Hk.
  assert (∀ k : go (node Node B X W) error (option DataRef), keeps same_lock k →
    k (set_txmu true s) = (s', Ok r) → nd_txmu s' = true) as Hkeep.
  { intros k Hkp Hrun. pose proof (keeps_run _ _ _ _ _ Hkp Hrun) as E. unfold same_lock in E. by rewrite <-E. }
  eapply Hkeep; [|exact Hk]. keeps_tac.
Qed.

Lemma commit_begin_none rf s s' r :
  nd_tx s = None → commit_begin sv order rf s = (s', Ok r) → nd_txmu s' = false ∧ r = None ∧ nd_tx s' = None.
Proof.
  intros Ht. unfold commit_begin. intros (s1 & [] & Hl & Hk)%go_bind_ok.
  unfold Lock in Hl. destruct (nd_txmu s) eqn:El; [done|]. injection Hl as <-.
  apply go_bind_ok in Hk as (s2 & s3 & Hg & Hk). injection Hg as <- <-. cbn [nd_tx set_txmu] in Hk.
  rewrite Ht in Hk. by injection Hk as <- <-.
Qed.

(** *** What leaves the index and the root of the transaction alone *)

Definition same_root (s1 s2 : TxState Node B X W) : Prop :=
  t_idx s1 = t_idx s2 ∧ tx_root (t_tx s1) = tx_root (t_tx s2).

#[export] Instance same_root_preorder : PreOrder same_root.
Proof. split; [done|]. intros a b c [? ?] [? ?]. split; congruence. Qed.

Lemma on_tx_root f : (∀ t : Tx Node, tx_root (f t) = tx_root t) → keeps same_root (on_tx f).
Proof. intros Hf s. split; [done|]. simpl. by rewrite Hf. Qed.

Lemma on_service_root {A} (m : go W error A) : keeps same_root (on_service m).
Proof. intros s. unfold on_service. by destruct (m _). Qed.

Lemma get_root : keeps (E:=error) same_root go_get.
Proof. done. Qed.

Hint Resolve on_service_root get_root : pop.
Hint Extern 2 (keeps same_root (on_tx _)) => apply on_tx_root; done : pop.

Lemma Commit_root : keeps same_root (Commit sv).
Proof. unfold Commit. keeps_tac. Qed.

Lemma Ref_root l : keeps same_root (Ref l).
Proof. unfold Ref. keeps_tac. Qed.

Lemma TxQuery_root sel : keeps same_root (TxQuery sv sel).
Proof. unfold TxQuery. keeps_tac. Qed.

Lemma QueryOffer_root info sel : keeps same_root (QueryOffer sv info sel).
Proof. unfold QueryOffer. keeps_tac. Qed.

Lemma ApplyOffer_root off : keeps same_root (ApplyOffer (Node:=Node) (B:=B) (X:=X) (W:=W) off).
Proof. unfold ApplyOffer. keeps_tac. Qed.

Lemma exec_start_root off p : keeps same_root (exec_start sv off p).
Proof. unfold exec_start. keeps_tac. Qed.

Lemma exec_wait_root events c : keeps same_root (exec_wait (Node:=Node) (B:=B) (X:=X) (W:=W) events c).
Proof. unfold exec_wait. keeps_tac. Qed.

Lemma TxClose_index : keeps (λ s1 s2 : TxState Node B X W, t_idx s1 = t_idx s2) (TxClose sv).
Proof. intros s. destruct (TxClose sv s) eqn:E. symmetry. by apply TxClose_idx in E. Qed.

Hint Resolve Commit_root Ref_root TxQuery_root QueryOffer_root ApplyOffer_root exec_start_root exec_wait_root : pop.

Lemma Ref_result l (s s' : TxState Node B X W) ref :
  Ref l s = (s', Ok ref) → dr_PayloadCID ref = tx_root (t_tx s) ∧ dr_bucketNode ref = None.
Proof.
  unfold Ref, go_bind, go_get, on_tx, go_modify, go_ret.
  destruct (bool_decide _); [destruct (MapLoadableKeys _ _)|]; by intros [= <- <-].
Qed.

(** *** What a commit publishes *)

Definition root_of s : option cid := tx_root ∘ fst <$> nd_tx s.
Definition same_pub s1 s2 : Prop := nd_idx s1 = nd_idx s2 ∧ root_of s1 = root_of s2.

#[local] Instance same_pub_preorder : PreOrder same_pub.
Proof. split; [done|]. intros a b c [? ?] [? ?]. split; congruence. Qed.

Lemma nd_Tx_pub {A} (m : go (TxState Node B X W) error A) : keeps same_root m → keeps same_pub (nd_Tx m).
Proof.
  intros Hm s. unfold nd_Tx, same_pub, root_of. destruct (nd_tx s) as [[t st]|] eqn:E; [|simpl; by rewrite E].
  specialize (Hm (MkTxState t (nd_bs s) st (nd_idx s) (nd_world s))).
  destruct (m _) as [ts r]. destruct Hm as [? Hr]. simpl in *. by rewrite Hr.
Qed.

Lemma send_pub n : keeps (E:=error) same_pub (send n).
Proof. done. Qed.

Lemma lock_pub : keeps same_pub Lock.
Proof. intros s. unfold Lock. by destruct (nd_txmu s). Qed.

Lemma unlock_pub : keeps same_pub Unlock.
Proof. done. Qed.

Lemma get_pub : keeps (E:=error) same_pub go_get.
Proof. done. Qed.

Hint Resolve send_pub lock_pub unlock_pub get_pub : pop.
Hint Extern 2 (keeps same_pub (nd_Tx _)) => apply nd_Tx_pub : pop.

Lemma commit_begin_pub rf : keeps same_pub (commit_begin sv order rf).
Proof.
  unfold commit_begin. keeps_tac; auto with pop. all: apply nd_Tx_pub; keeps_tac; auto with pop.
Qed.

Lemma watch_dispatch_pub caches : keeps same_pub (watch_dispatch caches).
Proof. induction caches; simpl; keeps_tac. Qed.

(** The reference [Commit] publishes is the one of the transaction. *)
Lemma commit_begin_ref rf s s' ref root :
  root_of s = Some root → commit_begin sv order rf s = (s', Ok (Some ref)) →
  dr_PayloadCID ref = root ∧ dr_bucketNode ref = None.
Proof.
  intros Hr Hb. unfold commit_begin in Hb. apply go_bind_ok in Hb as (s1 & [] & Hl & Hb).
  apply go_bind_ok in Hb as (s2 & s2' & Hg & Hb). injection Hg as <- <-.
  pose proof (keeps_run _ _ _ _ _ lock_pub Hl) as [_ E1]. rewrite Hr in E1.
  destruct (nd_tx s1) as [[t st]|] eqn:Et; [|by apply go_bind_ok in Hb as (? & [] & _ & (? & [] & _ & [= ])%go_bind_ok)].
  apply go_bind_ok in Hb as (s3 & [] & H3 & Hb). apply go_bind_ok in Hb as (s4 & r & H4%go_try_ok & Hb).
  destruct r as [e|[]]; [by apply go_bind_ok in Hb as (? & [] & _ & [= ])|].
  apply go_bind_ok in Hb as (s5 & ref' & H5 & [_ [= ->]]%go_ret_ok).
  assert (root_of s4 = Some root) as E4.
  { transitivity (root_of s3); [symmetry|transitivity (root_of s1); [symmetry|by rewrite <-E1]].
    - apply (keeps_run _ _ _ _ _ (nd_Tx_pub _ Commit_root) H4).
    - assert (keeps same_pub (nd_Tx (on_tx (SetCacheRF rf)))) as Hk by (by apply nd_Tx_pub, on_tx_root).
      apply (keeps_run _ _ _ _ _ Hk H3). }
  unfold nd_Tx in H5. unfold root_of in E4. destruct (nd_tx s4) as [[t4 st4]|]; [|done].
  destruct (go_bind _ _ _) as [ts5 r5] eqn:E5. injection H5 as _ ->.
  apply go_bind_ok in E5 as (u & u' & Hg & E5). injection Hg as <- <-. apply Ref_result in E5 as [-> ?].
  simpl in *. by simplify_eq.
Qed.

Lemma nd_index_GC o s s1 r :
  go_try (nd_index (GC ienv o)) s = (s1, Ok r) →
  nd_tx s1 = nd_tx s ∧ nd_txmu s1 = nd_txmu s ∧ ix_Refs (nd_idx s1) = ix_Refs (nd_idx s).
Proof.
  intros Hr%go_try_ok. pose proof (GC_mem ienv o (nd_idx s)) as Hm. unfold nd_index in Hr.
  destruct (GC ienv o (nd_idx s)) as [i a]. destruct r; injection Hr as <- _; (split_and!; [done..|]);
    by apply same_mem_parts in Hm as ([= _ _ _ ? _] & _).
Qed.

Lemma nd_Tx_close s s1 r :
  go_try (nd_Tx (TxClose sv)) s = (s1, Ok r) → nd_txmu s1 = nd_txmu s ∧ nd_idx s1 = nd_idx s.
Proof.
  intros Hr%go_try_ok. unfold nd_Tx in Hr. destruct (nd_tx s) as [[t st]|]; [|by destruct r].
  destruct (TxClose sv _) as [ts a] eqn:E. apply TxClose_idx in E. destruct r; by injection Hr as <- _.
Qed.

Lemma commit_end_cases `{!RangeOrder range} ref s s' :
  index_ok ienv (nd_idx s) → dr_bucketNode ref = None → nd_txmu s = true →
  commit_end ienv sv ne range gc_order ref s = (s', Ok tt) →
  (nd_tx s' = None ∧ nd_txmu s' = false ∧
   is_Some (ix_Refs (nd_idx s') !! ie_String ienv (dr_PayloadCID ref))) ∨
  nd_txmu s' = true.
Proof.
  intros Hok Hn Hs H1. unfold commit_end in H1. apply go_bind_ok in H1 as (s1 & r & Hr & Hk).
  assert (nd_txmu s1 = true ∧ is_Some (ix_Refs (nd_idx s1) !! ie_String ienv (dr_PayloadCID ref))) as [Hl1 Hin].
  { pose proof Hr as Hr'%go_try_ok. unfold nd_index in Hr'.
    destruct (SetNew ienv range ref (nd_idx s)) as [i1 r1] eqn:E. destruct r; injection Hr' as <- ->;
      (split; [done|]); (eapply SetNew_present; [done..|]); eexists; unfold go_try; by rewrite E. }
  destruct r as [e|[]]; [right; by injection Hk as <-|]. left.
  apply go_bind_ok in Hk as (s2 & r & [El2 Ei2]%nd_Tx_close & Hk). apply go_bind_ok in Hk as (s3 & [] & [= <-] & Hk).
  apply go_bind_ok in Hk as (s4 & [] & [= <-] & Hk).
  apply go_bind_ok in Hk as (s5 & r5 & (Et & El & Ei)%nd_index_GC & Hk).
  assert (nd_tx s' = nd_tx s5 ∧ nd_txmu s' = nd_txmu s5 ∧ nd_idx s' = nd_idx s5) as (-> & -> & ->)
    by (destruct r5; by injection Hk as <-).
  simpl in *. rewrite Et, El, Ei, Ei2. done.
Qed.

(** C29: A commit that returns has published the transaction and given it up, or has
    left the node unable to serve its users. *)
Theorem Commit_publishes_or_blocks `{!RangeOrder range} rf caches s s' t st :
  index_ok ienv (nd_idx s) → nd_tx s = Some (t, st) →
  node_Commit ienv sv ne range order gc_order rf caches s = (s', Ok tt) →
  (nd_tx s' = None ∧ nd_txmu s' = false ∧ is_Some (ix_Refs (nd_idx s') !! ie_String ienv (tx_root t))) ∨
  stuck s'.
Proof.
  intros Hok Ht Hc. unfold node_Commit in Hc. apply go_bind_ok in Hc as (s1 & r & Hb & Hk).
  assert (nd_txmu s1 = true) as Hl by (eapply commit_begin_holds; [by rewrite Ht|done]).
  destruct r as [ref|]; [|right; apply go_ret_ok in Hk as [-> _]; by apply held_stuck].
  destruct (commit_begin_ref rf s s1 ref (tx_root t)) as [<- Hn]; [unfold root_of; by rewrite Ht|done|].
  pose proof (keeps_run _ _ _ _ _ (commit_begin_pub rf) Hb) as [Ei1 _].
  apply go_bind_ok in Hk as (s2 & [] & Hw & Hk).
  pose proof (keeps_run _ _ _ _ _ (watch_dispatch_lock caches) Hw) as El. unfold same_lock in El.
  pose proof (keeps_run _ _ _ _ _ (watch_dispatch_pub caches) Hw) as [Ei2 _].
  destruct (commit_end_cases ref s2 s') as [?|?]; [by rewrite <-Ei2, <-Ei1|done|congruence|done|by left|].
  right. by apply held_stuck.
Qed.

(** Committing content the index has already leaves the node unable to serve its
    users: the lock is not released when the reference is refused. *)
Theorem Commit_twice_blocks rf s t st :
  nd_txmu s = false → nd_tx s = Some (t, st) → tx_Err t = None → rf <= 0 → tx_entries t ≠ ∅ →
  is_Some (ix_Refs (nd_idx s) !! ie_String ienv (tx_root t)) →
  ∃ s', node_Commit ienv sv ne range order gc_order rf [] s = (s', Ok tt) ∧
    nd_notify s' = nd_notify s ++ [comm_err ErrRefAlreadyExists] ∧ stuck s'.
Proof.
  intros Hl Ht He Hrf Hent Hin.
  assert (∃ s', node_Commit ienv sv ne range order gc_order rf [] s = (s', Ok tt) ∧
    nd_notify s' = nd_notify s ++ [comm_err ErrRefAlreadyExists] ∧ nd_txmu s' = true) as (s' & ? & ? & ?);
    [|exists s'; split_and!; [done..|by apply held_stuck]].
  unfold node_Commit, commit_begin, go_bind, Lock. rewrite Hl.
  unfold go_get, set_txmu. cbn [nd_tx]. rewrite Ht. unfold nd_Tx at 1. cbn [nd_tx].
  unfold on_tx, go_modify. cbn. unfold go_try, nd_Tx at 1. cbn [nd_tx]. unfold Commit, go_bind, go_get.
  cbn [t_tx]. unfold SetCacheRF. cbn [tx_Err tx_cacheRF]. rewrite He. unfold on_tx, go_modify. cbn.
  destruct (Z.ltb_spec 0 rf); [lia|]. cbn. unfold nd_Tx. cbn. unfold Ref, go_bind, go_get. cbn.
  rewrite bool_decide_eq_false_2 by done. unfold go_ret. cbn.
  unfold commit_end, go_bind, go_try, nd_index. cbn.
  unfold alloc_ref, alloc, put_ref, SetRef, deref, go_bind, go_modify, go_get, go_ret. cbn.
  rewrite lookup_insert_eq. cbn. rewrite bool_decide_eq_true_2 by exact Hin. cbn. eexists. done.
Qed.

(** Asking for content that is being staged leaves the node unable to serve its
    users: the answer is sent without releasing the lock. *)
Theorem Get_staged_blocks maxPPB args offers events ctx ready s t st segs :
  nd_txmu s = false → nd_tx s = Some (t, st) →
  ne_SplitAbsPath ne (ga_Cid args) = inr (tx_root t, segs) → ga_Out args = EmptyString →
  ∃ s', node_Get ienv sv ne range visited order maxPPB args offers events ctx ready s = (s', Ok tt) ∧
    nd_notify s' = nd_notify s ++ [NGet (get_local true)] ∧ stuck s'.
Proof.
  intros Hl Ht Hp Ho. unfold node_Get. rewrite Hp. unfold go_bind, Lock. rewrite Hl.
  unfold go_get. cbn [nd_tx set_txmu]. rewrite Ht, String.eqb_refl. unfold write_out.
  replace (ga_Out _) with EmptyString by (by repeat case_match).
  eexists. split_and!; [reflexivity|done|]. by apply held_stuck.
Qed.

(** While a commit waits for its caches, nothing can be staged. *)
Theorem Commit_holds_staging rf s s' ref :
  is_Some (nd_tx s) → commit_begin sv order rf s = (s', Ok (Some ref)) →
  ∀ caches s1, watch_dispatch caches s' = (s1, Ok tt) → stuck s1.
Proof.
  intros Ht Hb caches s1 Hw. apply held_stuck.
  pose proof (keeps_run _ _ _ _ _ (watch_dispatch_lock caches) Hw) as E. unfold same_lock in E.
  rewrite <-E. by eapply commit_begin_holds.
Qed.

(** The other commands release the lock whatever they answer. *)
Theorem staging_releases_lock s s' r path :
  (node_Put ienv ne order walk path s = (s', r) ∨ node_Status ienv ne s = (s', r)) →
  r ≠ Hang → nd_txmu s' = false.
Proof. intros [Hr|Hr] Hh; by eapply locked_releases. Qed.

End lock.

(** ** Loading *)

Section loads.
Context {CB : CborLib} {Node B X W File : Type} `{Blockstore B} `{Ipld B}.
Context (ienv : IndexEnv X) (sv : TxServices Node B W File) (ne : NodeEnv Node B W File).
Context (range : gset ptr → list ptr) (order : gmap string Entry → list (string * Entry)).
Local Abbreviation loading_ := (loading (Node:=Node) (B:=B) (X:=X) (W:=W)).
Implicit Types (s : loading_).

Definition completed : emission := Sent (get_status "Completed").

(** Steps that add results other than the last one, and leave the index and the
    root alone. *)
Definition quiet s1 s2 : Prop :=
  nd_idx (l_node s1) = nd_idx (l_node s2) ∧ tx_root (l_tx s1).1 = tx_root (l_tx s2).1 ∧
  ∃ es, l_out s2 = l_out s1 ++ es ∧ completed ∉ es.

#[local] Instance quiet_preorder : PreOrder quiet.
Proof.
  split; [intros s; split_and!; [done..|exists []; by rewrite app_nil_r; split; [|set_solver]]|].
  intros a b c (? & ? & e1 & E1 & ?) (? & ? & e2 & E2 & ?). split_and!; [congruence..|].
  exists (e1 ++ e2). rewrite E2, E1, app_assoc. split; [done|set_solver].
Qed.

(** Steps that add nothing and keep what the index has. *)
Definition silent s1 s2 : Prop :=
  l_out s1 = l_out s2 ∧ ix_Refs (nd_idx (l_node s1)) = ix_Refs (nd_idx (l_node s2)).

#[local] Instance silent_preorder : PreOrder silent.
Proof. split; [done|]. intros a b c [? ?] [? ?]. split; congruence. Qed.

Lemma emit_quiet e : e ≠ completed → keeps (E:=error) quiet (emit e).
Proof. intros He s. split_and!; [done..|]. exists [e]. split; [done|set_solver]. Qed.

Lemma l_Tx_quiet {A} (m : go (TxState Node B X W) error A) : keeps same_root m → keeps quiet (l_Tx m).
Proof.
  intros Hm s. unfold l_Tx. specialize (Hm (MkTxState (l_tx s).1 (nd_bs (l_node s)) (l_tx s).2
    (nd_idx (l_node s)) (nd_world (l_node s)))). destruct (m _) as [ts r]. destruct Hm as [? ?].
  split_and!; [done..|]. exists []. rewrite app_nil_r. split; [done|set_solver].
Qed.

Lemma l_omg_quiet {A} (m : go OfferMgr error A) : keeps quiet (l_omg m).
Proof.
  intros s. unfold l_omg, l_lift. destruct (m _). split_and!; [done..|]. exists [].
  rewrite app_nil_r. split; [done|set_solver].
Qed.

Lemma get_quiet : keeps (E:=error) quiet go_get.
Proof. intros s. reflexivity. Qed.

Lemma await_quiet {A} ctx w (k : error → go loading_ error A) m :
  (∀ e, keeps quiet (k e)) → (∀ m', m = Some m' → keeps quiet m') → keeps quiet (await ctx w k m).
Proof. intros Hk Hm. unfold await. destruct (ctx w); [apply Hk|]. destruct m; [by apply Hm|by intros s]. Qed.

Lemma sendErr_quiet e : keeps quiet (sendErr e).
Proof. by apply emit_quiet. Qed.

Hint Resolve l_omg_quiet get_quiet sendErr_quiet : pop.
Hint Resolve get_root Ref_root TxQuery_root QueryOffer_root ApplyOffer_root exec_start_root exec_wait_root : pop.
Hint Extern 2 (keeps quiet (l_Tx _)) => apply l_Tx_quiet : pop.
Hint Extern 2 (keeps quiet (emit _)) => apply emit_quiet; discriminate : pop.

Lemma query_miner_quiet m sel : keeps quiet (query_miner sv ne m sel).
Proof. unfold query_miner. keeps_tac. Qed.

Hint Resolve query_miner_quiet : pop.

Lemma load_offer_quiet root args key offers ctx : keeps quiet (load_offer sv ne root args key offers ctx).
Proof.
  unfold load_offer.
  destruct offers as [|off offers]; cbn [head fmap option_fmap option_map]; keeps_tac;
    (apply await_quiet; [keeps_tac|intros ? E; simplify_eq; keeps_tac]).
Qed.

(** *** The end of a load *)

Lemma l_omg_silent {A} (m : go OfferMgr error A) : keeps silent (l_omg m).
Proof. intros s. unfold l_omg, l_lift. by destruct (m _). Qed.

Lemma l_close_silent : keeps silent (l_Tx (TxClose sv)).
Proof.
  intros s. unfold l_Tx. destruct (TxClose sv _) as [ts r] eqn:E. apply TxClose_idx in E.
  split; [done|]. simpl. by rewrite E.
Qed.

Lemma get_silent : keeps (E:=error) silent go_get.
Proof. done. Qed.

Hint Resolve l_omg_silent l_close_silent get_silent : pop.

Lemma UpdateRef_silent ref : keeps silent (l_lift (nd_index (UpdateRef ienv ref))).
Proof.
  intros s. unfold l_lift, nd_index.
  assert (keeps (λ i1 i2 : Index X, ix_Refs i1 = ix_Refs i2) (UpdateRef ienv ref)) as Hk.
  { assert (PreOrder (λ i1 i2 : Index X, ix_Refs i1 = ix_Refs i2)) by (split; [done|intros ???; congruence]).
    assert (∀ k r, keeps (λ i1 i2 : Index X, ix_Refs i1 = ix_Refs i2) (do* hamt_Set ienv k r then Flush ienv)).
    { intros k r i. pose proof (persist_mem ienv k r i) as ([= _ _ _ E _] & _)%same_mem_parts. by rewrite E. }
    unfold UpdateRef. apply keeps_bind; [typeclasses eauto|by intros i|intros i]. destruct (_ !! _); [|by intros ?].
    apply keeps_bind; [typeclasses eauto| |intros curef].
    { intros j. unfold deref. by destruct (ix_heap j !! _). }
    apply keeps_bind; [typeclasses eauto|by intros ?|intros _]. done. }
  specialize (Hk (nd_idx (l_node s))). destruct (UpdateRef _ _ _). done.
Qed.

Lemma l_Ref_result s s1 ref :
  l_Tx (let* t := go_get in Ref (order (tx_entries (t_tx t)))) s = (s1, Ok ref) →
  quiet s s1 ∧ l_out s1 = l_out s ∧ dr_PayloadCID ref = tx_root (l_tx s).1 ∧ dr_bucketNode ref = None.
Proof.
  intros Hr. split.
  { eapply (keeps_run quiet); [|exact Hr]. apply l_Tx_quiet. keeps_tac. }
  unfold l_Tx in Hr. destruct (go_bind _ _ _) as [ts r] eqn:E. injection Hr as <- ->. split; [done|].
  apply go_bind_ok in E as (u & u' & Hg & E). injection Hg as <- <-. by apply Ref_result in E.
Qed.

(** A load ends with an error, or with the content in the index. *)
Lemma load_done_spec `{!RangeOrder range} root key keep res ctx s s' :
  index_ok ienv (nd_idx (l_node s)) → tx_root (l_tx s).1 = root →
  load_done ienv sv ne range order root key keep res ctx s = (s', Ok tt) →
  (∃ e, l_out s' = l_out s ++ [Offered (get_err e)]) ∨
  (l_out s' = l_out s ++ [completed] ∧ is_Some (ix_Refs (nd_idx (l_node s')) !! ie_String ienv root)).
Proof.
  intros Hok Hroot Hd. unfold load_done in Hd. apply go_bind_ok in Hd as (s1 & [] & H1 & Hd).
  assert (nd_idx (l_node s1) = nd_idx (l_node s) ∧ l_out s1 = l_out s ∧ tx_root (l_tx s1).1 = root) as (Ei1 & Eo1 & Er1).
  { destruct (String.eqb _ _); [|by injection H1 as <-].
    apply go_bind_ok in H1 as (s0 & r & H1%go_try_ok & [-> _]%go_ret_ok). unfold l_omg, l_lift, SetOffer in H1.
    destruct r; by injection H1 as <- _. }
  apply go_bind_ok in Hd as (s2 & ref & ((Ei2 & _) & Eo2 & Ep & Hn)%l_Ref_result & Hd).
  apply go_bind_ok in Hd as (s3 & r & H3 & Hd).
  assert (l_out s3 = l_out s2 ∧ is_Some (ix_Refs (nd_idx (l_node s3)) !! ie_String ienv root)) as [Eo3 Hin].
  { rewrite <-Er1, <-Ep. pose proof H3 as H3'%go_try_ok. unfold l_lift, nd_index in H3'.
    destruct (SetNew ienv range ref (nd_idx (l_node s2))) as [i1 r1] eqn:E.
    destruct r; injection H3' as <- ->; (split; [done|]); (eapply (SetNew_present ienv range (nd_idx (l_node s2)));
      [congruence|done|]); eexists; unfold go_try; by rewrite E. }
  apply go_bind_ok in Hd as (s4 & go_on & H4 & Hd).
  assert (silent s3 s4 ∧ go_on = true ∨ ∃ e, l_out s4 = l_out s3 ++ [Offered (get_err e)] ∧ go_on = false)
    as [[[Eo4 Ei4] ->]|(e & Eo4 & ->)].
  { destruct r as [e|[]]; [|left; by injection H4 as <- <-]. case_bool_decide.
    - left. apply go_bind_ok in H4 as (s4' & r & H4%go_try_ok & [-> ->]%go_ret_ok). split; [|done].
      destruct r; apply (keeps_run _ _ _ _ _ (UpdateRef_silent ref) H4).
    - right. exists e. by injection H4 as <- <-. }
  2: { left. exists e. injection Hd as <-. congruence. }
  cbn [negb] in Hd. unfold await in Hd. destruct (ctx AtCompleted) as [e|].
  { left. exists e. injection Hd as <-. simpl. by rewrite <-Eo4, Eo3, Eo2, Eo1. }
  right. apply go_bind_ok in Hd as (s5 & [] & [= <-] & Hd).
  match type of Hd with ?k ?s5 = _ => assert (keeps silent k) as Hk by keeps_tac;
    pose proof (keeps_run _ _ _ _ _ Hk Hd) as [Eo Ei] end.
  simpl in Eo, Ei. rewrite <-Eo, <-Ei, <-Ei4. split; [by rewrite <-Eo4, Eo3, Eo2, Eo1|done].
Qed.

(** The last result is that the load is complete, or an error that is offered. *)
Definition ended (out : list emission) : Prop :=
  ∃ l e, out = l ++ [e] ∧ (e = completed ∨ ∃ err, e = Offered (get_err err)).

Lemma ended_err l e : ended (l ++ [Offered (get_err e)]).
Proof. eexists l, _. eauto. Qed.

Lemma ended_completed l : ended (l ++ [completed]).
Proof. eexists l, _. eauto. Qed.

Hint Resolve ended_err ended_completed : pop.

(** A load whose offer is not executed offers the reason. *)
Lemma load_offer_none root args key offers ctx s s' :
  (∀ w, ctx w = None) →
  load_offer sv ne root args key offers ctx s = (s', Ok None) → ended (l_out s').
Proof.
  intros Hctx. assert (∀ (e : error) s0 s1 (r : option (Offer * DealExecParams Node * Offer)),
    (do* sendErr e then go_ret r) s0 = (s1, Ok None) → ended (l_out s1)) as Herr.
  { intros e s0 s1 r (s2 & [] & [= <-] & [-> _]%go_ret_ok)%go_bind_ok. apply ended_err. }
  unfold load_offer, await. rewrite Hctx. intros (s1 & r & _ & Hk)%go_bind_ok. destruct r as [e1|known].
  - apply go_bind_ok in Hk as (s2 & r & _ & Hk). destruct r as [e|[]]; [by eapply Herr|].
    apply go_bind_ok in Hk as (s3 & [] & _ & Hk). destruct offers as [|off offers]; [done|].
    apply go_bind_ok in Hk as (s4 & [] & _ & Hk). by apply go_ret_ok in Hk as [_ ?].
  - destruct (sv_AddrInfo sv _); [by eapply Herr|]. apply go_bind_ok in Hk as (s2 & r & _ & Hk).
    destruct r as [e|off]; [by eapply Herr|]. apply go_bind_ok in Hk as (s3 & ev & _ & Hk).
    apply go_bind_ok in Hk as (s4 & [] & _ & Hk). destruct offers as [|sel offers]; [done|].
    by apply go_ret_ok in Hk as [_ ?].
Qed.

(** An error at the end. *)
Lemma sendErr_ends e s s' : sendErr e s = (s', Ok tt) → completed ∉ l_out s → completed ∉ l_out s' ∧ ended (l_out s').
Proof. intros [= <-] Hn. simpl. split; [set_solver|auto with pop]. Qed.

Lemma load_body_spec `{!RangeOrder range} root args key offers events ctx s s' :
  index_ok ienv (nd_idx (l_node s)) → tx_root (l_tx s).1 = root → completed ∉ l_out s →
  load_body ienv sv ne range order root args key offers events ctx s = (s', Ok tt) →
  (completed ∈ l_out s' →
   (∃ res, first_result events = Some res ∧ tr_Err res = None) ∧
   is_Some (ix_Refs (nd_idx (l_node s')) !! ie_String ienv root)) ∧
  ((∀ w, ctx w = None) → ended (l_out s')).
Proof.
  intros Hok Hr Hnc Hb. unfold load_body in Hb. apply go_bind_ok in Hb as (s1 & r & H1 & Hb).
  pose proof (keeps_run _ _ _ _ _ (load_offer_quiet root args key offers ctx) H1) as Hq1.
  assert (∀ s2, quiet s s2 → completed ∉ l_out s2) as Hquiet.
  { intros s2 (_ & _ & es & -> & ?). set_solver. }
  destruct r as [[[off p] keep]|].
  2: { apply go_ret_ok in Hb as [-> _]. split; [intros []%(Hquiet s1 Hq1)|].
       intros Hctx. by eapply load_offer_none. }
  apply go_bind_ok in Hb as (s2 & started & H2 & Hb).
  assert (quiet s s2) as Hq2.
  { transitivity s1; [done|]. exact (keeps_run _ _ _ _ _ (l_Tx_quiet _ (exec_start_root sv off p)) H2). }
  unfold await at 1 in Hb. destruct (ctx AtOngoing) as [e|] eqn:Ec1.
  { apply sendErr_ends in Hb as [? ?]; [done|by apply Hquiet]. }
  destruct started as [tr|id]; [done|].
  apply go_bind_ok in Hb as (s3 & [] & H3 & Hb). apply go_bind_ok in Hb as (s4 & [] & H4 & Hb).
  assert (quiet s s4) as Hq4.
  { transitivity s3; [transitivity s2; [done|]|].
    - exact (keeps_run quiet _ _ _ _ (emit_quiet (Sent (get_deal id)) ltac:(discriminate)) H3).
    - injection H4 as <-. split_and!; [done..|]. eexists. split; [done|]. unfold progress.
      intros (st & ? & _)%list_elem_of_fmap. done. }
  unfold await in Hb. destruct (ctx AtDone) as [e|] eqn:Ec2.
  { apply go_ret_ok in Hb as [-> _]. split; [intros []%(Hquiet _ Hq4)|intros Hctx; by rewrite Hctx in Ec2]. }
  destruct (first_result events) as [res|] eqn:Ef; [|done].
  destruct (match tr_Err res, offers with Some _, _ :: _ :: _ => true | _, _ => false end); [done|].
  apply go_bind_ok in Hb as (s5 & res' & H5 & Hb).
  assert (quiet s s5 ∧ res' = res) as [Hq5 ->].
  { split.
    - transitivity s4; [done|]. exact (keeps_run _ _ _ _ _ (l_Tx_quiet _ (exec_wait_root events None)) H5).
    - unfold l_Tx in H5. destruct (exec_wait _ _ _) as [ts o] eqn:E. injection H5 as _ ->.
      unfold exec_wait in E. rewrite Ef in E. by apply go_bind_ok in E as (? & [] & _ & [_ ->]%go_ret_ok). }
  destruct (tr_Err res) as [e|] eqn:Ee.
  - by apply sendErr_ends in Hb as [? ?]; [|by apply Hquiet].
  - destruct Hq5 as (Ei & Et & Ho). apply load_done_spec in Hb as [[e He]|[He Hin]]; [| |congruence..].
    + rewrite He. split; [|auto with pop]. intros Hin. destruct (Hquiet s5); [done|]. set_solver.
    + rewrite He. split; [eauto|auto with pop].
Qed.

(** *** The whole load *)

Lemma exch_Tx_ok opts (n n' : node Node B X W) t :
  exch_Tx ne opts n = (n', Ok t) →
  nd_idx n' = nd_idx n ∧ nd_omg n' = nd_omg n ∧
  ∃ id err, ne_NewStore ne (nd_world n) = (nd_world n', (id, err, t.2)) ∧
    t.1 = NewTx id (ne_DefaultAddress ne) (ne_All ne) err opts.
Proof.
  unfold exch_Tx. destruct (ne_NewStore _ _) as [w [[id err] st]] eqn:E. intros [= <- <-]. simpl. eauto 10.
Qed.

(** What the reader gets last: a completion always, an error when it is waiting. *)
Lemma received_sent l r ready : ∃ l', received (l ++ [Sent r]) ready = l' ++ [r].
Proof.
  revert ready. induction l as [|[r'|r'] l IH]; intros ready; simpl; [by exists []|..].
  - destruct (IH ready) as [l' ->]. by exists (r' :: l').
  - destruct ready as [|[] ready]; [apply IH| |apply IH]. destruct (IH ready) as [l' ->]. by exists (r' :: l').
Qed.

(** C30: A load announces that it is complete only once the client published the
    completion of a deal, and the content is then in the index.  Unless a wait ends
    with the context, the reader of a load gets its completion last, whatever it was
    busy with before, or the load ends with an error that is only offered: a reader that
    is not waiting then never gets it. *)
Theorem Load_completed `{!RangeOrder range} args offers events ctx (n n' : node Node B X W) out root segs :
  index_ok ienv (nd_idx n) → ne_SplitAbsPath ne (ga_Cid args) = inr (root, segs) →
  Load ienv sv ne range order args offers events ctx n = (n', Ok out) →
  (completed ∈ out →
   (∃ res, first_result events = Some res ∧ tr_Err res = None) ∧
   is_Some (ix_Refs (nd_idx n') !! ie_String ienv root)) ∧
  ((∀ w, ctx w = None) → ∀ ready,
   (∃ l, received out ready = l ++ [get_status "Completed"]) ∨
   (∃ l err, out = l ++ [Offered (get_err err)])).
Proof.
  intros Hok Hp Hl. unfold Load in Hl. rewrite Hp in Hl.
  cut ((completed ∈ out → (∃ res, first_result events = Some res ∧ tr_Err res = None) ∧
                       is_Some (ix_Refs (nd_idx n') !! ie_String ienv root)) ∧ ((∀ w, ctx w = None) → ended out)).
  { intros [? He]. split; [done|]. intros Hctx ready. destruct (He Hctx) as (l & e & -> & [->|[err ->]]); [left|right; eauto].
    apply received_sent. }
  destruct (choose_strategy args) as [strategy unknown].
  destruct (exch_Tx ne _ n) as [n1 [t|e| |]] eqn:Ex; [|done..].
  apply exch_Tx_ok in Ex as (Ei & _ & id & err & _ & Et).
  destruct (go_bind _ _ _) as [s2 [[]|e| |]] eqn:Eb; [|done..]. injection Hl as <- <-.
  apply go_bind_ok in Eb as (s1 & [] & Hb & Hc).
  apply load_body_spec in Hb as [Hcomp Hend]; [| |simpl; by rewrite Et|simpl; destruct unknown; set_solver].
  2: { simpl. by rewrite Ei. }
  assert (silent s1 s2) as [<- <-]; [|done].
  apply go_bind_ok in Hc as (s3 & r & Hc%go_try_ok & [-> _]%go_ret_ok).
  destruct r; exact (keeps_run _ _ _ _ _ l_close_silent Hc).
Qed.

(** The offer cannot be executed, whatever the terms. *)
Definition unusable (off : Offer) : Prop :=
  ∀ p (t : TxState Node B X W), ∃ t' r, exec_start sv off p t = (t', Ok (inl r)).

(** A load never ends when the offer it chose fails before the transfer starts: it
    waits for the deal of the offer and not for its failure. *)
Theorem Load_hangs args offers events ctx (n : node Node B X W) root segs off rest :
  ne_SplitAbsPath ne (ga_Cid args) = inr (root, segs) → ga_Miner args = EmptyString →
  nd_omg n !! root = None → offers (choose_strategy args).1 = off :: rest →
  (∀ c sel w, ∃ w', sv_Query sv c sel w = (w', Ok tt)) → unusable off →
  (∀ w, ctx w = None) →
  (Load ienv sv ne range order args offers events ctx n).2 = Hang.
Proof.
  intros Hp Hm Ho Hf Hq Hu Hctx. unfold Load. rewrite Hp.
  destruct (choose_strategy args) as [strategy unknown]. simpl in Hf. rewrite Hf.
  destruct (exch_Tx ne _ n) as [n1 [t|e| |]] eqn:Ex;
    [|unfold exch_Tx in Ex; by destruct (ne_NewStore _ _) as [? [[? ?] ?]]..].
  apply exch_Tx_ok in Ex as (_ & Eo & id & err & _ & Et).
  set (s := MkLoading _ _ _). set (key := match segs with [] => _ | _ => _ end).
  assert (∃ s1 p, load_offer sv ne root args key (off :: rest) ctx s = (s1, Ok (Some (off, p, off)))) as (s1 & p & Hoff).
  { unfold load_offer, go_bind, go_try, l_omg, l_lift, GetOffer. cbn [l_node nd_omg s]. rewrite Eo, Ho.
    cbn -[emit query_miner l_Tx]. destruct t as [t st]. simpl in Et. subst t.
    unfold l_Tx, TxQuery, go_bind, on_tx, go_modify, go_get, on_service. cbn.
    edestruct Hq as [w' ->]. cbn. unfold query_miner. rewrite Hm. cbn. unfold await. rewrite Hctx. cbn. by eexists _, _. }
  unfold load_body. unfold go_bind at 1 2. rewrite Hoff. unfold go_bind at 1, l_Tx at 1.
  edestruct Hu as (t' & r & ->). unfold await. by rewrite Hctx.
Qed.

End loads.

(** ** Staging files *)

(** The files of a tree under their keys, in the order they are added. *)
Fixpoint tree_files (name : string) (f : FNode) : list (string * Z) :=
  match f with
  | FDir entries _ => concat (map (λ e, tree_files e.1 e.2) entries)
  | FFile _ size => match size with inr n => [(KeyFromPath name, n)] | inl _ => [] end
  | FOther => []
  end.

(** A later file replaces an earlier one of the same key. *)
Definition stage (m : gmap string Z) (l : list (string * Z)) : gmap string Z :=
  foldl (λ m kv, <[kv.1 := kv.2]> m) m l.

Lemma FNode_nested (P : FNode → Prop) :
  (∀ entries err, Forall (λ e, P e.2) entries → P (FDir entries err)) →
  (∀ content size, P (FFile content size)) → P FOther → ∀ f, P f.
Proof.
  intros Hd Hf Ho. fix IH 1. intros [entries err|content size|]; [|apply Hf|apply Ho].
  apply Hd. induction entries as [|[n f] l IHl]; constructor; [apply IH|done].
Qed.

Section files.
Context {CB : CborLib} {Node B X W File : Type} `{Blockstore B} `{IpldLaws B}.
Context (ienv : IndexEnv X) (ne : NodeEnv Node B W File).
Context (order : gmap string Entry → list (string * Entry)) (walk : gset string → list string).
Implicit Types (s : node Node B X W).

(** The sizes staged, by key. *)
Definition staged s : gmap string Z :=
  match nd_tx s with Some (t, _) => e_Size <$> tx_entries t | None => ∅ end.

(** A step that stages files and says nothing. *)
Definition stages (l : list (string * Z)) s s' : Prop :=
  is_Some (nd_tx s') ∧ staged s' = stage (staged s) l ∧ nd_notify s' = nd_notify s.

Lemma Add_stages content s s' c :
  nd_Tx (on_store (ne_Add ne content)) s = (s', Ok c) → stages [] s s'.
Proof.
  unfold nd_Tx, stages, staged. destruct (nd_tx s) as [[t st]|]; [|done]. unfold on_store.
  destruct (ne_Add _ _ _). intros [= <- _]. simpl. eauto.
Qed.

Lemma Put_stages key value size s s' :
  nd_Tx (Put order key value size) s = (s', Ok tt) → stages [(key, size)] s s'.
Proof.
  unfold nd_Tx, stages, staged. destruct (nd_tx s) as [[t st]|]; [|done].
  destruct (Put _ _ _ _ _) as [ts r] eqn:E. intros [= <- ->]. apply Put_ok in E as (E & _). simpl in *.
  rewrite E, fmap_insert. eauto.
Qed.

Lemma stages_trans l1 l2 s1 s2 s3 : stages l1 s1 s2 → stages l2 s2 s3 → stages (l1 ++ l2) s1 s3.
Proof.
  intros (_ & E1 & N1) (T2 & E2 & N2). split_and!; [done| |congruence].
  unfold stage in *. by rewrite E2, E1, foldl_app.
Qed.

(** Adding a tree stages its files, in order. *)
Lemma addRecursive_ok file name added s s' added' :
  is_Some (nd_tx s) → addRecursive ne order name file added s = (s', Ok added') →
  stages (tree_files name file) s s' ∧ added' = list_to_set (tree_files name file).*1 ∪ added.
Proof.
  revert name added s s' added'. induction file as [entries err IH|content size|] using FNode_nested;
    intros name added s s' added' Ht Hr; [| |done].
  - simpl in Hr. apply go_bind_ok in Hr as (s1 & a1 & Hw & Hr).
    assert (s' = s1 ∧ added' = a1) as [-> ->]
      by (destruct err; [done|by apply go_ret_ok in Hr as [-> ->]]).
    clear Hr. revert added s Ht Hw. simpl. induction IH as [|[n f] l Hf _ IHl]; intros added s Ht Hw.
    { apply go_ret_ok in Hw as [-> ->]. split; [done|set_solver]. }
    apply go_bind_ok in Hw as (s2 & a2 & Hf2 & Hw). apply Hf in Hf2 as [Hs2 ->]; [|done].
    apply IHl in Hw as [Hs1 ->]; [|apply Hs2]. split; [by eapply stages_trans|].
    simpl. rewrite fmap_app, list_to_set_app_L. set_solver.
  - simpl in Hr. apply go_bind_ok in Hr as (s1 & c & Ha%Add_stages & Hr).
    apply go_bind_ok in Hr as (s2 & n & [-> ->]%go_sum_ok & Hr).
    apply go_bind_ok in Hr as (s3 & [] & Hp%Put_stages & [-> ->]%go_ret_ok).
    split; [by apply (stages_trans [] _ _ _ _ Ha Hp)|]. simpl. set_solver.
Qed.

Definition hush s1 s2 : Prop := nd_notify s1 = nd_notify s2.

#[local] Instance hush_preorder : PreOrder hush.
Proof. split; [done|]. intros a b c. unfold hush. congruence. Qed.

Lemma nd_Tx_hush {A} (m : go (TxState Node B X W) error A) : keeps hush (nd_Tx m).
Proof. intros s. unfold nd_Tx. destruct (nd_tx s) as [[t st]|]; [|done]. by destruct (m _). Qed.

Hint Resolve nd_Tx_hush : pop.

Lemma addRecursive_hush file name added : keeps hush (addRecursive ne order name file added).
Proof.
  revert name added. induction file as [entries err IH|content size|] using FNode_nested; intros name added.
  - simpl. apply keeps_bind; [typeclasses eauto| |keeps_tac]. revert added.
    induction IH as [|[n f] l Hf _ IHl]; intros added; simpl; keeps_tac.
  - simpl. keeps_tac.
  - simpl. keeps_tac.
Qed.

(** One notification per name. *)
Lemma notify_added_ok root n m keys total s s' :
  notify_added ienv ne root n m keys total s = (s', Ok tt) →
  nd_tx s' = nd_tx s ∧
  ∃ l, nd_notify s' = nd_notify s ++ l ∧ Forall2 (λ k x, ∃ cidk size total,
    x = NPut (MkPutResult root k cidk size total n EmptyString) ∧
    ∀ e, m !! k = Some e → cidk = ie_String ienv (Value e) ∧ size = ne_SizeStr ne (u64 (e_Size e))) keys l.
Proof.
  revert total s. induction keys as [|k keys IH]; intros total s Hr; simpl in Hr.
  { apply go_ret_ok in Hr as [-> _]. split; [done|]. exists []. by rewrite app_nil_r. }
  apply go_bind_ok in Hr as (s1 & [] & [= <-] & Hr). apply IH in Hr as (Ht & l & Hl & Hf).
  split; [done|]. simpl in Hl. rewrite <-app_assoc in Hl. eexists. split; [exact Hl|].
  constructor; [|done]. eexists _, _, _. split; [done|]. by intros e ->.
Qed.

(** A put either answers one error, or stages the files of the tree and answers one
    notification per key. *)
Theorem node_Put_reports path s s' :
  node_Put ienv ne order walk path s = (s', Ok tt) →
  nd_txmu s' = false ∧
  ((∃ e, nd_notify s' = nd_notify s ++ [put_err e]) ∨
   ∃ fnd t st l, ne_open ne path = inr fnd ∧ nd_tx s' = Some (t, st) ∧
     staged s' = stage (staged s) (tree_files path fnd) ∧ nd_notify s' = nd_notify s ++ l ∧
     let keys := list_to_set (tree_files path fnd).*1 in
     Forall2 (λ k x, ∃ cidk size total,
       x = NPut (MkPutResult (ie_String ienv (tx_root t)) k cidk size total (Z.of_nat (base.size keys)) EmptyString) ∧
       ∀ e, tx_entries t !! k = Some e →
         cidk = ie_String ienv (Value e) ∧ size = ne_SizeStr ne (u64 (e_Size e))) (walk keys) l).
Proof.
  intros (s1 & Hr & ->)%locked_ok. split; [done|]. cbn [nd_notify nd_tx set_txmu].
  apply go_bind_ok in Hr as (s2 & s2' & Hg & Hr). injection Hg as <- <-.
  apply go_bind_ok in Hr as (s2 & [] & Hopen & Hr).
  assert (is_Some (nd_tx s2) ∧ staged s2 = staged s ∧ nd_notify s2 = nd_notify s) as (Ht2 & Es2 & <-).
  { unfold staged. cbn [nd_tx set_txmu] in Hopen. destruct (nd_tx s) as [t|] eqn:Et.
    - apply go_ret_ok in Hopen as [-> _]. cbn. rewrite Et. eauto.
    - apply go_bind_ok in Hopen as (s3 & [t st] & He & [= <-]). unfold exch_Tx in He.
      destruct (ne_NewStore _ _) as [w [[id err] st']]. injection He as <- <- <-. simpl.
      split_and!; [eauto| |done]. apply fmap_empty. }
  assert (∀ e s3 s4, send (put_err e) s3 = (s4, Ok tt) → nd_notify s3 = nd_notify s2 →
    ∃ e, nd_notify s4 = nd_notify s2 ++ [put_err e]) as Herr.
  { intros e s3 s4 [= <-] E. exists e. simpl. by rewrite E. }
  destruct (ne_open ne path) as [e|fnd]; [left; by eapply Herr|].
  apply go_bind_ok in Hr as (s3 & r & Hadd%go_try_ok & Hr).
  destruct r as [e|added]; [left; eapply Herr; [done|]; exact (eq_sym (keeps_run _ _ _ _ _ (addRecursive_hush _ _ _) Hadd))|].
  apply addRecursive_ok in Hadd as [(Ht3 & Es3 & En3) ->]; [|done].
  apply go_bind_ok in Hr as (s4 & r & Hst%go_try_ok & Hr). destruct Ht3 as [[t st] Ht3].
  assert (s4 = s3 ∧ ∀ m, r = inr m → m = tx_entries t) as [-> Hm].
  { unfold nd_Tx in Hst. rewrite Ht3 in Hst. unfold TxStatus, go_bind, go_get, go_err, go_ret in Hst.
    simpl in Hst. destruct s3 as [tx3 ?]. simpl in *. subst tx3. destruct r as [e|m], (tx_Err t); simplify_eq; by split; intros; simplify_eq. }
  destruct r as [e|m]; [left; by eapply Herr|]. right. rewrite (Hm m eq_refl) in Hr.
  apply go_bind_ok in Hr as (s5 & root & Hroot & Hr).
  assert (s5 = s3 ∧ root = tx_root t) as [-> ->].
  { unfold nd_Tx in Hroot. rewrite Ht3 in Hroot. unfold go_bind, go_get, go_ret in Hroot.
    destruct s3 as [tx3 ?]. simpl in *. subst tx3. by simplify_eq. }
  rewrite union_empty_r_L in Hr. apply notify_added_ok in Hr as (Ht1 & l & Hl & Hf). exists fnd, t, st, l.
  split_and!; [done|congruence| |congruence|exact Hf].
  unfold staged in *. cbn. rewrite Ht1. by rewrite <-Es2.
Qed.

End files.

(** ** A node in memory *)

Definition folder : FNode := FDir [("a.txt", FFile "hello" (inr 5)); ("b.txt", FFile "world" (inr 5))] None.

Definition desk : NodeEnv string memstore nat string := {|
  ne_open p := if String.eqb p "/home/docs" then inr folder else inl ErrNotFound;
  ne_Add content := λ b, match bs_Put ("cid-" +:+ content) content b with
                         | inl e => (b, Err e)
                         | inr b' => (b', Ok ("cid-" +:+ content))
                         end;
  ne_SplitAbsPath p := if String.eqb p "/node1/a.txt" then inr ("node1", ["a.txt"]) else inl (ErrExternal "invalid path");
  ne_WriteTo _ _ := go_ret tt;
  ne_SizeStr n := pretty n;
  ne_StatusStr m := pretty (Z.of_nat (size m));
  ne_NewStore n := (S n, (Z.of_nat n, None, empty_store));
  ne_DefaultAddress := "wallet";
  ne_All := "all";
  ne_Key k := "key:" +:+ k;
  ne_Entries := "entries";
  ne_NewFromString a := inr a;
  ne_StateMinerInfo _ := inl ErrNotFound;
  ne_NewMultiaddrBytes b := inr b;
  ne_AvailableFunds _ := inr (100, 60)
|}.

Definition idle : node string memstore (gmap string bytes) nat :=
  MkNode None false empty_store index_0 ∅ 0%nat [].
Definition put_docs := node_Put table_store desk map_to_list elements "/home/docs".
Definition commit_docs := node_Commit table_store counting desk elements map_to_list elements 0 [].

Definition docs_staged := Eval vm_compute in (put_docs idle).1.
Definition docs_committed := Eval vm_compute in (commit_docs docs_staged).1.
Definition docs_again := Eval vm_compute in (put_docs docs_committed).1.

Example docs_root : (tx_root ∘ fst <$> nd_tx docs_staged) = Some "node1".
Proof. vm_eq. Qed.
Example docs_notified : length (nd_notify docs_staged) = 2%nat ∧ length (nd_notify docs_committed) = 3%nat.
Proof. split; vm_eq. Qed.

Lemma node_Put_reports_witness :
  nd_txmu docs_staged = false ∧
  ((∃ e, nd_notify docs_staged = nd_notify idle ++ [put_err e]) ∨
   ∃ fnd t st l, ne_open desk "/home/docs" = inr fnd ∧ nd_tx docs_staged = Some (t, st) ∧
     staged docs_staged = stage (staged idle) (tree_files "/home/docs" fnd) ∧
     nd_notify docs_staged = nd_notify idle ++ l ∧
     let keys : gset string := list_to_set (tree_files "/home/docs" fnd).*1 in
     Forall2 (λ k x, ∃ cidk size total,
       x = NPut (MkPutResult (tx_root t) k cidk size total (Z.of_nat (base.size keys)) EmptyString) ∧
       ∀ e, tx_entries t !! k = Some e →
         cidk = Value e ∧ size = ne_SizeStr desk (u64 (e_Size e))) (elements keys) l).
Proof. apply (node_Put_reports table_store desk map_to_list elements "/home/docs" idle docs_staged). run_eq. Defined.

Definition staged_tx : Tx string * memstore := Eval vm_compute in default (empty_tx, empty_store) (nd_tx docs_staged).
Definition again_tx : Tx string * memstore := Eval vm_compute in default (empty_tx, empty_store) (nd_tx docs_again).

Lemma Commit_publishes_or_blocks_witness :
  (nd_tx docs_committed = None ∧ nd_txmu docs_committed = false ∧
   is_Some (ix_Refs (nd_idx docs_committed) !! "node1")) ∨
  stuck table_store counting desk elements every_block map_to_list elements elements docs_committed.
Proof.
  assert (ie_String table_store (tx_root staged_tx.1) = "node1") as <- by vm_eq.
  apply (Commit_publishes_or_blocks table_store counting desk elements every_block map_to_list elements elements 0 []
           docs_staged docs_committed staged_tx.1 staged_tx.2).
  - assert (nd_idx docs_staged = index_0) as -> by vm_eq. apply index_0_ok.
  - vm_eq.
  - run_eq.
Defined.

Lemma Commit_twice_blocks_witness :
  ∃ s', commit_docs docs_again = (s', Ok tt) ∧
    nd_notify s' = nd_notify docs_again ++ [comm_err ErrRefAlreadyExists] ∧
    stuck table_store counting desk elements every_block map_to_list elements elements s'.
Proof.
  apply (Commit_twice_blocks table_store counting desk elements every_block map_to_list elements elements 0
           docs_again again_tx.1 again_tx.2); [vm_eq|vm_eq|vm_eq|lia| |].
  - assert (bool_decide (tx_entries again_tx.1 = ∅) = false) as E%bool_decide_eq_false by vm_eq. exact E.
  - assert (bool_decide (is_Some (ix_Refs (nd_idx docs_again) !! ie_String table_store (tx_root again_tx.1))) = true)
      as E%bool_decide_eq_true by vm_eq. exact E.
Defined.

(** Loading what another node has. *)
Definition get_a : GetArgs := MkGetArgs "/node1/a.txt" EmptyString EmptyString false EmptyString EmptyString 0.
Definition priced (addr : bytes) : Offer := set_o_PeerAddr addr (ask_at 1).
Definition bought : ClientState :=
  set_cs_Status StatusCompleted (Retrieve_state 7 "node1" (terms_at 1) 100 "bob" "wallet" "pay" None).
Definition patient : load_ctx := λ _, None.
Definition load_a := Load table_store counting desk elements map_to_list get_a (λ _, [priced "addr"]) [bought] patient idle.

Definition load_a_out : list emission := Eval vm_compute in match load_a.2 with Ok out => out | _ => [] end.

Lemma Load_completed_witness :
  (completed ∈ load_a_out →
   (∃ res, first_result [bought] = Some res ∧ tr_Err res = None) ∧
   is_Some (ix_Refs (nd_idx load_a.1) !! "node1")) ∧
  ∀ ready, (∃ l, received load_a_out ready = l ++ [get_status "Completed"]) ∨
           (∃ l err, load_a_out = l ++ [Offered (get_err err)]).
Proof.
  destruct (Load_completed table_store counting desk elements map_to_list get_a (λ _, [priced "addr"]) [bought] patient
           idle load_a.1 load_a_out "node1" ["a.txt"]) as [H1 H2]; [apply index_0_ok|vm_eq|run_eq|].
  split; [exact H1|exact (H2 (λ _, eq_refl))].
Defined.

Example load_a_completes : last load_a_out = Some completed.
Proof. done. Qed.

Lemma Load_hangs_witness :
  (Load table_store counting desk elements map_to_list get_a (λ _, [priced "nowhere"]) [] patient idle).2 = Hang.
Proof.
  apply (Load_hangs table_store counting desk elements map_to_list get_a (λ _, [priced "nowhere"]) [] patient idle
           "node1" ["a.txt"] (priced "nowhere") []); [vm_eq..| | |done].
  - intros c sel w. by exists w.
  - intros p t. by eexists _, _.
Defined.
