(* ===== verification/Message.v ===== *)
(** * Messages between the daemon and its clients (node/message.go, serveConn of node/server.go)

    Commands and notifications travel as length-prefixed frames.  The library has
    the frames, the loop that serves a connection, and what they guarantee. *)
From S2P Require Import Prelude Deal PayTypes Cbor Routing.

Definition MaxMessageSize : Z := 10485760.

(** ** Frames *)

(** [binary.LittleEndian] for 32-bit words; reading from fewer bytes panics. *)
Definition le_byte (n : Z) : Ascii.ascii := Ascii.ascii_of_N (Z.to_N (n mod 256)).
Definition byte_val (c : Ascii.ascii) : Z := Z.of_N (Ascii.N_of_ascii c).

Definition PutUint32 (n : Z) : bytes :=
  String (le_byte n) (String (le_byte (n / 256)) (String (le_byte (n / 65536))
    (String (le_byte (n / 16777216)) EmptyString))).

Definition Uint32 (b : bytes) : outcome error Z :=
  match b with
  | String b0 (String b1 (String b2 (String b3 _))) =>
    Ok (byte_val b0 + 256 * byte_val b1 + 65536 * byte_val b2 + 16777216 * byte_val b3)
  | _ => Panic
  end.

(** [io.Writer]: what was written so far, and a write that reports fewer bytes than
    it was given with an error only. *)
Class Writer (W : Type) : Type := {
  w_Write : bytes → go W error Z;
  w_sent : W → bytes
}.

Class WriterLaws (W : Type) {WR : Writer W} : Prop := {
  write_ok : ∀ b w w' n, w_Write b w = (w', Ok n) → n = len b ∧ w_sent w' = w_sent w +:+ b
}.

Definition ReadMsg : go bytes error bytes :=
  let* cb := ReadFull 4 in
  let* n := go_lift (Uint32 cb) in
  if MaxMessageSize <? n then go_err (ErrMsg ("ReadMsg: message too large: " +:+ pretty n +:+ " bytes"))
  else
    let* b := ReadFull n in
    if negb (len b =? n) then
      go_err (ErrMsg ("ReadMsg: expected " +:+ pretty n +:+ " bytes, got " +:+ pretty (len b)))
    else go_ret b.

Definition short_write (n want : Z) : error :=
  ErrMsg ("WriteMsg: short write: " +:+ pretty n +:+ " bytes (wanted " +:+ pretty want +:+ ")").

Definition WriteMsg {W} `{Writer W} (b : bytes) : go W error unit :=
  if MaxMessageSize <? len b then
    go_err (ErrMsg ("WriteMsg: message too large: " +:+ pretty (len b) +:+ " bytes"))
  else
    let* n := w_Write (PutUint32 (len b mod 4294967296)) in
    if negb (n =? 4) then go_err (short_write n 4)
    else
      let* n := w_Write b in
      if negb (n =? len b) then go_err (short_write n (len b)) else go_ret tt.

Fixpoint WriteMsgs {W} `{Writer W} (msgs : list bytes) : go W error unit :=
  match msgs with
  | [] => go_ret tt
  | b :: msgs' => do* WriteMsg b then WriteMsgs msgs'
  end.

(** ** Serving a connection *)

Section serve.
Context {S : Type} (cancelled : S → bool) (GotMsgBytes : bytes → go S error unit) (ServeHTTP : bytes → go S error unit).

(** The first bytes tell a browser from a client. *)
Definition isHTTPReq (input : bytes) : bool :=
  let peek := String.substring 0 4 input in
  String.eqb peek "GET " || String.eqb peek "OPTI" || String.eqb peek "POST".

(** The answer is the error the loop logged when it ended, if any. *)
Fixpoint serve_loop (fuel : nat) (input : bytes) : go S error (option error) :=
  match fuel with
  | O => go_hang
  | Datatypes.S fuel =>
    let* s := go_get in
    if cancelled s then go_ret None
    else
      match ReadMsg input with
      | (rest, Ok msg) =>
        do* go_try (GotMsgBytes msg) then
        serve_loop fuel rest
      | (_, Err err) => go_ret (if is_EOF err then None else Some err)
      | (_, Panic) => go_panic
      | (_, Hang) => go_hang
      end
  end.

Definition serveConn (input : bytes) : go S error (option error) :=
  if isHTTPReq input then do* ServeHTTP input then go_ret None
  else serve_loop (Datatypes.S (String.length input)) input.

(** The messages handled one after the other, until the context ends. *)
Fixpoint handle_all (msgs : list bytes) : go S error unit :=
  match msgs with
  | [] => go_ret tt
  | b :: msgs' =>
    let* s := go_get in
    if cancelled s then go_ret tt
    else do* go_try (GotMsgBytes b) then handle_all msgs'
  end.
End serve.

(** ** Reading what was written *)

Lemma byte_val_le n : byte_val (le_byte n) = n mod 256.
Proof.
  unfold byte_val, le_byte. pose proof (Z.mod_pos_bound n 256 eq_refl).
  rewrite Ascii.N_ascii_embedding by lia. lia.
Qed.

Lemma Uint32_Put n rest : 0 <= n < 4294967296 → Uint32 (PutUint32 n +:+ rest) = Ok n.
Proof.
  intros Hn. simpl. f_equal. rewrite !byte_val_le.
  Z.div_mod_to_equations. lia.
Qed.

Lemma len_nonneg b : 0 <= len b.
Proof. unfold len. lia. Qed.

(** The bytes of a message on the wire. *)
Definition frame (b : bytes) : bytes := PutUint32 (len b) +:+ b.
Definition frames (msgs : list bytes) : bytes := foldr (λ b acc, frame b +:+ acc) EmptyString msgs.

Lemma ReadMsg_frame b rest : len b <= MaxMessageSize → ReadMsg (frame b +:+ rest) = (rest, Ok b).
Proof.
  unfold frame, MaxMessageSize. intros Hb. pose proof (len_nonneg b). rewrite <-string_app_assoc.
  unfold ReadMsg, go_bind. change 4 with (len (PutUint32 (len b))) at 1. rewrite ReadFull_rt.
  pose proof (Uint32_Put (len b) EmptyString) as E. rewrite string_app_empty_r in E.
  unfold go_lift. rewrite E by lia. unfold MaxMessageSize.
  destruct (Z.ltb_spec 10485760 (len b)); [lia|]. rewrite ReadFull_rt, Z.eqb_refl. done.
Qed.

Section writing.
Context {W : Type} `{WriterLaws W}.

Lemma WriteMsg_frame b (w w' : W) :
  WriteMsg b w = (w', Ok tt) → len b <= MaxMessageSize ∧ w_sent w' = w_sent w +:+ frame b.
Proof.
  unfold WriteMsg. destruct (Z.ltb_spec MaxMessageSize (len b)) as [|Hb]; [done|].
  rewrite Z.mod_small by (pose proof (len_nonneg b); unfold MaxMessageSize in *; lia).
  intros (w1 & n & [-> E1]%write_ok & Hk)%go_bind_ok. simpl in Hk.
  apply go_bind_ok in Hk as (w2 & n & [-> E2]%write_ok & Hk). rewrite Z.eqb_refl in Hk.
  apply go_ret_ok in Hk as [-> _]. split; [done|]. by rewrite E2, E1, <-string_app_assoc.
Qed.

Lemma WriteMsgs_frames msgs (w w' : W) :
  WriteMsgs msgs w = (w', Ok tt) →
  Forall (λ b, len b <= MaxMessageSize) msgs ∧ w_sent w' = w_sent w +:+ frames msgs.
Proof.
  revert w. induction msgs as [|b msgs IH]; intros w; simpl.
  { intros [-> _]%go_ret_ok. by rewrite string_app_empty_r. }
  intros (w1 & [] & [Hb E1]%WriteMsg_frame & [Hm E2]%IH)%go_bind_ok.
  split; [by constructor|]. by rewrite E2, E1, string_app_assoc.
Qed.
End writing.

(** ** The loop *)

Section served.
Context {S : Type} (cancelled : S → bool) (GotMsgBytes ServeHTTP : bytes → go S error unit).

Lemma ReadFull_length n r rest b :
  ReadFull n r = (rest, Ok b) → (String.length rest <= String.length r - Z.to_nat n)%nat ∧ n <= len r.
Proof.
  unfold ReadFull, len. destruct (Z.ltb_spec (Z.of_nat (String.length r)) n); [done|].
  intros [= <- _]. split; [apply substring_length|done].
Qed.

(** Each message takes some of the input, so that the loop ends by itself. *)
Lemma ReadMsg_consumes input rest b :
  ReadMsg input = (rest, Ok b) → (String.length rest < String.length input)%nat.
Proof.
  unfold ReadMsg. intros (r1 & cb & [Hl H4]%ReadFull_length & Hk)%go_bind_ok.
  apply go_bind_ok in Hk as (r2 & n & Hu & Hk). injection Hu as <- Hu.
  destruct (MaxMessageSize <? n); [done|]. apply go_bind_ok in Hk as (r3 & b' & [Hl3 _]%ReadFull_length & Hk).
  destruct (negb _); [done|]. apply go_ret_ok in Hk as [-> _]. unfold len in H4. lia.
Qed.

Lemma ReadMsg_returns input : (ReadMsg input).2 ≠ Panic ∧ (ReadMsg input).2 ≠ Hang.
Proof.
  unfold ReadMsg, go_bind. destruct (ReadFull 4 input) as [r [cb|e| |]] eqn:E; try done.
  2,3: unfold ReadFull in E; by destruct (_ <? _).
  assert (∃ n, Uint32 cb = Ok n) as [n Hn].
  { unfold ReadFull in E. destruct (Z.ltb_spec (Z.of_nat (String.length input)) 4); [done|]. injection E as _ <-.
    destruct input as [|a0 [|a1 [|a2 [|a3 input]]]]; simpl in *; try lia. eauto. }
  unfold go_lift. rewrite Hn. destruct (_ <? _); [done|].
  unfold ReadFull. destruct (_ <? _); [done|]. simpl. by destruct (negb _).
Qed.

Lemma eqb_fourth a b c t x y z w :
  w ≠ Ascii.zero → String.eqb (String a (String b (String c (String Ascii.zero t))))
                     (String x (String y (String z (String w EmptyString)))) = false.
Proof. intros Hw. apply String.eqb_neq. congruence. Qed.

(** The length of a frame is no request line: its last byte is zero. *)
Lemma frame_not_http b rest : len b <= MaxMessageSize → isHTTPReq (frame b +:+ rest) = false.
Proof.
  intros Hb. pose proof (len_nonneg b). unfold MaxMessageSize in Hb.
  assert (le_byte (len b / 16777216) = Ascii.zero) as Hz.
  { unfold le_byte. rewrite Z.div_small by lia. done. }
  unfold isHTTPReq, frame, PutUint32. rewrite Hz.
  change (String.substring 0 4 _) with (String (le_byte (len b)) (String (le_byte (len b / 256))
    (String (le_byte (len b / 65536)) (String Ascii.zero (String.substring 0 0 (b +:+ rest)))))).
  cbv zeta. by rewrite !eqb_fourth.
Qed.

Lemma serve_loop_frames msgs tail fuel s :
  Forall (λ b, len b <= MaxMessageSize) msgs → (length msgs < fuel)%nat →
  serve_loop cancelled GotMsgBytes fuel (frames msgs +:+ tail) s =
  match handle_all cancelled GotMsgBytes msgs s with
  | (s', Ok _) => serve_loop cancelled GotMsgBytes (fuel - length msgs) tail s'
  | (s', Err e) => (s', Err e)
  | (s', Panic) => (s', Panic)
  | (s', Hang) => (s', Hang)
  end.
Proof.
  intros Hm. revert fuel s. induction Hm as [|b msgs Hb Hm IH]; intros fuel s Hf.
  { simpl. by rewrite Nat.sub_0_r. }
  destruct fuel as [|fuel]; simpl in Hf; [lia|]. cbn [serve_loop handle_all length frames foldr].
  unfold go_bind at 1 3, go_get. simpl. destruct (cancelled s) eqn:Ec.
  { destruct (fuel - length msgs)%nat eqn:E; [lia|]. simpl. unfold go_bind, go_get. by rewrite Ec. }
  rewrite <-string_app_assoc, ReadMsg_frame by done. unfold go_bind, go_try.
  destruct (GotMsgBytes b s) as [s1 [[]|e| |]]; [by rewrite IH by lia..|done|done].
Qed.

Lemma serve_loop_ends fuel input s :
  (∀ b s, (go_try (GotMsgBytes b) s).2 ≠ Panic ∧ (go_try (GotMsgBytes b) s).2 ≠ Hang) →
  (String.length input < fuel)%nat → ∃ s' r, serve_loop cancelled GotMsgBytes fuel input s = (s', Ok r).
Proof.
  intros Hh. revert input s. induction fuel as [|fuel IH]; intros input s Hf; [lia|]. simpl.
  unfold go_bind at 1, go_get. destruct (cancelled s); [by eexists _, _|].
  destruct (ReadMsg_returns input) as [Hp Hg].
  destruct (ReadMsg input) as [rest [b|e| |]] eqn:Er; [|by eexists _, _|done|done].
  apply ReadMsg_consumes in Er. destruct (Hh b s) as [Hp' Hg'].
  unfold go_bind, go_try in *. destruct (GotMsgBytes b s) as [s1 [[]|e| |]]; [apply IH; lia..|done|done].
Qed.
End served.

(** The frames of messages are handled one by one. *)
Lemma serveConn_frames {S} (cancelled : S → bool) (GotMsgBytes ServeHTTP : bytes → go S error unit)
    (msgs : list bytes) (s : S) :
  msgs ≠ [] → Forall (λ b, len b <= MaxMessageSize) msgs →
  serveConn cancelled GotMsgBytes ServeHTTP (frames msgs) s =
  match handle_all cancelled GotMsgBytes msgs s with
  | (s', Ok _) => (s', Ok None)
  | (s', Err e) => (s', Err e)
  | (s', Panic) => (s', Panic)
  | (s', Hang) => (s', Hang)
  end.
Proof.
  intros Hne Hm.
  unfold serveConn. assert (isHTTPReq (frames msgs) = false) as ->.
  { destruct msgs as [|b msgs]; [done|]. simpl. apply frame_not_http. by inversion_clear Hm. }
  assert (length msgs <= String.length (frames msgs))%nat as Hl.
  { clear. induction msgs as [|b msgs IH]; simpl; [lia|]. rewrite string_length_app. simpl. lia. }
  pose proof (serve_loop_frames cancelled GotMsgBytes msgs EmptyString (Datatypes.S (String.length (frames msgs))) s Hm) as Hs.
  rewrite string_app_empty_r in Hs. rewrite Hs by lia.
  destruct (handle_all _ _ _ _) as [s' [[]|e| |]]; [|done..].
  replace (Datatypes.S (String.length (frames msgs)) - length msgs)%nat with
    (Datatypes.S (String.length (frames msgs) - length msgs)) by lia.
  simpl. unfold go_bind, go_get. by destruct (cancelled s').
Qed.

(** Messages written to a connection are handled by the daemon one by one and in
    order, whatever follows them. *)
Theorem serveConn_handles {S W} `{WriterLaws W} (cancelled : S → bool) (GotMsgBytes ServeHTTP : bytes → go S error unit)
    (msgs : list bytes) (w w' : W) (s : S) :
  w_sent w = EmptyString → msgs ≠ [] → WriteMsgs msgs w = (w', Ok tt) →
  serveConn cancelled GotMsgBytes ServeHTTP (w_sent w') s =
  match handle_all cancelled GotMsgBytes msgs s with
  | (s', Ok _) => (s', Ok None)
  | (s', Err e) => (s', Err e)
  | (s', Panic) => (s', Panic)
  | (s', Hang) => (s', Hang)
  end.
Proof.
  intros Hw Hne [Hm E]%WriteMsgs_frames. rewrite E, Hw. change (EmptyString +:+ ?s) with s.
  by apply serveConn_frames.
Qed.

(** Whatever a client sends, its connection is closed once the input ends. *)
Theorem serveConn_ends {S} (cancelled : S → bool) (GotMsgBytes ServeHTTP : bytes → go S error unit) input s :
  isHTTPReq input = false →
  (∀ b s, (go_try (GotMsgBytes b) s).2 ≠ Panic ∧ (go_try (GotMsgBytes b) s).2 ≠ Hang) →
  ∃ s' r, serveConn cancelled GotMsgBytes ServeHTTP input s = (s', Ok r).
Proof. intros Hi Hh. unfold serveConn. rewrite Hi. apply serve_loop_ends; [done|lia]. Qed.

(** ** A connection in memory *)

#[export] Instance wire : Writer bytes := {|
  w_Write b := λ w, (w +:+ b, Ok (len b));
  w_sent w := w
|}.

#[export] Instance wire_laws : WriterLaws bytes.
Proof. split. simpl. by intros b w w' n [= <- <-]. Qed.

Definition record_msg (b : bytes) : go (list bytes) error unit := go_modify (λ s, s ++ [b]).
Definition never (s : list bytes) : bool := false.
Definition no_http (input : bytes) : go (list bytes) error unit := go_panic.
Definition written : bytes := (WriteMsgs (W:=bytes) ["put"; EmptyString; "list"] EmptyString).1.

Lemma serveConn_handles_witness :
  serveConn never record_msg no_http written [] = (["put"; EmptyString; "list"], Ok None).
Proof.
  change written with (w_sent written).
  rewrite (serveConn_handles never record_msg no_http ["put"; EmptyString; "list"] (EmptyString : bytes) written []);
    [vm_eq|done|done|run_eq].
Defined.

Lemma serveConn_ends_witness : ∃ s' r, serveConn never record_msg no_http "noise" [] = (s', Ok r).
Proof. apply (serveConn_ends never record_msg no_http "noise" []); done. Defined.
