(* ===== verification/LazySeek.v ===== *)
(** * The lazy seeker (node/lazyseek.go)

    Files are served through a seeker that moves the file only when it is read.
    Whoever reads through it cannot tell it from a view that always stands where it
    was told to. *)
From S2P Require Import Prelude Deal PayTypes Cbor.

(** ** Files *)

(** [io.ReadSeeker]: seeking from the start, reading into a buffer of some length,
    and closing if the file can be closed. *)
Class ReadSeeker (Rd : Type) : Type := {
  rs_Seek : Z → go Rd error Z;
  rs_Read : Z → Rd → Rd * (bytes * option error);
  rs_Close : option (go Rd error unit)
}.

(** Inside the file seeking goes where it is asked to, and what is read depends on
    the position and the length asked for, and moves the position by as much. *)
Class ReadSeekerLaws (Rd : Type) {RS : ReadSeeker Rd} (size : Z) : Type := {
  rs_pos : Rd → Z;
  rs_at : Z → Z → bytes * option error;
  rs_seek_ok : ∀ off r, 0 <= off < size → ∃ r', rs_Seek off r = (r', Ok off) ∧ rs_pos r' = off;
  rs_read_ok : ∀ n r, (rs_Read n r).2 = rs_at (rs_pos r) n ∧
                      rs_pos (rs_Read n r).1 = rs_pos r + len (rs_at (rs_pos r) n).1;
  rs_at_len : ∀ p n, 0 <= p < size → len (rs_at p n).1 <= size - p
}.

Definition SeekStart : Z := 0.
Definition SeekCurrent : Z := 1.
Definition SeekEnd : Z := 2.

(** ** The seeker *)

Record lazySeeker (Rd : Type) : Type := MkLazySeeker {
  ls_reader : Rd;
  ls_size : Z;
  ls_offset : Z;
  ls_realOffset : Z
}.
Arguments MkLazySeeker {Rd}.
Arguments ls_reader {Rd}.
Arguments ls_size {Rd}.
Arguments ls_offset {Rd}.
Arguments ls_realOffset {Rd}.

(** A new seeker over a file that was not read yet. *)
Definition NewLazySeeker {Rd} (f : Rd) (size : Z) : lazySeeker Rd := MkLazySeeker f size 0 0.

Section seeker.
Context {Rd : Type} {RS : ReadSeeker Rd}.
Local Abbreviation S_ := (lazySeeker Rd).
Local Abbreviation L := (go S_ error).

Definition set_offset (v : Z) (s : S_) : S_ := MkLazySeeker (ls_reader s) (ls_size s) v (ls_realOffset s).
Definition set_realOffset (v : Z) (s : S_) : S_ := MkLazySeeker (ls_reader s) (ls_size s) (ls_offset s) v.
Definition set_reader (r : Rd) (s : S_) : S_ := MkLazySeeker r (ls_size s) (ls_offset s) (ls_realOffset s).

(** The branch of [Seek] for positions from the start, which the others call. *)
Definition seek_start (offset : Z) : L Z :=
  if offset <? 0 then go_err (ErrMsg "invalid seek offset")
  else
    do* go_modify (set_offset offset) then
    go_ret offset.

Definition Seek (offset whence : Z) : L Z :=
  let* s := go_get in
  if whence =? SeekEnd then seek_start (i64 (ls_size s + offset))
  else if whence =? SeekCurrent then seek_start (i64 (ls_offset s + offset))
  else if whence =? SeekStart then seek_start offset
  else go_err (ErrMsg ("invalid whence: " +:+ pretty whence)).

(** The loop that moves the file, as long as it is not where it should be. *)
Fixpoint actually_seek (fuel : nat) : L unit :=
  let* s := go_get in
  if ls_offset s =? ls_realOffset s then go_ret tt
  else
    match fuel with
    | O => go_hang
    | S fuel =>
      let* off := λ s, let '(r, o) := rs_Seek (ls_offset s) (ls_reader s) in (set_reader r s, o) in
      do* go_modify (set_realOffset off) then
      actually_seek fuel
    end.

(** Two rounds, which the theorem shows to be more than enough.  An error of the
    file comes with what was read before it. *)
Definition Read (n : Z) : L (bytes * option error) :=
  let* s := go_get in
  if ls_size s <=? ls_offset s then go_ret (EmptyString, Some EOF)
  else
    let* r := go_try (actually_seek 2) in
    match r with
    | inl err => go_ret (EmptyString, Some err)
    | inr _ => λ s,
      let '(rd, (b, err)) := rs_Read n (ls_reader s) in
      (MkLazySeeker rd (ls_size s) (i64 (ls_offset s + len b)) (i64 (ls_realOffset s + len b)), Ok (b, err))
    end.

Definition Close : L unit :=
  match rs_Close with
  | Some close => λ s, let '(r, o) := close (ls_reader s) in (set_reader r s, o)
  | None => go_ret tt
  end.

(** ** What its reader does *)

Inductive seek_op : Type :=
| OpSeek (offset whence : Z)
| OpRead (n : Z).

Inductive seek_result : Type :=
| SeekResult (o : error + Z)
| ReadResult (b : bytes) (err : option error).

Definition run_seek_op (o : seek_op) : L seek_result :=
  match o with
  | OpSeek off whence => let* r := go_try (Seek off whence) in go_ret (SeekResult r)
  | OpRead n => let* r := Read n in go_ret (ReadResult r.1 r.2)
  end.

Fixpoint run_ops (ops : list seek_op) : L (list seek_result) :=
  match ops with
  | [] => go_ret []
  | o :: ops' =>
    let* r := run_seek_op o in
    let* rs := run_ops ops' in
    go_ret (r :: rs)
  end.

End seeker.

(** ** A view that stands where it was told to *)

Section view.
Context {Rd : Type} {RS : ReadSeeker Rd} {size : Z} {RL : ReadSeekerLaws Rd size}.

Definition view_seek (pos offset whence : Z) : Z * (error + Z) :=
  let to o := if o <? 0 then (pos, inl (ErrMsg "invalid seek offset")) else (o, inr o) in
  if whence =? SeekEnd then to (i64 (size + offset))
  else if whence =? SeekCurrent then to (i64 (pos + offset))
  else if whence =? SeekStart then to offset
  else (pos, inl (ErrMsg ("invalid whence: " +:+ pretty whence))).

Definition view_read (pos n : Z) : Z * (bytes * option error) :=
  if size <=? pos then (pos, (EmptyString, Some EOF))
  else (pos + len (rs_at pos n).1, rs_at pos n).

Fixpoint view_ops (ops : list seek_op) (pos : Z) : list seek_result :=
  match ops with
  | [] => []
  | OpSeek off whence :: ops' => let '(p, r) := view_seek pos off whence in SeekResult r :: view_ops ops' p
  | OpRead n :: ops' => let '(p, r) := view_read pos n in ReadResult r.1 r.2 :: view_ops ops' p
  end.

(** The file is where the seeker believes it is. *)
Record seeker_ok (pos : Z) (s : lazySeeker Rd) : Prop := {
  sk_size : ls_size s = size;
  sk_offset : ls_offset s = pos;
  sk_pos : 0 <= pos;
  sk_real : ls_realOffset s = rs_pos (ls_reader s)
}.

Lemma Seek_view pos off whence s :
  seeker_ok pos s →
  ∃ s', go_try (Seek off whence) s = (s', Ok (view_seek pos off whence).2) ∧
        seeker_ok (view_seek pos off whence).1 s'.
Proof.
  intros [H1 H2 Hp H3]. unfold Seek, view_seek, go_try, go_bind, go_get. rewrite H1, H2.
  assert (∀ o, ∃ s', go_try (seek_start o) s = (s', Ok (if o <? 0 then inl (ErrMsg "invalid seek offset") else inr o)) ∧
    seeker_ok (if o <? 0 then pos else o) s') as Hs.
  { intros o. unfold go_try, seek_start. destruct (Z.ltb_spec o 0); by eexists. }
  unfold go_try in Hs.
  destruct (whence =? SeekEnd); [specialize (Hs (i64 (size + off))); by destruct (_ <? 0)|].
  destruct (whence =? SeekCurrent); [specialize (Hs (i64 (pos + off))); by destruct (_ <? 0)|].
  destruct (whence =? SeekStart); [specialize (Hs off); by destruct (_ <? 0)|]. by exists s.
Qed.

Lemma actually_seek_ok pos s :
  seeker_ok pos s → pos < size → ∃ s', actually_seek 2 s = (s', Ok tt) ∧ seeker_ok pos s' ∧ ls_realOffset s' = pos.
Proof.
  intros [H1 H2 Hp H3] Hlt. cbn [actually_seek]. unfold go_bind at 1, go_get. rewrite H2.
  destruct (Z.eqb_spec pos (ls_realOffset s)) as [E|_]; [by exists s|].
  unfold go_bind at 1. rewrite H2. destruct (rs_seek_ok pos (ls_reader s)) as (r' & Hr & Hpos); [lia|]. rewrite Hr.
  unfold go_bind at 1, go_modify. unfold go_bind at 1. cbn [ls_offset ls_realOffset set_reader set_realOffset].
  rewrite H2, Z.eqb_refl. eexists. split; [done|]. split; [|done]. by split.
Qed.

Lemma Read_view pos n s :
  size < two63 → seeker_ok pos s →
  ∃ s', Read n s = (s', Ok (view_read pos n).2) ∧ seeker_ok (view_read pos n).1 s'.
Proof.
  intros Hsz Hs. pose proof Hs as [H1 H2 Hp H3]. unfold Read, view_read, go_bind at 1, go_get. rewrite H1, H2.
  destruct (Z.leb_spec size pos); [by exists s|].
  destruct (actually_seek_ok pos s Hs) as (s1 & Ha & [E1 E2 _ E3] & Er); [done|].
  unfold go_bind, go_try. rewrite Ha. destruct (rs_read_ok n (ls_reader s1)) as [Hb Hpos].
  rewrite <-E3, Er in Hb, Hpos. destruct (rs_Read n (ls_reader s1)) as [rd [b err]]. simpl in Hb, Hpos.
  pose proof (rs_at_len pos n) as Hlen. rewrite <-Hb in *. simpl in *. specialize (Hlen ltac:(lia)).
  assert (0 <= len b) by (unfold len; lia).
  eexists. split; [done|]. split; simpl; [done|by rewrite E2, i64_small by lia|lia|].
  by rewrite Er, i64_small, Hpos by lia.
Qed.

Lemma run_ops_view ops pos s :
  size < two63 → seeker_ok pos s →
  ∃ s' pos', run_ops ops s = (s', Ok (view_ops ops pos)) ∧ seeker_ok pos' s'.
Proof.
  intros Hsz. revert pos s. induction ops as [|[off whence|n] ops IH]; intros pos s Hs; [by exists s, pos| |].
  - cbn [run_ops view_ops]. destruct (Seek_view pos off whence s Hs) as (s1 & Hr & H1).
    destruct (view_seek pos off whence) as [p r]. destruct (IH p s1 H1) as (s2 & p2 & H2 & Hp2). exists s2, p2.
    unfold go_bind, run_seek_op, go_bind. rewrite Hr. unfold go_ret. by rewrite H2.
  - cbn [run_ops view_ops]. destruct (Read_view pos n s Hsz Hs) as (s1 & Hr & H1).
    destruct (view_read pos n) as [p r]. destruct (IH p s1 H1) as (s2 & p2 & H2 & Hp2). exists s2, p2.
    unfold go_bind, run_seek_op, go_bind. rewrite Hr. unfold go_ret. by rewrite H2.
Qed.

(** C36: Every sequence of seeks and reads through the lazy seeker returns, with the
    results of a view that is always where it was told to be. *)
Theorem lazy_seeker_view f ops :
  size < two63 → rs_pos f = 0 → ∃ s', run_ops ops (NewLazySeeker f size) = (s', Ok (view_ops ops 0)).
Proof. intros Hsz Hf. destruct (run_ops_view ops 0 (NewLazySeeker f size)) as (s' & _ & ? & _); eauto. by split. Qed.

End view.

(** ** A file in memory *)

Definition poem : bytes := "roses are red".

(** A position in it; a read stops after three bytes, and seeking beyond the end
    fails. *)
Record poem_file : Type := MkPoemFile { pf_pos : Z }.

Definition poem_at (p n : Z) : bytes * option error :=
  if len poem <=? p then (EmptyString, Some EOF)
  else (String.substring (Z.to_nat p) (Z.to_nat (Z.min 3 (Z.min n (len poem - p)))) poem, None).

#[export] Instance poem_seeker : ReadSeeker poem_file := {|
  rs_Seek off := λ f, if len poem <? off then (f, Err (ErrExternal "seek")) else (MkPoemFile off, Ok off);
  rs_Read n := λ f, (MkPoemFile (pf_pos f + len (poem_at (pf_pos f) n).1), poem_at (pf_pos f) n);
  rs_Close := None
|}.

#[export, refine] Instance poem_laws : ReadSeekerLaws poem_file 13 := {| rs_pos := pf_pos; rs_at := poem_at |}.
Proof.
  - intros off r Hoff. exists (MkPoemFile off). simpl. change (len poem) with 13.
    destruct (Z.ltb_spec 13 off); [lia|done].
  - done.
  - intros p n Hp. unfold poem_at. change (len poem) with 13. destruct (Z.leb_spec 13 p); [lia|]. cbn [fst].
    unfold len. pose proof (substring_length (Z.to_nat p) (Z.to_nat (Z.min 3 (Z.min n (13 - p)))) poem). lia.
Defined.

(** What an HTTP server does: the size, the type, then the content. *)
Definition served : list seek_op :=
  [OpSeek 0 SeekEnd; OpSeek 0 SeekStart; OpRead 512; OpSeek 0 SeekStart; OpRead 4; OpSeek 5 SeekCurrent; OpRead 4;
   OpSeek (-3) SeekStart; OpSeek 50 SeekStart; OpRead 4].

Lemma lazy_seeker_view_witness :
  ∃ s', run_ops served (NewLazySeeker (MkPoemFile 0) 13)
        = (s', Ok [SeekResult (inr 13); SeekResult (inr 0); ReadResult "ros" None; SeekResult (inr 0);
                   ReadResult "ros" None; SeekResult (inr 8); ReadResult "e r" None;
                   SeekResult (inl (ErrMsg "invalid seek offset")); SeekResult (inr 50);
                   ReadResult EmptyString (Some EOF)]).
Proof.
  change [SeekResult (inr 13); _; _; _; _; _; _; _; _; _] with (view_ops (RL:=poem_laws) served 0).
  apply (lazy_seeker_view (MkPoemFile 0) served); done.
Defined.
