(* ===== verification/Server.v ===== *)
(** * The daemon and its commands (node/message.go, node/wallet.go, Ping and Off of node/popn.go)

    The commands of all clients go through one lock; those that may take long run
    on their own.  [daemon_step] interleaves them in every order. *)
From S2P Require Import Prelude Deal Fsm PayTypes DataTransfer ClientFsm ProviderFsm Revalidator.
From S2P Require Import Cbor DataRef Index IndexLfu IndexSpec PayChain Session PeerMgr Replication Routing Dag Tx.
From S2P Require Import Fil FilCodec TipSet Wallet Node Message.

(** ** Hexadecimal text (encoding/hex) *)

Definition hexDigit (n : Z) : Ascii.ascii := le_byte (if n <? 10 then 48 + n else 87 + n).

Fixpoint hex_Encode (b : bytes) : string :=
  match b with
  | EmptyString => EmptyString
  | String c b' => String (hexDigit (byte_val c / 16)) (String (hexDigit (byte_val c mod 16)) (hex_Encode b'))
  end.

Definition fromHexChar (c : Ascii.ascii) : option Z :=
  let v := byte_val c in
  if (48 <=? v) && (v <=? 57) then Some (v - 48)
  else if (97 <=? v) && (v <=? 102) then Some (v - 97 + 10)
  else if (65 <=? v) && (v <=? 70) then Some (v - 65 + 10)
  else None.

Definition ErrLength : error := ErrMsg "encoding/hex: odd length hex string".
Definition InvalidByteError : error := ErrExternal "encoding/hex: invalid byte".

Fixpoint DecodeString (s : string) : error + bytes :=
  match s with
  | EmptyString => inr EmptyString
  | String a EmptyString => inl (match fromHexChar a with None => InvalidByteError | Some _ => ErrLength end)
  | String a (String b s') =>
    match fromHexChar a, fromHexChar b with
    | Some x, Some y =>
      match DecodeString s' with inl e => inl e | inr t => inr (String (le_byte (16 * x + y)) t) end
    | _, _ => inl InvalidByteError
    end
  end.

Lemma byte_range c : 0 <= byte_val c < 256.
Proof. unfold byte_val. pose proof (Ascii.N_ascii_bounded c). lia. Qed.

Lemma fromHexChar_digit n : 0 <= n < 16 → fromHexChar (hexDigit n) = Some n.
Proof.
  intros Hn. assert (Forall (λ n, fromHexChar (hexDigit n) = Some n) (seqZ 0 16)) as Hd by (by repeat constructor).
  rewrite Forall_forall in Hd. apply Hd, elem_of_seqZ. lia.
Qed.

Lemma le_byte_val c : le_byte (byte_val c) = c.
Proof.
  unfold le_byte. rewrite Z.mod_small by apply byte_range. unfold byte_val.
  by rewrite N2Z.id, Ascii.ascii_N_embedding.
Qed.

Lemma DecodeString_Encode b : DecodeString (hex_Encode b) = inr b.
Proof.
  induction b as [|c b IH]; [done|]. cbn [hex_Encode DecodeString]. pose proof (byte_range c).
  rewrite (fromHexChar_digit (byte_val c / 16)) by (split; [apply Z.div_pos|apply Z.div_lt_upper_bound]; lia).
  rewrite (fromHexChar_digit (byte_val c mod 16)) by (apply Z.mod_pos_bound; lia).
  rewrite IH, <-Z.div_mod by lia. by rewrite le_byte_val.
Qed.

(** ** Commands *)

Record Command : Type := MkCommand {
  c_Off : bool;
  c_Ping : option string;
  c_Put : option string;
  c_Status : bool;
  c_WalletList : bool;
  c_WalletExport : option (string * string);          (* address and output path *)
  c_WalletPay : option (string * string * string);    (* from, to and amount *)
  c_Commit : option Z;
  c_Get : option GetArgs;
  c_List : bool
}.

(** Commands that run on their own. *)
Inductive task : Type :=
| TCommit (cacheRF : Z)
| TGet (args : GetArgs)
| TList.

Definition ErrInvalidPeer : error := ErrMsg "invalid peer ID or address".

Definition ping_err (e : error) : Notify := NPing (MkPingResult EmptyString [] [] EmptyString (Error e)).
Definition wallet_err (e : error) : Notify := NWallet (MkWalletResult (Error e) []).

(** What a command asks for: the first of its fields that is set. *)
Inductive action : Type :=
| AOff
| APing (who : string)
| APut (path : string)
| AStatus
| AWalletList
| AWalletExport (addr path : string)
| AWalletPay (from to amount : string)
| ATask (t : task).

(** The lock all commands go through: free, held by a command that waits for the
    transaction, or by one that will not return. *)
Inductive cs_state : Type :=
| CsFree
| CsWaiting (a : action)
| CsHung.

(** The node, its wallet, the file system, the commands running on their own and the
    commits waiting for their caches. *)
Record daemon (Node B X W K C R F : Type) : Type := MkDaemon {
  dm_node : node Node B X W;
  dm_wallet : KeystoreWallet K C R;
  dm_fs : F;
  dm_off : bool;
  dm_tasks : list task;
  dm_commits : list DataRef;
  dm_csMu : cs_state
}.
Arguments MkDaemon {Node B X W K C R F}.
Arguments dm_node {Node B X W K C R F}.
Arguments dm_wallet {Node B X W K C R F}.
Arguments dm_fs {Node B X W K C R F}.
Arguments dm_off {Node B X W K C R F}.
Arguments dm_tasks {Node B X W K C R F}.
Arguments dm_commits {Node B X W K C R F}.
Arguments dm_csMu {Node B X W K C R F}.

(** The host, the ping of a peer, the version a peer announced, files and the JSON
    form of keys and commands. *)
Record DaemonEnv (R F : Type) : Type := MkDaemonEnv {
  de_local : PingResult;
  de_DecodePeer : string → error + peer_id;
  de_PeerInfo : peer_id → list string;
  de_ping : peer_id → option error;
  de_AgentVersion : peer_id → option string;
  de_WriteFile : string → bytes → go F error unit;
  de_ToBytes : KeyInfo R → error + bytes;
  de_FromBytes : bytes → error + KeyInfo R;
  de_Unmarshal : bytes → error + Command
}.
Arguments MkDaemonEnv {R F}.
Arguments de_local {R F}.
Arguments de_DecodePeer {R F}.
Arguments de_PeerInfo {R F}.
Arguments de_ping {R F}.
Arguments de_AgentVersion {R F}.
Arguments de_WriteFile {R F}.
Arguments de_ToBytes {R F}.
Arguments de_FromBytes {R F}.
Arguments de_Unmarshal {R F}.

(** [strings.Split] at dashes. *)
Fixpoint split_dash (s : string) : list string :=
  match s with
  | EmptyString => [EmptyString]
  | String c s' =>
    if Ascii.eqb c (Ascii.ascii_of_nat 45) then EmptyString :: split_dash s'
    else match split_dash s' with
         | [] => [String c EmptyString]
         | p :: l => String c p :: l
         end
  end.

Definition agent_version (agent : string) : string :=
  match split_dash agent with
  | [_; v1; v2] => v1 +:+ "-" +:+ v2
  | _ => EmptyString
  end.

Example version_of_agent : agent_version "pop-v0.3-abc" = "v0.3-abc" ∧ agent_version "kubo" = EmptyString.
Proof. split; reflexivity. Qed.

Section daemon.
Context {CB : CborLib} {FL : FilLib} {CL : CidLib} {Node B X W File K C R F : Type}.
Context `{Blockstore B} `{Ipld B} {KS : Keystore K} {WL : WalletLib R}.
Context (ienv : IndexEnv X) (sv : TxServices Node B W File) (ne : NodeEnv Node B W File) (de : DaemonEnv R F).
Context (range : gset ptr → list ptr) (visited : B → cid → Node → list (cid * bytes) * option error).
Context (order : gmap string Entry → list (string * Entry)) (walk : gset string → list string).
Context (gc_order : gset cid → list cid) (Sum : bytes → error + cid) (maxPPB : Z).

Local Abbreviation D_ := (daemon Node B X W K C R F).
Local Abbreviation D := (go D_ error).

Definition set_node (n : node Node B X W) (d : D_) : D_ :=
  MkDaemon n (dm_wallet d) (dm_fs d) (dm_off d) (dm_tasks d) (dm_commits d) (dm_csMu d).
Definition set_wallet (w : KeystoreWallet K C R) (d : D_) : D_ :=
  MkDaemon (dm_node d) w (dm_fs d) (dm_off d) (dm_tasks d) (dm_commits d) (dm_csMu d).
Definition set_fs (f : F) (d : D_) : D_ :=
  MkDaemon (dm_node d) (dm_wallet d) f (dm_off d) (dm_tasks d) (dm_commits d) (dm_csMu d).
Definition set_off (d : D_) : D_ :=
  MkDaemon (dm_node d) (dm_wallet d) (dm_fs d) true (dm_tasks d) (dm_commits d) (dm_csMu d).
Definition set_tasks (l : list task) (d : D_) : D_ :=
  MkDaemon (dm_node d) (dm_wallet d) (dm_fs d) (dm_off d) l (dm_commits d) (dm_csMu d).
Definition set_commits (l : list DataRef) (d : D_) : D_ :=
  MkDaemon (dm_node d) (dm_wallet d) (dm_fs d) (dm_off d) (dm_tasks d) l (dm_csMu d).
Definition set_csMu (c : cs_state) (d : D_) : D_ :=
  MkDaemon (dm_node d) (dm_wallet d) (dm_fs d) (dm_off d) (dm_tasks d) (dm_commits d) c.

Definition on_node {A} (m : go (node Node B X W) error A) : D A := λ d,
  let '(n, r) := m (dm_node d) in (set_node n d, r).
Definition on_wallet {A} (m : go (KeystoreWallet K C R) error A) : D A := λ d,
  let '(w, r) := m (dm_wallet d) in (set_wallet w d, r).
Definition on_fs {A} (m : go F error A) : D A := λ d,
  let '(f, r) := m (dm_fs d) in (set_fs f d, r).
Definition notify (n : Notify) : D unit := on_node (send n).

Definition Off : D unit :=
  do* notify NOff then
  go_modify set_off.

(** The version a peer announced is taken for a string whether or not it is known. *)
Definition ping (id : peer_id) (addrs : list string) : D unit :=
  match de_ping de id with
  | Some err => go_err err
  | None =>
    match de_AgentVersion de id with
    | None => go_panic
    | Some agent => notify (NPing (MkPingResult id addrs [] (agent_version agent) EmptyString))
    end
  end.

Definition reported (m : D unit) (err_of : error → Notify) : D unit :=
  let* r := go_try m in
  match r with inl err => notify (err_of err) | inr _ => go_ret tt end.

Definition Ping (who : string) : D unit :=
  if String.eqb who EmptyString then notify (NPing (de_local de))
  else
    match NewFromString who with
    | inr addr =>
      match filMinerInfo ne addr with
      | inl err => notify (ping_err err)
      | inr info => reported (ping info.1 info.2) ping_err
      end
    | inl _ =>
      match de_DecodePeer de who with
      | inr pid => reported (ping pid (de_PeerInfo de pid)) ping_err
      | inl _ => notify (ping_err ErrInvalidPeer)
      end
    end.

Definition WalletList : D unit :=
  let* r := go_try (on_wallet List_) in
  match r with
  | inl err => notify (wallet_err (ErrMsg ("failed to list addresses: " +:+ Error err)))
  | inr addresses => notify (NWallet (MkWalletResult EmptyString (addr_String <$> addresses)))
  end.

(** [fmt.Errorf] around the error of a call. *)
Definition wrapped {A} (what : string) (m : D A) : D A :=
  let* r := go_try m in
  match r with inl err => go_err (ErrMsg (what +:+ Error err)) | inr a => go_ret a end.

Definition exportPrivateKey (addr outputPath : string) : D unit :=
  let* adr := wrapped "failed to decode address: " (go_sum (NewFromString addr)) in
  let* r := go_try (on_wallet (ExportKey adr)) in
  match r with
  | inl _ => go_err (ErrMsg ("address " +:+ addr +:+ " does not exist"))
  | inr key =>
    let* data := wrapped "failed to convert address to bytes: " (go_sum (de_ToBytes de key)) in
    wrapped ("failed to export KeyInfo to " +:+ addr +:+ ": ") (on_fs (de_WriteFile de outputPath (hex_Encode data)))
  end.

Definition importPrivateKey (pk : string) : D unit :=
  let* data := wrapped "failed to decode key: " (go_sum (DecodeString pk)) in
  let* iki := wrapped "failed to decode keyInfo: " (go_sum (de_FromBytes de data)) in
  let* addr := wrapped "failed to import key: " (on_wallet (ImportKey iki)) in
  wrapped "failed to set default address: " (on_wallet (SetDefaultAddress addr)).

Definition WalletExport (addr outputPath : string) : D unit :=
  let* r := go_try (exportPrivateKey addr outputPath) in
  match r with
  | inl err => notify (wallet_err (ErrMsg ("cannot export private key: " +:+ Error err)))
  | inr _ => notify (NWallet (MkWalletResult EmptyString []))
  end.

Definition bad_address (a : string) (err : error) : Notify :=
  wallet_err (ErrMsg ("failed to decode address " +:+ a +:+ " : " +:+ Error err)).

Definition WalletPay (from to amount : string) : D unit :=
  match NewFromString from with
  | inl err => notify (bad_address from err)
  | inr f =>
    match NewFromString to with
    | inl err => notify (bad_address to err)
    | inr t =>
      let* r := go_try (on_wallet (Transfer Sum f t amount)) in
      match r with
      | inl err => notify (wallet_err err)
      | inr _ => notify (NWallet (MkWalletResult EmptyString []))
      end
    end
  end.

(** *** Dispatch *)

Definition selected_action (cmd : Command) : option action :=
  if c_Off cmd then Some AOff
  else match c_Ping cmd with Some who => Some (APing who) | None =>
  match c_Put cmd with Some path => Some (APut path) | None =>
  if c_Status cmd then Some AStatus
  else if c_WalletList cmd then Some AWalletList
  else match c_WalletExport cmd with Some (a, p) => Some (AWalletExport a p) | None =>
  match c_WalletPay cmd with Some (f, t, v) => Some (AWalletPay f t v) | None =>
  match c_Commit cmd with Some rf => Some (ATask (TCommit rf)) | None =>
  match c_Get cmd with Some args => Some (ATask (TGet args)) | None =>
  if c_List cmd then Some (ATask TList) else None end end end end end end.

Definition perform (a : action) : D unit :=
  match a with
  | AOff => Off
  | APing who => Ping who
  | APut path => on_node (node_Put ienv ne order walk path)
  | AStatus => on_node (node_Status ienv ne)
  | AWalletList => WalletList
  | AWalletExport addr path => WalletExport addr path
  | AWalletPay from to amount => WalletPay from to amount
  | ATask t => go_modify (λ d, set_tasks (dm_tasks d ++ [t]) d)
  end.

Definition GotMsg (cmd : Command) : D unit :=
  match selected_action cmd with
  | Some a => perform a
  | None => go_err (ErrMsg "CommandServer: no command specified")
  end.

Definition GotMsgBytes (b : bytes) : D unit :=
  if String.eqb b EmptyString then go_ret tt
  else
    let* cmd := go_sum (de_Unmarshal de b) in
    GotMsg cmd.

(** *** The daemon at work *)

(** The commands that wait for the transaction. *)
Definition waits (a : action) : bool :=
  match a with APut _ | AStatus => true | _ => false end.

(** A command of a client, under the lock of the command server; commands that run
    on their own; a commit whose caches have answered.  A commit is taken up to the
    wait for its caches and from there on in two steps. *)
Inductive daemon_step : D_ → D_ → Prop :=
| step_command cmd d d' res :
    dm_csMu d = CsFree → go_try (GotMsg cmd) d = (d', Ok res) → daemon_step d d'
| step_wait cmd a d d' :
    dm_csMu d = CsFree → selected_action cmd = Some a → perform a d = (d', Hang) →
    daemon_step d (set_csMu (if waits a && nd_txmu (dm_node d) then CsWaiting a else CsHung) d')
| step_resume a d d' res :
    dm_csMu d = CsWaiting a → go_try (perform a) d = (d', Ok res) → daemon_step d (set_csMu CsFree d')
| step_commit rf l1 l2 d n r :
    dm_tasks d = l1 ++ TCommit rf :: l2 → commit_begin sv order rf (dm_node d) = (n, Ok r) →
    daemon_step d (set_commits (option_list r ++ dm_commits d) (set_tasks (l1 ++ l2) (set_node n d)))
| step_dispatched ref caches l1 l2 d n :
    dm_commits d = l1 ++ ref :: l2 →
    (do* watch_dispatch caches then commit_end ienv sv ne range gc_order ref) (dm_node d) = (n, Ok tt) →
    daemon_step d (set_commits (l1 ++ l2) (set_node n d))
| step_get args offers events ctx ready l1 l2 d n :
    dm_tasks d = l1 ++ TGet args :: l2 →
    node_Get ienv sv ne range visited order maxPPB args offers events ctx ready (dm_node d) = (n, Ok tt) →
    daemon_step d (set_tasks (l1 ++ l2) (set_node n d))
| step_list l1 l2 d n :
    dm_tasks d = l1 ++ TList :: l2 → node_List ienv range (dm_node d) = (n, Ok tt) →
    daemon_step d (set_tasks (l1 ++ l2) (set_node n d)).

(** **** Steps while the transaction is locked *)

(** What keeps the lock of the transaction and the commits in flight. *)
Definition same_held (d1 d2 : D_) : Prop :=
  nd_txmu (dm_node d1) = nd_txmu (dm_node d2) ∧ nd_tx (dm_node d1) = nd_tx (dm_node d2) ∧
  dm_commits d1 = dm_commits d2 ∧ dm_csMu d1 = dm_csMu d2.

#[local] Instance same_held_preorder : PreOrder same_held.
Proof. split; [done|]. intros a b c (? & ? & ? & ?) (? & ? & ? & ?). split_and!; congruence. Qed.

Lemma notify_held n : keeps same_held (notify n).
Proof. done. Qed.

Lemma on_wallet_held {A} (m : go (KeystoreWallet K C R) error A) : keeps same_held (on_wallet m).
Proof. intros d. unfold on_wallet. by destruct (m _). Qed.

Lemma on_fs_held {A} (m : go F error A) : keeps same_held (on_fs m).
Proof. intros d. unfold on_fs. by destruct (m _). Qed.

Lemma modify_held f : (∀ d, same_held d (f d)) → keeps (E:=error) same_held (go_modify f).
Proof. done. Qed.

Hint Resolve notify_held on_wallet_held on_fs_held : pop.
Hint Extern 2 (keeps same_held (go_modify _)) => apply modify_held; done : pop.

Lemma wrapped_held {A} what (m : D A) : keeps same_held m → keeps same_held (wrapped what m).
Proof. intros Hm. unfold wrapped. keeps_tac. Qed.

Hint Resolve wrapped_held : pop.

Lemma perform_held a : waits a = false → keeps same_held (perform a).
Proof.
  intros Hw. destruct a; try done; unfold perform, Off, Ping, reported, ping, WalletList, WalletExport,
    exportPrivateKey, WalletPay; keeps_tac.
Qed.

(** A command that waits cannot go on while the transaction is locked. *)
Lemma perform_blocked a d :
  waits a = true → nd_txmu (dm_node d) = true → perform a d = (d, Hang).
Proof.
  intros Hw Hl. destruct a; try done; unfold perform, on_node.
  - unfold node_Put. rewrite locked_blocked by done. by destruct d.
  - unfold node_Status. rewrite locked_blocked by done. by destruct d.
Qed.

Definition same_tx (n1 n2 : node Node B X W) : Prop := nd_txmu n1 = nd_txmu n2 ∧ nd_tx n1 = nd_tx n2.

#[local] Instance same_tx_preorder : PreOrder same_tx.
Proof. split; [done|]. intros a b c [? ?] [? ?]. split; congruence. Qed.

Lemma send_tx n : keeps (E:=error) same_tx (send n).
Proof. done. Qed.

Lemma index_tx {A} (m : go (Index X) error A) : keeps same_tx (nd_index m).
Proof. intros s. unfold nd_index. by destruct (m (nd_idx s)). Qed.

Hint Resolve send_tx index_tx : pop.

Lemma list_refs_tx refs : keeps same_tx (list_refs ienv refs).
Proof. induction refs as [|[p|] refs IH]; simpl; keeps_tac. Qed.

Hint Resolve list_refs_tx : pop.

Lemma node_List_tx : keeps same_tx (node_List ienv range).
Proof. unfold node_List. keeps_tac. Qed.

Lemma node_Get_locked args offers events ctx ready n n' :
  nd_txmu n = true →
  node_Get ienv sv ne range visited order maxPPB args offers events ctx ready n = (n', Ok tt) → same_tx n n'.
Proof.
  intros Hl. unfold node_Get. destruct (ne_SplitAbsPath _ _) as [e|[root segs]].
  - intros Hr. exact (keeps_run _ _ _ _ _ (send_tx _) Hr).
  - unfold go_bind at 1, Lock. by rewrite Hl.
Qed.

Lemma commit_begin_locked rf (n : node Node B X W) : nd_txmu n = true → commit_begin sv order rf n = (n, Hang).
Proof. intros Hl. unfold commit_begin, go_bind, Lock. by rewrite Hl. Qed.

(** The command server waits for the transaction only with commands that need it. *)
Definition waiting_ok (d : D_) : Prop := ∀ a, dm_csMu d = CsWaiting a → waits a = true.

(** While the transaction is locked, only the commit that holds it can release it,
    and the command server waits on. *)
Lemma locked_step d d' :
  waiting_ok d → nd_txmu (dm_node d) = true → daemon_step d d' →
  (nd_txmu (dm_node d') = true ∧ nd_tx (dm_node d') = nd_tx (dm_node d) ∧ dm_commits d' = dm_commits d ∧
   waiting_ok d' ∧ (∀ a, dm_csMu d = CsWaiting a → dm_csMu d' = CsWaiting a)) ∨
  (∃ l1 ref l2, dm_commits d = l1 ++ ref :: l2 ∧ dm_commits d' = l1 ++ l2 ∧ dm_csMu d' = dm_csMu d).
Proof.
  intros Hok Hl Hs. destruct Hs as [cmd d d' res Hf Hr|cmd a d d' Hf Ha Hr|a d d' res Hf Hr|rf l1 l2 d n r _ Hr
    |ref caches l1 l2 d n Hc _|args offers events ctx ready l1 l2 d n _ Hr|l1 l2 d n _ Hr].
  - left. assert (same_held d d') as (E1 & E2 & E3 & E4).
    { unfold GotMsg in Hr. destruct (selected_action cmd) as [a|].
      - destruct (waits a) eqn:Ew.
        + unfold go_try in Hr. by rewrite perform_blocked in Hr.
        + exact (keeps_run _ _ _ _ _ (keeps_try _ _ (perform_held a Ew)) Hr).
      - by injection Hr as <- _. }
    rewrite <-E1, <-E2, <-E3. unfold waiting_ok. rewrite <-E4, Hf. done.
  - left. destruct (waits a) eqn:Ew.
    + rewrite perform_blocked in Hr by done. injection Hr as <-. rewrite Hl. simpl. split_and!; [done..| |].
      * intros a' [= <-]. done.
      * rewrite Hf. done.
    + destruct (keeps_run _ _ _ _ _ (perform_held a Ew) Hr) as (E1 & E2 & E3 & _). simpl.
      rewrite <-E1, <-E2, <-E3, Hf. done.
  - unfold go_try in Hr. by rewrite perform_blocked in Hr by auto.
  - by rewrite commit_begin_locked in Hr.
  - right. by exists l1, ref, l2.
  - left. destruct (node_Get_locked _ _ _ _ _ _ _ Hl Hr) as [E1 E2]. simpl. by rewrite <-E1, <-E2.
  - left. destruct (keeps_run _ _ _ _ _ node_List_tx Hr) as [E1 E2]. simpl. by rewrite <-E1, <-E2.
Qed.

(** The transaction is locked and no commit is left to release it. *)
Definition leaked (d : D_) : Prop := nd_txmu (dm_node d) = true ∧ dm_commits d = [].

(** C35: Once the lock of the transaction has leaked it is held forever, the transaction
    stays as it is, and a command that waits for it keeps every later command of
    every client waiting. *)
Theorem leaked_forever d d' :
  waiting_ok d → leaked d → rtc daemon_step d d' →
  leaked d' ∧ nd_tx (dm_node d') = nd_tx (dm_node d) ∧
  ∀ a, dm_csMu d = CsWaiting a → dm_csMu d' = CsWaiting a.
Proof.
  intros Hok Hk Hs. revert Hok Hk. induction Hs as [d|d d1 d' Hs _ IH]; intros Hok [Hl Hc]; [done|].
  destruct (locked_step d d1 Hok Hl Hs) as [(H1 & H2 & H3 & H4 & H5)|(l1 & ref & l2 & E & _)];
    [|by destruct l1; rewrite Hc in E].
  destruct (IH H4) as (? & E & Hw); [split; [done|by rewrite H3]|]. split_and!; [done|congruence|auto].
Qed.

(** **** Commits in turn *)

Record daemon_ok (d : D_) : Prop := {
  ok_waiting : waiting_ok d;
  ok_commits : (length (dm_commits d) <= 1)%nat;
  ok_holder : dm_commits d ≠ [] → nd_txmu (dm_node d) = true
}.

Definition same_turn (d1 d2 : D_) : Prop := dm_commits d1 = dm_commits d2 ∧ dm_csMu d1 = dm_csMu d2.

Lemma perform_turn a : keeps same_turn (perform a).
Proof.
  intros d. destruct (waits a) eqn:Ew; [|by apply perform_held].
  destruct a; try done; unfold perform, on_node.
  - by destruct (node_Put _ _ _ _ _ _).
  - by destruct (node_Status _ _ _).
Qed.

(** Where no commit is in flight, a step starts at most one, which holds the lock. *)
Lemma idle_step d d' :
  waiting_ok d → dm_commits d = [] → daemon_step d d' → daemon_ok d'.
Proof.
  intros Hok Hc Hs.
  assert (∀ d1, same_turn d d1 → daemon_ok d1) as Hturn.
  { intros d1 [E1 E2]. split; unfold waiting_ok; rewrite <-?E1, <-?E2, ?Hc; [done|simpl; lia|done]. }
  destruct Hs as [cmd d d' res Hf Hr|cmd a d d' Hf Ha Hr|a d d' res Hf Hr|rf l1 l2 d n r _ Hr
    |ref caches l1 l2 d n E _|args offers events ctx ready l1 l2 d n _ Hr|l1 l2 d n _ Hr].
  - apply Hturn. unfold GotMsg in Hr. destruct (selected_action cmd) as [a|]; [|by injection Hr as <- _].
    pose proof (perform_turn a d) as Ht. unfold go_try in Hr.
    destruct (perform a d) as [d1 [[]|e| |]]; try done; by injection Hr as <- _.
  - destruct (keeps_run _ _ _ _ _ (perform_turn a) Hr) as [E1 E2].
    split; simpl; rewrite <-?E1, ?Hc; [|simpl; lia|done].
    intros a' E. simpl in E. destruct (waits a) eqn:Ew; [|done]. by destruct (nd_txmu _); simplify_eq/=.
  - pose proof (perform_turn a d) as Ht. unfold go_try in Hr.
    assert (dm_commits d' = []) as E by (destruct (perform a d) as [d1 [[]|e| |]]; try done;
      injection Hr as <- _; destruct Ht as [Ht _]; simpl in Ht; by rewrite <-Ht).
    split; simpl; rewrite ?E; [done|simpl; lia|done].
  - split; simpl; rewrite Hc, app_nil_r; [exact Hok|destruct r; simpl; lia|].
    destruct r as [ref|]; [intros _|done]. destruct (nd_tx (dm_node d)) as [t|] eqn:Et.
    + eapply commit_begin_holds; [by rewrite Et|exact Hr].
    + by destruct (commit_begin_none sv order rf _ _ _ Et Hr) as (_ & ? & _).
  - rewrite Hc in E. by destruct l1.
  - by apply Hturn.
  - by apply Hturn.
Qed.

(** C34: At most one commit is in flight at a time, and while one is, it holds the lock of
    the transaction. *)
Theorem commits_exclusive d d' : daemon_ok d → rtc daemon_step d d' → daemon_ok d'.
Proof.
  intros Hok Hs. revert Hok. induction Hs as [d|d d1 d' Hs _ IH]; intros [Hw Hn Hh]; [done|]. apply IH.
  destruct (dm_commits d) as [|ref l] eqn:Ec; [by apply (idle_step d)|].
  destruct (locked_step d d1 Hw) as [(H1 & H2 & H3 & H4 & H5)|(l1 & ref' & l2 & E & E1 & E2)]; [by apply Hh|done|..].
  - split; [done|by rewrite H3, Ec|done].
  - rewrite Ec in E. simpl in Hn. destruct l as [|]; [|simpl in Hn; lia].
    destruct l1 as [|? l1]; [|by destruct l1]. injection E as _ <-.
    split; unfold waiting_ok; rewrite ?E1, ?E2; [done|simpl; lia|done].
Qed.

(** *** Keys on the move *)

(** A keystore that takes every new name and gives up any. *)
Definition reliable {KL : KeystoreLaws K} : Prop :=
  (∀ n p s, ks_view s !! n = None → ∃ s', ks_Put n p s = (s', Ok tt)) ∧
  (∀ n s, ∃ s' r, go_try (ks_Delete n) s = (s', Ok r) ∧ ks_view s' = delete n (ks_view s)).

(** The JSON form of a key has its type and its private key. *)
Definition json_keys : Prop :=
  ∀ ki b, de_ToBytes de ki = inr b → de_FromBytes de b = inr (MkKeyInfo (ki_KType ki) (ki_PrivateKey ki) None).

Lemma wrapped_ok {A} what (m : D A) d d' a : wrapped what m d = (d', Ok a) → m d = (d', Ok a).
Proof.
  unfold wrapped. intros (d1 & r & Hr%go_try_ok & Hk)%go_bind_ok. destruct r; [done|].
  by apply go_ret_ok in Hk as [-> ->].
Qed.

Lemma wrapped_run {A} what (m : D A) d d' a : m d = (d', Ok a) → wrapped what m d = (d', Ok a).
Proof. intros Hm. unfold wrapped, go_bind, go_try. by rewrite Hm. Qed.

Lemma exportPrivateKey_ok addr path d d' :
  exportPrivateKey addr path d = (d', Ok tt) →
  ∃ a key data, NewFromString addr = inr a ∧ w_keys (dm_wallet d) !! a = Some key ∧
    de_ToBytes de (k_KeyInfo key) = inr data ∧ de_WriteFile de path (hex_Encode data) (dm_fs d) = (dm_fs d', Ok tt).
Proof.
  unfold exportPrivateKey. intros (d1 & a & [-> Ha]%wrapped_ok%go_sum_ok & Hk)%go_bind_ok.
  apply go_bind_ok in Hk as (d2 & r & Hr%go_try_ok & Hk). destruct r as [e|ki]; [done|].
  unfold on_wallet, ExportKey, go_bind at 1, go_get in Hr.
  destruct (w_keys (dm_wallet d) !! a) as [key|] eqn:Ek; [|done]. injection Hr as <- <-.
  apply go_bind_ok in Hk as (d3 & data & [-> Hd]%wrapped_ok%go_sum_ok & Hw%wrapped_ok).
  exists a, key, data. split_and!; [done..|]. unfold on_fs in Hw. simpl in Hw.
  destruct (de_WriteFile _ _ _ _) as [f r]. by injection Hw as <- ->.
Qed.

Lemma ImportKey_run {KL : KeystoreLaws K} (w : KeystoreWallet K C R) k :
  reliable → made (w_sigs w) k → ks_view (w_keystore w) !! stored_name (k_Address k) = None →
  ∃ w', ImportKey (MkKeyInfo (ki_KType (k_KeyInfo k)) (ki_PrivateKey (k_KeyInfo k)) None) w = (w', Ok (k_Address k)) ∧
    ks_view (w_keystore w') = <[stored_name (k_Address k) := as_priv k]> (ks_view (w_keystore w)).
Proof.
  intros [Hput _] (s & Hsig & Hl & Hn) Hnone. destruct k as [[kt pk sg] pub a]. simpl in *. subst sg.
  unfold ImportKey, go_bind, go_get, go_lift, KeyTypeSig. simpl. rewrite Hl, Hn. unfold on_ks. simpl.
  destruct (Hput (KNamePrefix +:+ addr_String a) (as_priv (MkKey (MkKeyInfo kt pk (Some s)) pub a)) _ Hnone) as [ks' Hks].
  rewrite Hks. eexists. split; [done|]. simpl. by apply ks_put_ok in Hks as [_ ->].
Qed.

Lemma SetDefaultAddress_run {KL : KeystoreLaws K} (w : KeystoreWallet K C R) a p :
  reliable → ks_view (w_keystore w) !! stored_name a = Some p → pk_Type p = KeyType_Secp256k1 →
  ∃ w', SetDefaultAddress a w = (w', Ok tt) ∧ w_defaultAddr w' = a ∧
    ks_view (w_keystore w') = <[KDefault := p]> (ks_view (w_keystore w)).
Proof.
  intros [Hput Hdel] Hp Ht. unfold SetDefaultAddress, go_bind, on_ks.
  change (KNamePrefix +:+ addr_String a) with (stored_name a). rewrite (ks_get_some (stored_name a) p) by done. unfold go_try at 1. simpl.
  destruct (Hdel KDefault (w_keystore w)) as (s1 & r & Hd & Hv). unfold go_try in Hd.
  assert (∃ r, ks_Delete KDefault (w_keystore w) = (s1, r) ∧ (r = Ok tt ∨ ∃ e, r = Err e)) as (r' & Er & Hr').
  { destruct (ks_Delete KDefault (w_keystore w)) as [s2 [[]|e| |]]; try done; injection Hd as <- _; eauto. }
  rewrite Er. destruct (Hput KDefault p s1) as [s2 Hs2]; [by rewrite Hv, lookup_delete_eq|].
  destruct Hr' as [-> |[e ->]]; simpl; rewrite Hs2; simpl; (eexists; split_and!; [done..|]);
    simpl; apply ks_put_ok in Hs2 as [_ Hv2]; by rewrite Hv2, Hv, insert_delete_eq.
Qed.

(** A key exported to a file and imported by another daemon is that daemon's default
    key, under the same address. *)
Theorem exported_key_imports {KL : KeystoreLaws K} {LAWS : WalletLaws R} addr path d d' d2 :
  json_keys → reliable → wallet_ok (dm_wallet d) → w_sigs (dm_wallet d2) = w_sigs (dm_wallet d) →
  exportPrivateKey addr path d = (d', Ok tt) →
  ∃ a key text, NewFromString addr = inr a ∧ w_keys (dm_wallet d) !! a = Some key ∧
    de_WriteFile de path text (dm_fs d) = (dm_fs d', Ok tt) ∧
    (Key_Type key = KeyType_Secp256k1 → ks_view (w_keystore (dm_wallet d2)) !! stored_name a = None →
     ∃ d2', importPrivateKey text d2 = (d2', Ok tt) ∧ w_defaultAddr (dm_wallet d2') = a ∧
       ks_view (w_keystore (dm_wallet d2')) !! stored_name a = Some (as_priv key)).
Proof.
  intros Hj Hrel Hok Es (a & key & data & Ha & Hk & Hd & Hw)%exportPrivateKey_ok.
  destruct (ok_cached _ Hok _ _ Hk) as (<- & Hm & _). eexists _, key, _. split_and!; [done..|].
  intros Ht Hnone. rewrite <-Es in Hm.
  destruct (ImportKey_run _ _ Hrel Hm Hnone) as (w1 & Hi & Hv1).
  destruct (SetDefaultAddress_run w1 (k_Address key) (as_priv key) Hrel) as (w2 & Hs & Hdef & Hv2);
    [by rewrite Hv1, lookup_insert_eq|done|].
  exists (set_wallet w2 (set_wallet w1 d2)). split_and!; [|done|].
  - unfold importPrivateKey, go_bind. rewrite DecodeString_Encode.
    erewrite wrapped_run by done. erewrite wrapped_run by (unfold go_sum; by rewrite (Hj _ _ Hd)).
    erewrite wrapped_run by (unfold on_wallet; by rewrite Hi).
    erewrite wrapped_run; [done|]. unfold on_wallet. simpl. by rewrite Hs.
  - simpl. rewrite Hv2, lookup_insert_ne, Hv1, lookup_insert_eq; [done|].
    intros E. by apply (default_not_stored (stored_name (k_Address key))); [apply string_app_prefix|].
Qed.

End daemon.

(** ** A daemon in memory *)

Definition json_of (ki : KeyInfo (list bytes)) : error + bytes :=
  if String.eqb (ki_KType ki) KTSecp256k1 then inr ("s" +:+ ki_PrivateKey ki)
  else if String.eqb (ki_KType ki) KTBLS then inr ("b" +:+ ki_PrivateKey ki)
  else inl (ErrExternal "json").

Definition of_json (b : bytes) : error + KeyInfo (list bytes) :=
  match b with
  | String c pk =>
    if Ascii.eqb c (Ascii.ascii_of_nat 115) then inr (MkKeyInfo KTSecp256k1 pk None)
    else if Ascii.eqb c (Ascii.ascii_of_nat 98) then inr (MkKeyInfo KTBLS pk None)
    else inl (ErrExternal "json")
  | EmptyString => inl (ErrExternal "json")
  end.

Definition toy_daemon : DaemonEnv (list bytes) (gmap string bytes) := {|
  de_local := MkPingResult "me" ["/ip4/127.0.0.1"] [] "v0.3" EmptyString;
  de_DecodePeer who := if String.eqb who "bob" then inr "bob" else inl (ErrExternal "peer");
  de_PeerInfo _ := ["/ip4/10.0.0.1"];
  de_ping _ := None;
  de_AgentVersion p := if String.eqb p "bob" then Some "pop-v0.3-abc" else None;
  de_WriteFile p b := λ f, (<[p := b]> f, Ok tt);
  de_ToBytes := json_of;
  de_FromBytes := of_json;
  de_Unmarshal b := if String.eqb b "put" then
                      inr (MkCommand false None (Some "/home/docs") false false None None None None false)
                    else inl (ErrExternal "json")
|}.

Abbreviation TD := (daemon string memstore (gmap string bytes) nat (gmap string PrivKey) (list SignedMessage)
                      (list bytes) (gmap string bytes)) (only parsing).

Definition toy_step : TD → TD → Prop :=
  daemon_step table_store counting desk toy_daemon elements every_block map_to_list elements elements sample_sum 0.

(** The same documents committed a second time. *)
Definition daemon_0 : TD := MkDaemon docs_again two_keys ∅ false [TCommit 0; TList] [] CsFree.
Definition begun := Eval vm_compute in commit_begin counting map_to_list 0 docs_again.
Definition begun_ref : DataRef := Eval vm_compute in match begun.2 with Ok (Some r) => r | _ => MkDataRef EmptyString 0 [] 0 0 None end.
Definition daemon_1 : TD :=
  set_commits (option_list (Some begun_ref) ++ dm_commits daemon_0) (set_tasks ([] ++ [TList]) (set_node begun.1 daemon_0)).
Definition refused := Eval vm_compute in (do* watch_dispatch [] then commit_end table_store counting desk elements elements begun_ref) begun.1.
Definition daemon_2 : TD := set_commits ([] ++ []) (set_node refused.1 daemon_1).
Definition put_again : action := APut "/home/docs".
Definition daemon_3 : TD := set_csMu (CsWaiting put_again) daemon_2.
Definition listed := Eval vm_compute in node_List table_store elements refused.1.
Definition daemon_4 : TD := set_tasks ([] ++ []) (set_node listed.1 daemon_3).

Lemma begun_ok : commit_begin counting map_to_list 0 (dm_node daemon_0) = (begun.1, Ok (Some begun_ref)).
Proof. vm_eq. Qed.

Lemma refused_ok :
  (do* watch_dispatch [] then commit_end table_store counting desk elements elements begun_ref) (dm_node daemon_1)
  = (refused.1, Ok tt).
Proof. vm_eq. Qed.

Lemma listed_ok : node_List table_store elements (dm_node daemon_3) = (listed.1, Ok tt).
Proof. vm_eq. Qed.

Lemma put_waits :
  perform table_store desk toy_daemon map_to_list elements sample_sum put_again daemon_2 = (daemon_2, Hang).
Proof. apply perform_blocked; [done|vm_eq]. Qed.

Definition put_command : Command := MkCommand false None (Some "/home/docs") false false None None None None false.

Lemma steps_0_2 : rtc toy_step daemon_0 daemon_2.
Proof.
  eapply rtc_l; [exact (step_commit _ _ _ _ _ _ _ _ _ _ _ 0 [] [TList] daemon_0 begun.1 (Some begun_ref) eq_refl begun_ok)|].
  apply rtc_once. exact (step_dispatched _ _ _ _ _ _ _ _ _ _ _ begun_ref [] [] [] daemon_1 refused.1 eq_refl refused_ok).
Qed.

Lemma steps_2_3 : toy_step daemon_2 daemon_3.
Proof.
  assert (nd_txmu (dm_node daemon_2) = true) as Hl by vm_eq.
  pose proof (step_wait table_store counting desk toy_daemon elements every_block map_to_list elements elements
    sample_sum 0 put_command put_again daemon_2 daemon_2 eq_refl eq_refl put_waits) as Hs.
  rewrite Hl in Hs. exact Hs.
Qed.

Lemma steps_3_4 : toy_step daemon_3 daemon_4.
Proof. exact (step_list _ _ _ _ _ _ _ _ _ _ _ [] [] daemon_3 listed.1 eq_refl listed_ok). Qed.

Lemma leaked_forever_witness :
  leaked daemon_4 ∧ nd_tx (dm_node daemon_4) = nd_tx (dm_node daemon_3) ∧
  ∀ a, dm_csMu daemon_3 = CsWaiting a → dm_csMu daemon_4 = CsWaiting a.
Proof.
  apply (leaked_forever table_store counting desk toy_daemon elements every_block map_to_list elements elements
           sample_sum 0 daemon_3 daemon_4).
  - by intros a [= <-].
  - split; vm_eq.
  - apply rtc_once, steps_3_4.
Defined.

Lemma commits_exclusive_witness : daemon_ok daemon_2.
Proof.
  apply (commits_exclusive table_store counting desk toy_daemon elements every_block map_to_list elements elements
           sample_sum 0 daemon_0 daemon_2).
  - split; [done|simpl; lia|done].
  - exact steps_0_2.
Defined.

Lemma toy_json : json_keys toy_daemon.
Proof.
  intros [kt pk sg] b. unfold toy_daemon, json_of. cbn.
  destruct (String.eqb_spec kt KTSecp256k1) as [->|]; [by intros [= <-]|].
  destruct (String.eqb_spec kt KTBLS) as [->|]; [by intros [= <-]|done].
Qed.

Lemma toy_reliable : reliable (K:=gmap string PrivKey).
Proof.
  split; simpl.
  - intros n p s ->. eauto.
  - intros n s. by eexists _, _.
Qed.

(** The daemon that gets the key has one of its own. *)
Definition receiver : TD := set_wallet (toy_wallet ∅ []) daemon_0.
Definition exported := exportPrivateKey toy_daemon "f1k2" "/tmp/key" daemon_0.

Lemma exported_key_imports_witness :
  ∃ a key text, NewFromString "f1k2" = inr a ∧ w_keys two_keys !! a = Some key ∧
    de_WriteFile toy_daemon "/tmp/key" text ∅ = (dm_fs exported.1, Ok tt) ∧
    (Key_Type key = KeyType_Secp256k1 → ks_view (w_keystore (dm_wallet receiver)) !! stored_name a = None →
     ∃ d2', importPrivateKey toy_daemon text receiver = (d2', Ok tt) ∧ w_defaultAddr (dm_wallet d2') = a ∧
       ks_view (w_keystore (dm_wallet d2')) !! stored_name a = Some (as_priv key)).
Proof.
  apply (exported_key_imports toy_daemon "f1k2" "/tmp/key" daemon_0 exported.1 receiver).
  - apply toy_json.
  - apply toy_reliable.
  - apply (reach_ok sample_sum), reach_two.
  - rewrite (toy_sigs ∅ [] [] : w_sigs (dm_wallet receiver) = _). vm_eq.
  - run_eq.
Defined.

Example key_moves :
  (importPrivateKey toy_daemon (default EmptyString (dm_fs exported.1 !! "/tmp/key")) receiver).2 = Ok tt.
Proof. vm_eq. Qed.
