(* ===== verification/Clients.v ===== *)
(** * Clients of the daemon (node/message.go, node/server.go, cmd/pop/cli/cli.go)

    The command line encodes its commands as JSON, one frame each; the daemon broadcasts
    its notifications to every connection that is open.  Both directions are put
    together with the frames and the dispatch of the daemon. *)
From S2P Require Import Prelude Deal Fsm PayTypes DataTransfer ClientFsm ProviderFsm Revalidator.
From S2P Require Import Cbor DataRef Index IndexLfu IndexSpec Session PeerMgr Replication Routing Dag Tx Fil.
From S2P Require Import PayChain FilCodec TipSet Wallet Node Message Server.

(** ** Text

    The strings of a message may hold any bytes, and JSON is text: what is not UTF-8 is
    replaced. *)

Definition within (lo hi v : Z) : bool := (lo <=? v) && (v <=? hi).
Definition continuation (a : Ascii.ascii) : bool := within 128 191 (byte_val a).

Fixpoint valid_utf8 (s : string) : bool :=
  match s with
  | EmptyString => true
  | String a s1 =>
    let v := byte_val a in
    if v <? 128 then valid_utf8 s1
    else
      match s1 with
      | EmptyString => false
      | String b s2 =>
        let w := byte_val b in
        if within 194 223 v then continuation b && valid_utf8 s2
        else
          match s2 with
          | EmptyString => false
          | String c s3 =>
            if within 224 239 v
            then within (if v =? 224 then 160 else 128) (if v =? 237 then 159 else 191) w &&
                 continuation c && valid_utf8 s3
            else
              match s3 with
              | EmptyString => false
              | String d s4 =>
                within 240 244 v && within (if v =? 240 then 144 else 128) (if v =? 244 then 143 else 191) w &&
                continuation c && continuation d && valid_utf8 s4
              end
          end
      end
  end.

(** The strings of an action and of a notification, and what they become. *)
Section text.
Context (f : string → string).

Definition args_text (a : GetArgs) : GetArgs :=
  MkGetArgs (f (ga_Cid a)) (f (ga_Key a)) (f (ga_Out a)) (ga_Verbose a) (f (ga_Miner a)) (f (ga_Strategy a)) (ga_MaxPPB a).

Definition command_text (c : Command) : Command :=
  MkCommand (c_Off c) (f <$> c_Ping c) (f <$> c_Put c) (c_Status c) (c_WalletList c)
    ((λ p, (f p.1, f p.2)) <$> c_WalletExport c) ((λ p, (f p.1.1, f p.1.2, f p.2)) <$> c_WalletPay c)
    (c_Commit c) (args_text <$> c_Get c) (c_List c).

Definition action_text (a : action) : action :=
  match a with
  | APing who => APing (f who)
  | APut path => APut (f path)
  | AWalletExport addr path => AWalletExport (f addr) (f path)
  | AWalletPay from to amount => AWalletPay (f from) (f to) (f amount)
  | ATask (TGet args) => ATask (TGet (args_text args))
  | a => a
  end.

Definition notify_text (n : Notify) : Notify :=
  match n with
  | NOff => NOff
  | NPing r => NPing (MkPingResult (f (pg_ID r)) (map f (pg_Addrs r)) (map f (pg_Peers r)) (f (pg_Version r)) (f (pg_Err r)))
  | NWallet r => NWallet (MkWalletResult (f (wr_Err r)) (map f (wr_Addresses r)))
  | NPut r => NPut (MkPutResult (f (pr_RootCid r)) (f (pr_Key r)) (f (pr_Cid r)) (f (pr_Size r)) (f (pr_TotalSize r))
                      (pr_Len r) (f (pr_Err r)))
  | NStatus r => NStatus (MkStatusResult (f (sr_RootCid r)) (f (sr_Entries r)) (f (sr_Err r)))
  | NComm r => NComm (MkCommResult (f (cr_Ref r)) (map f (cr_Caches r)) (f (cr_Size r)) (f (cr_Err r)))
  | NGet r => NGet (MkGetResult (f (gr_Status r)) (f (gr_DealID r)) (gr_Size r) (f (gr_TotalSpent r)) (gr_TotalReceived r)
                      (f (gr_TotalFunds r)) (f (gr_PricePerByte r)) (f (gr_UnsealPrice r)) (gr_Local r) (f (gr_Err r)))
  | NList r => NList (MkListResult (f (lr_Root r)) (lr_Freq r) (lr_Size r) (lr_Last r) (f (lr_Err r)))
  end.
End text.

Definition args_strings (a : GetArgs) : list string := [ga_Cid a; ga_Key a; ga_Out a; ga_Miner a; ga_Strategy a].

Definition action_strings (a : action) : list string :=
  match a with
  | APing who => [who]
  | APut path => [path]
  | AWalletExport addr path => [addr; path]
  | AWalletPay from to amount => [from; to; amount]
  | ATask (TGet args) => args_strings args
  | _ => []
  end.

Definition notify_strings (n : Notify) : list string :=
  match n with
  | NOff => []
  | NPing r => pg_ID r :: pg_Version r :: pg_Err r :: pg_Addrs r ++ pg_Peers r
  | NWallet r => wr_Err r :: wr_Addresses r
  | NPut r => [pr_RootCid r; pr_Key r; pr_Cid r; pr_Size r; pr_TotalSize r; pr_Err r]
  | NStatus r => [sr_RootCid r; sr_Entries r; sr_Err r]
  | NComm r => cr_Ref r :: cr_Size r :: cr_Err r :: cr_Caches r
  | NGet r => [gr_Status r; gr_DealID r; gr_TotalSpent r; gr_TotalFunds r; gr_PricePerByte r; gr_UnsealPrice r; gr_Err r]
  | NList r => [lr_Root r; lr_Err r]
  end.

(** Made of text only. *)
Definition textual (l : list string) : Prop := Forall (λ s, valid_utf8 s = true) l.

Lemma map_unchanged (f : string → string) l : Forall (λ s, f s = s) l → map f l = l.
Proof. induction 1; simpl; congruence. Qed.

Lemma action_unchanged f a : Forall (λ s, f s = s) (action_strings a) → action_text f a = a.
Proof.
  destruct a as [|who|path| | |addr path|from to amount|[rf|[]|]]; try done; simpl; unfold args_strings, args_text; simpl; intros Hs;
    repeat (apply Forall_cons in Hs as [? Hs]); congruence.
Qed.

Lemma notify_unchanged f n : Forall (λ s, f s = s) (notify_strings n) → notify_text f n = n.
Proof.
  destruct n as [|[]|[]|[]|[]|[]|[]|[]]; try done; simpl; intros Hs;
    repeat (apply Forall_cons in Hs as [? Hs]); try congruence.
  - apply Forall_app in Hs as [Ha%map_unchanged Hp%map_unchanged]. congruence.
  - apply map_unchanged in Hs. congruence.
  - apply map_unchanged in Hs. congruence.
Qed.

(** ** JSON, a library *)

Record Json : Type := MkJson {
  js_Command : Command → error + bytes;
  js_Notify : Notify → error + bytes;
  js_ReadNotify : bytes → error + Notify;
  js_Text : string → string           (* the text a string is written as *)
}.

(** What is written is read back as text, and is not empty. *)
Class JsonLaws (js : Json) (Unmarshal : bytes → error + Command) : Prop := {
  json_text : ∀ s, valid_utf8 s = true → js_Text js s = s;
  json_command : ∀ c b, js_Command js c = inr b → Unmarshal b = inr (command_text (js_Text js) c) ∧ b ≠ EmptyString;
  json_notify : ∀ n b, js_Notify js n = inr b → js_ReadNotify js b = inr (notify_text (js_Text js) n) ∧ b ≠ EmptyString
}.

Section unchanged.
Context (js : Json) {Unmarshal} {JL : JsonLaws js Unmarshal}.

Lemma textual_unchanged l : textual l → Forall (λ s, js_Text js s = s) l.
Proof. intros Hl. eapply Forall_impl; [exact Hl|apply json_text]. Qed.

Lemma actions_unchanged l : Forall (λ a, textual (action_strings a)) l → action_text (js_Text js) <$> l = l.
Proof.
  induction 1 as [|a l Ha _ IH]; [done|]. rewrite fmap_cons, IH. f_equal. by apply action_unchanged, textual_unchanged.
Qed.

Lemma notifies_unchanged l : Forall (λ n, textual (notify_strings n)) l → notify_text (js_Text js) <$> l = l.
Proof.
  induction 1 as [|n l Hn _ IH]; [done|]. rewrite fmap_cons, IH. f_equal. by apply notify_unchanged, textual_unchanged.
Qed.
End unchanged.

(** ** [CommandClient] *)

(** The methods of the client, by what they ask for. *)
Definition client_command (a : action) : Command :=
  match a with
  | AOff => MkCommand true None None false false None None None None false
  | APing who => MkCommand false (Some who) None false false None None None None false
  | APut path => MkCommand false None (Some path) false false None None None None false
  | AStatus => MkCommand false None None true false None None None None false
  | AWalletList => MkCommand false None None false true None None None None false
  | AWalletExport addr path => MkCommand false None None false false (Some (addr, path)) None None None false
  | AWalletPay from to amount => MkCommand false None None false false None (Some (from, to, amount)) None None false
  | ATask (TCommit rf) => MkCommand false None None false false None None (Some rf) None false
  | ATask (TGet args) => MkCommand false None None false false None None None (Some args) false
  | ATask TList => MkCommand false None None false false None None None None true
  end.

Section client.
Context (js : Json) {W : Type} `{Writer W}.

(** A command that cannot be encoded is logged, and an empty message is sent. *)
Definition cc_message (cmd : Command) : bytes :=
  match js_Command js cmd with inl _ => EmptyString | inr b => b end.

(** [send], with the closure of [connect], which drops the error of the connection. *)
Definition cc_send (cmd : Command) : go W error unit :=
  do* go_try (WriteMsg (cc_message cmd)) then
  go_ret tt.

Fixpoint cc_sends (l : list action) : go W error unit :=
  match l with
  | [] => go_ret tt
  | a :: l' => do* cc_send (client_command a) then cc_sends l'
  end.

(** A notification that cannot be decoded ends the process. *)
Definition GotNotifyMsg (b : bytes) : go (list Notify) error unit :=
  if String.eqb b EmptyString then go_ret tt
  else
    match js_ReadNotify js b with
    | inl _ => go_panic
    | inr n => go_modify (λ l, l ++ [n])
    end.

(** The loop of the command line over what the daemon sends, until its context ends: the
    error it logged, if any. *)
Fixpoint receive (cancelled : list Notify → bool) (fuel : nat) (input : bytes)
    : go (list Notify) error (option error) :=
  match fuel with
  | O => go_hang
  | S fuel =>
    let* l := go_get in
    if cancelled l then go_ret None
    else
      match ReadMsg input with
      | (rest, Ok msg) => do* GotNotifyMsg msg then receive cancelled fuel rest
      | (_, Err err) => go_ret (Some err)
      | (_, Panic) => go_panic
      | (_, Hang) => go_hang
      end
  end.

(** ** The connections of the server *)

Definition addConn (c : Z) (w : W) (clients : gmap Z W) : gmap Z W := <[c := w]> clients.
Definition removeAndCloseConn (c : Z) (clients : gmap Z W) : gmap Z W := delete c clients.

(** Each connection is written to on its own and its error ignored, so the order in
    which they are visited does not matter. *)
Definition writeToClients (b : bytes) (clients : gmap Z W) : gmap Z W := (λ w, (WriteMsg b w).1) <$> clients.

(** [CommandServer.send]; a notification that cannot be encoded ends the process. *)
Definition cs_send (n : Notify) : go (gmap Z W) error unit :=
  match js_Notify js n with
  | inl _ => go_panic
  | inr b => go_modify (writeToClients b)
  end.

End client.

Lemma selected_client_command f a :
  selected_action (command_text f (client_command a)) = Some (action_text f a).
Proof. by destruct a as [| | | | | | |[]]. Qed.

(** ** Commands *)

Section commands.
Context {S : Type} (cancelled : S → bool) (run : action → go S error unit).

(** The actions performed one after the other, until the context ends. *)
Fixpoint perform_all (l : list action) : go S error unit :=
  match l with
  | [] => go_ret tt
  | a :: l' =>
    let* s := go_get in
    if cancelled s then go_ret tt
    else do* go_try (run a) then perform_all l'
  end.
End commands.

Section sent.
Context {W : Type} `{Writer W}.

Lemma cc_sends_written js l (w w' : W) :
  WriteMsgs ((cc_message js ∘ client_command) <$> l) w = (w', Ok tt) → cc_sends js l w = (w', Ok tt).
Proof.
  revert w. induction l as [|a l IH]; intros w; simpl; [done|].
  intros (w1 & [] & H1 & H2)%go_bind_ok. unfold cc_send, go_bind, go_try. rewrite H1. by apply IH.
Qed.
End sent.

Section performed.
Context {CB : CborLib} {FL : FilLib} {CL : CidLib} {Node B X W File K C R F : Type}.
Context `{Blockstore B} `{Ipld B} {KS : Keystore K} {WL : WalletLib R}.
Context (ienv : IndexEnv X) (ne : NodeEnv Node B W File) (de : DaemonEnv R F).
Context (order : gmap string Entry → list (string * Entry)) (walk : gset string → list string).
Context (Sum : bytes → error + cid).
Local Abbreviation D_ := (daemon Node B X W K C R F).

Lemma handle_commands (js : Json) {JL : JsonLaws js (de_Unmarshal de)} (cancelled : D_ → bool) l d :
  Forall (λ a, ∃ b, js_Command js (client_command a) = inr b) l →
  handle_all cancelled (GotMsgBytes ienv ne de order walk Sum) ((cc_message js ∘ client_command) <$> l) d
  = perform_all cancelled (perform ienv ne de order walk Sum) (action_text (js_Text js) <$> l) d.
Proof.
  intros Hl. revert d. induction Hl as [|a l [b Hb] _ IH]; intros d; simpl; [done|].
  unfold go_bind at 1 3, go_get. destruct (cancelled d); [done|].
  unfold cc_message. rewrite Hb. destruct (json_command _ _ Hb) as [Hu Hne].
  unfold go_bind, go_try. unfold GotMsgBytes. destruct (String.eqb_spec b EmptyString); [done|].
  unfold go_bind, go_sum. rewrite Hu. unfold GotMsg. rewrite selected_client_command.
  destruct (perform _ _ _ _ _ _ (action_text _ a) d) as [d1 [[]|e| |]]; [apply IH..|done|done].
Qed.
End performed.

(** ** Notifications *)

(** Connections come and go while the daemon notifies. *)
Inductive server_event : Type :=
| SAdd (c : Z)
| SRemove (c : Z)
| SNotify (n : Notify).

(** What a client is told: the notifications since its connection was added. *)
Definition heard_step (c : Z) (o : option (list Notify)) (e : server_event) : option (list Notify) :=
  match e with
  | SAdd c' => if c' =? c then Some [] else o
  | SRemove c' => if c' =? c then None else o
  | SNotify n => (λ l, l ++ [n]) <$> o
  end.
Definition heard (c : Z) (evs : list server_event) : option (list Notify) := foldl (heard_step c) None evs.

(** A writer that does not fail. *)
Class ReliableWriter (W : Type) {WR : Writer W} : Prop := {
  reliable_laws :: WriterLaws W;
  write_returns : ∀ b (w : W), ∃ w', w_Write b w = (w', Ok (len b))
}.

Section notifications.
Context (js : Json) {W : Type} `{ReliableWriter W} (fresh : W).

Definition server_step (e : server_event) : go (gmap Z W) error unit :=
  match e with
  | SAdd c => go_modify (addConn c fresh)
  | SRemove c => go_modify (removeAndCloseConn c)
  | SNotify n => cs_send js n
  end.

Fixpoint server_steps (evs : list server_event) : go (gmap Z W) error unit :=
  match evs with
  | [] => go_ret tt
  | e :: evs' => do* server_step e then server_steps evs'
  end.

(** The notification has an encoding that fits in a message. *)
Definition sendable (n : Notify) : Prop := ∃ b, js_Notify js n = inr b ∧ len b <= MaxMessageSize.

Definition notify_bytes (n : Notify) : bytes :=
  match js_Notify js n with inl _ => EmptyString | inr b => b end.

Lemma WriteMsg_reliable b (w : W) :
  len b <= MaxMessageSize → w_sent (WriteMsg b w).1 = w_sent w +:+ frame b.
Proof.
  intros Hb. assert ((WriteMsg b w).2 = Ok tt) as E.
  { unfold WriteMsg, go_bind. destruct (Z.ltb_spec MaxMessageSize (len b)); [lia|].
    destruct (write_returns (PutUint32 (len b mod 4294967296)) w) as [w1 ->]. simpl.
    destruct (write_returns b w1) as [w2 ->]. by rewrite Z.eqb_refl. }
  destruct (WriteMsg b w) as [w' o] eqn:Ew. simpl in E. subst o.
  by apply WriteMsg_frame in Ew as [_ Ew].
Qed.

Lemma frames_snoc l b : frames (l ++ [b]) = frames l +:+ frame b.
Proof.
  induction l as [|x l IH]; simpl; [by rewrite string_app_empty_r|]. by rewrite IH, string_app_assoc.
Qed.

(** Each open connection carries the frames of what its client is told. *)
Definition connected (m : gmap Z W) (c : Z) (o : option (list Notify)) : Prop :=
  match o with
  | Some l => Forall sendable l ∧ ∃ w, m !! c = Some w ∧ w_sent w = frames (notify_bytes <$> l)
  | None => m !! c = None
  end.

Hypothesis Hfresh : w_sent fresh = EmptyString.

Lemma step_connected e c m m' o :
  match e with SNotify n => sendable n | _ => True end → connected m c o →
  server_step e m = (m', Ok tt) → connected m' c (heard_step c o e).
Proof.
  intros Hs Hc. destruct e as [c'|c'|n]; simpl.
  - intros [= <-]. unfold addConn. destruct (Z.eqb_spec c' c) as [->|Hne].
    + split; [done|]. exists fresh. by rewrite lookup_insert_eq.
    + destruct o; simpl in *; by rewrite lookup_insert_ne.
  - intros [= <-]. unfold removeAndCloseConn. destruct (Z.eqb_spec c' c) as [->|Hne]; [apply lookup_delete_eq|].
    destruct o; simpl in *; by rewrite lookup_delete_ne.
  - destruct Hs as (b & Hb & Hl). unfold cs_send. rewrite Hb. intros [= <-]. unfold writeToClients.
    destruct o as [l|]; simpl in *; rewrite lookup_fmap; [|by rewrite Hc].
    destruct Hc as [Hl' (w & Hw & Hsent)]. split.
    + apply Forall_app. split; [done|]. constructor; [by exists b|constructor].
    + rewrite Hw. simpl. eexists. split; [done|]. rewrite WriteMsg_reliable by done.
      rewrite fmap_app, Hsent. cbn [fmap list_fmap]. rewrite frames_snoc.
      assert (notify_bytes n = b) as -> by (unfold notify_bytes; by rewrite Hb). done.
Qed.

Lemma steps_connected evs c m m' o :
  (∀ n, SNotify n ∈ evs → sendable n) → connected m c o →
  server_steps evs m = (m', Ok tt) → connected m' c (foldl (heard_step c) o evs).
Proof.
  revert m o. induction evs as [|e evs IH]; intros m o Hs Hc; simpl; [by intros [-> _]%go_ret_ok|].
  intros (m1 & [] & H1 & H2)%go_bind_ok. eapply IH; [|eapply step_connected; [|exact Hc|exact H1]|exact H2].
  - intros n Hn. apply Hs. by right.
  - destruct e as [| |n]; [done..|]. apply Hs. by left.
Qed.

Lemma receive_frames {Unmarshal} {JL : JsonLaws js Unmarshal} cancelled l l0 fuel :
  (∀ l, cancelled l = false) → Forall sendable l → (length l < fuel)%nat →
  receive js cancelled fuel (frames (notify_bytes <$> l)) l0 = (l0 ++ (notify_text (js_Text js) <$> l), Ok (Some EOF)).
Proof.
  intros Hctx Hl. revert l0 fuel. induction Hl as [|n l (b & Hb & Hlen) _ IH]; intros l0 fuel Hf;
    (destruct fuel as [|fuel]; simpl in Hf; [lia|]); cbn [fmap list_fmap frames foldr receive]; unfold go_bind at 1, go_get; rewrite Hctx.
  - rewrite app_nil_r. done.
  - unfold notify_bytes at 1. rewrite Hb, ReadMsg_frame by done.
    destruct (json_notify _ _ Hb) as [Hu Hne]. unfold go_bind, GotNotifyMsg.
    destruct (String.eqb_spec b EmptyString); [done|]. rewrite Hu. unfold go_modify.
    fold (frames (notify_bytes <$> l)). rewrite IH by lia. by rewrite <- app_assoc.
Qed.

End notifications.

(** ** Properties *)

(** C32: Commands are performed as they were given.  The command line encodes each command
    in a frame; the daemon that serves the connection performs the same commands one by
    one and in order, and goes on after one that fails.  Their strings are performed as
    JSON reads them back: unchanged if they are valid UTF-8. *)
Theorem commands_performed {CB : CborLib} {FL : FilLib} {CL : CidLib} {Node B X W File K C R F V : Type}
    `{Blockstore B} `{Ipld B} {KS : Keystore K} {WL : WalletLib R} `{WriterLaws V}
    (ienv : IndexEnv X) (ne : NodeEnv Node B W File) (de : DaemonEnv R F)
    (order : gmap string Entry → list (string * Entry)) (walk : gset string → list string)
    (Sum : bytes → error + cid) (js : Json) {JL : JsonLaws js (de_Unmarshal de)}
    (cancelled : daemon Node B X W K C R F → bool) ServeHTTP (l : list action) (w w' : V)
    (d : daemon Node B X W K C R F) :
  l ≠ [] → w_sent w = EmptyString → Forall (λ a, ∃ b, js_Command js (client_command a) = inr b) l →
  WriteMsgs ((cc_message js ∘ client_command) <$> l) w = (w', Ok tt) →
  cc_sends js l w = (w', Ok tt) ∧
  serveConn cancelled (GotMsgBytes ienv ne de order walk Sum) ServeHTTP (w_sent w') d =
  match perform_all cancelled (perform ienv ne de order walk Sum) (action_text (js_Text js) <$> l) d with
  | (d', Ok _) => (d', Ok None)
  | (d', Err e) => (d', Err e)
  | (d', Panic) => (d', Panic)
  | (d', Hang) => (d', Hang)
  end ∧
  (Forall (λ a, textual (action_strings a)) l → action_text (js_Text js) <$> l = l).
Proof.
  intros Hne Hw Hj Hs. split; [by apply cc_sends_written|]. split; [|by apply (actions_unchanged js (Unmarshal:=de_Unmarshal de))].
  apply WriteMsgs_frames in Hs as [Hm E]. rewrite E, Hw. change (EmptyString +:+ ?s) with s.
  rewrite serveConn_frames; [|by destruct l|done]. by rewrite handle_commands.
Qed.

(** C33: Every client is told everything.  While connections come and go and the daemon
    notifies, a client whose connection is open reads exactly the notifications sent
    since it connected, in order, until its own context ends; a connection that was
    removed gets nothing.  Strings are read as JSON gives them back: unchanged if they are
    valid UTF-8. *)
Theorem notifications_heard (js : Json) Unmarshal {JL : JsonLaws js Unmarshal} {W : Type} `{ReliableWriter W}
    (fresh : W) (cancelled : list Notify → bool) (evs : list server_event) (m : gmap Z W) (c : Z) :
  (∀ l, cancelled l = false) → w_sent fresh = EmptyString → (∀ n, SNotify n ∈ evs → sendable js n) →
  server_steps js fresh evs ∅ = (m, Ok tt) →
  match heard c evs with
  | None => m !! c = None
  | Some l => ∃ w, m !! c = Some w ∧
      receive js cancelled (S (length l)) (w_sent w) [] = (notify_text (js_Text js) <$> l, Ok (Some EOF)) ∧
      (Forall (λ n, textual (notify_strings n)) l → notify_text (js_Text js) <$> l = l)
  end.
Proof.
  intros Hctx Hf Hs Hrun. pose proof (steps_connected js fresh Hf evs c ∅ m None Hs) as Hc.
  specialize (Hc (lookup_empty c) Hrun). unfold heard.
  destruct (foldl (heard_step c) None evs) as [l|]; [|done].
  destruct Hc as [Hl (w & Hw & Hsent)]. exists w. split; [done|]. split; [|by apply (notifies_unchanged js (Unmarshal:=Unmarshal))]. rewrite Hsent.
  by apply (receive_frames js (Unmarshal:=Unmarshal)); [done|done|lia].
Qed.

(** ** Witnesses *)

Definition toy_json_lib : Json := {|
  js_Command c :=
    match c with
    | MkCommand false None (Some p) false false None None None None false =>
      if String.eqb p "/home/docs" then inr "put" else inl (ErrExternal "json")
    | _ => inl (ErrExternal "json")
    end;
  js_Notify n := match n with NOff => inr "off" | _ => inl (ErrExternal "json") end;
  js_ReadNotify b := if String.eqb b "off" then inr NOff else inl (ErrExternal "json");
  js_Text s := if valid_utf8 s then s else "?"
|}.

Example some_utf8 : valid_utf8 "/home/docs" = true ∧ valid_utf8 "café" = true ∧
  valid_utf8 (String (Ascii.ascii_of_nat 233) "t") = false.
Proof. split_and!; reflexivity. Qed.

#[export] Instance toy_json_laws : JsonLaws toy_json_lib (de_Unmarshal toy_daemon).
Proof.
  split.
  - intros s. simpl. by intros ->.
  - intros c b Hc. assert (c = put_command ∧ b = "put") as [-> ->]; [|done].
    simpl in Hc. repeat case_match; simplify_eq.
    match goal with E : String.eqb _ _ = true |- _ => apply String.eqb_eq in E as -> end. done.
  - intros n b. simpl. destruct n; intros [= <-]; done.
Qed.

#[export] Instance wire_reliable : ReliableWriter bytes.
Proof. split; [apply _|]. intros b w. by eexists. Qed.

Definition put_twice : list action := [APut "/home/docs"; APut "/home/docs"].

Definition put_frames : bytes := Eval vm_compute in (cc_sends (W:=bytes) toy_json_lib put_twice EmptyString).1.

Lemma commands_performed_witness :
  cc_sends (W:=bytes) toy_json_lib put_twice EmptyString = (put_frames, Ok tt) ∧
  serveConn dm_off (GotMsgBytes table_store desk toy_daemon map_to_list elements sample_sum)
    (λ _, go_ret tt) (w_sent put_frames) daemon_0 =
  match perform_all dm_off (perform table_store desk toy_daemon map_to_list elements sample_sum) put_twice daemon_0 with
  | (d', Ok _) => (d', Ok None)
  | (d', Err e) => (d', Err e)
  | (d', Panic) => (d', Panic)
  | (d', Hang) => (d', Hang)
  end ∧ action_text (js_Text toy_json_lib) <$> put_twice = put_twice.
Proof.
  assert (Forall (λ a, ∃ b, js_Command toy_json_lib (client_command a) = inr b) put_twice) as Hj
    by (repeat constructor; by eexists).
  assert (WriteMsgs ((cc_message toy_json_lib ∘ client_command) <$> put_twice) (EmptyString : bytes) = (put_frames, Ok tt))
    as Hw by vm_eq.
  destruct (commands_performed (V:=bytes) table_store desk toy_daemon map_to_list elements sample_sum
              toy_json_lib dm_off (λ _, go_ret tt) put_twice EmptyString put_frames daemon_0 ltac:(done) eq_refl Hj Hw)
    as (H1 & H2 & H3).
  assert (action_text (js_Text toy_json_lib) <$> put_twice = put_twice) as E by (apply H3; repeat constructor).
  rewrite E in H2. split; [exact H1|]. split; [exact H2|exact E].
Defined.

(** A client that comes between two notifications, and one that left before. *)
Definition some_events : list server_event := [SAdd 1; SNotify NOff; SAdd 2; SRemove 1; SNotify NOff].

Lemma notifications_heard_witness :
  let m := (server_steps toy_json_lib (EmptyString : bytes) some_events ∅).1 in
  match heard 2 some_events with
  | None => m !! 2 = None
  | Some l => ∃ w, m !! 2 = Some w ∧
      receive toy_json_lib (λ _, false) (S (length l)) (w_sent w) [] = (notify_text (js_Text toy_json_lib) <$> l, Ok (Some EOF)) ∧
      (Forall (λ n, textual (notify_strings n)) l → notify_text (js_Text toy_json_lib) <$> l = l)
  end.
Proof.
  intros m.
  refine (notifications_heard toy_json_lib (de_Unmarshal toy_daemon) (W:=bytes) EmptyString (λ _, false)
            some_events m 2 _ _ _ _).
  - done.
  - done.
  - assert (Forall (λ e, match e with SNotify n => sendable toy_json_lib n | _ => True end) some_events) as Hs
      by (repeat constructor; by exists "off").
    rewrite Forall_forall in Hs. intros n Hn. exact (Hs _ Hn).
  - run_eq.
Defined.

Example heard_once : heard 2 some_events = Some [NOff] ∧ heard 1 some_events = None.
Proof. split; reflexivity. Qed.
