(* ===== verification/Storage.v ===== *)
(** * Storage deals on Filecoin (filecoin/storage/storer.go, adapter.go)

    Finding miners, quoting a price, proposing deals and funding them.  The chain, the
    market's network and its records belong to libraries and services. *)
From S2P Require Import Prelude Deal PayTypes Cbor PayChain Fil FilCodec TipSet Wallet.

(** ** Records *)

Record MinerParams : Type := MkMinerParams {
  mp_Limit : Z;
  mp_Offset : Z;
  mp_Region : string
}.

Record MinerPagination : Type := MkMinerPagination {
  pg_Total : Z;
  pg_Offset : Z;
  pg_Limit : Z
}.

(** The addresses of the miners found. *)
Record MinersResult : Type := MkMinersResult {
  mr_Miners : list string;
  mr_Pagination : MinerPagination
}.

(** The part of the chain's information on a miner that is read. *)
Record StorageMinerInfo : Type := MkStorageMinerInfo {
  smi_Worker : address;
  smi_SectorSize : Z;
  smi_PeerId : option peer_id;
  smi_Multiaddrs : list bytes;
  smi_WindowPoStProofType : Z
}.

(** Records of go-fil-markets, as far as they are used. *)
Record StorageProviderInfo : Type := MkStorageProviderInfo {
  spi_Address : address;
  spi_Worker : address;
  spi_SectorSize : Z;
  spi_PeerID : peer_id;
  spi_Addrs : list string
}.

Record StorageAsk : Type := MkStorageAsk {
  sk_Price : Z;
  sk_VerifiedPrice : Z;
  sk_MinPieceSize : Z;
  sk_Miner : address
}.

(** The answer to a request for an ask: the ask, its signature and the bytes signed. *)
Record AskResponse : Type := MkAskResponse {
  ar_Ask : option StorageAsk;
  ar_Signature : option signature;
  ar_origBytes : bytes
}.

Record StorageDataRef : Type := MkStorageDataRef {
  sdr_Root : cid;
  sdr_PieceCid : option cid;
  sdr_PieceSize : Z
}.

Inductive StorageDealState : Type :=
| StorageDealError
| StorageDealProposalRejected
| StorageDealWaitingForData
| StorageDealProposalAccepted
| StorageDealOther.

Record DealProposal_ : Type := MkDealProposal_ {
  dp_PieceCID : cid;
  dp_PieceSize : Z;
  dp_Client : address;
  dp_Provider : address;
  dp_Label : string;
  dp_StartEpoch : Z;
  dp_EndEpoch : Z;
  dp_StoragePricePerEpoch : Z;
  dp_ProviderCollateral : Z;
  dp_ClientCollateral : Z;
  dp_VerifiedDeal : bool
}.

(** A deal of ours, as far as its publication is checked. *)
Record ClientDeal : Type := MkClientDeal {
  cd_ClientDealProposal : DealProposal_ * signature;
  cd_PublishMessage : option cid
}.

Record Miner : Type := MkMiner {
  mn_Ask : StorageAsk;
  mn_Info : StorageProviderInfo;
  mn_WindowPoStProofType : Z
}.

Record MinerSelectionParams : Type := MkMinerSelectionParams {
  msp_MaxPrice : Z;
  msp_RF : Z;
  msp_Region : string
}.

Record StartDealParams : Type := MkStartDealParams {
  sdp_Data : StorageDataRef;
  sdp_Wallet : address;
  sdp_Miner : Miner;
  sdp_EpochPrice : Z;
  sdp_MinBlocksDuration : Z;
  sdp_DealStartEpoch : Z;
  sdp_FastRetrieval : bool;
  sdp_VerifiedDeal : bool
}.

Record QuoteParams : Type := MkQuoteParams {
  qp_PieceSize : Z;
  qp_Duration : Z;
  qp_RF : Z;
  qp_MaxPrice : Z;
  qp_Region : string;
  qp_Verified : bool
}.

Record Quote : Type := MkQuote {
  qt_Miners : list Miner;
  qt_Prices : gmap address Z;
  qt_MinPieceSize : Z
}.

Record StoreParams : Type := MkStoreParams {
  stp_Payload : StorageDataRef;
  stp_Duration : Z;
  stp_Address : address;
  stp_Miners : list Miner;
  stp_Verified : bool
}.

Record Receipt : Type := MkReceipt {
  rc_Miners : list address;
  rc_DealRefs : list cid
}.

(** ** Services *)

(** The chain, besides what the wallet calls. *)
Record MarketAPI (X : Type) : Type := MkMarketAPI {
  ma_ChainHead : go X error TipSetT;
  ma_StateMinerInfo : address → TipSetKey → go X error StorageMinerInfo;
  ma_StateMinerProvingDeadline : address → go X error (Z * Z);  (* period start and length *)
  ma_CollateralBounds : Z → bool → go X error (Z * Z);
  ma_StateMarketBalance : address → go X error (Z * Z);         (* escrow and locked *)
  ma_StateAccountKey : address → go X error address;
  ma_StateLookupID : address → go X error address;
  ma_ChainGetMessage : cid → go X error Message
}.
Arguments MkMarketAPI {X}.
Arguments ma_ChainHead {X}.
Arguments ma_StateMinerInfo {X}.
Arguments ma_StateMinerProvingDeadline {X}.
Arguments ma_CollateralBounds {X}.
Arguments ma_StateMarketBalance {X}.
Arguments ma_StateAccountKey {X}.
Arguments ma_StateLookupID {X}.
Arguments ma_ChainGetMessage {X}.

(** The list of miners, connections, the streams of the market's protocol and data
    transfer. *)
Record MarketNet (N : Type) : Type := MkMarketNet {
  mn_FindMiners : MinerParams → go N error MinersResult;
  mn_Connect : peer_id → list string → go N error unit;
  mn_NewAskStream : peer_id → go N error unit;
  mn_WriteAskRequest : address → go N error unit;
  mn_ReadAskResponse : go N error AskResponse;
  mn_NewDealStream : peer_id → go N error unit;
  mn_WriteDealProposal : DealProposal_ → signature → StorageDataRef → go N error unit;
  mn_ReadDealResponse : go N error (StorageDealState * string);
  mn_OpenPushDataChannel : peer_id → cid → cid → go N error unit
}.
Arguments MkMarketNet {N}.
Arguments mn_FindMiners {N}.
Arguments mn_Connect {N}.
Arguments mn_NewAskStream {N}.
Arguments mn_WriteAskRequest {N}.
Arguments mn_ReadAskResponse {N}.
Arguments mn_NewDealStream {N}.
Arguments mn_WriteDealProposal {N}.
Arguments mn_ReadDealResponse {N}.
Arguments mn_OpenPushDataChannel {N}.

(** Constants and functions of the libraries. *)
Class MarketLib : Type := {
  EpochDurationSeconds : Z;
  StorageMarketActorAddr : address;
  AddBalance : Z;
  PublishStorageDeals : Z;
  NewMultiaddrBytes : bytes → error + string;
  Padded : Z → Z;
  StringOfBase64 : cid → error + string;
  DumpProposal : DealProposal_ → error + bytes;
  AsIpld : DealProposal_ → error + cid;
  ClientBalanceRequirement : DealProposal_ → Z;
  CborEquals : DealProposal_ * signature → DealProposal_ * signature → error + bool;
  PublishStorageDealsParams : bytes → error + list (DealProposal_ * signature);
  PublishStorageDealsReturn : bytes → error + list Z
}.

(** ** Epochs *)

Section epochs.
Context {ML : MarketLib}.

Definition dealStartBufferHours : Z := 49.

(** Durations are in nanoseconds; Go's division is towards zero. *)
Definition calcEpochs (t : Z) : Z := Z.quot t (EpochDurationSeconds * 1000000000).

(** A proving period of zero epochs is divided by. *)
Definition calcDealExpiration (minDuration : Z) (md : Z * Z) (startEpoch : Z) : outcome error Z :=
  let '(PeriodStart, WPoStProvingPeriod) := md in
  let minExp := i64 (startEpoch + i64 minDuration) in
  if WPoStProvingPeriod =? 0 then Panic
  else Ok (i64 (minExp + WPoStProvingPeriod - Z.rem minExp WPoStProvingPeriod
                + Z.rem PeriodStart WPoStProvingPeriod - 1)).

End epochs.

(** ** The storage client *)

Record market (K X R N : Type) : Type := MkMarket {
  mk_wallet : KeystoreWallet K X R;
  mk_net : N
}.
Arguments MkMarket {K X R N}.
Arguments mk_wallet {K X R N}.
Arguments mk_net {K X R N}.

Section storage.
Context {ML : MarketLib} {K X R N : Type} {KS : Keystore K} {WL : WalletLib R} {CB : CborLib} {FL : FilLib} {CL : CidLib}.
Context (Sum : bytes → error + cid) (fapi : FilAPI X) (api : MarketAPI X) (net : MarketNet N).

Local Abbreviation M_ := (market K X R N).
Local Abbreviation M := (go M_ error).

Definition m_wallet {A} (m : go (KeystoreWallet K X R) error A) : M A := λ s,
  let '(w, r) := m (mk_wallet s) in (MkMarket w (mk_net s), r).
Definition m_net {A} (m : go N error A) : M A := λ s,
  let '(n, r) := m (mk_net s) in (MkMarket (mk_wallet s) n, r).
Definition m_chain {A} (m : go X error A) : M A := m_wallet (on_chain m).

(** [fmt.Errorf] with %w around the error of a call. *)
Definition m_wrap {A} (what : string) (m : M A) : M A :=
  let* r := go_try m in
  match r with inl err => go_err (ErrWrap what err) | inr a => go_ret a end.

(** *** The adapter *)

Definition AddFunds (addr : address) (amount : Z) : M cid :=
  let msg := MkMessage 0 StorageMarketActorAddr addr 0 amount 0 0 0 AddBalance EmptyString in
  let* msg := m_chain (fil_GasEstimateMessageGas fapi msg) in
  let* act := m_chain (fil_StateGetActor fapi (msg_From msg)) in
  let msg := set_msg_Nonce (act_Nonce act) msg in
  let* mbl := go_lift (storage_block Sum (Message_Serialize msg)) in
  let* sig := m_wallet (Sign (msg_From msg) (Cid_Bytes mbl.2)) in
  m_chain (fil_MpoolPush fapi (MkSignedMessage msg sig)).

(** Available and locked. *)
Definition GetBalance (addr : address) : M (Z * Z) :=
  let* bal := m_chain (ma_StateMarketBalance api addr) in
  go_ret (bal.1 - bal.2, bal.2).

Definition VerifySignature (sig : signature) (signer : address) (plaintext : bytes) : M bool :=
  let* addr := m_chain (ma_StateAccountKey api signer) in
  m_wallet (Verify addr plaintext sig).

Definition SignBytes (signer : address) (b : bytes) : M signature :=
  let* signer := m_chain (ma_StateAccountKey api signer) in
  m_wallet (Sign signer b).

Definition clientOverestimation : Z := 2.

Definition DealProviderCollateralBounds (size : Z) (isVerified : bool) : M (Z * Z) :=
  let* bounds := m_chain (ma_CollateralBounds api size isVerified) in
  go_ret (bounds.1 * clientOverestimation, bounds.2).

Definition SignProposal (signer : address) (proposal : DealProposal_) : M (DealProposal_ * signature) :=
  let* buf := go_sum (DumpProposal proposal) in
  let* sig := SignBytes signer buf in
  go_ret (proposal, sig).

(** The first of the deals published that equals ours. *)
Fixpoint deal_index (deal : DealProposal_ * signature) (i : nat) (l : list (DealProposal_ * signature))
    : error + option nat :=
  match l with
  | [] => inr None
  | sd :: l' =>
    match CborEquals deal sd with
    | inl e => inl e
    | inr true => inr (Some i)
    | inr false => deal_index deal (S i) l'
    end
  end.

(** The id the chain gave to a deal.  The message of the deal is dereferenced and the
    ids are indexed. *)
Definition ValidatePublishedDeal (deal : ClientDeal) : M Z :=
  match cd_PublishMessage deal with
  | None => go_panic
  | Some pub =>
    let* pubmsg := m_wrap "getting deal publish message" (m_chain (ma_ChainGetMessage api pub)) in
    let* mi := m_wrap "getting miner worker failed"
                 (m_chain (ma_StateMinerInfo api (dp_Provider (cd_ClientDealProposal deal).1) EmptyTSK)) in
    let* fromid := m_wrap "failed to resolve from msg ID addr" (m_chain (ma_StateLookupID api (msg_From pubmsg))) in
    if negb (String.eqb fromid (smi_Worker mi)) then go_err (ErrMsg "deal wasn't published by storage provider")
    else if negb (String.eqb (msg_To pubmsg) StorageMarketActorAddr) then
      go_err (ErrMsg "deal publish message wasn't set to StorageMarket actor")
    else if negb (msg_Method pubmsg =? PublishStorageDeals) then
      go_err (ErrMsg "deal publish message called incorrect method")
    else
      let* deals := go_sum (PublishStorageDealsParams (msg_Params pubmsg)) in
      let* dealIdx := go_sum (deal_index (cd_ClientDealProposal deal) 0 deals) in
      match dealIdx with
      | None => go_err (ErrMsg "deal publish didn't contain our deal")
      | Some i =>
        let* ret := m_wrap "waiting for deal publish message" (m_chain (fil_StateWaitMsg fapi pub)) in
        if negb (ml_ExitCode ret =? 0) then go_err (ErrMsg "deal publish failed")
        else
          let* ids := go_sum (PublishStorageDealsReturn (ml_Return ret)) in
          match ids !! i with None => go_panic | Some id => go_ret id end
      end
  end.

Definition GetChainHead : M (bytes * Z) :=
  let* ts := m_chain (ma_ChainHead api) in
  go_ret (tsk_value (TipSet_Key (Some ts)), TipSet_Height ts).

Definition GetDefaultWalletAddress : M address := m_wallet DefaultAddress.

Fixpoint multiaddrs_of (l : list bytes) : error + list string :=
  match l with
  | [] => inr []
  | a :: l' =>
    match NewMultiaddrBytes a with
    | inl e => inl e
    | inr m => match multiaddrs_of l' with inl e => inl e | inr ms => inr (m :: ms) end
    end
  end.

(** An address that cannot be read makes the whole record empty. *)
Definition NewStorageProviderInfo (addr worker : address) (sectorSize : Z) (peer : peer_id) (addrs : list bytes)
    : StorageProviderInfo :=
  match multiaddrs_of addrs with
  | inl _ => MkStorageProviderInfo Undef Undef 0 EmptyString []
  | inr ms => MkStorageProviderInfo addr worker (u64 sectorSize) peer ms
  end.

Definition GetMinerInfo (maddr : address) (tok : bytes) : M StorageProviderInfo :=
  let* tsk := go_lift (TipSetKeyFromBytes tok) in
  let* mi := m_chain (ma_StateMinerInfo api maddr tsk) in
  match smi_PeerId mi with
  | None => go_err (ErrMsg ("no peer id for miner " +:+ addr_String maddr))
  | Some peer => go_ret (NewStorageProviderInfo maddr (smi_Worker mi) (smi_SectorSize mi) peer (smi_Multiaddrs mi))
  end.

(** *** Finding miners *)

Definition PeerInfo (addr : address) : M (peer_id * list string) :=
  let* miner := m_chain (ma_StateMinerInfo api addr EmptyTSK) in
  let* ms := go_sum (multiaddrs_of (smi_Multiaddrs miner)) in
  match smi_PeerId miner with
  | None => go_err (ErrMsg "no peer id available")
  | Some id =>
    match smi_Multiaddrs miner with
    | [] => go_err (ErrMsg "no peer address available")
    | _ => go_ret (id, ms)
    end
  end.

(** A missing signature is dereferenced. *)
Definition GetAsk (info : StorageProviderInfo) : M StorageAsk :=
  do* m_wrap "failed to open ask stream" (m_net (mn_NewAskStream net (spi_PeerID info))) then
  do* m_wrap "failed to send ask request" (m_net (mn_WriteAskRequest net (spi_Address info))) then
  let* out := m_wrap "failed to read ask response" (m_net (mn_ReadAskResponse net)) in
  match ar_Ask out with
  | None => go_err (ErrMsg "no ask in response")
  | Some ask =>
    if negb (String.eqb (sk_Miner ask) (spi_Address info)) then go_err (ErrMsg "wrong ask for miner")
    else
      match ar_Signature out with
      | None => go_panic
      | Some sig =>
        let* valid := VerifySignature sig (spi_Worker info) (ar_origBytes out) in
        if negb valid then go_err (ErrMsg "miner signature invalid") else go_ret ask
      end
  end.

(** A miner of the list, unless something is missing or it asks for too much. *)
Definition consider (msp : MinerSelectionParams) (m : string) : M (option Miner) :=
  match NewFromString m with
  | inl _ => go_ret None
  | inr a =>
    let* r := go_try (m_chain (ma_StateMinerInfo api a EmptyTSK)) in
    match r with
    | inl _ => go_ret None
    | inr mi =>
      match smi_PeerId mi with
      | None => go_ret None
      | Some peer =>
        let info := NewStorageProviderInfo a (smi_Worker mi) (smi_SectorSize mi) peer (smi_Multiaddrs mi) in
        let* r := go_try (m_net (mn_Connect net (spi_PeerID info) (spi_Addrs info))) in
        match r with
        | inl _ => go_ret None
        | inr _ =>
          let* r := go_try (GetAsk info) in
          match r with
          | inl _ => go_ret None
          | inr ask =>
            if msp_MaxPrice msp <? sk_Price ask then go_ret None
            else go_ret (Some (MkMiner ask info (smi_WindowPoStProofType mi)))
          end
        end
      end
    end
  end.

(** The miners of a page; [true] when there are enough. *)
Fixpoint page (msp : MinerSelectionParams) (l : list string) (sel : list Miner) : M (list Miner * bool) :=
  match l with
  | [] => go_ret (sel, false)
  | m :: l' =>
    let* r := consider msp m in
    match r with
    | None => page msp l' sel
    | Some mn =>
      let sel := sel ++ [mn] in
      if Z.of_nat (length sel) =? msp_RF msp then go_ret (sel, true) else page msp l' sel
    end
  end.

(** The loop over the pages, for as many as [fuel]. *)
Fixpoint load_pages (fuel : nat) (msp : MinerSelectionParams) (offset : Z) (sel : list Miner) : M (list Miner) :=
  if negb (Z.of_nat (length sel) <? msp_RF msp) then go_ret sel
  else
    match fuel with
    | O => go_hang
    | S fuel =>
      let limit := msp_RF msp in
      let* result := m_net (mn_FindMiners net (MkMinerParams limit offset (msp_Region msp))) in
      let* p := page msp (mr_Miners result) sel in
      let pg := mr_Pagination result in
      if p.2 then go_ret p.1
      else if i64 (pg_Total pg - i64 (pg_Offset pg + pg_Limit pg)) =? 0 then go_ret p.1
      else load_pages fuel msp (i64 (offset + limit)) p.1
    end.

Definition LoadMiners (fuel : nat) (msp : MinerSelectionParams) : M (list Miner) := load_pages fuel msp 0 [].

(** *** Quotes *)

Definition quote_price (params : QuoteParams) (m : Miner) : Z :=
  let p := if qp_Verified params then sk_VerifiedPrice (mn_Ask m) else sk_Price (mn_Ask m) in
  big_div (p * qp_PieceSize params) 1073741824 * u64 (calcEpochs (qp_Duration params)).

Definition GetMarketQuote (fuel : nat) (params : QuoteParams) : M Quote :=
  let* miners := LoadMiners fuel (MkMinerSelectionParams (qp_MaxPrice params) (qp_RF params) (qp_Region params)) in
  match miners with
  | [] => go_err (ErrMsg "no miners fit those parameters")
  | _ =>
    go_ret (MkQuote miners
      (foldl (λ acc m, <[spi_Address (mn_Info m) := quote_price params m]> acc) ∅ miners)
      (foldl (λ acc m, if acc <? u64 (sk_MinPieceSize (mn_Ask m)) then u64 (sk_MinPieceSize (mn_Ask m)) else acc) 0 miners))
  end.

(** *** Deals *)

(** The piece of the data is dereferenced.  Deals are always proposed for fast
    retrieval. *)
Definition ProposeDeal (params : StartDealParams) : M (DealProposal_ * (StorageDealState * string)) :=
  let miner := mn_Info (sdp_Miner params) in
  let* md := m_wrap "failed getting miner's deadline info"
               (m_chain (ma_StateMinerProvingDeadline api (spi_Address miner))) in
  let* dealStart :=
    if sdp_DealStartEpoch params <=? 0 then
      let* ts := m_wrap "failed getting chain height" (m_chain (ma_ChainHead api)) in
      go_ret (i64 (TipSet_Height ts + u64 (dealStartBufferHours * u64 (Z.quot 3600 EpochDurationSeconds))))
    else go_ret (sdp_DealStartEpoch params) in
  let size := Padded (sdr_PieceSize (sdp_Data params)) in
  let* pc := m_wrap "computing deal provider collateral bound failed"
               (DealProviderCollateralBounds size (sdp_VerifiedDeal params)) in
  let* label := m_wrap "failed to print label" (go_sum (StringOfBase64 (sdr_Root (sdp_Data params)))) in
  match sdr_PieceCid (sdp_Data params) with
  | None => go_panic
  | Some piece =>
    let* endEpoch := go_lift (calcDealExpiration (sdp_MinBlocksDuration params) md dealStart) in
    let dealProposal := MkDealProposal_ piece size (sdp_Wallet params) (spi_Address miner) label dealStart endEpoch
                          (sdp_EpochPrice params) pc.1 0 (sdp_VerifiedDeal params) in
    let* signed := m_wrap "failed to sign proposal" (SignProposal (sdp_Wallet params) dealProposal) in
    do* m_wrap "failed to open deal stream" (m_net (mn_NewDealStream net (spi_PeerID miner))) then
    do* m_wrap "failed to send deal proposal"
          (m_net (mn_WriteDealProposal net signed.1 signed.2 (sdp_Data params))) then
    let* res := m_wrap "failed to read proposal response" (m_net (mn_ReadDealResponse net)) in
    go_ret (dealProposal, res)
  end.

Definition NewStoreParams (root : cid) (dur : Z) (w : address) (mnrs : list Miner) (verified : bool) : StoreParams :=
  MkStoreParams (MkStorageDataRef root None 0) dur w mnrs verified.

(** The proposals accepted, by peer, and what they need together. *)
Fixpoint propose_all (p : StoreParams) (epochs : Z) (miners : list Miner) (proposals : gmap peer_id DealProposal_)
    (total : Z) : M (gmap peer_id DealProposal_ * Z) :=
  match miners with
  | [] => go_ret (proposals, total)
  | m :: miners' =>
    let* pr := ProposeDeal (MkStartDealParams (stp_Payload p) (stp_Address p) m (sk_Price (mn_Ask m)) (u64 epochs)
                              (-1) false (stp_Verified p)) in
    match pr.2.1 with
    | StorageDealWaitingForData | StorageDealProposalAccepted =>
      propose_all p epochs miners' (<[spi_PeerID (mn_Info m) := pr.1]> proposals)
        (ClientBalanceRequirement pr.1 + total)
    | _ => propose_all p epochs miners' proposals total
    end
  end.

(** Opening a transfer; errors are logged. *)
Fixpoint push_all (root : cid) (l : list (peer_id * DealProposal_)) : M unit :=
  match l with
  | [] => go_ret tt
  | (pid, prop) :: l' =>
    do* match AsIpld prop with
        | inl _ => go_ret tt
        | inr c => do* go_try (m_net (mn_OpenPushDataChannel net pid c root)) then go_ret tt
        end then
    push_all root l'
  end.

(** [walk] is the order Go walks the proposals in. *)
Definition Store (walk : gmap peer_id DealProposal_ → list (peer_id * DealProposal_)) (p : StoreParams) : M Receipt :=
  let* balance := GetBalance (stp_Address p) in
  let* r := propose_all p (calcEpochs (stp_Duration p)) (stp_Miners p) ∅ 0 in
  let '(proposals, total) := r in
  do* (if balance.1 <? total then
         let* msgcid := m_wrap "failed to add funds" (AddFunds (stp_Address p) (total - balance.1)) in
         do* m_wrap "failed to confirm message on chain" (m_chain (fil_StateWaitMsg fapi msgcid)) then go_ret tt
       else go_ret tt) then
  do* push_all (sdr_Root (stp_Payload p)) (walk proposals) then
  go_ret (MkReceipt ((λ m, spi_Address (mn_Info m)) <$> stp_Miners p) []).

End storage.

(** ** Expirations *)

Section expiration.
Context {ML : MarketLib}.

(** A deal ends at the end of a proving period of its miner, not before the duration
    asked for and less than two periods after it. *)
Lemma calcDealExpiration_spec minDuration PeriodStart P startEpoch :
  0 < P → 0 <= startEpoch → 0 <= minDuration → 0 <= PeriodStart → startEpoch + minDuration + 2 * P < two63 →
  ∃ e, calcDealExpiration minDuration (PeriodStart, P) startEpoch = Ok e ∧
    startEpoch + minDuration <= e < startEpoch + minDuration + 2 * P ∧ (e + 1) mod P = PeriodStart mod P.
Proof.
  intros HP Hs Hd Hp Hb. unfold calcDealExpiration.
  rewrite (i64_small minDuration) by (unfold two63 in *; lia). rewrite (i64_small (startEpoch + minDuration)) by lia.
  destruct (Z.eqb_spec P 0); [lia|]. rewrite !Z.rem_mod_nonneg by lia.
  set (x := startEpoch + minDuration) in *.
  pose proof (Z.mod_pos_bound x P HP). pose proof (Z.mod_pos_bound PeriodStart P HP).
  rewrite i64_small by lia. eexists. split; [done|]. split; [lia|].
  replace (x + P - x mod P + PeriodStart mod P - 1 + 1) with (PeriodStart mod P + (x / P + 1) * P)
    by (pose proof (Z.div_mod x P); rewrite Z.mul_add_distr_r, (Z.mul_comm (x / P) P); lia).
  rewrite Z.mod_add by lia. apply Z.mod_mod. lia.
Qed.

End expiration.

Section selecting.
Context {ML : MarketLib} {K X R N : Type} {KS : Keystore K} {WL : WalletLib R} {CB : CborLib} {FL : FilLib} {CL : CidLib}.
Context (Sum : bytes → error + cid) (fapi : FilAPI X) (api : MarketAPI X) (net : MarketNet N).
Implicit Types (s : market K X R N) (msp : MinerSelectionParams).

Lemma m_wrap_ok {A} what (m : go (market K X R N) error A) s s' a : m_wrap what m s = (s', Ok a) → m s = (s', Ok a).
Proof.
  unfold m_wrap. intros (s1 & r & Hr%go_try_ok & Hk)%go_bind_ok. destruct r; [done|].
  by apply go_ret_ok in Hk as [-> ->].
Qed.

(** The ask came with a signature, and the signature over the bytes it came in verified
    for [signer]. *)
Definition signed_ask (ask : StorageAsk) (signer : address) : Prop :=
  ∃ n n' out sig s1 s2,
    mn_ReadAskResponse net n = (n', Ok out) ∧ ar_Ask out = Some ask ∧ ar_Signature out = Some sig ∧
    VerifySignature api sig signer (ar_origBytes out) s1 = (s2 : market K X R N, Ok true).

(** The ask of a selected miner is its own, signed by its worker, and not too dear. *)
Definition fits msp (m : Miner) : Prop :=
  sk_Price (mn_Ask m) <= msp_MaxPrice msp ∧ sk_Miner (mn_Ask m) = spi_Address (mn_Info m) ∧
  signed_ask (mn_Ask m) (spi_Worker (mn_Info m)).

Lemma m_net_ok {A} (f : go N error A) s s' a : m_net f s = (s', Ok a) → f (mk_net s) = (mk_net s', Ok a).
Proof. unfold m_net. destruct (f _) as [n r]. by intros [= <- ->]. Qed.

Lemma GetAsk_ok info s s' ask :
  GetAsk api net info s = (s', Ok ask) →
  sk_Miner ask = spi_Address info ∧ signed_ask ask (spi_Worker info).
Proof.
  unfold GetAsk. intros (s1 & [] & _ & Hk)%go_bind_ok. apply go_bind_ok in Hk as (s2 & [] & _ & Hk).
  apply go_bind_ok in Hk as (s3 & out & Hr%m_wrap_ok%m_net_ok & Hk). destruct (ar_Ask out) as [ask'|] eqn:Ea; [|done].
  destruct (String.eqb_spec (sk_Miner ask') (spi_Address info)); [|done]. cbn [negb] in Hk.
  destruct (ar_Signature out) as [sig|] eqn:Es; [|done]. apply go_bind_ok in Hk as (s4 & v & Hv & Hk).
  destruct v; [|done]. apply go_ret_ok in Hk as [-> ->]. split; [done|].
  by exists (mk_net s2), (mk_net s3), out, sig, s3, s4.
Qed.

Lemma consider_fits msp m s s' mn : consider api net msp m s = (s', Ok (Some mn)) → fits msp mn.
Proof.
  unfold consider. destruct (NewFromString m) as [|a]; [done|].
  intros (s1 & r & _ & Hk)%go_bind_ok. destruct r as [|mi]; [done|]. destruct (smi_PeerId mi) as [peer|]; [|done].
  apply go_bind_ok in Hk as (s2 & r & _ & Hk). destruct r as [|[]]; [done|].
  apply go_bind_ok in Hk as (s3 & r & Ha%go_try_ok & Hk). destruct r as [|ask]; [done|].
  apply GetAsk_ok in Ha as [Hm Hv]. destruct (Z.ltb_spec (msp_MaxPrice msp) (sk_Price ask)); [done|].
  apply go_ret_ok in Hk as [_ [= ->]]. by split_and!.
Qed.

Lemma page_fits msp l sel s s' sel' b :
  Forall (fits msp) sel → Z.of_nat (length sel) < msp_RF msp →
  page api net msp l sel s = (s', Ok (sel', b)) →
  Forall (fits msp) sel' ∧ Z.of_nat (length sel') <= msp_RF msp ∧ (b = false → Z.of_nat (length sel') < msp_RF msp).
Proof.
  revert sel s. induction l as [|m l IH]; intros sel s Hf Hn Hp; simpl in Hp.
  { apply go_ret_ok in Hp as [_ [= -> ->]]. split_and!; [done|lia|done]. }
  apply go_bind_ok in Hp as (s1 & r & Hc & Hp). destruct r as [mn|]; [|by eapply IH].
  apply consider_fits in Hc. assert (Forall (fits msp) (sel ++ [mn])) by (by apply Forall_app; auto).
  destruct (Z.eqb_spec (Z.of_nat (length (sel ++ [mn]))) (msp_RF msp)) as [E|E].
  - apply go_ret_ok in Hp as [_ [= -> ->]]. split_and!; [done|lia|done].
  - eapply IH; [done| |exact Hp]. rewrite length_app in *. simpl in *. lia.
Qed.

Lemma load_pages_fits fuel msp offset sel s s' sel' :
  Forall (fits msp) sel → Z.of_nat (length sel) <= Z.max 0 (msp_RF msp) →
  load_pages api net fuel msp offset sel s = (s', Ok sel') →
  Forall (fits msp) sel' ∧ Z.of_nat (length sel') <= Z.max 0 (msp_RF msp).
Proof.
  revert offset sel s. induction fuel as [|fuel IH]; intros offset sel s Hf Hn Hl; simpl in Hl;
    destruct (Z.ltb_spec (Z.of_nat (length sel)) (msp_RF msp)) as [Hlt|]; simpl in Hl;
    try (by apply go_ret_ok in Hl as [_ ->]); [done|].
  apply go_bind_ok in Hl as (s1 & result & _ & Hl). apply go_bind_ok in Hl as (s2 & [sel1 b] & Hp & Hl).
  apply page_fits in Hp as (Hf1 & Hn1 & _); [|done|done]. simpl in Hl.
  destruct b; [apply go_ret_ok in Hl as [_ ->]; split; [done|lia]|].
  destruct (_ =? 0); [apply go_ret_ok in Hl as [_ ->]; split; [done|lia]|].
  eapply IH; [done| |exact Hl]. lia.
Qed.

(** Miners are selected up to the replication factor, each with an ask of its own that
    its worker signed and that is not above the price given. *)
Lemma LoadMiners_fit fuel msp s s' sel :
  LoadMiners api net fuel msp s = (s', Ok sel) →
  Forall (fits msp) sel ∧ Z.of_nat (length sel) <= Z.max 0 (msp_RF msp).
Proof. intros Hl. eapply load_pages_fits; [| |exact Hl]; [done|simpl; lia]. Qed.

End selecting.

(** ** Calls that do not hang, and panic only where [P] holds *)

Definition calm (P : Prop) {S E A} (m : go S E A) : Prop :=
  ∀ s, match (m s).2 with Ok _ | Err _ => True | Panic => P | Hang => False end.

(** Calls that return a value unless they panic. *)
Definition total (P : Prop) {S E A} (m : go S E A) : Prop :=
  ∀ s, (∃ s' a, m s = (s', Ok a)) ∨ ((m s).2 = Panic ∧ P).

Create HintDb calm.

Lemma calm_weaken P {S E A} (m : go S E A) : calm False m → calm P m.
Proof. intros Hm s. specialize (Hm s). by destruct (m s) as [s' []]. Qed.

Lemma calm_bind P {S E A B} (m : go S E A) (k : A → go S E B) :
  calm P m → (∀ s s' a, m s = (s', Ok a) → calm P (k a)) → calm P (go_bind m k).
Proof.
  intros Hm Hk s. specialize (Hm s). unfold go_bind. destruct (m s) as [s' [a|e| |]] eqn:Em; try done.
  exact (Hk _ _ _ Em s').
Qed.

Lemma calm_ret P {S E A} (a : A) : calm P (S:=S) (E:=E) (go_ret a).
Proof. done. Qed.

Lemma calm_err P {S E A} (e : E) : calm P (S:=S) (A:=A) (go_err e).
Proof. done. Qed.

Lemma calm_try P {S E A} (m : go S E A) : calm P m → calm P (go_try m).
Proof. intros Hm s. specialize (Hm s). unfold go_try. by destruct (m s) as [s' []]. Qed.

Lemma total_try P {S E A} (m : go S E A) : calm P m → total P (go_try m).
Proof.
  intros Hm s. specialize (Hm s). unfold go_try.
  destruct (m s) as [s' []]; [left; by eexists _, _..|by right|done].
Qed.

Lemma total_bind P {S E A B} (m : go S E A) (k : A → go S E B) :
  total P m → (∀ a, total P (k a)) → total P (go_bind m k).
Proof.
  intros Hm Hk s. unfold go_bind. destruct (Hm s) as [(s' & a & Em)|[Em HP]].
  - rewrite Em. apply Hk.
  - right. destruct (m s) as [s' r]. simpl in Em. by subst r.
Qed.

Lemma total_ret P {S E A} (a : A) : total P (S:=S) (E:=E) (go_ret a).
Proof. intros s. left. by eexists _, _. Qed.

#[export] Hint Resolve calm_ret calm_err calm_try total_try total_ret : calm.

Section calm.
Context {ML : MarketLib} {K X R N : Type} {KS : Keystore K} {WL : WalletLib R} {CB : CborLib} {FL : FilLib} {CL : CidLib}.
Context (api : MarketAPI X) (net : MarketNet N).

Lemma m_net_calm {A} (m : go N error A) P : calm P m → calm P (m_net m : go (market K X R N) error A).
Proof. intros Hm s. specialize (Hm (mk_net s)). unfold m_net. by destruct (m _). Qed.

Lemma m_wallet_calm {A} (m : go (KeystoreWallet K X R) error A) P :
  calm P m → calm P (m_wallet m : go (market K X R N) error A).
Proof. intros Hm s. specialize (Hm (mk_wallet s)). unfold m_wallet. by destruct (m _). Qed.

Lemma m_chain_calm {A} (m : go X error A) P : calm P m → calm P (m_chain m : go (market K X R N) error A).
Proof.
  intros Hm. apply m_wallet_calm. intros w. specialize (Hm (w_chain w)). unfold on_chain. by destruct (m _).
Qed.

Lemma m_wrap_calm {A} what (m : go (market K X R N) error A) P : calm P m → calm P (m_wrap what m).
Proof. intros Hm. apply calm_bind; [auto with calm|]. intros _ _ [] _; auto with calm. Qed.

Lemma Verify_calm k msg sig P : calm P (Verify k msg sig : go (KeystoreWallet K X R) error bool).
Proof.
  intros w. unfold Verify, SigTypeSig, KeyTypeSig, go_bind, go_get, go_lift. repeat case_match; simplify_eq/=; done.
Qed.

(** What a search calls neither panics nor hangs. *)
Record calm_market : Prop := {
  calm_info : ∀ a k, calm False (ma_StateMinerInfo api a k);
  calm_key : ∀ a, calm False (ma_StateAccountKey api a);
  calm_connect : ∀ p l, calm False (mn_Connect net p l);
  calm_stream : ∀ p, calm False (mn_NewAskStream net p);
  calm_write : ∀ a, calm False (mn_WriteAskRequest net a);
  calm_read : calm False (mn_ReadAskResponse net)
}.

(** Some miner answers with an ask that is not signed. *)
Definition unsigned_ask : Prop :=
  ∃ n n' out, mn_ReadAskResponse net n = (n', Ok out) ∧ is_Some (ar_Ask out) ∧ ar_Signature out = None.

Lemma GetAsk_calm info :
  calm_market → calm unsigned_ask (GetAsk api net info : go (market K X R N) error StorageAsk).
Proof.
  intros Hc. unfold GetAsk.
  do 2 (apply calm_bind; [apply m_wrap_calm, m_net_calm, calm_weaken, Hc|intros _ _ _ _]).
  apply calm_bind; [apply m_wrap_calm, m_net_calm, calm_weaken, Hc|]. intros s s' out Hr%m_wrap_ok%m_net_ok.
  destruct (ar_Ask out) as [ask|] eqn:Ea; [|apply calm_err]. case_match; [apply calm_err|].
  destruct (ar_Signature out) as [sig|] eqn:Es.
  - apply calm_bind.
    + apply calm_bind; [apply m_chain_calm, calm_weaken, Hc|]. intros. apply m_wallet_calm, Verify_calm.
    + intros _ _ [] _; simpl; auto with calm.
  - intros t. simpl. exists (mk_net s), (mk_net s'), out. by rewrite Ea.
Qed.

(** Whatever else goes wrong with a miner, the search goes on. *)
Lemma consider_total msp m :
  calm_market → total unsigned_ask (consider api net msp m : go (market K X R N) error (option Miner)).
Proof.
  intros Hc. unfold consider. destruct (NewFromString m) as [|a]; [apply total_ret|].
  apply total_bind; [apply total_try, m_chain_calm, calm_weaken, Hc|intros [|mi]; [apply total_ret|]].
  destruct (smi_PeerId mi); [|apply total_ret]. cbv zeta.
  apply total_bind; [apply total_try, m_net_calm, calm_weaken, Hc|intros [|_]; [apply total_ret|]].
  apply total_bind; [apply total_try, GetAsk_calm, Hc|intros [|ask]; [apply total_ret|]].
  case_match; apply total_ret.
Qed.

Lemma page_total P msp l sel :
  (∀ m, total P (consider api net msp m : go (market K X R N) error (option Miner))) →
  total P (page api net msp l sel : go (market K X R N) error _).
Proof.
  intros Hc. revert sel. induction l as [|m l IH]; intros sel; simpl; [apply total_ret|].
  apply total_bind; [apply Hc|]. intros [mn|]; [|apply IH]. destruct (_ =? _); [apply total_ret|apply IH].
Qed.

End calm.

(** ** Pages *)

Lemma i64_id z : is_i64 z → i64 z = z.
Proof. intros Hz. rewrite <-(i64_u64 z Hz) at 2. unfold i64. by rewrite u64_idemp. Qed.

Section paging.
Context {ML : MarketLib} {K X R N : Type} {KS : Keystore K} {WL : WalletLib R} {CB : CborLib} {FL : FilLib} {CL : CidLib}.
Context (api : MarketAPI X) (net : MarketNet N).
Implicit Types (s : market K X R N) (msp : MinerSelectionParams).

(** The list has [total] miners and answers the page it was asked for. *)
Definition paginates (total : Z) msp : Prop :=
  ∀ o n, ∃ n' l, mn_FindMiners net (MkMinerParams (msp_RF msp) o (msp_Region msp)) n
                 = (n', Ok (MkMinersResult l (MkMinerPagination total o (msp_RF msp)))).

Lemma find_page total msp o s :
  paginates total msp →
  ∃ s' l, m_net (mn_FindMiners net (MkMinerParams (msp_RF msp) o (msp_Region msp))) s
          = (s', Ok (MkMinersResult l (MkMinerPagination total o (msp_RF msp)))).
Proof.
  intros Hp. destruct (Hp o (mk_net s)) as (n' & l & Hf). unfold m_net. rewrite Hf. eauto.
Qed.

(** One page on, when it answers what was asked for. *)
Lemma load_pages_step P total_ msp fuel o sel s :
  paginates total_ msp → (∀ m, total P (consider api net msp m : go (market K X R N) error (option Miner))) →
  0 <= o → 0 <= msp_RF msp → o + msp_RF msp < two63 → is_i64 (total_ - (o + msp_RF msp)) →
  (∃ s' sel', load_pages api net (S fuel) msp o sel s = (s', Ok sel')) ∨
  ((load_pages api net (S fuel) msp o sel s).2 = Panic ∧ P) ∨
  (total_ ≠ o + msp_RF msp ∧ ∃ s' sel', load_pages api net (S fuel) msp o sel s
     = load_pages api net fuel msp (o + msp_RF msp) sel' s').
Proof.
  intros Hp Hc Ho HR Hb Hi. simpl. destruct (Z.ltb_spec (Z.of_nat (length sel)) (msp_RF msp)); simpl; [|by left; eexists _, _].
  unfold go_bind. destruct (find_page total_ msp o s Hp) as (s1 & l & ->).
  destruct (page_total api net P msp l sel Hc s1) as [(s2 & [sel2 b] & Hpg)|[Hpg HP]]; simpl.
  2: { right. left. destruct (page api net msp l sel s1) as [s2 r]. simpl in Hpg. by subst r. }
  rewrite Hpg. simpl.
  destruct b; [by left; eexists _, _|]. rewrite (i64_small (o + msp_RF msp)) by lia. rewrite i64_id by done.
  destruct (Z.eqb_spec (total_ - (o + msp_RF msp)) 0); [by left; eexists _, _|]. right. right. split; [lia|].
  by exists s2, sel2.
Qed.

Lemma load_pages_returns P total_ msp n sel s :
  0 < msp_RF msp → 0 <= total_ - (Z.of_nat n + 1) * msp_RF msp → total_ < two63 → paginates total_ msp →
  (∀ m, total P (consider api net msp m : go (market K X R N) error (option Miner))) →
  let run := load_pages api net (S n) msp (total_ - (Z.of_nat n + 1) * msp_RF msp) sel s in
  (∃ s' sel', run = (s', Ok sel')) ∨ (run.2 = Panic ∧ P).
Proof.
  intros HR Hn Ht Hp Hc. revert sel s Hn. induction n as [|n IH]; intros sel s Hn run; unfold run;
    edestruct (load_pages_step P total_ msp) as [?|[?|(Hne & s1 & sel1 & E)]]; eauto; try done; try lia;
    try (unfold is_i64, two63 in *; lia).
  rewrite E. replace (total_ - (Z.of_nat (S n) + 1) * msp_RF msp + msp_RF msp)
      with (total_ - (Z.of_nat n + 1) * msp_RF msp) by lia. apply IH. lia.
Qed.

(** C27: Where the miners fill whole pages the search ends within as many pages, with miners
    that fit, unless a miner sent an ask without a signature, which panics. *)
Theorem LoadMiners_ends k msp s :
  0 < msp_RF msp → 0 < k → k * msp_RF msp < two63 → paginates (k * msp_RF msp) msp →
  calm_market api net →
  (∃ s' sel, LoadMiners api net (Z.to_nat k) msp s = (s', Ok sel) ∧
    Forall (fits (K:=K) (R:=R) (N:=N) api net msp) sel ∧ Z.of_nat (length sel) <= msp_RF msp) ∨
  ((LoadMiners api net (Z.to_nat k) msp s).2 = Panic ∧ unsigned_ask net).
Proof.
  intros HR Hk Hb Hp Hcalm.
  assert (LoadMiners api net (Z.to_nat k) msp s
          = load_pages api net (S (Z.to_nat (k - 1))) msp
              (k * msp_RF msp - (Z.of_nat (Z.to_nat (k - 1)) + 1) * msp_RF msp) [] s) as El.
  { unfold LoadMiners. f_equal; [lia|]. rewrite Z2Nat.id by lia. lia. }
  destruct (load_pages_returns (unsigned_ask net) (k * msp_RF msp) msp (Z.to_nat (k - 1)) [] s)
    as [(s' & sel & E)|E]; try done.
  { rewrite Z2Nat.id by lia. replace (k - 1 + 1) with k by lia. lia. }
  { intros. by apply consider_total. }
  - left. rewrite <- El in E. exists s', sel. split; [done|]. apply LoadMiners_fit in E as [? ?]. split; [done|lia].
  - right. by rewrite El.
Qed.

Lemma page_none msp l sel s :
  (∀ m s, ∃ s', consider api net msp m s = (s', Ok None)) → ∃ s', page api net msp l sel s = (s', Ok (sel, false)).
Proof.
  intros Hc. revert s. induction l as [|m l IH]; intros s; simpl; [by eexists|].
  destruct (Hc m s) as (s1 & Ho). unfold go_bind. rewrite Ho. apply IH.
Qed.

(** Where they do not, and none is chosen, it goes on however many pages are asked
    for: the end of the list is stepped over. *)
Theorem LoadMiners_hangs fuel total msp s :
  0 < msp_RF msp → 0 <= total → total mod msp_RF msp ≠ 0 →
  total + (Z.of_nat fuel + 1) * msp_RF msp < two63 → paginates total msp →
  (∀ m s, ∃ s', consider api net msp m s = (s', Ok None)) →
  (LoadMiners api net fuel msp s).2 = Hang.
Proof.
  intros HR Ht Hm Hb Hp Hc. unfold LoadMiners.
  assert (∀ j, 0 <= j → total + (j + Z.of_nat fuel + 1) * msp_RF msp < two63 →
    ∀ s, (load_pages api net fuel msp (j * msp_RF msp) [] s).2 = Hang) as Hgen; [|by apply (Hgen 0)].
  clear Hb s. induction fuel as [|fuel IH]; intros j Hj Hb s; cbn [load_pages length];
    (destruct (Z.ltb_spec (Z.of_nat 0) (msp_RF msp)); [|lia]); cbn [negb]; [done|].
  unfold go_bind. destruct (find_page total msp (j * msp_RF msp) s Hp) as (s1 & l & ->).
  destruct (page_none msp l [] s1 Hc) as (s2 & Hpg). cbn [mr_Miners]. rewrite Hpg. cbn [fst snd].
  cbn [mr_Pagination pg_Total pg_Offset pg_Limit].
  assert (0 <= j * msp_RF msp) by nia.
  rewrite (i64_small (j * msp_RF msp + msp_RF msp)) by nia.
  rewrite i64_id by (unfold is_i64, two63 in *; nia).
  destruct (Z.eqb_spec (total - (j * msp_RF msp + msp_RF msp)) 0) as [E|_].
  - destruct Hm. replace total with ((j + 1) * msp_RF msp) by lia. apply Z.mod_mul. lia.
  - replace (j * msp_RF msp + msp_RF msp) with ((j + 1) * msp_RF msp) by lia. apply IH; [lia|].
    replace (j + 1 + Z.of_nat fuel + 1) with (j + Z.of_nat (S fuel) + 1) by lia. done.
Qed.

End paging.

(** ** Deals *)

Section deals.
Context {ML : MarketLib} {K X R N : Type} {KS : Keystore K} {WL : WalletLib R} {CB : CborLib} {FL : FilLib} {CL : CidLib}.
Context (Sum : bytes → error + cid) (fapi : FilAPI X) (api : MarketAPI X) (net : MarketNet N).
Implicit Types (s : market K X R N) (m : Miner).

(** Heights and proving periods of a chain, far below the bounds of 64 bits. *)
Definition sane_chain : Prop :=
  (∀ a x x' md, ma_StateMinerProvingDeadline api a x = (x', Ok md) → 0 <= md.1 ∧ 0 < md.2 < 2 ^ 40) ∧
  (∀ x x' h, ma_ChainHead api x = (x', Ok h) → 0 <= TipSet_Height h < 2 ^ 40) ∧
  1 <= EpochDurationSeconds.

(** What a deal costs its client is not negative if its price is not. *)
Definition fair_price : Prop :=
  ∀ prop, 0 <= dp_StoragePricePerEpoch prop → 0 <= dp_ClientCollateral prop → dp_StartEpoch prop <= dp_EndEpoch prop →
    0 <= ClientBalanceRequirement prop.

(** The terms of a deal with a miner. *)
Definition deal_with (client : address) (price epochs : Z) m (prop : DealProposal_) : Prop :=
  dp_Client prop = client ∧ dp_Provider prop = spi_Address (mn_Info m) ∧ dp_StoragePricePerEpoch prop = price ∧
  dp_ClientCollateral prop = 0 ∧ dp_StartEpoch prop + epochs <= dp_EndEpoch prop.

Lemma m_chain_ok {A} (f : go X error A) s s' a :
  m_chain f s = (s', Ok a) → f (w_chain (mk_wallet s)) = (w_chain (mk_wallet s'), Ok a).
Proof.
  unfold m_chain, m_wallet, on_chain. destruct (f _) as [x r]. by intros [= <- ->].
Qed.

Lemma deal_start_ok epoch s s' start :
  sane_chain → epoch <= 0 →
  (if epoch <=? 0 then
     let* ts := m_wrap "failed getting chain height" (m_chain (ma_ChainHead api)) in
     go_ret (i64 (TipSet_Height ts + u64 (dealStartBufferHours * u64 (Z.quot 3600 EpochDurationSeconds))))
   else go_ret epoch) s = (s', Ok start) → 0 <= start < 2 ^ 41.
Proof.
  intros (_ & Hh & He) Hle. destruct (Z.leb_spec epoch 0); [|lia].
  intros (s1 & h & Hc%m_wrap_ok%m_chain_ok%Hh & [-> ->]%go_ret_ok)%go_bind_ok.
  assert (0 <= Z.quot 3600 EpochDurationSeconds <= 3600) as Hq.
  { rewrite Z.quot_div_nonneg by lia. split; [apply Z.div_pos; lia|]. apply Z.div_le_upper_bound; lia. }
  unfold dealStartBufferHours. rewrite !u64_small by (unfold is_u64, two64 in *; rewrite ?u64_small; unfold is_u64, two64; lia).
  rewrite i64_small by (unfold two63; lia). lia.
Qed.

Lemma ProposeDeal_terms params s s' prop res :
  sane_chain → sdp_DealStartEpoch params <= 0 → 0 <= sdp_MinBlocksDuration params < 2 ^ 40 →
  ProposeDeal api net params s = (s', Ok (prop, res)) →
  deal_with (sdp_Wallet params) (sdp_EpochPrice params) (sdp_MinBlocksDuration params) (sdp_Miner params) prop.
Proof.
  intros Hsane Hle Hd. unfold ProposeDeal. intros (s1 & [ps P] & Hmd%m_wrap_ok%m_chain_ok & Hk)%go_bind_ok.
  apply Hsane in Hmd as [Hps HP]. simpl in Hps, HP.
  apply go_bind_ok in Hk as (s2 & start & Hst%deal_start_ok & Hk); [|done|done].
  apply go_bind_ok in Hk as (s3 & pc & _ & Hk). apply go_bind_ok in Hk as (s4 & label & _ & Hk).
  destruct (sdr_PieceCid _) as [piece|]; [|done].
  apply go_bind_ok in Hk as (s5 & e & [_ He]%go_lift_ok & Hk).
  destruct (calcDealExpiration_spec (sdp_MinBlocksDuration params) ps P start) as (e' & He' & Hb & _);
    [lia|lia|lia|lia|unfold two63; lia|]. rewrite He in He'. injection He' as <-.
  apply go_bind_ok in Hk as (s6 & signed & _ & Hk). apply go_bind_ok in Hk as (s7 & [] & _ & Hk).
  apply go_bind_ok in Hk as (s8 & [] & _ & Hk). apply go_bind_ok in Hk as (s9 & r & _ & [_ [= -> _]]%go_ret_ok).
  split_and!; simpl; try done; lia.
Qed.

(** What the proposals need together. *)
Definition need (proposals : gmap peer_id DealProposal_) : Z :=
  map_fold (λ _ prop acc, ClientBalanceRequirement prop + acc) 0 proposals.

Lemma need_insert pid prop proposals :
  proposals !! pid = None → need (<[pid := prop]> proposals) = ClientBalanceRequirement prop + need proposals.
Proof. intros Hn. unfold need. rewrite map_fold_insert_L; [done| |done]. intros. lia. Qed.

Lemma need_replace pid prop proposals :
  map_Forall (λ _ p, 0 <= ClientBalanceRequirement p) proposals →
  need (<[pid := prop]> proposals) <= ClientBalanceRequirement prop + need proposals.
Proof.
  intros Hf. rewrite <-insert_delete_eq, need_insert by apply lookup_delete_eq.
  destruct (proposals !! pid) as [old|] eqn:E; [|by rewrite delete_id].
  rewrite <-(insert_delete_id proposals pid old E) at 2.
  rewrite (need_insert pid old) by apply lookup_delete_eq. pose proof (Hf _ _ E). simpl in *. lia.
Qed.

Lemma propose_all_terms p epochs miners proposals total s s' proposals' total' :
  sane_chain → fair_price → 0 <= epochs < 2 ^ 40 → Forall (λ m, 0 <= sk_Price (mn_Ask m)) miners →
  map_Forall (λ _ prop, 0 <= ClientBalanceRequirement prop) proposals → need proposals <= total →
  propose_all api net p epochs miners proposals total s = (s', Ok (proposals', total')) →
  need proposals' <= total' ∧
  ∀ pid prop, proposals' !! pid = Some prop → proposals !! pid = Some prop ∨
    ∃ m, m ∈ miners ∧ pid = spi_PeerID (mn_Info m) ∧ deal_with (stp_Address p) (sk_Price (mn_Ask m)) epochs m prop.
Proof.
  intros Hs Hfair He Hpr. revert proposals total s. induction Hpr as [|m miners Hm _ IH];
    intros proposals total s Hf Hn Hp; cbn [propose_all] in Hp.
  { apply go_ret_ok in Hp as [_ [= -> ->]]. auto. }
  apply go_bind_ok in Hp as (s1 & [prop [st msg]] & Hprop & Hp).
  apply ProposeDeal_terms in Hprop; [|done|simpl; lia|simpl; rewrite u64_small; unfold is_u64, two64; lia].
  simpl in Hprop. rewrite (u64_small epochs) in Hprop by (unfold is_u64, two64; lia).
  assert (0 <= ClientBalanceRequirement prop) as Hreq.
  { destruct Hprop as (_ & _ & E1 & E2 & E3). apply Hfair; lia. }
  assert (∀ pr tot, propose_all api net p epochs miners pr tot s1 = (s', Ok (proposals', total')) →
    map_Forall (λ _ prop, 0 <= ClientBalanceRequirement prop) pr → need pr <= tot →
    (∀ pid q, pr !! pid = Some q → proposals !! pid = Some q ∨ pid = spi_PeerID (mn_Info m) ∧ q = prop) →
    need proposals' <= total' ∧ ∀ pid q, proposals' !! pid = Some q → proposals !! pid = Some q ∨
      ∃ m', m' ∈ m :: miners ∧ pid = spi_PeerID (mn_Info m') ∧
            deal_with (stp_Address p) (sk_Price (mn_Ask m')) epochs m' q) as Hnext.
  { intros pr tot Hr Hf' Hn' Hnew. destruct (IH pr tot s1 Hf' Hn' Hr) as [Hle Hall]. split; [done|].
    intros pid q [Hq|(m' & Hin & Hpid & Hd)]%Hall; [|right; exists m'; split; [by right|done]].
    destruct (Hnew _ _ Hq) as [?|[-> ->]]; [by left|]. right. exists m. split; [by left|done]. }
  destruct st; try (apply (Hnext proposals total); [done|done|done|by left]);
    (eapply Hnext; [exact Hp| | |]).
  1,4: by apply map_Forall_insert_2.
  1,3: etrans; [by apply need_replace|lia].
  all: intros pid q [[<- <-]|[_ ?]]%lookup_insert_Some; auto.
Qed.

Lemma AddFunds_pushes addr amount s s' c :
  estimate_keeps fapi → AddFunds Sum fapi addr amount s = (s', Ok c) →
  ∃ msg sig x, msg_From msg = addr ∧ msg_To msg = StorageMarketActorAddr ∧ msg_Value msg = amount ∧
    fil_MpoolPush fapi (MkSignedMessage msg sig) x = (w_chain (mk_wallet s'), Ok c).
Proof.
  intros He. unfold AddFunds. intros (s1 & msg & (Ef & Et & Ev)%m_chain_ok%He & Hk)%go_bind_ok.
  apply go_bind_ok in Hk as (s2 & act & _ & Hk). apply go_bind_ok in Hk as (s3 & mbl & _ & Hk).
  apply go_bind_ok in Hk as (s4 & sig & _ & Hk%m_chain_ok). eexists _, sig, _. split_and!; [..|exact Hk]; done.
Qed.

(** C26: A storage that succeeded made the proposals with [propose_all], each as long as asked
    for and at the price of its miner; if the market held less than they need
    together, the missing amount was sent to it before any data was pushed. *)
Theorem Store_funds walk p s s' rc :
  sane_chain → fair_price → estimate_keeps fapi → 0 <= calcEpochs (stp_Duration p) < 2 ^ 40 →
  Forall (λ m, 0 <= sk_Price (mn_Ask m)) (stp_Miners p) →
  Store Sum fapi api net walk p s = (s', Ok rc) →
  ∃ avail locked proposals total s1 s2 s3,
    GetBalance api (stp_Address p) s = (s1, Ok (avail, locked)) ∧
    propose_all api net p (calcEpochs (stp_Duration p)) (stp_Miners p) ∅ 0 s1 = (s2, Ok (proposals, total)) ∧
    push_all net (sdr_Root (stp_Payload p)) (walk proposals) s3 = (s', Ok tt) ∧
    need proposals <= total ∧
    (∀ pid prop, proposals !! pid = Some prop → ∃ m, m ∈ stp_Miners p ∧ pid = spi_PeerID (mn_Info m) ∧
       deal_with (stp_Address p) (sk_Price (mn_Ask m)) (calcEpochs (stp_Duration p)) m prop) ∧
    (total <= avail → s3 = s2) ∧
    (avail < total → ∃ msg sig c x1 x2 look, msg_From msg = stp_Address p ∧
       msg_To msg = StorageMarketActorAddr ∧ avail + msg_Value msg = total ∧
       fil_MpoolPush fapi (MkSignedMessage msg sig) x1 = (x2, Ok c) ∧
       fil_StateWaitMsg fapi c x2 = (w_chain (mk_wallet s3), Ok look)).
Proof.
  intros Hs Hfair He Hep Hpr. unfold Store. intros (s1 & [avail locked] & Hb & Hk)%go_bind_ok.
  apply go_bind_ok in Hk as (s2 & [proposals total] & Hall & Hk).
  apply go_bind_ok in Hk as (s3 & [] & Hf & Hk). cbn [fst snd] in Hf.
  apply go_bind_ok in Hk as (s4 & [] & Hpush & [-> _]%go_ret_ok).
  exists avail, locked, proposals, total, s1, s2, s3. do 3 (split; [done|]).
  apply propose_all_terms in Hall as [Hneed Hterms]; [|done..|by apply map_Forall_empty|done].
  split; [done|]. split.
  { intros pid prop [Hq|Hm]%Hterms; [|done]. by rewrite lookup_empty in Hq. }
  destruct (Z.ltb_spec avail total); (split; [intros ?|intros ?]); try lia;
    [|by apply go_ret_ok in Hf as [-> _]].
  apply go_bind_ok in Hf as (s5 & c & Hadd%m_wrap_ok & Hw). apply AddFunds_pushes in Hadd; [|done].
  apply go_bind_ok in Hw as (s6 & look & Hw%m_wrap_ok%m_chain_ok & [-> _]%go_ret_ok).
  destruct Hadd as (msg & sig & x & Ef & Et & Ev & Hp). eexists msg, sig, c, x, _, look.
  split_and!; [done|done|lia|exact Hp|exact Hw].
Qed.

(** Storing with parameters made by [NewParams] panics: they have no piece. *)
Lemma ProposeDeal_no_piece params s :
  sdr_PieceCid (sdp_Data params) = None → ∀ r, (ProposeDeal api net params s).2 ≠ Ok r.
Proof.
  intros Hp r Hr. unfold ProposeDeal in Hr. rewrite Hp in Hr.
  destruct (go_bind _ _ s) as [s' o] eqn:E. simpl in Hr. subst o.
  apply go_bind_ok in E as (s1 & md & _ & Hk). apply go_bind_ok in Hk as (s2 & st & _ & Hk).
  apply go_bind_ok in Hk as (s3 & pc & _ & Hk). apply go_bind_ok in Hk as (s4 & lb & _ & Hk). done.
Qed.

Lemma Store_new_params_fails walk root dur w m mnrs verified s r :
  (Store Sum fapi api net walk (NewStoreParams root dur w (m :: mnrs) verified) s).2 ≠ Ok r.
Proof.
  intros Hr. destruct (Store _ _ _ _ _ _ s) as [s' o] eqn:E. simpl in Hr. subst o.
  unfold Store in E. apply go_bind_ok in E as (s1 & bal & _ & Hk). apply go_bind_ok in Hk as (s2 & r2 & Hp & _).
  cbn [propose_all stp_Miners NewStoreParams] in Hp. apply go_bind_ok in Hp as (s3 & pr & Hp & _).
  eapply ProposeDeal_no_piece; [|by rewrite Hp]. done.
Qed.

(** A quote is about miners that fit, has a price for each of them, and its piece size
    is one that all of them take. *)
Lemma min_piece_size miners acc m :
  let f := λ acc m, if acc <? u64 (sk_MinPieceSize (mn_Ask m)) then u64 (sk_MinPieceSize (mn_Ask m)) else acc in
  acc <= foldl f acc miners ∧ (m ∈ miners → u64 (sk_MinPieceSize (mn_Ask m)) <= foldl f acc miners).
Proof.
  cbv zeta. revert acc. induction miners as [|m' miners IH]; intros acc; simpl; [split; [lia|set_solver]|].
  destruct (IH (if acc <? u64 (sk_MinPieceSize (mn_Ask m')) then u64 (sk_MinPieceSize (mn_Ask m')) else acc)) as [H1 H2].
  destruct (Z.ltb_spec acc (u64 (sk_MinPieceSize (mn_Ask m')))); split; try lia;
    (intros [->|?]%elem_of_cons; [lia|auto]).
Qed.

Lemma quote_prices params miners (acc : gmap address Z) m :
  m ∈ miners → ∃ m', m' ∈ miners ∧ spi_Address (mn_Info m') = spi_Address (mn_Info m) ∧
    foldl (λ acc m, <[spi_Address (mn_Info m) := quote_price params m]> acc) acc miners
      !! spi_Address (mn_Info m) = Some (quote_price params m').
Proof.
  revert acc. induction miners as [|m' miners IH] using rev_ind; intros acc; [set_solver|].
  rewrite foldl_app, elem_of_app, list_elem_of_singleton. simpl.
  destruct (decide (spi_Address (mn_Info m') = spi_Address (mn_Info m))) as [E|E].
  - intros _. exists m'. rewrite E, lookup_insert_eq. split; [set_solver|done].
  - intros [Hin|<-]; [|done]. rewrite lookup_insert_ne by done.
    destruct (IH acc Hin) as (m1 & H1 & H2 & H3). exists m1. split; [set_solver|done].
Qed.

Lemma GetMarketQuote_covers fuel params s s' q :
  GetMarketQuote api net fuel params s = (s', Ok q) →
  qt_Miners q ≠ [] ∧ Z.of_nat (length (qt_Miners q)) <= Z.max 0 (qp_RF params) ∧
  ∀ m, m ∈ qt_Miners q →
    sk_Price (mn_Ask m) <= qp_MaxPrice params ∧ u64 (sk_MinPieceSize (mn_Ask m)) <= qt_MinPieceSize q ∧
    ∃ m', m' ∈ qt_Miners q ∧ spi_Address (mn_Info m') = spi_Address (mn_Info m) ∧
      qt_Prices q !! spi_Address (mn_Info m) = Some (quote_price params m').
Proof.
  unfold GetMarketQuote. intros (s1 & miners & [Hf Hn]%LoadMiners_fit & Hk)%go_bind_ok.
  destruct miners as [|m0 miners]; [done|]. apply go_ret_ok in Hk as [_ ->]. cbn [qt_Miners qt_Prices qt_MinPieceSize].
  split_and!; [done|exact Hn|]. intros m Hm. rewrite Forall_forall in Hf. destruct (Hf m Hm) as (Hprice & _).
  split_and!; [exact Hprice|by apply min_piece_size|by apply quote_prices].
Qed.

Lemma deal_index_first deal i l j :
  deal_index deal i l = inr (Some j) →
  (i <= j)%nat ∧ (∃ sd, l !! (j - i)%nat = Some sd ∧ CborEquals deal sd = inr true) ∧
  ∀ k sd, (k < j - i)%nat → l !! k = Some sd → CborEquals deal sd = inr false.
Proof.
  revert i. induction l as [|sd l IH]; intros i; simpl; [done|]. destruct (CborEquals deal sd) as [|[]] eqn:E; [done| |].
  - intros [= <-]. rewrite Nat.sub_diag. split; [lia|]. split; [by exists sd|]. intros; lia.
  - intros (Hle & (sd' & Hl & Hq) & Hall)%IH. split; [lia|]. replace (j - i)%nat with (S (j - S i)) by lia. split; [by exists sd'|].
    intros [|k] sd2 Hk Hs; simpl in Hs; [by injection Hs as <-|]. eapply Hall; [|exact Hs]. lia.
Qed.

(** The id of a published deal is the one at the place of the first deal of the message
    that equals ours; the message was sent by the worker of the miner to the market,
    publishes deals, and was executed without error. *)
Theorem ValidatePublishedDeal_id deal s s' id :
  ValidatePublishedDeal fapi api deal s = (s', Ok id) →
  ∃ pub pubmsg mi deals i look ids x0 x1 x2 x3 x4,
    cd_PublishMessage deal = Some pub ∧
    ma_ChainGetMessage api pub x0 = (x1, Ok pubmsg) ∧
    ma_StateMinerInfo api (dp_Provider (cd_ClientDealProposal deal).1) EmptyTSK x1 = (x2, Ok mi) ∧
    ma_StateLookupID api (msg_From pubmsg) x2 = (x3, Ok (smi_Worker mi)) ∧
    msg_To pubmsg = StorageMarketActorAddr ∧ msg_Method pubmsg = PublishStorageDeals ∧
    PublishStorageDealsParams (msg_Params pubmsg) = inr deals ∧
    (∃ sd, deals !! i = Some sd ∧ CborEquals (cd_ClientDealProposal deal) sd = inr true) ∧
    (∀ k sd, (k < i)%nat → deals !! k = Some sd → CborEquals (cd_ClientDealProposal deal) sd = inr false) ∧
    fil_StateWaitMsg fapi pub x3 = (x4, Ok look) ∧ ml_ExitCode look = 0 ∧
    PublishStorageDealsReturn (ml_Return look) = inr ids ∧ ids !! i = Some id.
Proof.
  unfold ValidatePublishedDeal. destruct (cd_PublishMessage deal) as [pub|]; [|done].
  intros (s1 & pubmsg & Hmsg%m_wrap_ok%m_chain_ok & Hk)%go_bind_ok.
  apply go_bind_ok in Hk as (s2 & mi & Hmi%m_wrap_ok%m_chain_ok & Hk).
  apply go_bind_ok in Hk as (s3 & fromid & Hfrom%m_wrap_ok%m_chain_ok & Hk).
  destruct (String.eqb_spec fromid (smi_Worker mi)) as [->|]; [|done].
  destruct (String.eqb_spec (msg_To pubmsg) StorageMarketActorAddr) as [Hto|]; [|done].
  destruct (Z.eqb_spec (msg_Method pubmsg) PublishStorageDeals) as [Hmeth|]; [|done]. cbn [negb] in Hk.
  apply go_bind_ok in Hk as (s4 & deals & [-> Hdeals]%go_sum_ok & Hk).
  apply go_bind_ok in Hk as (s5 & o & [-> Hidx]%go_sum_ok & Hk). destruct o as [i|]; [|done].
  apply go_bind_ok in Hk as (s6 & look & Hw%m_wrap_ok%m_chain_ok & Hk).
  destruct (Z.eqb_spec (ml_ExitCode look) 0) as [He|]; [|done]. cbn [negb] in Hk.
  apply go_bind_ok in Hk as (s7 & ids & [_ Hids]%go_sum_ok & Hk).
  destruct (ids !! i) as [id'|] eqn:Hi; [|done]. apply go_ret_ok in Hk as [_ ->].
  apply deal_index_first in Hidx as (_ & Hsd & Hfirst). rewrite Nat.sub_0_r in Hsd, Hfirst.
  exists pub, pubmsg, mi, deals, i, look, ids. eauto 20.
Qed.

End deals.

(** ** A small market *)

Definition toy_dump (prop : DealProposal_) : bytes := dp_Client prop +:+ dp_Provider prop.

#[local] Instance toy_market : MarketLib := {|
  EpochDurationSeconds := 30;
  StorageMarketActorAddr := "f05";
  AddBalance := 2;
  PublishStorageDeals := 4;
  NewMultiaddrBytes b := if String.eqb b EmptyString then inl (ErrExternal "empty multiaddr") else inr b;
  Padded n := n + n / 127;
  StringOfBase64 c := inr c;
  DumpProposal prop := inr (toy_dump prop);
  AsIpld prop := inr (toy_dump prop);
  ClientBalanceRequirement prop :=
    dp_ClientCollateral prop + dp_StoragePricePerEpoch prop * (dp_EndEpoch prop - dp_StartEpoch prop);
  CborEquals p q := inr (String.eqb (toy_dump p.1) (toy_dump q.1));
  PublishStorageDealsParams b :=
    inr [(MkDealProposal_ "q" 8 "f1zz" "f01" "l" 1 2 3 0 0 false, (1, "s")); (MkDealProposal_ "q" 8 b "f01" "l" 1 2 3 0 0 false, (1, "s"))];
  PublishStorageDealsReturn _ := inr [71; 72]
|}.

(** Miners have the worker of the first key; the market holds 100 of which 40 are locked. *)
Definition toy_chain : MarketAPI (list SignedMessage) :=
  MkMarketAPI (go_ret (MkTipSet [] [] 1000)) (λ a _, go_ret (MkStorageMinerInfo "f1k1" 32 (Some ("peer" +:+ a)) ["/ip4"] 1))
    (λ _, go_ret (500, 2880)) (λ _ _, go_ret (7, 70)) (λ _, go_ret (100, 40)) go_ret go_ret
    (λ _, go_ret (MkMessage 0 "f05" "f1k1" 0 0 0 0 0 4 "f1k2")).

(** The net remembers the miner it was asked about.  There are four miners. *)
Definition toy_net : MarketNet address :=
  MkMarketNet
    (λ p, go_ret (MkMinersResult (if mp_Offset p =? 0 then ["f01"; EmptyString] else ["f02"; "f03"])
                    (MkMinerPagination 4 (mp_Offset p) (mp_Limit p))))
    (λ _ _, go_ret tt) (λ _, go_ret tt) (λ a _, (a, Ok tt))
    (λ a, (a, Ok (MkAskResponse (Some (MkStorageAsk 10 5 256 a)) (Some (SigTypeSecp256k1, "k1" +:+ a)) a)))
    (λ _, go_ret tt) (λ prop _ _ _, (dp_Provider prop, Ok tt))
    (λ a, (a, Ok (if String.eqb a "f02" then StorageDealProposalRejected else StorageDealProposalAccepted, "m")))
    (λ _ _ _, go_ret tt).

(** No miner can be connected to, and there are five of them. *)
Definition lonely_net : MarketNet address :=
  MkMarketNet
    (λ p, go_ret (MkMinersResult ["f01"; "f02"] (MkMinerPagination 5 (mp_Offset p) (mp_Limit p))))
    (λ _ _, go_err (ErrExternal "dial backoff")) (λ _, go_ret tt) (λ a _, (a, Ok tt))
    (λ a, (a, Err (ErrExternal "eof"))) (λ _, go_ret tt) (λ _ _ _, go_ret tt)
    (λ a, (a, Err (ErrExternal "eof"))) (λ _ _ _, go_ret tt).

Abbreviation TM := (market (gmap string PrivKey) (list SignedMessage) (list bytes) address) (only parsing).

Definition toy_state : TM := Eval vm_compute in MkMarket two_keys EmptyString.

Definition want_two : MinerSelectionParams := MkMinerSelectionParams 20 2 EmptyString.

Definition found : list Miner := Eval vm_compute in
  match (LoadMiners toy_chain toy_net 2 want_two toy_state).2 with Ok l => l | _ => [] end.

Definition quote_params : QuoteParams := MkQuoteParams 2147483648 3600000000000 2 20 EmptyString true.

Definition toy_quote : Quote := Eval vm_compute in
  match (GetMarketQuote toy_chain toy_net 2 quote_params toy_state).2 with Ok q => q | _ => MkQuote [] ∅ 0 end.

Definition toy_store : StoreParams :=
  MkStoreParams (MkStorageDataRef "root" (Some "piece") 127) 3600000000000 "f1k2" found false.

Definition toy_deal : ClientDeal :=
  MkClientDeal (MkDealProposal_ "p" 8 "f1k2" "f01" "l" 1 2 3 0 0 false, (1, "sig")) (Some "published").

Lemma toy_sane : sane_chain toy_chain.
Proof. split_and!; [by intros a x x' md [= <- <-]|by intros x x' h [= <- <-]|done]. Qed.

Lemma toy_fair : fair_price.
Proof. intros prop Hp Hc He. simpl. apply Z.add_nonneg_nonneg; [lia|]. apply Z.mul_nonneg_nonneg; lia. Qed.

Lemma toy_keeps : estimate_keeps toy_api.
Proof. by intros m x x' m' [= <- <-]. Qed.

Definition stored : TM := Eval vm_compute in
  (Store sample_sum toy_api toy_chain toy_net map_to_list toy_store toy_state).1.

Lemma Store_funds_witness :
  ∃ avail locked proposals total (s1 s2 s3 : TM),
    GetBalance toy_chain "f1k2" toy_state = (s1, Ok (avail, locked)) ∧
    propose_all toy_chain toy_net toy_store 120 found ∅ 0 s1 = (s2, Ok (proposals, total)) ∧
    push_all toy_net "root" (map_to_list proposals) s3 = (stored, Ok tt) ∧
    need proposals <= total ∧
    (∀ pid prop, proposals !! pid = Some prop → ∃ m, m ∈ found ∧ pid = spi_PeerID (mn_Info m) ∧
       deal_with "f1k2" (sk_Price (mn_Ask m)) 120 m prop) ∧
    (total <= avail → s3 = s2) ∧
    (avail < total → ∃ msg sig c x1 x2 look, msg_From msg = "f1k2" ∧
       msg_To msg = "f05" ∧ avail + msg_Value msg = total ∧
       fil_MpoolPush toy_api (MkSignedMessage msg sig) x1 = (x2, Ok c) ∧
       fil_StateWaitMsg toy_api c x2 = (w_chain (mk_wallet s3), Ok look)).
Proof.
  apply (Store_funds sample_sum toy_api toy_chain toy_net map_to_list toy_store toy_state stored
           (MkReceipt ["f01"; "f02"] []) toy_sane toy_fair toy_keeps).
  - vm_compute. split; [by intros [=]|done].
  - repeat constructor; vm_compute; by intros [=].
  - vm_eq.
Defined.


Lemma toy_calm : calm_market toy_chain toy_net.
Proof. by split. Qed.

(** A miner that leaves its ask unsigned. *)
Definition careless_net : MarketNet address :=
  MkMarketNet (mn_FindMiners toy_net) (λ _ _, go_ret tt) (λ _, go_ret tt) (λ a _, (a, Ok tt))
    (λ a, (a, Ok (MkAskResponse (Some (MkStorageAsk 10 5 256 a)) None a)))
    (λ _, go_ret tt) (λ _ _ _, go_ret tt) (λ a, (a, Err (ErrExternal "eof"))) (λ _ _ _, go_ret tt).

Example careless_panics : (LoadMiners toy_chain careless_net 2 want_two toy_state).2 = Panic.
Proof. vm_eq. Qed.

Lemma LoadMiners_ends_witness :
  (∃ (s' : TM) sel, LoadMiners toy_chain toy_net 2 want_two toy_state = (s', Ok sel) ∧
    Forall (fits (K:=gmap string PrivKey) (R:=list bytes) (N:=address) toy_chain toy_net want_two) sel ∧
    Z.of_nat (length sel) <= 2) ∨
  ((LoadMiners toy_chain toy_net 2 want_two toy_state).2 = Panic ∧ unsigned_ask toy_net).
Proof.
  apply (LoadMiners_ends toy_chain toy_net 2 want_two toy_state); [done|done|done| |apply toy_calm].
  intros o n. by eexists _, _.
Defined.

Example two_found : (LoadMiners toy_chain toy_net 2 want_two toy_state).2 = Ok found.
Proof. vm_eq. Qed.

Lemma LoadMiners_hangs_witness : (LoadMiners toy_chain lonely_net 100 want_two toy_state).2 = Hang.
Proof.
  apply (LoadMiners_hangs toy_chain lonely_net 100 5 want_two toy_state); try done.
  - intros o n. by eexists _, _.
  - intros m s. unfold consider. destruct (NewFromString m) as [|a]; [by eexists|]. by eexists.
Defined.

Lemma ValidatePublishedDeal_id_witness :
  ∃ pub pubmsg mi deals i look ids (x0 x1 x2 x3 x4 : list SignedMessage),
    cd_PublishMessage toy_deal = Some pub ∧
    ma_ChainGetMessage toy_chain pub x0 = (x1, Ok pubmsg) ∧
    ma_StateMinerInfo toy_chain (dp_Provider (cd_ClientDealProposal toy_deal).1) EmptyTSK x1 = (x2, Ok mi) ∧
    ma_StateLookupID toy_chain (msg_From pubmsg) x2 = (x3, Ok (smi_Worker mi)) ∧
    msg_To pubmsg = StorageMarketActorAddr ∧ msg_Method pubmsg = PublishStorageDeals ∧
    PublishStorageDealsParams (msg_Params pubmsg) = inr deals ∧
    (∃ sd, deals !! i = Some sd ∧ CborEquals (cd_ClientDealProposal toy_deal) sd = inr true) ∧
    (∀ k sd, (k < i)%nat → deals !! k = Some sd → CborEquals (cd_ClientDealProposal toy_deal) sd = inr false) ∧
    fil_StateWaitMsg toy_api pub x3 = (x4, Ok look) ∧ ml_ExitCode look = 0 ∧
    PublishStorageDealsReturn (ml_Return look) = inr ids ∧ ids !! i = Some 72.
Proof.
  apply (ValidatePublishedDeal_id toy_api toy_chain toy_deal toy_state toy_state 72). vm_eq.
Defined.
