(* ===== verification/Http.v ===== *)
(** * Serving over HTTP (node/server.go)

    Content is read with GET and uploaded with POST.  The handlers run on the node and
    write a response; requests and uploads arrive parsed by the standard library. *)
From S2P Require Import Prelude Deal Fsm PayTypes DataTransfer ClientFsm ProviderFsm Revalidator.
From S2P Require Import Cbor DataRef Index IndexLfu IndexSpec Session PeerMgr Replication Routing Dag Tx Fil Node.
From S2P Require Import LazySeek.

(** ** Requests and responses *)

(** A part of an upload. *)
Record Part : Type := MkPart {
  pt_FileName : string;
  pt_FormName : string;
  pt_content : bytes
}.

(** The media type is what [mime.ParseMediaType] makes of the header; the parts are
    those read until there is no next one, for whatever reason. *)
Record HttpRequest : Type := MkHttpRequest {
  rq_Method : string;
  rq_Path : string;
  rq_MediaType : error + string;
  rq_Replication : string;
  rq_Parts : list Part;
  rq_Body : bytes
}.

Inductive content (Rd : Type) : Type :=
| Text (s : string)
| JsonEntries (l : list Entry)
| Served (name ctype : string) (f : lazySeeker Rd).   (* given to [http.ServeContent] *)
Arguments Text {Rd}.
Arguments JsonEntries {Rd}.
Arguments Served {Rd}.

Record ResponseWriter (Rd : Type) : Type := MkResponseWriter {
  rw_Status : option Z;
  rw_Header : gmap string (list string);
  rw_Body : list (content Rd)
}.
Arguments MkResponseWriter {Rd}.
Arguments rw_Status {Rd}.
Arguments rw_Header {Rd}.
Arguments rw_Body {Rd}.

Definition StatusCreated : Z := 201.
Definition StatusBadRequest : Z := 400.
Definition StatusNotFound : Z := 404.
Definition StatusInternalServerError : Z := 500.
Definition StatusBadGateway : Z := 502.

Definition MethodGet : string := "GET".
Definition MethodHead : string := "HEAD".
Definition MethodPost : string := "POST".
Definition MethodOptions : string := "OPTIONS".

(** [strconv.ParseInt] in base ten at 64 bits. *)
Definition digit_val (c : Ascii.ascii) : option Z :=
  let n := Z.of_nat (Ascii.nat_of_ascii c) in
  if (48 <=? n) && (n <=? 57) then Some (n - 48) else None.

Fixpoint ParseDigits (s : string) (acc : Z) : option Z :=
  match s with
  | EmptyString => Some acc
  | String c s' => match digit_val c with None => None | Some d => ParseDigits s' (10 * acc + d) end
  end.

Definition ParseInt (s : string) : option Z :=
  let '(neg, digits) :=
    match s with
    | String c s' =>
      if Ascii.eqb c (Ascii.ascii_of_nat 45) then (true, s') else if Ascii.eqb c (Ascii.ascii_of_nat 43) then (false, s') else (false, s)
    | EmptyString => (false, s)
    end in
  if String.eqb digits EmptyString then None
  else
    match ParseDigits digits 0 with
    | None => None
    | Some n =>
      let n := if neg : bool then - n else n in
      if (- two63 <=? n) && (n <? two63) then Some n else None
    end.

Definition parseContentReplication (contentReplication : string) : error + Z :=
  if String.eqb contentReplication EmptyString then inr 0
  else
    match ParseInt contentReplication with
    | None => inl (ErrMsg "unable to parse content replication")
    | Some n => inr n
    end.

(** [path.Base]. *)
Definition is_slash (c : Ascii.ascii) : bool := Ascii.eqb c slash.
Definition Base (p : string) : string :=
  if String.eqb p EmptyString then "."
  else
    let p := TrimRight is_slash p in
    if String.eqb p EmptyString then "/" else KeyFromPath p.

Example bases : Base "/cid/a.txt" = "a.txt" ∧ Base "/cid/dir//" = "dir" ∧ Base "//" = "/" ∧ Base EmptyString = ".".
Proof. split_and!; reflexivity. Qed.

Example replications : parseContentReplication "007" = inr 7 ∧ parseContentReplication "-3" = inr (-3) ∧
  parseContentReplication "9223372036854775808" = inl (ErrMsg "unable to parse content replication").
Proof. split_and!; reflexivity. Qed.

(** ** The handlers *)

(** Besides what the node calls: what a file can be read as, if it is one; how many
    bytes the content type is detected from and how; and how the standard library
    resolves the target of a redirection. *)
Record HttpEnv (File Rd : Type) : Type := MkHttpEnv {
  he_file : File → option ((error + Z) * Rd);
  he_reads : list seek_op;
  he_detect : list seek_result → error + string;
  he_location : string → string → string
}.
Arguments MkHttpEnv {File Rd}.
Arguments he_file {File Rd}.
Arguments he_reads {File Rd}.
Arguments he_detect {File Rd}.
Arguments he_location {File Rd}.

Section http.
Context {CB : CborLib} {Node B X W File Rd : Type} `{Blockstore B} `{Ipld B} {RS : ReadSeeker Rd}.
Context (ienv : IndexEnv X) (sv : TxServices Node B W File) (ne : NodeEnv Node B W File) (he : HttpEnv File Rd).
Context (range : gset ptr → list ptr).
Context (visited : B → cid → Node → list (cid * bytes) * option error).
Context (order : gmap string Entry → list (string * Entry)).

(** The node and the response. *)
Record exchange : Type := MkExchange {
  x_node : node Node B X W;
  x_resp : ResponseWriter Rd
}.

Local Abbreviation HM := (go exchange error).

Definition on_node {A} (m : go (node Node B X W) error A) : HM A := λ s,
  let '(n, r) := m (x_node s) in (MkExchange n (x_resp s), r).

(** *** Writing a response *)

Definition on_resp (f : ResponseWriter Rd → ResponseWriter Rd) : HM unit := go_modify (λ s, MkExchange (x_node s) (f (x_resp s))).

Definition Set_ (k : string) (v : list string) : HM unit :=
  on_resp (λ w, MkResponseWriter (rw_Status w) (<[k := v]> (rw_Header w)) (rw_Body w)).

(** The first status counts. *)
Definition WriteHeader (code : Z) : HM unit :=
  on_resp (λ w, MkResponseWriter (match rw_Status w with None => Some code | Some c => Some c end) (rw_Header w) (rw_Body w)).

(** Writing sends a status if none was sent. *)
Definition Write_ (c : content Rd) : HM unit :=
  do* WriteHeader 200 then
  on_resp (λ w, MkResponseWriter (rw_Status w) (rw_Header w) (rw_Body w ++ [c])).

Definition http_Error (msg : string) (code : Z) : HM unit :=
  do* Set_ "Content-Type" ["text/plain; charset=utf-8"] then
  do* Set_ "X-Content-Type-Options" ["nosniff"] then
  do* WriteHeader code then
  Write_ (Text (msg +:+ String (Ascii.ascii_of_nat 10) EmptyString)).

Definition addUserHeaders : HM unit :=
  do* Set_ "Access-Control-Allow-Origin" ["*"] then
  do* Set_ "Access-Control-Allow-Methods" [MethodPost; MethodGet] then
  do* Set_ "Access-Control-Allow-Headers" ["Content-Type"; "User-Agent"; "Range"] then
  Set_ "Access-Control-Expose-Headers" ["IPFS-Hash"].

Definition optionsHandler : HM unit := addUserHeaders.

(** *** Reading content *)

(** A call on a file, which changes the file only. *)
Definition on_content {A} (m : go (lazySeeker Rd) error A) (c : lazySeeker Rd) : HM ((error + A) * lazySeeker Rd) := λ s,
  match go_try m c with
  | (c', Ok r) => (s, Ok (r, c'))
  | (_, Err e) => (s, Err e)
  | (_, Panic) => (s, Panic)
  | (_, Hang) => (s, Hang)
  end.

(** The type of a file is detected from its first bytes, and the file served from its
    start; what is not a file is not answered. *)
Definition serve_file (urlPath : string) (fnd : File) : HM unit :=
  match he_file he fnd with
  | None => go_ret tt
  | Some (inl _, _) => http_Error "cannot serve files with unknown sizes" StatusBadGateway
  | Some (inr size, f) =>
    let* d := on_content (let* rs := run_ops (he_reads he) in go_sum (he_detect he rs)) (NewLazySeeker f size) in
    match d.1 with
    | inl err => http_Error ("cannot detect content-type: " +:+ Error err) StatusInternalServerError
    | inr ctype =>
      let* k := on_content (Seek 0 SeekStart) d.2 in
      match k.1 with
      | inl _ => http_Error "seeker can't seek" StatusInternalServerError
      | inr _ =>
        do* Set_ "Content-Type" [ctype] then
        on_resp (λ w, MkResponseWriter (rw_Status w) (rw_Header w) (rw_Body w ++ [Served (Base urlPath) ctype k.2]))
      end
    end
  end.

(** The arguments of the load are all defaults but the path. *)
Definition load_args (urlPath : string) : GetArgs :=
  MkGetArgs urlPath EmptyString EmptyString false EmptyString EmptyString 0.

Definition nd_omg_ {A} (m : go OfferMgr error A) : go (node Node B X W) error A := λ s,
  let '(o, r) := m (nd_omg s) in
  (MkNode (nd_tx s) (nd_txmu s) (nd_bs s) (nd_idx s) o (nd_world s) (nd_notify s), r).

(** What is not here is loaded if there is an offer for it.  The transaction is not
    closed. *)
Definition getHandler (urlPath : string) (offers : sessionWorker → list Offer) (events : list ClientState)
    (ctx : load_ctx) : HM unit :=
  match ne_SplitAbsPath ne urlPath with
  | inl _ => http_Error "invalid path" StatusBadRequest
  | inr (root, segs) =>
    let key := match segs with [] => EmptyString | k :: _ => k end in
    do* addUserHeaders then
    let* tx := on_node (exch_Tx ne [WithRoot root]) in
    let* p := on_node (on_other tx (IsLocal ienv sv visited key)) in
    let* found :=
      if p.1 then go_ret true
      else
        let* r := go_try (on_node (nd_omg_ (GetOffer root))) in
        match r with
        | inl _ => do* http_Error "content not cached on this node" StatusNotFound then go_ret false
        | inr _ =>
          do* on_node (Load ienv sv ne range order (load_args urlPath) offers events ctx) then
          go_ret true
        end in
    if negb found then go_ret tt
    else if String.eqb key EmptyString then
      let* r := go_try (on_node (on_other p.2 (Entries ienv))) in
      match r with
      | inl _ => http_Error "Failed to get entries" StatusInternalServerError
      | inr (entries, _) =>
        do* Set_ "Content-Type" ["application/json"] then
        Write_ (JsonEntries entries)
      end
    else
      let* r := go_try (on_node (on_other p.2 (GetFile ienv sv key))) in
      match r with
      | inl _ => http_Error "Failed to read file from store" StatusInternalServerError
      | inr (fnd, _) => serve_file urlPath fnd
      end
  end.

(** *** Uploading content *)

Definition maxCacheRF : Z := 12.

Definition part_key (p : Part) : string :=
  if String.eqb (pt_FileName p) EmptyString then pt_FormName p else pt_FileName p.

(** [http.Redirect] of a POST. *)
Definition Redirect (path url : string) (code : Z) : HM unit :=
  do* Set_ "Location" [he_location he path url] then
  WriteHeader code.

(** What answers an upload. *)
Definition created (rq : HttpRequest) (root : cid) : HM unit :=
  do* addUserHeaders then
  do* Set_ "IPFS-Hash" [ie_String ienv root] then
  Redirect (rq_Path rq) (ie_String ienv root) StatusCreated.

(** The transaction of an upload, which is closed when the handler returns. *)
Record upload : Type := MkUpload {
  u_x : exchange;
  u_tx : Tx Node * B
}.
Local Abbreviation U := (go upload error).

Definition u_lift {A} (m : HM A) : U A := λ s, let '(x, r) := m (u_x s) in (MkUpload x (u_tx s), r).
Definition u_Tx {A} (m : go (TxState Node B X W) error A) : U A := λ s,
  let n := x_node (u_x s) in
  let '(ts, r) := m (MkTxState (u_tx s).1 (nd_bs n) (u_tx s).2 (nd_idx n) (nd_world n)) in
  (MkUpload (MkExchange (MkNode (nd_tx n) (nd_txmu n) (t_bs ts) (t_idx ts) (nd_omg n) (t_world ts) (nd_notify n))
               (x_resp (u_x s))) (t_tx ts, t_store ts), r).

Definition refuse (msg : string) : U unit := u_lift (http_Error msg StatusInternalServerError).

(** [utils.Stat] over the store of the transaction. *)
Definition u_stat (c : cid) : U DAGStat := λ s,
  let '(st, r) := Stat visited (u_tx s).2 c (ne_All ne) in
  (s, outcome_bind r (λ _, Ok st)).

(** The parts are added one by one; [k] is what follows. *)
Fixpoint add_parts (parts : list Part) (k : U unit) : U unit :=
  match parts with
  | [] => k
  | p :: parts' =>
    let* r := go_try (u_Tx (on_store (ne_Add ne (pt_content p)))) in
    match r with
    | inl _ => refuse "failed to add file"
    | inr c =>
      let* r := go_try (u_stat c) in
      match r with
      | inl _ => refuse "failed to get file stat"
      | inr stats =>
        let* r := go_try (u_Tx (Put order (part_key p) c (st_Size stats))) in
        match r with
        | inl _ => refuse "failed to put file in tx"
        | inr _ => add_parts parts' k
        end
      end
    end
  end.

(** Committing and publishing. *)
Definition publish (rq : HttpRequest) : U unit :=
  let* r := go_try (u_Tx (Commit sv)) in
  match r with
  | inl _ => refuse "failed to commit tx"
  | inr _ =>
    let* ref := u_Tx (let* s := go_get in Ref (order (tx_entries (t_tx s)))) in
    let* r := go_try (u_Tx (on_index (SetNew ienv range ref))) in
    match r with
    | inl _ => refuse "failed to set new ref"
    | inr _ =>
      let* s := go_get in
      u_lift (created rq (tx_root (u_tx s).1))
    end
  end.

(** The replication asked for is set on the transaction of the node, which is
    dereferenced. *)
Definition upload_body (rq : HttpRequest) : U unit :=
  match parseContentReplication (rq_Replication rq) with
  | inl _ => refuse "failed to parse Content-Replication"
  | inr cacheRF =>
    let cacheRF := if maxCacheRF <? cacheRF then maxCacheRF else cacheRF in
    do* u_lift (on_node (nd_Tx (on_tx (SetCacheRF cacheRF)))) then
    add_parts (rq_Parts rq) (publish rq)
  end.

(** A new transaction, closed at the end also when the handler panics. *)
Definition with_upload (m : U unit) : HM unit :=
  let* tx := on_node (exch_Tx ne []) in
  λ x,
    match m (MkUpload x tx) with
    | (s, Hang) => (u_x s, Hang)
    | (s, r) =>
      match u_Tx (TxClose sv) s with
      | (s', Panic) => (u_x s', Panic)
      | (s', Hang) => (u_x s', Hang)
      | (s', _) => (u_x s', r)
      end
    end.

Definition postHandler (rq : HttpRequest) : HM unit :=
  match rq_MediaType rq with
  | inl _ => http_Error "unable to parse content type" StatusInternalServerError
  | inr mediatype =>
    if String.eqb mediatype "multipart/form-data" then with_upload (upload_body rq)
    else
      let* r := go_try (on_node (λ s,
        let '(b, r) := ne_Add ne (rq_Body rq) (nd_bs s) in
        (MkNode (nd_tx s) (nd_txmu s) b (nd_idx s) (nd_omg s) (nd_world s) (nd_notify s), r))) in
      match r with
      | inl _ => http_Error "failed to add file to blockstore" StatusInternalServerError
      | inr c => created rq c
      end
  end.

(** *** Requests *)

Definition greeting : string := "<html><title>pop</title><body><h1>Hello</h1>This is your Myel pop.".

(** [ctx] is what the context says, which ends after an hour. *)
Definition localhostHandler (rq : HttpRequest) (offers : sessionWorker → list Offer) (events : list ClientState)
    (ctx : load_ctx) : HM unit :=
  if String.eqb (rq_Path rq) "/" && String.eqb (rq_Method rq) MethodGet then Write_ (Text greeting)
  else if String.eqb (rq_Method rq) MethodGet || String.eqb (rq_Method rq) MethodHead
  then getHandler (rq_Path rq) offers events ctx
  else if String.eqb (rq_Method rq) MethodOptions then optionsHandler
  else if String.eqb (rq_Method rq) MethodPost then postHandler rq
  else http_Error ("Method " +:+ rq_Method rq +:+ " not allowed: bad request for " +:+ rq_Path rq) StatusBadRequest.

End http.

(** ** Uploads *)

Section uploads.
Context {CB : CborLib} {Node B X W File Rd : Type} `{Blockstore B} `{IpldLaws B} {RS : ReadSeeker Rd}.
Context (ienv : IndexEnv X) (sv : TxServices Node B W File) (ne : NodeEnv Node B W File) (he : HttpEnv File Rd).
Context (range : gset ptr → list ptr).
Context (visited : B → cid → Node → list (cid * bytes) * option error).
Context (order : gmap string Entry → list (string * Entry)).
Implicit Types (u : upload (Node:=Node) (B:=B) (X:=X) (W:=W) (Rd:=Rd)) (x : exchange (Node:=Node) (B:=B) (X:=X) (W:=W) (Rd:=Rd)).

(** The entry an uploaded part becomes. *)
Definition entry_of (p : Part) (e : Entry) : Prop :=
  Key e = part_key p ∧ ∃ b b', ne_Add ne (pt_content p) b = (b', Ok (Value e)).

Definition enter (m : gmap string Entry) (es : list Entry) : gmap string Entry :=
  foldl (λ m e, <[Key e := e]> m) m es.

(** What does not change while parts are added. *)
Definition same_rest u u' : Prop :=
  x_resp (u_x u') = x_resp (u_x u) ∧ nd_tx (x_node (u_x u')) = nd_tx (x_node (u_x u)) ∧
  nd_idx (x_node (u_x u')) = nd_idx (x_node (u_x u)) ∧ tx_cacheRF (u_tx u').1 = tx_cacheRF (u_tx u).1.

#[local] Instance same_rest_preorder : PreOrder same_rest.
Proof. split; [done|]. intros a b c (?&?&?&?) (?&?&?&?). split_and!; congruence. Qed.

Lemma Add_rest c u : same_rest u (u_Tx (on_store (ne_Add ne c)) u).1.
Proof. unfold u_Tx, on_store. cbn. by destruct (ne_Add _ _ _). Qed.

Lemma Put_rest key c n u : same_rest u (u_Tx (Put order key c n) u).1.
Proof.
  unfold u_Tx, Put, buildRoot, on_store, on_tx, go_modify, go_bind, go_get. cbn.
  by destruct (lb_Build _ _) as [|[]].
Qed.

(** The response of a refused request. *)
Definition refused x : Prop := rw_Status (x_resp x) = Some StatusInternalServerError.

Lemma refuse_refused msg u u' :
  rw_Status (x_resp (u_x u)) = None → refuse msg u = (u', Ok tt) → refused (u_x u').
Proof. intros Hn [= <-]. unfold refused. simpl. by rewrite Hn. Qed.

Lemma u_Tx_try {A} (m : go (TxState Node B X W) error A) u u' r :
  go_try (u_Tx m) u = (u', Ok r) → u' = (u_Tx m u).1.
Proof. unfold go_try. destruct (u_Tx m u) as [u1 [a|e| |]]; by intros [= <- _]. Qed.

Lemma u_Tx_try_ok {A} (m : go (TxState Node B X W) error A) u u' a :
  go_try (u_Tx m) u = (u', Ok (inr a)) →
  ∃ ts, m (MkTxState (u_tx u).1 (nd_bs (x_node (u_x u))) (u_tx u).2 (nd_idx (x_node (u_x u))) (nd_world (x_node (u_x u))))
        = (ts, Ok a) ∧ u_tx u' = (t_tx ts, t_store ts) ∧ nd_idx (x_node (u_x u')) = t_idx ts.
Proof.
  unfold go_try, u_Tx. destruct (m _) as [ts [a'|e| |]]; intros [= <- Ha]; subst; eauto.
Qed.

Lemma u_stat_try c u u' r : go_try (u_stat ne visited c) u = (u', Ok r) → u' = u.
Proof.
  unfold go_try, u_stat. destruct (Stat _ _ _ _) as [st o]. destruct o; by intros [= <- _].
Qed.

(** Either a part was refused, or all of them are entries when what follows runs. *)
Lemma add_parts_ok parts k u u' :
  rw_Status (x_resp (u_x u)) = None → add_parts ne visited order parts k u = (u', Ok tt) →
  refused (u_x u') ∨
  ∃ u1 es, k u1 = (u', Ok tt) ∧ same_rest u u1 ∧ Forall2 entry_of parts es ∧
    tx_entries (u_tx u1).1 = enter (tx_entries (u_tx u).1) es ∧
    (parts = [] → u1 = u) ∧
    (parts ≠ [] → ∃ b, lb_Build (assembleEntries (order (tx_entries (u_tx u1).1))) b = inr (tx_root (u_tx u1).1, (u_tx u1).2)).
Proof.
  revert u. induction parts as [|p parts IH]; intros u Hn Hr; cbn [add_parts] in Hr.
  { right. exists u, []. by split_and!; [|reflexivity|constructor|..]. }
  apply go_bind_ok in Hr as (u1 & r & Ha & Hr). pose proof (u_Tx_try _ _ _ _ Ha) as E1.
  assert (same_rest u u1) as R1 by (rewrite E1; apply Add_rest).
  destruct r as [e|c]; [left; eapply refuse_refused; [|exact Hr]; rewrite (proj1 R1); done|].
  apply go_bind_ok in Hr as (u2 & r & Hs & Hr). rewrite (u_stat_try _ _ _ _ Hs) in Hr. clear Hs u2.
  destruct r as [e|st]; [left; eapply refuse_refused; [|exact Hr]; rewrite (proj1 R1); done|].
  apply go_bind_ok in Hr as (u2 & r & Hp & Hr). pose proof (u_Tx_try _ _ _ _ Hp) as E2.
  assert (same_rest u u2) as R2 by (etrans; [exact R1|rewrite E2; apply Put_rest]).
  destruct r as [e|[]]; [left; eapply refuse_refused; [|exact Hr]; rewrite (proj1 R2); done|].
  apply u_Tx_try_ok in Ha as (ts1 & Ha & Ht1 & _). unfold on_store in Ha. destruct (ne_Add _ _ _) as [b1 r1] eqn:Eadd.
  injection Ha as <- ->. simpl in Ht1.
  apply u_Tx_try_ok in Hp as (ts2 & Hp & Ht2 & _). apply Put_ok in Hp as (Hen & _ & _ & Hb). simpl in Hen, Hb.
  rewrite Ht1 in Hen, Hb. simpl in Hen, Hb.
  apply IH in Hr; [|rewrite (proj1 R2); done]. destruct Hr as [?|(u3 & es & Hk & R3 & Hes & Hm & Hnil & Hbuild)]; [by left|].
  right. exists u3, (MkEntry (part_key p) c (st_Size st) :: es). split_and!; [done|by etrans| | | |].
  - constructor; [|done]. split; [done|]. eauto.
  - rewrite Hm, Ht2. simpl. by rewrite Hen.
  - done.
  - intros _. destruct parts as [|p' parts]; [|by apply Hbuild]. rewrite (Hnil eq_refl), Ht2. simpl.
    rewrite Hen. eauto.
Qed.

Lemma u_Tx_outside {A} (m : go (TxState Node B X W) error A) u :
  x_resp (u_x (u_Tx m u).1) = x_resp (u_x u) ∧ nd_tx (x_node (u_x (u_Tx m u).1)) = nd_tx (x_node (u_x u)).
Proof. unfold u_Tx. by destruct (m _). Qed.

Lemma Commit_ok (ts ts' : TxState Node B X W) :
  Commit sv ts = (ts', Ok tt) →
  t_idx ts' = t_idx ts ∧ tx_root (t_tx ts') = tx_root (t_tx ts) ∧
  (0 < tx_cacheRF (t_tx ts) → ∃ w w', sv_Dispatch sv (tx_root (t_tx ts)) (u64 (tx_size (t_tx ts)))
     (MkDispatchOptions (do_BackoffAttemps DefaultDispatchOptions) (tx_cacheRF (t_tx ts)) (tx_storeID (t_tx ts))) w
     = (w', Ok tt)).
Proof.
  unfold Commit. intros (s1 & s1' & Hg & Hk)%go_bind_ok. injection Hg as -> ->.
  destruct (tx_Err _); [done|]. apply go_bind_ok in Hk as (s2 & [] & [= <-] & Hk).
  destruct (Z.ltb_spec 0 (tx_cacheRF (t_tx s1'))); [|by apply go_ret_ok in Hk as [-> _]; split_and!; [..|lia]].
  unfold on_service in Hk. simpl in Hk. destruct (sv_Dispatch _ _ _ _ _) as [w r] eqn:Ed. injection Hk as <- ->.
  split_and!; [done|done|]. eauto.
Qed.

(** Publishing an upload. *)
Lemma publish_ok `{!RangeOrder range} rq u u' :
  rw_Status (x_resp (u_x u)) = None → index_ok ienv (nd_idx (x_node (u_x u))) →
  publish ienv sv he range order rq u = (u', Ok tt) →
  refused (u_x u') ∨
  let root := tx_root (u_tx u).1 in
  nd_tx (x_node (u_x u')) = nd_tx (x_node (u_x u)) ∧ rw_Status (x_resp (u_x u')) = Some StatusCreated ∧
  rw_Header (x_resp (u_x u')) !! "IPFS-Hash" = Some [ie_String ienv root] ∧
  is_Some (ix_Refs (nd_idx (x_node (u_x u'))) !! ie_String ienv root) ∧
  (0 < tx_cacheRF (u_tx u).1 → ∃ w w', sv_Dispatch sv root (u64 (tx_size (u_tx u).1))
     (MkDispatchOptions (do_BackoffAttemps DefaultDispatchOptions) (tx_cacheRF (u_tx u).1) (tx_storeID (u_tx u).1)) w
     = (w', Ok tt)).
Proof.
  intros Hn Hok. unfold publish. intros (u1 & r & Hc & Hr)%go_bind_ok.
  destruct (u_Tx_outside (Commit sv) u) as [R1 T1]. rewrite <-(u_Tx_try _ _ _ _ Hc) in R1, T1.
  destruct r as [e|[]]; [left; eapply refuse_refused; [|exact Hr]; by rewrite R1|].
  apply u_Tx_try_ok in Hc as (ts1 & (Ei & Eroot & Hdisp)%Commit_ok & Ht1 & Hi1). simpl in Ei, Eroot, Hdisp.
  apply go_bind_ok in Hr as (u2 & ref & Href & Hr).
  set (mref := let* s := go_get in Ref (order (tx_entries (t_tx s)))) in Href.
  destruct (u_Tx_outside mref u1) as [R2 T2]. rewrite Href in R2, T2. simpl in R2, T2.
  assert (go_try (u_Tx mref) u1 = (u2, Ok (inr ref))) as (ts2 & Hts2 & Ht2 & Hi2)%u_Tx_try_ok
    by (unfold go_try; by rewrite Href).
  apply go_bind_ok in Hts2 as (t3 & t3' & Hg & Hts2). injection Hg as <- <-.
  pose proof (keeps_run _ _ _ _ _ (Ref_root _) Hts2) as [Ei2 Eroot2]. simpl in Ei2, Eroot2.
  apply Ref_result in Hts2 as [Hcid Hbn]. simpl in Hcid. rewrite Ht1 in Hcid, Eroot2. simpl in Hcid, Eroot2.
  apply go_bind_ok in Hr as (u3 & r & Hset & Hr).
  destruct (u_Tx_outside (on_index (SetNew ienv range ref)) u2) as [R3 T3]. rewrite <-(u_Tx_try _ _ _ _ Hset) in R3, T3.
  destruct r as [e|[]]; [left; eapply refuse_refused; [|exact Hr]; by rewrite R3, R2, R1|]. right.
  apply u_Tx_try_ok in Hset as (ts3 & Hset & Ht3 & Hi3). unfold on_index in Hset.
  destruct (SetNew _ _ _ _) as [i r] eqn:Es. injection Hset as <- ->. simpl in Ht3, Hi3, Es.
  apply go_bind_ok in Hr as (u4 & u4' & Hg & Hr). injection Hg as <- <-.
  injection Hr as <-. cbn [u_x x_node x_resp u_tx]. rewrite Ht3, Ht2. cbn [fst rw_Header rw_Status].
  rewrite R3, R2, R1, Hn, T3, T2, T1. cbn [fst].
  assert (tx_root (t_tx ts2) = tx_root (u_tx u).1) as -> by congruence.
  split_and!; [done|done|by rewrite lookup_insert_ne, lookup_insert_eq| |exact Hdisp].
  rewrite Hi3. assert (nd_idx (x_node (u_x u2)) = nd_idx (x_node (u_x u))) as E by congruence. rewrite E in Es.
  assert (dr_PayloadCID ref = tx_root (u_tx u).1) as <- by congruence.
  eapply (SetNew_present ienv range); [exact Hok|done|]. eexists. unfold go_try. by rewrite Es.
Qed.

Lemma close_outside u u' r :
  u_Tx (TxClose sv) u = (u', r) →
  x_resp (u_x u') = x_resp (u_x u) ∧ nd_tx (x_node (u_x u')) = nd_tx (x_node (u_x u)) ∧
  nd_idx (x_node (u_x u')) = nd_idx (x_node (u_x u)).
Proof.
  unfold u_Tx. destruct (TxClose sv _) as [ts r'] eqn:E. apply TxClose_idx in E. by intros [= <- _].
Qed.

(** Calls that end, with a value or an error. *)
Definition returns {S A} (m : S * outcome error A) : Prop := match m.2 with Ok _ | Err _ => True | _ => False end.

(** Closing a transaction that was not committed deletes its store. *)
Lemma close_returns u :
  (∀ id w, returns (sv_Delete sv id w)) → tx_committed (u_tx u).1 = false → returns (u_Tx (TxClose sv) u).
Proof.
  intros Hd Hc. unfold u_Tx, TxClose, dumpStore, tx_error, returns, go_bind, go_get, on_tx, go_modify, on_service. simpl.
  destruct (tx_closed _); simpl.
  { by destruct (tx_Err _). }
  rewrite Hc. simpl. specialize (Hd (tx_storeID (u_tx u).1) (nd_world (x_node (u_x u)))). unfold returns in Hd.
  destruct (sv_Delete _ _ _) as [w [[]|e| |]]; simpl in *; try done. by destruct (tx_Err _).
Qed.

(** A handler with a transaction: its body, on a new transaction, then the end of it. *)
Lemma with_upload_runs m x x' r :
  with_upload sv ne m x = (x', r) →
  ∃ u u' r', m u = (u', r') ∧ nd_tx (x_node (u_x u)) = nd_tx (x_node x) ∧
    nd_idx (x_node (u_x u)) = nd_idx (x_node x) ∧ x_resp (u_x u) = x_resp x ∧
    tx_entries (u_tx u).1 = ∅ ∧ tx_cacheRF (u_tx u).1 = 6 ∧ tx_committed (u_tx u).1 = false ∧
    x_resp x' = x_resp (u_x u') ∧ nd_tx (x_node x') = nd_tx (x_node (u_x u')) ∧
    nd_idx (x_node x') = nd_idx (x_node (u_x u')) ∧
    (r = r' ∨ (r = Panic ∨ r = Hang) ∧ ¬ returns (u_Tx (TxClose sv) u')).
Proof.
  unfold with_upload, go_bind, on_node, exch_Tx. destruct (ne_NewStore _ _) as [w [[id err] st]]. simpl.
  set (u := MkUpload _ _). destruct (m u) as [u' r'] eqn:Em.
  destruct (u_Tx (TxClose sv) u') as [u2 rc] eqn:Ec. pose proof (close_outside _ _ _ Ec) as (E1 & E2 & E3).
  intros Hr. exists u, u', r'. rewrite Ec. unfold returns. destruct r', rc; injection Hr as <- <-; split_and!; auto.
Qed.

(** C31: An upload that returns was refused, or its parts, the last of each name, are the
    entries of the root it answers with, which the index has.  The replication asked
    for goes to the transaction of the node; the upload is dispatched with the default. *)
Theorem upload_publishes `{!RangeOrder range} rq x x' :
  rq_MediaType rq = inr "multipart/form-data" → rw_Status (x_resp x) = None → index_ok ienv (nd_idx (x_node x)) →
  postHandler ienv sv ne he range visited order rq x = (x', Ok tt) →
  refused x' ∨
  ∃ n t st es root,
    parseContentReplication (rq_Replication rq) = inr n ∧
    nd_tx (x_node x) = Some (t, st) ∧ nd_tx (x_node x') = Some (SetCacheRF (Z.min maxCacheRF n) t, st) ∧
    Forall2 entry_of (rq_Parts rq) es ∧
    (rq_Parts rq ≠ [] → ∃ b b', lb_Build (assembleEntries (order (enter ∅ es))) b = inr (root, b')) ∧
    rw_Status (x_resp x') = Some StatusCreated ∧
    rw_Header (x_resp x') !! "IPFS-Hash" = Some [ie_String ienv root] ∧
    is_Some (ix_Refs (nd_idx (x_node x')) !! ie_String ienv root) ∧
    ∃ size id w w', sv_Dispatch sv root size
      (MkDispatchOptions (do_BackoffAttemps DefaultDispatchOptions) 6 id) w = (w', Ok tt).
Proof.
  intros Hm Hn Hok. unfold postHandler. rewrite Hm. cbn [String.eqb Ascii.eqb Bool.eqb].
  intros (u & u' & r & Hr & E1 & E2 & E3 & E4 & E5 & _ & R1 & R2 & R3 & Hres)%with_upload_runs.
  destruct Hres as [<-|[[Hres|Hres] _]]; [|discriminate Hres..]. unfold refused. rewrite R1, R2, R3. clear R1 R2 R3.
  unfold upload_body in Hr. destruct (parseContentReplication _) as [e|n].
  { left. eapply refuse_refused; [|exact Hr]. by rewrite E3. }
  apply go_bind_ok in Hr as (u1 & [] & Hset & Hr).
  unfold u_lift, on_node, nd_Tx in Hset. rewrite E1 in Hset. destruct (nd_tx (x_node x)) as [[t st]|]; [|done].
  injection Hset as <-. apply add_parts_ok in Hr; [|simpl; by rewrite E3].
  destruct Hr as [?|(u2 & es & Hk & (S1 & S2 & S3 & S4) & Hes & Hent & Hnil & Hb)]; [by left|].
  simpl in S1, S2, S3, S4, Hent. rewrite E4 in Hent.
  apply publish_ok in Hk; [|by rewrite S1, E3|by rewrite S3, E2].
  destruct Hk as [?|(T1 & T2 & T3 & T4 & T5)]; [by left|]. right.
  exists n, t, st, es, (tx_root (u_tx u2).1). rewrite S4, E5 in T5. specialize (T5 ltac:(done)).
  rewrite T1, S2. split_and!; [done|done| |done| |done|done|done|].
  - do 3 f_equal. unfold maxCacheRF. destruct (Z.ltb_spec 12 n); lia.
  - intros Hne. destruct (Hb Hne) as [b Hbuild]. rewrite Hent in Hbuild. eauto.
  - destruct T5 as (w & w' & Hd). eauto.
Qed.

(** C38: Without a transaction of the node no upload of parts succeeds: one whose
    replication factor cannot be read is refused, and every other one panics without an
    answer, provided that the store of the upload can be deleted.  Nothing is published. *)
Theorem upload_panics rq x x' r :
  (∀ id w, returns (sv_Delete sv id w)) →
  rq_MediaType rq = inr "multipart/form-data" → rw_Status (x_resp x) = None →
  nd_tx (x_node x) = None → postHandler ienv sv ne he range visited order rq x = (x', r) →
  nd_idx (x_node x') = nd_idx (x_node x) ∧
  match parseContentReplication (rq_Replication rq) with
  | inl _ => r = Ok tt ∧ refused x'
  | inr _ => r = Panic ∧ x_resp x' = x_resp x
  end.
Proof.
  intros Hd Hm Hn Ht. unfold postHandler. rewrite Hm. cbn [String.eqb Ascii.eqb Bool.eqb].
  intros (u & u' & r' & Hr & E1 & E2 & E3 & _ & _ & E4 & R1 & R2 & R3 & Hres)%with_upload_runs.
  unfold upload_body in Hr. unfold refused. rewrite R1, R3. destruct (parseContentReplication _) as [e|n].
  - assert (r' = Ok tt) as -> by (by destruct u; injection Hr as _ <-).
    pose proof (refuse_refused _ _ _ ltac:(by rewrite E3) Hr) as Href.
    injection Hr as <-. split; [done|]. split; [|exact Href].
    destruct Hres as [?|[_ Hc]]; [done|]. destruct Hc. by apply close_returns.
  - assert (u' = u ∧ r' = Panic) as [-> ->].
    { unfold go_bind, u_lift, on_node, nd_Tx in Hr. rewrite E1, Ht in Hr. destruct u as [[] ]. by injection Hr as <- <-. }
    split_and!; [done| |done]. destruct Hres as [?|[_ Hc]]; [done|]. destruct Hc. by apply close_returns.
Qed.

End uploads.

(** ** Downloads *)

Section downloads.
Context {CB : CborLib} {Node B X W File Rd : Type} `{Blockstore B} `{Ipld B} {RS : ReadSeeker Rd}.
Context (ienv : IndexEnv X) (sv : TxServices Node B W File) (ne : NodeEnv Node B W File) (he : HttpEnv File Rd).
Context (range : gset ptr → list ptr).
Context (visited : B → cid → Node → list (cid * bytes) * option error).
Context (order : gmap string Entry → list (string * Entry)).
Implicit Types (x : exchange (Node:=Node) (B:=B) (X:=X) (W:=W) (Rd:=Rd)).

(** Files are opened at their start. *)
Definition files_open : Prop :=
  ∀ fnd size f, he_file he fnd = Some (inr size, f) →
    size < two63 ∧ ∃ RL : ReadSeekerLaws Rd size, rs_pos (size:=size) f = 0.

(** A reader of the file finds it from its start. *)
Definition from_start (size : Z) (f : lazySeeker Rd) : Prop :=
  ∃ RL : ReadSeekerLaws Rd size, ∀ ops, ∃ f', run_ops ops f = (f', Ok (view_ops (size:=size) ops 0)).

Lemma http_Error_body msg code x x' :
  http_Error msg code x = (x', Ok tt) → ∃ t, rw_Body (x_resp x') = rw_Body (x_resp x) ++ [Text t].
Proof. intros [= <-]. by eexists. Qed.

Lemma on_content_ok {A} (m : go (lazySeeker Rd) error A) c x x' r :
  on_content m c x = (x', Ok r) → x' = x ∧ go_try m c = (r.2, Ok r.1).
Proof. unfold on_content. destruct (go_try m c) as [c' [a| | |]]; by intros [= <- <-]. Qed.

Lemma serve_file_ok urlPath fnd x x' name ctype f :
  files_open → (∀ n t g, Served n t g ∉ rw_Body (x_resp x)) →
  serve_file he urlPath fnd x = (x', Ok tt) → Served name ctype f ∈ rw_Body (x_resp x') →
  ∃ size rd, he_file he fnd = Some (inr size, rd) ∧ name = Base urlPath ∧ from_start size f ∧
    rw_Header (x_resp x') !! "Content-Type" = Some [ctype].
Proof.
  intros Hopen Hno Hr Hin. unfold serve_file in Hr.
  assert (∀ msg code, http_Error msg code x = (x', Ok tt) → False) as Herr.
  { intros msg code [t E]%http_Error_body. rewrite E, elem_of_app, list_elem_of_singleton in Hin.
    destruct Hin as [?|?]; [by eapply Hno|done]. }
  destruct (he_file he fnd) as [[[e|size] rd]|] eqn:Ef; [by apply Herr in Hr| |apply go_ret_ok in Hr as [-> _]; by eapply Hno in Hin].
  destruct (Hopen _ _ _ Ef) as (Hsz & RL & Hpos).
  apply go_bind_ok in Hr as (x1 & [d c] & [-> Hd]%on_content_ok & Hr). simpl in Hd, Hr.
  destruct d as [e|ct]; [by apply Herr in Hr|].
  destruct (run_ops_view (he_reads he) 0 (NewLazySeeker rd size)) as (c1 & p1 & Hrun & Hc1); [done|by split|].
  assert (c = c1) as ->.
  { unfold go_try, go_bind in Hd. rewrite Hrun in Hd. unfold go_sum in Hd. by destruct (he_detect _ _); injection Hd. }
  apply go_bind_ok in Hr as (x1 & [k c2] & [-> Hk]%on_content_ok & Hr). simpl in Hk, Hr.
  destruct (Seek_view p1 0 SeekStart c1 Hc1) as (c3 & Hs & Hc3). rewrite Hs in Hk. injection Hk as <- <-.
  simpl in Hr. injection Hr as <-. simpl in Hin. rewrite elem_of_app, list_elem_of_singleton in Hin.
  destruct Hin as [Hin|[= -> -> ->]]; [by eapply Hno in Hin|]. exists size, rd. split_and!; [done|done| |].
  - exists RL. intros ops. destruct (run_ops_view ops 0 c3) as (f' & _ & ? & _); eauto.
  - simpl. by rewrite lookup_insert_eq.
Qed.

Lemma on_node_ok {A} (m : go (node Node B X W) error A) x x' a :
  on_node m x = (x', Ok a) → x_resp x' = x_resp x ∧ m (x_node x) = (x_node x', Ok a).
Proof. unfold on_node. destruct (m _) as [n r]. by intros [= <- ->]. Qed.

Lemma on_node_try {A} (m : go (node Node B X W) error A) x x' (r : error + A) :
  go_try (on_node m) x = (x', Ok r) → x_resp x' = x_resp x ∧ ∀ a, r = inr a → on_node m x = (x', Ok a).
Proof.
  unfold go_try. destruct (on_node m x) as [x1 [a|e| |]] eqn:E; intros [= <- <-]; unfold on_node in E;
    destruct (m _) as [n r']; injection E as <- ->; (split; [done|]); intros ? [=]; by subst.
Qed.

Lemma on_other_ok {A} (t : Tx Node * B) (m : go (TxState Node B X W) error A) n n' a t' :
  on_other t m n = (n', Ok (a, t')) →
  ∃ ts, m (MkTxState t.1 (nd_bs n) t.2 (nd_idx n) (nd_world n)) = (ts, Ok a) ∧ t' = (t_tx ts, t_store ts).
Proof. unfold on_other. destruct (m _) as [ts [a'|e| |]]; intros [= <- Ha]; subst; eauto. Qed.

Lemma on_index_tx {A} (m : go (Index X) error A) (ts ts' : TxState Node B X W) r :
  on_index m ts = (ts', r) → t_tx ts' = t_tx ts.
Proof. unfold on_index. destruct (m _). by intros [= <- _]. Qed.

Lemma IsLocal_tx key : keeps (λ s1 s2 : TxState Node B X W, t_tx s1 = t_tx s2) (IsLocal ienv sv visited key).
Proof.
  assert (PreOrder (λ s1 s2 : TxState Node B X W, t_tx s1 = t_tx s2)) by (split; [done|intros ?????; congruence]).
  assert (∀ A (m : go (Index X) error A), keeps (λ s1 s2 : TxState Node B X W, t_tx s1 = t_tx s2) (on_index m)) as Hi.
  { intros A m s. unfold on_index. by destruct (m _). }
  assert (∀ A (m : go B error A), keeps (λ s1 s2 : TxState Node B X W, t_tx s1 = t_tx s2) (on_store m)) as Hs.
  { intros A m s. unfold on_store. by destruct (m _). }
  assert (keeps (E:=error) (λ s1 s2 : TxState Node B X W, t_tx s1 = t_tx s2) go_get) by done.
  unfold IsLocal. keeps_tac.
Qed.

(** Reading an entry of a transaction that staged none. *)
Lemma GetFile_ok key (ts ts' : TxState Node B X W) fnd :
  tx_entries (t_tx ts) = ∅ → GetFile ienv sv key ts = (ts', Ok fnd) →
  ∃ store lnk, load_link (tx_root (t_tx ts)) key store = inr lnk ∧ sv_file sv lnk store = inr fnd.
Proof.
  intros He. unfold GetFile. intros (s1 & s1' & Hg & Hk)%go_bind_ok. injection Hg as -> ->.
  rewrite He, lookup_empty in Hk. apply go_bind_ok in Hk as (s2 & store & Hst & Hk).
  assert (t_tx s2 = t_tx s1') as E.
  { unfold reading_store in Hst. apply go_bind_ok in Hst as (s3 & s3' & Hg & Hst). injection Hg as <- <-.
    apply go_bind_ok in Hst as (s4 & r & Hr%go_try_ok & Hst). assert (s2 = s4) as -> by (destruct r; by injection Hst).
    destruct r; by apply on_index_tx in Hr. }
  unfold loadFileEntry in Hk. apply go_bind_ok in Hk as (s3 & s3' & Hg & Hk). injection Hg as <- <-.
  apply go_bind_ok in Hk as (s4 & lnk & [_ Hl]%go_sum_ok & [_ Hf]%go_sum_ok). rewrite E in Hl. eauto.
Qed.

(** What is served is the file the root links under the first name of the path, from its
    start, whatever the detection of its type read of it. *)
Theorem get_serves urlPath offers events ctx x x' name ctype f :
  files_open → rw_Body (x_resp x) = [] →
  getHandler ienv sv ne he range visited order urlPath offers events ctx x = (x', Ok tt) →
  Served name ctype f ∈ rw_Body (x_resp x') →
  ∃ root key segs store lnk fnd size rd,
    ne_SplitAbsPath ne urlPath = inr (root, key :: segs) ∧ load_link root key store = inr lnk ∧
    sv_file sv lnk store = inr fnd ∧ he_file he fnd = Some (inr size, rd) ∧
    name = Base urlPath ∧ from_start size f ∧ rw_Header (x_resp x') !! "Content-Type" = Some [ctype].
Proof.
  intros Hopen Hb Hr Hin. unfold getHandler in Hr.
  assert (∀ msg code x1, rw_Body (x_resp x1) = [] → http_Error msg code x1 = (x', Ok tt) → False) as Herr.
  { intros msg code x1 E1 [t E]%http_Error_body. rewrite E, E1 in Hin. by apply list_elem_of_singleton in Hin. }
  destruct (ne_SplitAbsPath ne urlPath) as [e|[root segs]]; [by apply Herr in Hr|].
  apply go_bind_ok in Hr as (x1 & [] & Hh & Hr).
  assert (rw_Body (x_resp x1) = []) as B1 by (injection Hh as <-; done). clear Hh Hb.
  apply go_bind_ok in Hr as (x2 & tx & [E2 Htx]%on_node_ok & Hr).
  apply go_bind_ok in Hr as (x3 & [has tx3] & [E3 Hp]%on_node_ok & Hr). simpl in Hr.
  assert (tx_entries tx3.1 = ∅ ∧ tx_root tx3.1 = root) as [Ht3 Hr3].
  { unfold exch_Tx in Htx. destruct (ne_NewStore _ _) as [w [[id err] st]]. injection Htx as _ <-.
    apply on_other_ok in Hp as (ts & Hp & ->). pose proof (keeps_run _ _ _ _ _ (IsLocal_tx _) Hp) as E. simpl in E.
    simpl. by rewrite <-E. }
  apply go_bind_ok in Hr as (x4 & found & Hf & Hr).
  assert (found = true → rw_Body (x_resp x4) = []) as B4.
  { intros ->. destruct has; [apply go_ret_ok in Hf as [-> _]; congruence|].
    apply go_bind_ok in Hf as (x5 & r & [E5 _]%on_node_try & Hf). destruct r; [done|].
    apply go_bind_ok in Hf as (x6 & l & [E6 _]%on_node_ok & [-> _]%go_ret_ok). congruence. }
  destruct found; simpl in Hr.
  2: { apply go_ret_ok in Hr as [-> _]. destruct has; [done|].
       apply go_bind_ok in Hf as (x5 & r & [E5 _]%on_node_try & Hf).
       destruct r; [|by apply go_bind_ok in Hf as (? & ? & _ & ?)].
       apply go_bind_ok in Hf as (x6 & [] & Hf & [-> _]%go_ret_ok). apply Herr in Hf; [done|congruence]. }
  specialize (B4 eq_refl). destruct (String.eqb_spec (match segs with [] => EmptyString | k :: _ => k end) EmptyString).
  { apply go_bind_ok in Hr as (x5 & r & [E5 _]%on_node_try & Hr). rewrite <-E5 in B4.
    destruct r as [e'|[es t5]]; [by apply Herr in Hr|]. injection Hr as <-. simpl in Hin. rewrite B4 in Hin. set_solver. }
  destruct segs as [|key segs]; [done|].
  apply go_bind_ok in Hr as (x5 & r & [E5 Hget]%on_node_try & Hr). rewrite <-E5 in B4.
  destruct r as [e|[fnd t5]]; [by apply Herr in Hr|].
  destruct (on_node_ok _ _ _ _ (Hget _ eq_refl)) as [_ (ts & (store & lnk & Hl & Hs)%GetFile_ok & _)%on_other_ok]; [|done].
  eapply serve_file_ok in Hr as (size & rd & H1' & H2' & H3' & H4'); [|done| |exact Hin]; [|by rewrite B4; set_solver].
  simpl in Hl. rewrite Hr3 in Hl. exists root, key, segs, store, lnk, fnd, size, rd. by split_and!.
Qed.

End downloads.

(** ** A server in memory *)

Definition shop : HttpEnv string poem_file :=
  MkHttpEnv (λ _, Some (inr 13, MkPoemFile 0)) [OpRead 512; OpSeek 2 SeekStart; OpRead 4] (λ _, inr "text/plain") String.append.

Definition blank : ResponseWriter poem_file := MkResponseWriter None ∅ [].

Definition form : HttpRequest :=
  MkHttpRequest MethodPost "/" (inr "multipart/form-data") "20"
    [MkPart "a.txt" "f1" "hello"; MkPart EmptyString "note" "world"; MkPart "a.txt" "f2" "again"] EmptyString.

Definition upload_form := postHandler table_store counting desk shop elements every_block map_to_list form.
Definition before_upload := MkExchange docs_staged blank.
Definition uploaded := Eval vm_compute in (upload_form before_upload).1.

Lemma upload_publishes_witness :
  refused uploaded ∨
  ∃ n t st es root,
    parseContentReplication "20" = inr n ∧
    nd_tx docs_staged = Some (t, st) ∧ nd_tx (x_node uploaded) = Some (SetCacheRF (Z.min maxCacheRF n) t, st) ∧
    Forall2 (entry_of desk) (rq_Parts form) es ∧
    (rq_Parts form ≠ [] → ∃ b b' : memstore, lb_Build (assembleEntries (map_to_list (enter ∅ es))) b = inr (root, b')) ∧
    rw_Status (x_resp uploaded) = Some StatusCreated ∧
    rw_Header (x_resp uploaded) !! "IPFS-Hash" = Some [ie_String table_store root] ∧
    is_Some (ix_Refs (nd_idx (x_node uploaded)) !! ie_String table_store root) ∧
    ∃ size id w w', sv_Dispatch counting root size
      (MkDispatchOptions (do_BackoffAttemps DefaultDispatchOptions) 6 id) w = (w', Ok tt).
Proof.
  apply (upload_publishes table_store counting desk shop elements every_block map_to_list form before_upload uploaded);
    [done|done| |run_eq].
  assert (nd_idx (x_node before_upload) = index_0) as -> by vm_eq. apply index_0_ok.
Defined.

Example upload_created : rw_Status (x_resp uploaded) = Some StatusCreated ∧
  (tx_cacheRF ∘ fst <$> nd_tx (x_node uploaded)) = Some 12.
Proof. split; vm_eq. Qed.

Lemma upload_panics_witness :
  let run := upload_form (MkExchange idle blank) in
  nd_idx (x_node run.1) = nd_idx idle ∧ run.2 = Panic ∧ x_resp run.1 = blank.
Proof.
  apply (upload_panics table_store counting desk shop elements every_block map_to_list form (MkExchange idle blank));
    [done|done|done|done|apply surjective_pairing].
Defined.

(** The content staged above, in the store of the node. *)
Definition stocked : node string memstore (gmap string bytes) nat :=
  MkNode None false staged_tx.2 (nd_idx docs_committed) ∅ 0%nat [].

Definition get_a := getHandler table_store counting desk shop elements every_block map_to_list "/node1/a.txt"
  (λ _, []) [] (λ _, Some (ErrExternal "deadline exceeded")).
Definition after_get := Eval vm_compute in (get_a (MkExchange stocked blank)).1.

Lemma shop_open : files_open shop.
Proof. intros fnd size f [= <- <-]. split; [done|]. by exists poem_laws. Qed.

Lemma get_serves_witness :
  ∃ root key segs (store : memstore) lnk fnd size rd,
    ne_SplitAbsPath desk "/node1/a.txt" = inr (root, key :: segs) ∧ load_link root key store = inr lnk ∧
    sv_file counting lnk store = inr fnd ∧ he_file shop fnd = Some (inr size, rd) ∧
    "a.txt" = Base "/node1/a.txt" ∧ from_start size (MkLazySeeker (MkPoemFile 5) 13 0 5) ∧
    rw_Header (x_resp after_get) !! "Content-Type" = Some ["text/plain"].
Proof.
  apply (get_serves table_store counting desk shop elements every_block map_to_list "/node1/a.txt" (λ _, []) []
           (λ _, Some (ErrExternal "deadline exceeded")) (MkExchange stocked blank) after_get "a.txt" "text/plain"
           (MkLazySeeker (MkPoemFile 5) 13 0 5) shop_open); [done|run_eq|].
  assert (rw_Body (x_resp after_get) = [Served "a.txt" "text/plain" (MkLazySeeker (MkPoemFile 5) 13 0 5)]) as -> by vm_eq.
  by left.
Defined.
