(* ===== verification/Archive.v ===== *)
(** * Archives of a DAG (node/archive.go, node/archive_cbor_gen.go)

    A DAG is written as one archive whose commitment names a piece of storage; a root is
    recorded under a generated codec. *)
From S2P Require Import Prelude Deal PayTypes Cbor.

Record CommitRef : Type := MkCommitRef { cf_RootCID : cid }.

Record PieceRef : Type := MkPieceRef {
  pc_CID : cid;
  pc_PayloadSize : Z;
  pc_PieceSize : Z
}.

(** ** Encoding *)

Section codec.
Context {CB : CborLib}.

Definition CommitRef_MarshalCBOR (t : CommitRef) : go bytes error unit :=
  do* Write (MajorTypeHeader MajMap 1) then
  do* WriteKey "RootCID" then
  WriteCid "failed to write cid field t.RootCID" (cf_RootCID t).

Definition CommitRef_field (name : string) (t : CommitRef) : option (go bytes error CommitRef) :=
  if String.eqb name "RootCID"
  then Some (let* c := ReadWrapped "failed to read cid field t.RootCID" ReadCid in go_ret (MkCommitRef c))
  else None.

Definition CommitRef_UnmarshalCBOR : go bytes error CommitRef :=
  ReadMap "CommitRef" CommitRef_field (MkCommitRef Undef).

(** A root is read back as it was written. *)
Lemma CommitRef_codec {LAWS : CborLaws} t : codec (CommitRef_MarshalCBOR t) CommitRef_UnmarshalCBOR t.
Proof.
  destruct t as [c]. apply codec_map; [lia|]. change (Z.to_nat 1) with 1%nat.
  apply (codec_last _ _ _ _ (ReadWrapped "failed to read cid field t.RootCID" ReadCid) c MkCommitRef);
    [reflexivity|apply codec_cid].
Qed.

End codec.

(** ** The archive *)

Section archive.
(** Writing a DAG of a store as a CAR into the writer of commitments ([Wr]), which
    computes the piece: identifier, payload size and padded size. *)
Context {B Wr : Type} (WriteCar : B → list cid → go Wr error unit) (Sum : go Wr error (cid * Z * Z)).

(** The buffer around the writer gets nothing to flush: the archive is written to the
    writer itself. *)
Definition archive (dag : B) (root : cid) : go Wr error PieceRef :=
  do* WriteCar dag [root] then
  let* sum := Sum in
  let '(c, payload, piece) := sum in
  go_ret (MkPieceRef c payload piece).

End archive.
